(* ===== verification/_CoqProject ===== *)
-Q . S2P
Prelude.v
Text.v
BTreeMap.v
Value.v
Serde.v
Control.v
ConfigTypes.v
Frame.v
Stream.v
Codec.v
Session.v
Client.v
ServerConn.v
EndToEnd.v
Fs.v
Transport.v
NamedPipe.v
Link.v
QuicServer.v
Secrets.v
ProductConfig.v
ConfigLoad.v
Plugins.v
Supervisor.v
RunnerLogs.v
Catalog.v
Boot.v
Deployment.v
EventSource.v
LogTail.v
Payloads.v
Tasks.v
Runtime.v
Params.v
Lifecycle.v
Served.v
Responses.v
Process.v
ServiceUnit.v
Daemon.v
Abi.v
AbiQueues.v
AbiPlugin.v
Fixture.v
BenchSetup.v
Float64.v
BenchStats.v
DriverBench.v
ControlBench.v
BenchLoad.v
BenchClient.v
BenchService.v
Windows.v
HostCli.v
