(* ===== verification/Prelude.v ===== *)
(** * MutsukiServiceHost: a verification development

    MutsukiServiceHost is a long-running local service.  It loads a
    configuration with its secrets, selects and boots plugins into a Core
    runtime, supervises runner processes, and serves a control API to local
    clients over a framed protocol; it installs itself as a service of the
    operating system and comes with a command line.  This development translates
    that code to Rocq, crate by crate, and proves what makes each part correct.

    ** The parts and their files

    Every file models the Rust file named at its top; definitions keep the
    source's names (a trailing underscore or a prefix where a name is taken).

    - [Prelude], [Text], [BTreeMap], [Value]: what the code uses of Rust and of
      serde: [Result] with [let?] for the [?] operator, machine widths,
      big-endian bytes, [String] as Unicode scalar values with UTF-8 and
      trimming, [BTreeMap<String, _>] as a sorted association list, and the
      value types of [serde_json] and [toml].
    - [Serde]: the codecs that serde derives for structs, enums and containers,
      each with what it writes, what it reads and the law between them.
    - [Control] (crates/mutsuki-service-control): methods and opcodes,
      requests, responses, errors, and the class [ControlHandler] with its
      promise [ControlHandlerOk], against which the server is verified.
    - [ConfigTypes], [Fs], [Secrets], [ProductConfig], [ConfigLoad]
      (crates/mutsuki-service-config/src/lib.rs): the configuration records
      with their defaults; the file system as a [world] in which every
      operation can fail, with atomic writes of managed files; the secret
      store and its rotation; edits of the product file; and the load pipeline.
    - [Frame], [Stream], [Codec], [Session], [Client], [ServerConn],
      [Transport], [NamedPipe] (crates/mutsuki-service-ipc: frame.rs, io.rs,
      codec.rs, session.rs, client.rs, server_conn.rs, transport.rs): the binary
      frames; reads from a byte stream that can end or fail at any byte; both
      wire codecs over an interface for the serializers; the multiplexed client
      session as a state machine of its calls and its reader task; the client
      handle whose clones share one session; a server connection as a state
      machine of its main loop and its request tasks; and the listeners that
      bind an endpoint, accept connections and drain.
    - [EndToEnd]: a client session and a server connection that read what the
      other wrote, composed over the two state machines.
    - [Link], [QuicServer] (crates/mutsuki-service-link): the control bridge over
      MutsukiLink with its polling deadlines, both servers, both clients and TLS
      identities; the tasks of the QUIC server as a state machine.
    - [Plugins] (crates/mutsuki-service-plugin-loader/src/lib.rs): builtin
      registry, directory scan, manifest and ABI artifact validation.
    - [Supervisor], [RunnerLogs]
      (crates/mutsuki-service-runner-supervisor/src/lib.rs): the managed
      processes and their reconciliation, and the tasks that log their output.
    - [Catalog], [Boot], [Deployment]
      (crates/mutsuki-service-runtime/src/lib.rs): the choice of a record per
      selected plugin, configured factories, credentials in plugin configs;
      the way from a catalog to the Core's bootstrapper and the supervised
      sidecars; durable deployment preferences, reloads and deployment changes.
    - [EventSource] (crates/mutsuki-service-runtime/src/event_source.rs): the
      supervisor of the event sources as an actor with a state per source.
    - [Payloads], [Responses] (crates/mutsuki-service-control): the response
      types with their codecs, and the type that every method answers with.
    - [LogTail], [Tasks], [Runtime] (crates/mutsuki-service-runtime/src/lib.rs):
      the log reader of [logs.tail]; the task operations over the Core's
      facade; the running service, its health report, the dispatch of all
      control methods and the authority check in front of it.
    - [Params] (crates/mutsuki-service-control): the parameter types of the
      methods with the deserializers that serde derives for them.
    - [Lifecycle] (crates/mutsuki-service-runtime/src/lib.rs): the builder, the
      start of a service with every early return, and its shutdown.
    - [Served]: a started service behind a connection of [EndToEnd].
    - [Abi], [AbiQueues], [AbiPlugin]
      (crates/mutsuki-service-runtime/src/abi_plugin.rs and abi_plugin/): the
      staged artifact and the boundary to a plugin library, version 1 with its
      calls, version 2 with its worker threads and queues, and the load of a
      plugin with its handshake.
    - [ServiceUnit], [Daemon], [Windows]
      (crates/mutsuki-service-daemon/src/lib.rs): names, launch arguments and
      definitions for systemd and launchd; installing, starting and
      uninstalling on Unix; the Windows service and its process.
    - [Process] (crates/mutsuki-service-observe/src/lib.rs and the signals and
      metrics of crates/mutsuki-service-runtime/src/lib.rs): what a process has
      once, its log, its panic hooks, its signals and its figures.
    - [HostCli] (crates/mutsuki-service-host/src/main.rs): from a command to a
      request, an operation on the installed service, or the service itself.
    - [Fixture] (fixtures/abi-plugin/src/lib.rs, src/lib.rs and
      src/bin/benchmark_runner.rs of crates/mutsuki-service-benchmarks): the
      fixture plugin as a library, as a linked runner and as a process.
    - [BenchSetup], [BenchClient], [BenchService] (src/main.rs and
      src/bin/benchmark_service.rs of the benchmarks): what the benchmarks
      install and configure, the services they start, and the client that loads
      them and checks every answer.
    - [Float64], [BenchStats], [ControlBench], [BenchLoad] (src/main.rs and
      src/bin/control_ipc_bench.rs): double-precision numbers, the statistics and
      reports, the cases with their gates and verdict, and the load of a case.
    - [DriverBench]
      (crates/mutsuki-service-runtime/examples/core_driver_benchmark.rs): the
      benchmark of a polled and an event-driven Core runtime.

    Files that call another part require its file: [ServerConn] serves any
    [ControlHandler] with the codecs of [Codec] over the streams of [Stream];
    [Deployment] composes [Plugins], [Catalog], [Boot], [Supervisor] and [Fs]
    the way [change_plugin_deployment] does; [Runtime] gives the handler that
    [ServerConn] and [Link] serve; [Client] runs the sessions of [Session];
    [Lifecycle] puts the runtime, the supervisor, the event sources and the
    listener together, [Windows] runs a service around it, and [HostCli]
    composes configuration, installation and the control handler;
    [BenchClient] is verified against the handler of [Runtime] and the runners of
    [Fixture], [BenchSetup] against the scan of [Plugins], and [BenchService]
    against the life of a service in [Lifecycle].

    ** How code is modelled

    Fallible code returns [result]; code that changes state takes and returns
    it.  A tokio task or a lock section that others can interleave with is one
    labelled step of a transition function ([Session.step], [ServerConn.step],
    [Client.cstep], the threads of [AbiQueues], the tasks of [QuicServer] and
    [BenchLoad]); their invariants hold for every list of labels, that is for
    every schedule.  Operations under one mutex ([Supervisor]) are functions on its
    state.  Failures of the operating system are values: a [world] says which
    file operations fail, the class [Os] says what process calls may answer.
    Loops that are not structural take fuel; [discard_loop] gets its chunk
    count plus one, which [discard_terminates] shows to be enough; the polling
    loops of [Windows] end within 61 rounds, the fifteen seconds they wait over
    the quarter of a second each round sleeps, and one more; the sustained load
    of [BenchClient] gets the number of its tasks plus one, and
    [sustained_waves] says when this is enough and that it never is when nothing
    may be in flight; the loops of [DriverBench] end once their fuel is more than
    the nanoseconds they may take, each turn reading the clock; and the loops of
    [RunnerLogs] get one turn per byte and two more.

    Code that is not in the repository is an interface: serde's codecs
    ([Wire], [Toml], [StateCodec]), the plugin contracts ([Contracts]), the Core
    runtime ([CoreRuntime], [TaskCore], [HostBoot], [CoreServices]), the plugin
    library behind the ABI ([AbiSdk], [AbiHost]), the Core runtime and the clocks of
    the driver benchmark ([DriverContracts], [DriverHost]), processes ([Os]), commands
    ([Shell]), the Windows service manager ([Scm]), MutsukiLink frames and TLS
    ([LinkWire], [Tls]), the sdk of plugins and runners ([PluginSdk],
    [RunnerSdk], [RunnerWire]), and what installs a fixture ([BenchInstall]).  The handler asks for its parameters through
    [RequestCodec], which [Params] implements over the codecs of other crates
    ([ParamContracts]).  Their laws ([WireOk], [TomlOk], [StateCodecOk], [OsOk],
    [AbiSdkOk], [LinkWireOk], [ParamContractsOk]) state documented behaviour, round trips above all, and each
    is discharged for a concrete instance in a [Sample] module, on which the
    witnesses of the theorems are evaluated.

    ** What is shown

    - Wire format: frames and lines read back as written and leave the stream
      aligned, whatever is skipped; limits are enforced before allocation.
    - Sessions and connections, over all schedules: a response reaches the call
      with its id and no other; no call waits for a wakeup that was lost;
      permits and tasks add up; at most one mutating request is handled at a
      time; every accepted request is answered at most once, and can complete.
      Both together: the server is in the state to which some of the client's
      requests lead, each served once, and a response that a call returns is the
      answer to its request ([end_to_end]); for a running service these are
      requests with its token ([authority_over_connection]).
    - The client handle and the listeners: concurrent callers share one session
      and are served one after the other, each with its own answer; a listener
      hands over exactly the connections it accepted before it ended; a relayed
      request is carried out once, and the client learns its result or why not.
    - Configuration: secrets are unambiguous and a rotation changes exactly one
      of them; edits of the product file touch only what they are allowed to;
      a failed write never damages a managed file; the precedence of sources.
    - Plugins: what the scan admits is trusted and nothing disappears without
      a diagnostic; a selection resolves exactly when it stands for one
      installed record; every plugin is placed once.
    - Processes and reloads: no process is ever lost; their output is logged line
      by line; reconciliation reaches
      the desired set or reports; reloads and deployment changes are all or
      nothing and agree with what a restart would read.
    - The running service: only a request with the token reaches the dispatch,
      a method that is not mutating changes nothing but refreshed
      observations, and every response is well formed; an event source goes
      through its states as its process does and ends with the service; the
      log reader follows appends, rotation and truncation; a task wait ends
      with the outcome or a timeout.
    - The life of a service: a start that fails leaves nothing running, one that
      succeeds serves what the configuration says, and after any requests the
      shutdown leaves no process, connection loop or event source behind.
    - Plugin libraries: the calls into a library follow its protocol under every
      schedule of the worker threads, payloads are released once, queues are
      bounded and in order, management is not held up by work; what is loaded is
      what the manifest declares, and a failed load lets go of everything.
    - Responses: every successful answer is a value of the response type of its
      method, which the deserializer of the clients reads as that value.
    - The process: the panic log keeps every line, the first log of a process is
      its only one, and a service in the foreground ends exactly when asked.
    - Fixtures and benchmarks: the runners agree and pass the suite that judges
      them; what is installed is what the host finds and runs; a wave counts as
      done only when the Core completed all of it; the load keeps to its limit
      in every order of answers; percentiles are observations, a report is
      complete, and a verdict is what its gates say.
    - Installation: the definition that is written is the intended one whatever
      the names and paths contain, an installation is all or nothing and an
      uninstallation ends; the Windows service reports its states in order; the
      token an installation persists is the one the service loads; and a command
      that is typed is the operation that is performed.
    - Behaviour that differs from the documentation or from what the code
      means to do is stated as a theorem where it can be ([encode_failure_leaks],
      [jsonl_timeout_shifts], [local_file_replaces_sections],
      [rename_failure_forgets], [padded_preference_ignored],
      [dropped_send_swallows_next], [undecodable_line_stops],
      [client_panics_in_races], [retry_sends_twice], [shutdown_unlinks_successor],
      [staged_copy_is_reused], [failed_callback_ends_stream],
      [token_before_private], [install_not_rolled_back],
      [relayed_request_outcome], [token_handed_over]).

    ** What is not modelled

    The Core, the plugin contracts and the serializers are dependencies.  Argument
    parsing and printing in the host, the formatting of log lines by tracing and
    the delegation of reads and writes to socket types are calls into libraries.
    The tests are not part of the program; the platforms for which every operation
    is "unsupported" have no code of their own.  [EndToEnd] and [Served] follow one
    connection from its first byte; what other connections do to the handler's
    state in between are steps of its own ([Outside]), any function there and any
    that keeps the service's configuration and processes here.  A connection on
    which a frame was given up half written is excluded, with what happens on it
    shown apart. *)

From stdpp Require Export base tactics option list gmap.
From Stdlib Require Export NArith ZArith Lia.
From Stdlib Require Export Init.Byte Strings.Byte.
From Stdlib Require Import String Ascii.

(** ** Results

    Rust's [Result<T, E>], with the [?] operator as [let?]. *)

Declare Scope rust_scope.
Delimit Scope rust_scope with rust.

Inductive result (A E : Type) : Type :=
| Ok (a : A)
| Err (e : E).
Arguments Ok {A E} a.
Arguments Err {A E} e.

Definition rbind {A B E} (r : result A E) (f : A → result B E) : result B E :=
  match r with Ok a => f a | Err e => Err e end.

Notation "'let?' x ':=' a 'in' b" := (rbind a (fun x => b))
  (at level 10, x pattern, a at level 100, b at level 200) : rust_scope.
Open Scope rust_scope.

Definition map_err {A E F} (f : E → F) (r : result A E) : result A F :=
  match r with Ok a => Ok a | Err e => Err (f e) end.

Definition rmap {A B E} (f : A → B) (r : result A E) : result B E :=
  match r with Ok a => Ok (f a) | Err e => Err e end.

Definition ok_or {A E} (o : option A) (e : E) : result A E :=
  match o with Some a => Ok a | None => Err e end.

Definition is_ok {A E} (r : result A E) : bool :=
  match r with Ok _ => true | Err _ => false end.

(** [Iterator::collect::<Result<Vec<_>, _>>()]: the first error wins. *)
Fixpoint collect_results {A E} (l : list (result A E)) : result (list A) E :=
  match l with
  | [] => Ok []
  | r :: l' =>
      let? a := r in
      let? rest := collect_results l' in
      Ok (a :: rest)
  end.

(** ** Machine integers

    Unsigned integers are [N]; the width is written where it matters.  The
    code runs with a 64-bit [usize]. *)

Definition u16_max : N := 2 ^ 16 - 1.
Definition u32_max : N := 2 ^ 32 - 1.
Definition u64_max : N := 2 ^ 64 - 1.
Definition usize_max : N := u64_max.

Definition wrap (width v : N) : N := v mod 2 ^ width.

Definition saturating_add (max a b : N) : N := N.min max (a + b).

(** [slice.len()] as a [usize]. *)
Definition len {A} (l : list A) : N := N.of_nat (List.length l).

(** ** Big-endian encodings *)

Definition byte_of (v : N) : byte := default x00 (Byte.of_N (v mod 256)).

(** The [n] low-order bytes of [v], most significant first
    ([to_be_bytes] of an [8 * n]-bit integer). *)
Fixpoint be_bytes (n : nat) (v : N) : list byte :=
  match n with
  | O => []
  | S n' => be_bytes n' (v / 256) ++ [byte_of v]
  end.

(** [from_be_bytes]. *)
Definition be_value (l : list byte) : N :=
  fold_left (λ acc b, 256 * acc + Byte.to_N b)%N l 0%N.

(** ** Automation *)

Create HintDb host discriminated.
Create Rewrite HintDb host.

(** Case analysis on the scrutinee of a [match] or an [if], keeping the
    equation. *)
Ltac case_goal :=
  match goal with
  | |- context [match ?x with _ => _ end] => destruct x eqn:?
  end.

Ltac case_hyp H :=
  match type of H with
  | context [match ?x with _ => _ end] => destruct x eqn:?; try discriminate
  end.

(** Splits a successful [let?] chain in a hypothesis into its steps. *)
Ltac inv_ok H :=
  match type of H with
  | rbind ?r _ = Ok _ =>
      let E := fresh "E" in
      destruct r eqn:E; simpl in H; [inv_ok H | discriminate H]
  | Ok _ = Ok _ => injection H as H; subst
  | _ => idtac
  end.

(** Turns the boolean tests of the code into propositions. *)
Ltac bool_props :=
  repeat match goal with
  | H : (_ && _)%bool = true |- _ => apply andb_true_iff in H as [? ?]
  | H : (_ && _)%bool = false |- _ => apply andb_false_iff in H as [H|H]
  | H : (_ || _)%bool = true |- _ => apply orb_true_iff in H as [H|H]
  | H : (_ || _)%bool = false |- _ => apply orb_false_iff in H as [? ?]
  | H : negb _ = true |- _ => apply negb_true_iff in H
  | H : negb _ = false |- _ => apply negb_false_iff in H
  | H : (_ <? _)%N = true |- _ => apply N.ltb_lt in H
  | H : (_ <? _)%N = false |- _ => apply N.ltb_ge in H
  | H : (_ <=? _)%N = true |- _ => apply N.leb_le in H
  | H : (_ <=? _)%N = false |- _ => apply N.leb_gt in H
  | H : (_ =? _)%N = true |- _ => apply N.eqb_eq in H
  | H : (_ =? _)%N = false |- _ => apply N.eqb_neq in H
  | H : (_ <? _)%Z = true |- _ => apply Z.ltb_lt in H
  | H : (_ <? _)%Z = false |- _ => apply Z.ltb_ge in H
  | H : (_ <=? _)%Z = true |- _ => apply Z.leb_le in H
  | H : (_ <=? _)%Z = false |- _ => apply Z.leb_gt in H
  | H : bool_decide _ = true |- _ => apply bool_decide_eq_true in H
  | H : bool_decide _ = false |- _ => apply bool_decide_eq_false in H
  end.

(** ** Lemmas on results *)

Lemma rbind_ok {A B E} (r : result A E) (f : A → result B E) b :
  rbind r f = Ok b ↔ ∃ a, r = Ok a ∧ f a = Ok b.
Proof. destruct r; simpl; naive_solver. Qed.

Lemma rbind_err {A B E} (r : result A E) (f : A → result B E) e :
  rbind r f = Err e ↔ r = Err e ∨ ∃ a, r = Ok a ∧ f a = Err e.
Proof. destruct r; simpl; naive_solver. Qed.

Lemma collect_results_ok {A E} (l : list (result A E)) (xs : list A) :
  collect_results l = Ok xs ↔ l = Ok <$> xs.
Proof.
  revert xs. induction l as [|r l IH]; intros xs; simpl.
  - destruct xs; simpl; naive_solver.
  - destruct r as [a|e]; simpl; [|destruct xs; naive_solver].
    destruct (collect_results l) as [rest|e] eqn:Hr; simpl.
    + destruct xs as [|x xs]; simpl; [naive_solver|].
      specialize (IH xs). naive_solver.
    + split; [naive_solver|]. destruct xs as [|x xs]; simpl; [done|].
      intros [= -> Hl]. apply IH in Hl. discriminate.
Qed.

(** The first failure is the error of a collection. *)
Lemma collect_results_err {A E} (l : list (result A E)) e :
  collect_results l = Err e ↔ ∃ before after, l = before ++ Err e :: after ∧ Forall (λ r, is_ok r = true) before.
Proof.
  split.
  - induction l as [|[a|e'] l IH]; simpl; [done| |].
    + destruct (collect_results l) as [rest|e'] eqn:Hc; simpl; [done|]. intros [= ->].
      destruct IH as (before & after & -> & Hb); [done|]. exists (Ok a :: before), after. split; [done|by constructor].
    + intros [= ->]. by exists [], l.
  - intros (before & after & -> & Hb). induction Hb as [|[a|] before Ha _ IH]; simpl; [done| |done]. by rewrite IH.
Qed.

Lemma rmap_is_ok {A B E} (f : A → B) (r : result A E) : is_ok (rmap f r) = is_ok r.
Proof. by destruct r. Qed.

Lemma len_pos {A} (l : list A) : l ≠ [] → (0 < len l)%N.
Proof. destruct l; [done|]. intros _. unfold len. simpl. lia. Qed.

Lemma lookup_below {A} (l : list A) (n : N) : (n < len l)%N → is_Some (l !! N.to_nat n).
Proof. intros Hn. apply lookup_lt_is_Some. unfold len in Hn. lia. Qed.

Lemma filter_forall {A} (P : A → Prop) `{∀ x, Decision (P x)} l : Forall P l → filter P l = l.
Proof. induction 1; [done|]. rewrite filter_cons_True by done. by f_equal. Qed.

Lemma filter_fmap_length {A B} (f : A → B) (P : B → Prop) `{∀ x, Decision (P x)} l :
  List.length (filter P (f <$> l)) = List.length (filter (λ x, P (f x)) l).
Proof.
  induction l as [|a l IH]; [done|]. rewrite fmap_cons. destruct (decide (P (f a))).
  - rewrite !filter_cons_True by done. simpl. by rewrite IH.
  - by rewrite !filter_cons_False by done.
Qed.

Lemma elem_filter {A} (p : A → bool) (l : list A) x : x ∈ List.filter p l ↔ x ∈ l ∧ p x = true.
Proof. by rewrite !list_elem_of_In, List.filter_In. Qed.

(** Elements with distinct keys are told apart by their keys. *)
Lemma fmap_nodup_inj {A B} (f : A → B) (l : list A) x y :
  NoDup (f <$> l) → x ∈ l → y ∈ l → f x = f y → x = y.
Proof.
  induction l as [|z l IH]; [set_solver|]. cbn. intros [Hz Hn]%NoDup_cons Hx Hy Hf.
  apply elem_of_cons in Hx as [->|Hx], Hy as [->|Hy]; [done|..|by apply IH];
    destruct Hz; [rewrite Hf|rewrite <-Hf]; by apply list_elem_of_fmap_2.
Qed.

Lemma fmap_filter_nodup {A B} (f : A → B) (p : A → bool) (l : list A) :
  NoDup (f <$> l) → NoDup (f <$> List.filter p l).
Proof.
  induction l as [|x l IH]; cbn; [done|]. intros [Hx Hn]%NoDup_cons.
  destruct (p x); [|auto]. cbn. apply NoDup_cons. split; [|auto].
  intros (y & Hy & [Hin _]%elem_filter)%list_elem_of_fmap. apply Hx. rewrite Hy. by apply list_elem_of_fmap_2.
Qed.

(** [Iterator::find] on a list with one match. *)
Lemma find_unique {A} (f : A → bool) (l : list A) x :
  x ∈ l → f x = true → (∀ y, y ∈ l → f y = true → y = x) → List.find f l = Some x.
Proof.
  intros Hin Hx Hu. destruct (List.find f l) as [y|] eqn:E.
  - apply List.find_some in E as [Hy Hfy]. f_equal. apply Hu; [by apply list_elem_of_In|done].
  - apply list_elem_of_In in Hin. by rewrite (List.find_none _ _ E _ Hin) in Hx.
Qed.

Lemma find_elem {A} (f : A → bool) (l : list A) x : List.find f l = Some x → x ∈ l ∧ f x = true.
Proof. intros [Hin Hf]%List.find_some. split; [by apply list_elem_of_In|done]. Qed.

(** ** Lemmas on lengths *)

Lemma len_app {A} (l k : list A) : len (l ++ k) = (len l + len k)%N.
Proof. unfold len. rewrite length_app. lia. Qed.

Lemma len_nil {A} : len (@nil A) = 0%N.
Proof. done. Qed.

Lemma len_cons {A} (x : A) l : len (x :: l) = (1 + len l)%N.
Proof. unfold len. simpl. lia. Qed.

Lemma len_take {A} (n : nat) (l : list A) : (n ≤ List.length l)%nat → len (take n l) = N.of_nat n.
Proof. intros. unfold len. rewrite length_take. lia. Qed.

#[export] Hint Rewrite @len_app @len_nil @len_cons : host.

(** ** Lemmas on big-endian encodings *)

Lemma byte_of_to_N v : Byte.to_N (byte_of v) = (v mod 256)%N.
Proof.
  unfold byte_of.
  destruct (Byte.of_N (v mod 256)) as [b|] eqn:E; simpl.
  - by apply Byte.to_of_N in E.
  - apply Byte.of_N_None_iff in E. pose proof (N.mod_lt v 256). lia.
Qed.

Lemma byte_of_N b : byte_of (Byte.to_N b) = b.
Proof.
  unfold byte_of. pose proof (Byte.to_N_bounded b).
  rewrite N.mod_small by lia. by rewrite Byte.of_to_N.
Qed.

Lemma byte_to_N_inj a b : Byte.to_N a = Byte.to_N b → a = b.
Proof. intros H. rewrite <-(byte_of_N a), <-(byte_of_N b). by rewrite H. Qed.

Lemma length_be_bytes n v : List.length (be_bytes n v) = n.
Proof.
  revert v. induction n as [|n IH]; intros v; simpl; [done|].
  rewrite length_app, IH. simpl. lia.
Qed.

Lemma len_be_bytes n v : len (be_bytes n v) = N.of_nat n.
Proof. unfold len. by rewrite length_be_bytes. Qed.
#[export] Hint Rewrite len_be_bytes : host.

Lemma be_value_snoc l b : be_value (l ++ [b]) = (256 * be_value l + Byte.to_N b)%N.
Proof. unfold be_value. by rewrite fold_left_app. Qed.

Lemma be_value_be_bytes n v : be_value (be_bytes n v) = (v mod 256 ^ N.of_nat n)%N.
Proof.
  revert v. induction n as [|n IH]; intros v; simpl be_bytes.
  - by rewrite N.mod_1_r.
  - rewrite be_value_snoc, IH, byte_of_to_N.
    replace (N.of_nat (S n)) with (N.succ (N.of_nat n)) by lia.
    rewrite N.pow_succ_r', N.Div0.mod_mul_r. lia.
Qed.

(** Decoding what was encoded, for a value in range. *)
Lemma be_value_small n v : (v < 256 ^ N.of_nat n)%N → be_value (be_bytes n v) = v.
Proof. intros H. rewrite be_value_be_bytes. by apply N.mod_small. Qed.

Lemma be_bytes_be_value l : be_bytes (List.length l) (be_value l) = l.
Proof.
  induction l as [|b l IH] using rev_ind; [done|].
  rewrite length_app, Nat.add_comm. simpl. rewrite be_value_snoc.
  pose proof (Byte.to_N_bounded b).
  replace ((256 * be_value l + Byte.to_N b) / 256)%N with (be_value l).
  2: { symmetry. rewrite (N.mul_comm 256), N.div_add_l by lia.
       rewrite N.div_small; lia. }
  rewrite IH. f_equal. f_equal. apply byte_to_N_inj.
  rewrite byte_of_to_N, N.add_comm, N.mul_comm, N.Div0.mod_add.
  apply N.mod_small. lia.
Qed.

Lemma be_value_bound l : (be_value l < 256 ^ len l)%N.
Proof.
  induction l as [|b l IH] using rev_ind; [done|].
  rewrite be_value_snoc, len_app. pose proof (Byte.to_N_bounded b) as H.
  change (len [b]) with 1%N. rewrite N.add_1_r, N.pow_succ_r'.
  revert IH. generalize (256 ^ len l)%N (be_value l) (Byte.to_N b) H.
  intros. lia.
Qed.
