(* ===== verification/Text.v ===== *)
(** * Text

    Rust strings as the code uses them: sequences of Unicode scalar values,
    their UTF-8 encoding, and the [str] and [char] methods the host calls
    ([trim], [to_ascii_uppercase], [strip_prefix], [contains], ...), with
    number formatting for the messages it builds.  *)

From Stdlib Require Import ZifyN String Ascii Decimal Hexadecimal DecimalN HexadecimalN.
Export String.StringSyntax.
From S2P Require Import Prelude.

Definition text := list N.

Definition lit (s : string) : text :=
  (λ a, N_of_ascii a) <$> list_ascii_of_string s.

(** ** Characters *)

Definition is_scalar (c : N) : bool :=
  (c <? 0xD800)%N || ((0xE000 <=? c)%N && (c <=? 0x10FFFF)%N).

(** [char::is_whitespace]: the White_Space property. *)
Definition is_whitespace (c : N) : bool :=
  ((9 <=? c)%N && (c <=? 13)%N) || (c =? 0x20)%N || (c =? 0x85)%N || (c =? 0xA0)%N
  || (c =? 0x1680)%N || ((0x2000 <=? c)%N && (c <=? 0x200A)%N)
  || (c =? 0x2028)%N || (c =? 0x2029)%N || (c =? 0x202F)%N || (c =? 0x205F)%N
  || (c =? 0x3000)%N.

(** [char::is_control]: the general category Cc. *)
Definition is_control (c : N) : bool :=
  (c <=? 0x1F)%N || ((0x7F <=? c)%N && (c <=? 0x9F)%N).

Definition is_ascii_digit (c : N) : bool := (48 <=? c)%N && (c <=? 57)%N.
Definition is_ascii_upper (c : N) : bool := (65 <=? c)%N && (c <=? 90)%N.
Definition is_ascii_lower (c : N) : bool := (97 <=? c)%N && (c <=? 122)%N.
Definition is_ascii_alphanumeric (c : N) : bool :=
  is_ascii_digit c || is_ascii_upper c || is_ascii_lower c.

Definition ascii_upper (c : N) : N := if is_ascii_lower c then c - 32 else c.
Definition ascii_lower (c : N) : N := if is_ascii_upper c then c + 32 else c.

Definition to_ascii_uppercase (t : text) : text := ascii_upper <$> t.
Definition to_ascii_lowercase (t : text) : text := ascii_lower <$> t.

(** ** Trimming and searching *)

Fixpoint drop_while (p : N → bool) (t : text) : text :=
  match t with
  | [] => []
  | c :: t' => if p c then drop_while p t' else t
  end.

Definition trim_end_by (p : N → bool) (t : text) : text :=
  reverse (drop_while p (reverse t)).
Definition trim_by (p : N → bool) (t : text) : text :=
  trim_end_by p (drop_while p t).

(** [str::trim]. *)
Definition trim (t : text) : text := trim_by is_whitespace t.

Definition is_empty (t : text) : bool := match t with [] => true | _ => false end.

Fixpoint strip_prefix (p t : text) : option text :=
  match p, t with
  | [], _ => Some t
  | c :: p', d :: t' => if (c =? d)%N then strip_prefix p' t' else None
  | _ :: _, [] => None
  end.

Definition starts_with (p t : text) : bool :=
  match strip_prefix p t with Some _ => true | None => false end.
Definition ends_with (p t : text) : bool := starts_with (reverse p) (reverse t).

(** [str::contains] with a string pattern. *)
Fixpoint contains (p t : text) : bool :=
  starts_with p t || match t with [] => false | _ :: t' => contains p t' end.

(** [trim_end_matches(suffix)] with a string pattern: strips it as often as
    it occurs at the end.  Each round removes at least one character, so the
    length of the text is enough fuel. *)
Fixpoint trim_start_str_fuel (fuel : nat) (p t : text) : text :=
  match fuel with
  | O => t
  | S n => match strip_prefix p t with
           | Some t' => trim_start_str_fuel n p t'
           | None => t
           end
  end.
Definition trim_end_matches (p t : text) : text :=
  reverse (trim_start_str_fuel (List.length t) (reverse p) (reverse t)).

(** [str::replace] with a [char] pattern. *)
Definition replace_char (c : N) (by_ : text) (t : text) : text :=
  concat ((λ d, if (d =? c)%N then by_ else [d]) <$> t).

(** [[String]::join]. *)
Fixpoint join (sep : text) (l : list text) : text :=
  match l with
  | [] => []
  | [t] => t
  | t :: l' => t ++ sep ++ join sep l'
  end.

(** The order of [String]: Rust compares the UTF-8 bytes, which orders texts
    as their scalar values do. *)
Fixpoint text_compare (a b : text) : comparison :=
  match a, b with
  | [], [] => Eq
  | [], _ :: _ => Lt
  | _ :: _, [] => Gt
  | c :: a', d :: b' =>
      match (c ?= d)%N with Eq => text_compare a' b' | o => o end
  end.

Definition text_eqb (a b : text) : bool := bool_decide (a = b).

(** ** Formatting numbers *)

Fixpoint uint_text (d : Decimal.uint) : text :=
  match d with
  | Decimal.Nil => []
  | Decimal.D0 d => 48%N :: uint_text d | Decimal.D1 d => 49%N :: uint_text d
  | Decimal.D2 d => 50%N :: uint_text d | Decimal.D3 d => 51%N :: uint_text d
  | Decimal.D4 d => 52%N :: uint_text d | Decimal.D5 d => 53%N :: uint_text d
  | Decimal.D6 d => 54%N :: uint_text d | Decimal.D7 d => 55%N :: uint_text d
  | Decimal.D8 d => 56%N :: uint_text d | Decimal.D9 d => 57%N :: uint_text d
  end.

(** [{}] on an unsigned integer. *)
Definition show_N (n : N) : text := uint_text (N.to_uint n).

(** [{}] on a signed integer. *)
Definition show_Z (z : Z) : text :=
  if (z <? 0)%Z then 45%N :: show_N (Z.to_N (- z)) else show_N (Z.to_N z).

(** [str::parse] for an unsigned number up to [max]. *)
Fixpoint digits_value (acc : N) (t : text) : option N :=
  match t with
  | [] => Some acc
  | c :: t => if is_ascii_digit c then digits_value (10 * acc + (c - 48)) t else None
  end.
Definition parse_unsigned (max : N) (t : text) : option N :=
  let digits := match t with c :: t' => if (c =? 43)%N then t' else t | [] => [] end in   (* one '+' *)
  match digits with
  | [] => None
  | _ => v ← digits_value 0 digits; if (v <=? max)%N then Some v else None
  end.

(** [str::split_whitespace]. *)
Fixpoint words_from (word t : text) : list text :=
  match t with
  | [] => if is_empty word then [] else [reverse word]
  | c :: t =>
      if is_whitespace c then (if is_empty word then [] else [reverse word]) ++ words_from [] t
      else words_from (c :: word) t
  end.
Definition split_whitespace (t : text) : list text := words_from [] t.

Fixpoint hex_text (d : Hexadecimal.uint) : text :=
  match d with
  | Hexadecimal.Nil => []
  | Hexadecimal.D0 d => 48%N :: hex_text d | Hexadecimal.D1 d => 49%N :: hex_text d
  | Hexadecimal.D2 d => 50%N :: hex_text d | Hexadecimal.D3 d => 51%N :: hex_text d
  | Hexadecimal.D4 d => 52%N :: hex_text d | Hexadecimal.D5 d => 53%N :: hex_text d
  | Hexadecimal.D6 d => 54%N :: hex_text d | Hexadecimal.D7 d => 55%N :: hex_text d
  | Hexadecimal.D8 d => 56%N :: hex_text d | Hexadecimal.D9 d => 57%N :: hex_text d
  | Hexadecimal.Da d => 97%N :: hex_text d | Hexadecimal.Db d => 98%N :: hex_text d
  | Hexadecimal.Dc d => 99%N :: hex_text d | Hexadecimal.Dd d => 100%N :: hex_text d
  | Hexadecimal.De d => 101%N :: hex_text d | Hexadecimal.Df d => 102%N :: hex_text d
  end.

Definition show_hex (n : N) : text := hex_text (N.to_hex_uint n).

Definition pad_zero (width : nat) (t : text) : text :=
  replicate (width - List.length t) 48%N ++ t.

(** [{:#06x}] and [{:#010x}]: the prefix counts in the width. *)
Definition show_hex_prefixed (width : nat) (n : N) : text :=
  lit "0x" ++ pad_zero (width - 2) (show_hex n).

(** ** UTF-8 *)

Definition utf8_char (c : N) : list byte :=
  if (c <? 0x80)%N then [byte_of c]
  else if (c <? 0x800)%N then
    [byte_of (0xC0 + c / 64); byte_of (0x80 + c mod 64)]
  else if (c <? 0x10000)%N then
    [byte_of (0xE0 + c / 4096); byte_of (0x80 + (c / 64) mod 64);
     byte_of (0x80 + c mod 64)]
  else
    [byte_of (0xF0 + c / 262144); byte_of (0x80 + (c / 4096) mod 64);
     byte_of (0x80 + (c / 64) mod 64); byte_of (0x80 + c mod 64)].

(** [String::as_bytes]. *)
Definition utf8 (t : text) : list byte := t ≫= utf8_char.

(** [String::len] is the length of the UTF-8 encoding. *)
Definition text_len (t : text) : N := len (utf8 t).

(** The payload of a continuation byte. *)
Definition cont (b : byte) : option N :=
  let v := Byte.to_N b in
  if (0x80 <=? v)%N && (v <? 0xC0)%N then Some (v - 0x80)%N else None.

(** [String::from_utf8]: overlong forms, surrogates and values above the
    Unicode range are errors. *)
Fixpoint from_utf8 (l : list byte) : option text :=
  match l with
  | [] => Some []
  | b0 :: l1 =>
      let v0 := Byte.to_N b0 in
      if (v0 <? 0x80)%N then cons v0 <$> from_utf8 l1
      else match l1 with
      | [] => None
      | b1 :: l2 =>
          match cont b1 with
          | None => None
          | Some c1 =>
              if (0xC2 <=? v0)%N && (v0 <? 0xE0)%N then
                cons ((v0 - 0xC0) * 64 + c1)%N <$> from_utf8 l2
              else match l2 with
              | [] => None
              | b2 :: l3 =>
                  match cont b2 with
                  | None => None
                  | Some c2 =>
                      if (0xE0 <=? v0)%N && (v0 <? 0xF0)%N then
                        let c := ((v0 - 0xE0) * 4096 + c1 * 64 + c2)%N in
                        if (0x800 <=? c)%N && is_scalar c
                        then cons c <$> from_utf8 l3 else None
                      else match l3 with
                      | [] => None
                      | b3 :: l4 =>
                          match cont b3 with
                          | None => None
                          | Some c3 =>
                              if (0xF0 <=? v0)%N then
                                let c := ((v0 - 0xF0) * 262144 + c1 * 4096
                                          + c2 * 64 + c3)%N in
                                if (0x10000 <=? c)%N && is_scalar c
                                then cons c <$> from_utf8 l4 else None
                              else None
                          end
                      end
                  end
              end
          end
      end
  end.

(** [std::str::Utf8Error]: how many bytes are valid, and the length of the
    invalid sequence unless the input ends inside a character. *)
Fixpoint utf8_error (l : list byte) (valid_up_to : N) : option (N * option N) :=
  let second_ok b0 b1 :=
    let v0 := Byte.to_N b0 in let v1 := Byte.to_N b1 in
    let lo := if (v0 =? 0xE0)%N then 0xA0%N else if (v0 =? 0xF0)%N then 0x90%N else 0x80%N in
    let hi := if (v0 =? 0xED)%N then 0x9F%N else if (v0 =? 0xF4)%N then 0x8F%N else 0xBF%N in
    (lo <=? v1)%N && (v1 <=? hi)%N in
  let is_cont b := (0x80 <=? Byte.to_N b)%N && (Byte.to_N b <? 0xC0)%N in
  match l with
  | [] => None
  | b0 :: l1 =>
      let v0 := Byte.to_N b0 in
      if (v0 <? 0x80)%N then utf8_error l1 (valid_up_to + 1)
      else if (v0 <? 0xC2)%N || (0xF4 <? v0)%N then Some (valid_up_to, Some 1%N)
      else match l1 with
      | [] => Some (valid_up_to, None)
      | b1 :: l2 =>
          if negb (second_ok b0 b1) then Some (valid_up_to, Some 1%N)
          else if (v0 <? 0xE0)%N then utf8_error l2 (valid_up_to + 2)
          else match l2 with
          | [] => Some (valid_up_to, None)
          | b2 :: l3 =>
              if negb (is_cont b2) then Some (valid_up_to, Some 2%N)
              else if (v0 <? 0xF0)%N then utf8_error l3 (valid_up_to + 3)
              else match l3 with
              | [] => Some (valid_up_to, None)
              | b3 :: l4 =>
                  if negb (is_cont b3) then Some (valid_up_to, Some 3%N)
                  else utf8_error l4 (valid_up_to + 4)
              end
          end
      end
  end.

(** Its [Display]. *)
Definition utf8_error_text (l : list byte) : text :=
  match utf8_error l 0 with
  | Some (n, Some k) =>
      lit "invalid utf-8 sequence of " ++ show_N k ++ lit " bytes from index " ++ show_N n
  | Some (n, None) => lit "incomplete utf-8 byte sequence from index " ++ show_N n
  | None => []
  end.

(** A valid Rust string. *)
Definition wf_text (t : text) : Prop := Forall (λ c, is_scalar c = true) t.

#[export] Instance wf_text_dec t : Decision (wf_text t) := _.

(** ** Lemmas *)

Lemma drop_while_le p t : (List.length (drop_while p t) ≤ List.length t)%nat.
Proof. induction t as [|c t IH]; simpl; [lia|]. destruct (p c); simpl; lia. Qed.

Lemma drop_while_head p t c t' : drop_while p t = c :: t' → p c = false.
Proof. induction t as [|d t IH]; simpl; [done|]. destruct (p d) eqn:E; naive_solver. Qed.

Lemma drop_while_suffix p t : drop_while p t `suffix_of` t.
Proof.
  induction t as [|c t IH]; simpl; [done|].
  destruct (p c); [by apply suffix_cons_r|done].
Qed.

Lemma drop_while_id p t : (∀ c t', t = c :: t' → p c = false) → drop_while p t = t.
Proof. destruct t as [|c t]; simpl; [done|]. intros H. by rewrite (H c t). Qed.

Lemma drop_while_idem p t : drop_while p (drop_while p t) = drop_while p t.
Proof. apply drop_while_id. intros c t' E. by apply drop_while_head in E. Qed.

Lemma drop_while_snoc p t c : p c = false → ∃ t', drop_while p (t ++ [c]) = t' ++ [c].
Proof.
  intros Hc. induction t as [|d t IH]; simpl.
  - rewrite Hc. by exists [].
  - destruct (p d); [done|]. by exists (d :: t).
Qed.

Lemma trim_end_by_id p t : (∀ c t', t = t' ++ [c] → p c = false) → trim_end_by p t = t.
Proof.
  intros H. unfold trim_end_by. rewrite drop_while_id; [apply reverse_involutive|].
  intros c t' E. apply (H c (reverse t')).
  by rewrite <-reverse_cons, <-E, reverse_involutive.
Qed.

Lemma trim_end_by_last p t t' c : trim_end_by p t = t' ++ [c] → p c = false.
Proof.
  unfold trim_end_by. intros E.
  apply (f_equal reverse) in E. rewrite reverse_involutive, reverse_snoc in E.
  by apply drop_while_head in E.
Qed.

Lemma trim_end_by_prefix p t : trim_end_by p t `prefix_of` t.
Proof.
  unfold trim_end_by. destruct (drop_while_suffix p (reverse t)) as [k E].
  exists (reverse k). rewrite <-reverse_app, <-E. by rewrite reverse_involutive.
Qed.

Lemma trim_by_head p t c t' : trim_by p t = c :: t' → p c = false.
Proof.
  unfold trim_by. intros E.
  destruct (trim_end_by_prefix p (drop_while p t)) as [k Hk]. rewrite E in Hk.
  by eapply drop_while_head.
Qed.

(** Trimming is idempotent: a trimmed text neither starts nor ends with a
    trimmed character. *)
Lemma trim_by_idem p t : trim_by p (trim_by p t) = trim_by p t.
Proof.
  unfold trim_by at 1. rewrite (drop_while_id p (trim_by p t)).
  - apply trim_end_by_id. intros c t' E. by apply trim_end_by_last in E.
  - intros c t' E. by apply trim_by_head in E.
Qed.

Lemma trim_idem t : trim (trim t) = trim t.
Proof. apply trim_by_idem. Qed.

Lemma trim_by_sublist p t : trim_by p t `sublist_of` t.
Proof.
  unfold trim_by. transitivity (drop_while p t).
  - destruct (trim_end_by_prefix p (drop_while p t)) as [k Hk].
    rewrite Hk at 2. apply sublist_inserts_r. done.
  - destruct (drop_while_suffix p t) as [k Hk]. rewrite Hk at 2.
    by apply sublist_inserts_l.
Qed.

Lemma trim_by_id p t :
  (∀ c, c ∈ t → p c = false) → trim_by p t = t.
Proof.
  intros H. unfold trim_by. rewrite drop_while_id.
  - apply trim_end_by_id. intros c t' ->. apply H. set_solver.
  - intros c t' ->. apply H. set_solver.
Qed.

Lemma strip_prefix_Some p t t' : strip_prefix p t = Some t' ↔ t = p ++ t'.
Proof.
  revert t. induction p as [|c p IH]; intros [|d t]; simpl; try naive_solver.
  destruct (N.eqb_spec c d) as [->|]; rewrite ?IH; naive_solver.
Qed.

Lemma starts_with_spec p t : starts_with p t = true ↔ p `prefix_of` t.
Proof.
  unfold starts_with. destruct (strip_prefix p t) as [t'|] eqn:E.
  - apply strip_prefix_Some in E as ->. split; [|done]. intros _. by exists t'.
  - split; [done|]. intros [k ->].
    by rewrite (proj2 (strip_prefix_Some p (p ++ k) k)) in E.
Qed.

Lemma text_eqb_eq a b : text_eqb a b = true ↔ a = b.
Proof. apply bool_decide_eq_true. Qed.

Lemma text_eqb_refl a : text_eqb a a = true.
Proof. by apply text_eqb_eq. Qed.

(** *** The order of texts *)

Lemma text_compare_eq a b : text_compare a b = Eq ↔ a = b.
Proof.
  revert b. induction a as [|c a IH]; intros [|d b]; simpl; try naive_solver.
  destruct (N.compare_spec c d) as [->|H|H]; rewrite ?IH; split; try naive_solver lia.
Qed.

Lemma text_compare_refl a : text_compare a a = Eq.
Proof. by apply text_compare_eq. Qed.

Lemma text_compare_antisym a b : text_compare b a = CompOpp (text_compare a b).
Proof.
  revert b. induction a as [|c a IH]; intros [|d b]; simpl; try done.
  rewrite N.compare_antisym. destruct (c ?= d)%N; simpl; auto.
Qed.

Lemma text_compare_trans a b c :
  text_compare a b = Lt → text_compare b c = Lt → text_compare a c = Lt.
Proof.
  revert b c. induction a as [|x a IH]; intros [|y b] [|z c]; simpl; try done.
  destruct (N.compare_spec x y) as [->|Hxy|Hxy]; [| |done].
  - destruct (y ?= z)%N; try done. apply IH.
  - intros _. destruct (N.compare_spec y z) as [->|Hyz|Hyz]; [| |done]; intros _.
    + apply N.compare_lt_iff in Hxy. by rewrite Hxy.
    + assert (x < z)%N as H by lia. apply N.compare_lt_iff in H. by rewrite H.
Qed.
#[export] Hint Resolve text_compare_trans : host.

(** *** UTF-8 *)

#[local] Ltac Zify.zify_post_hook ::= Z.div_mod_to_equations.

Lemma byte_of_val v : (v < 256)%N → Byte.to_N (byte_of v) = v.
Proof. intros H. rewrite byte_of_to_N. by apply N.mod_small. Qed.

Lemma byte_eq b v : Byte.to_N b = v → byte_of v = b.
Proof. intros <-. apply byte_of_N. Qed.

Lemma cont_byte v : (v < 64)%N → cont (byte_of (0x80 + v)) = Some v.
Proof.
  intros H. unfold cont. rewrite byte_of_val by lia.
  rewrite (proj2 (N.leb_le _ _)), (proj2 (N.ltb_lt _ _)) by lia. simpl. f_equal. lia.
Qed.

Lemma cont_inv b v : cont b = Some v → b = byte_of (0x80 + v) ∧ (v < 64)%N.
Proof.
  unfold cont. intros H. case_hyp H. injection H as H. bool_props.
  split; [|lia]. symmetry. apply byte_eq. lia.
Qed.

#[local] Ltac decide_tests :=
  repeat match goal with
  | |- context [(?a <? ?b)%N] =>
      first [rewrite (proj2 (N.ltb_lt a b)) by lia | rewrite (proj2 (N.ltb_ge a b)) by lia]
  | |- context [(?a <=? ?b)%N] =>
      first [rewrite (proj2 (N.leb_le a b)) by lia | rewrite (proj2 (N.leb_gt a b)) by lia]
  end.

Lemma is_scalar_spec c : is_scalar c = true ↔ (c < 0xD800 ∨ 0xE000 ≤ c ≤ 0x10FFFF)%N.
Proof.
  unfold is_scalar. rewrite orb_true_iff, andb_true_iff, N.ltb_lt, !N.leb_le. lia.
Qed.

Lemma from_utf8_1 b0 l :
  (Byte.to_N b0 < 0x80)%N → from_utf8 (b0 :: l) = cons (Byte.to_N b0) <$> from_utf8 l.
Proof. intros H. cbn [from_utf8]. by decide_tests. Qed.

Lemma from_utf8_2 b0 b1 c1 l :
  (0xC2 ≤ Byte.to_N b0 < 0xE0)%N → cont b1 = Some c1 →
  from_utf8 (b0 :: b1 :: l) = cons ((Byte.to_N b0 - 0xC0) * 64 + c1)%N <$> from_utf8 l.
Proof.
  intros H H1. cbn [from_utf8]. rewrite (proj2 (N.ltb_ge _ _)) by lia.
  rewrite H1. by decide_tests.
Qed.

Lemma from_utf8_3 b0 b1 b2 c1 c2 c l :
  (0xE0 ≤ Byte.to_N b0 < 0xF0)%N → cont b1 = Some c1 → cont b2 = Some c2 →
  c = ((Byte.to_N b0 - 0xE0) * 4096 + c1 * 64 + c2)%N →
  (0x800 ≤ c)%N → is_scalar c = true →
  from_utf8 (b0 :: b1 :: b2 :: l) = cons c <$> from_utf8 l.
Proof.
  intros H H1 H2 -> H3 H4. cbn [from_utf8]. rewrite (proj2 (N.ltb_ge _ _)) by lia.
  rewrite H1, H2, H4. by decide_tests.
Qed.

Lemma from_utf8_4 b0 b1 b2 b3 c1 c2 c3 c l :
  (0xF0 ≤ Byte.to_N b0)%N → cont b1 = Some c1 → cont b2 = Some c2 → cont b3 = Some c3 →
  c = ((Byte.to_N b0 - 0xF0) * 262144 + c1 * 4096 + c2 * 64 + c3)%N →
  (0x10000 ≤ c)%N → is_scalar c = true →
  from_utf8 (b0 :: b1 :: b2 :: b3 :: l) = cons c <$> from_utf8 l.
Proof.
  intros H H1 H2 H3 -> H4 H5. cbn [from_utf8]. rewrite (proj2 (N.ltb_ge _ _)) by lia.
  rewrite H1, H2, H3, H5. by decide_tests.
Qed.

(** Decoding one encoded character. *)
Lemma from_utf8_char c l :
  is_scalar c = true → from_utf8 (utf8_char c ++ l) = cons c <$> from_utf8 l.
Proof.
  intros Hc. pose proof Hc as Hs. apply is_scalar_spec in Hs. unfold utf8_char.
  destruct (N.ltb_spec c 0x80); [|destruct (N.ltb_spec c 0x800);
    [|destruct (N.ltb_spec c 0x10000)]]; cbn [app].
  - rewrite from_utf8_1; rewrite byte_of_val by lia; [done|lia].
  - rewrite (from_utf8_2 _ _ (c mod 64)); rewrite ?byte_of_val by lia;
      [f_equal; f_equal; lia|lia|apply cont_byte; lia].
  - apply (from_utf8_3 _ _ _ ((c / 64) mod 64) (c mod 64));
      rewrite ?byte_of_val by lia; try (apply cont_byte; lia); [..|done]; lia.
  - apply (from_utf8_4 _ _ _ _ ((c / 4096) mod 64) ((c / 64) mod 64) (c mod 64));
      rewrite ?byte_of_val by lia; try (apply cont_byte; lia); [..|done]; lia.
Qed.

(** Encoding then decoding a valid string gives it back. *)
Lemma from_utf8_utf8 t : wf_text t → from_utf8 (utf8 t) = Some t.
Proof.
  induction 1 as [|c t Hc _ IH]; [done|].
  unfold utf8. rewrite bind_cons, from_utf8_char by done.
  change (t ≫= utf8_char) with (utf8 t). by rewrite IH.
Qed.

Lemma utf8_app a b : utf8 (a ++ b) = utf8 a ++ utf8 b.
Proof. apply bind_app. Qed.

Lemma utf8_cons c t : utf8 (c :: t) = utf8_char c ++ utf8 t.
Proof. done. Qed.

(** A newline byte occurs in the encoding only for the newline character. *)
Lemma utf8_char_byte c b :
  is_scalar c = true → b ∈ utf8_char c → (Byte.to_N b < 0x80)%N → utf8_char c = [b] ∧ c = Byte.to_N b.
Proof.
  intros Hc%is_scalar_spec. unfold utf8_char.
  destruct (N.ltb_spec c 0x80); [|destruct (N.ltb_spec c 0x800);
    [|destruct (N.ltb_spec c 0x10000)]]; rewrite ?elem_of_cons, elem_of_nil;
    intros Hb; repeat destruct Hb as [->|Hb]; try done;
    rewrite byte_of_val by lia; try lia.
  done.
Qed.

Lemma utf8_newline t : wf_text t → x0a ∈ utf8 t → 10%N ∈ t.
Proof.
  intros Ht [c [Hb Hc]]%list_elem_of_bind.
  apply (utf8_char_byte c) in Hb as [_ ->]; [done| |done].
  unfold wf_text in Ht. rewrite Forall_forall in Ht. auto.
Qed.

(** ** Parsing what was printed *)

Lemma digits_value_acc d acc :
  digits_value (Npos acc) (uint_text d) = Some (Npos (Pos.of_uint_acc d acc)).
Proof.
  revert acc. induction d as [|d IH|d IH|d IH|d IH|d IH|d IH|d IH|d IH|d IH|d IH]; intros acc; [done|..];
    cbn [uint_text digits_value Pos.of_uint_acc]; cbn -[N.mul N.add digits_value Pos.of_uint_acc]; rewrite <-IH;
    f_equal; lia.
Qed.

Lemma digits_value_uint d : digits_value 0 (uint_text d) = Some (N.of_uint d).
Proof.
  unfold N.of_uint. induction d as [|d IH|d _|d _|d _|d _|d _|d _|d _|d _|d _]; [done|exact IH|..];
    cbn [uint_text digits_value Pos.of_uint]; cbn -[N.mul N.add digits_value Pos.of_uint_acc];
    exact (digits_value_acc d _).
Qed.

(** A printed number within the bound is read back, and nothing of it is a blank. *)
Lemma parse_show_N max n : (n <= max)%N → parse_unsigned max (show_N n) = Some n.
Proof.
  intros Hn. assert (Hd : ∃ c t, show_N n = c :: t ∧ c ≠ 43%N).
  { assert (Hnil : N.to_uint n ≠ Decimal.Nil) by (destruct n; [done|apply DecimalPos.Unsigned.to_uint_nonnil]).
    unfold show_N. destruct (N.to_uint n); [done|..]; do 2 eexists; split; try reflexivity; done. }
  destruct Hd as (c & t & Hs & Hc). unfold parse_unsigned. rewrite Hs, (proj2 (N.eqb_neq c 43) Hc). cbv zeta iota. rewrite <-Hs.
  unfold show_N. rewrite digits_value_uint, DecimalN.Unsigned.of_to. cbn [mbind option_bind].
  by rewrite (proj2 (N.leb_le n max) Hn).
Qed.

Lemma show_N_digits n : Forall (λ c, is_ascii_digit c = true) (show_N n).
Proof. unfold show_N. induction (N.to_uint n); simpl; [constructor|..]; by constructor. Qed.

Lemma digit_not_space c : is_ascii_digit c = true → is_whitespace c = false.
Proof. unfold is_ascii_digit, is_whitespace. intros [H1 H2]%andb_true_iff. apply N.leb_le in H1, H2.
  repeat (apply orb_false_iff; split); try (apply N.eqb_neq; lia); apply andb_false_iff;
    try (left; apply N.leb_gt; lia); try (right; apply N.leb_gt; lia).
Qed.

(** Words are what separates from the rest by a blank. *)
Lemma words_word w c t : w ≠ [] → Forall (λ c, is_whitespace c = false) w → is_whitespace c = true →
  split_whitespace (w ++ c :: t) = w :: split_whitespace t.
Proof.
  intros Hne Hw Hc. unfold split_whitespace.
  assert (Hgo : ∀ v, words_from v (w ++ c :: t) = words_from (reverse w ++ v) (c :: t)).
  { clear Hne. induction Hw as [|x w Hx _ IH]; intros v; [done|]. cbn [app words_from]. rewrite Hx, IH.
    by rewrite reverse_cons, <-app_assoc. }
  rewrite Hgo, app_nil_r. cbn [words_from]. rewrite Hc.
  destruct (reverse w) as [|y r] eqn:E.
  { by apply (f_equal reverse) in E; rewrite reverse_involutive in E. }
  rewrite <-E. destruct (is_empty (reverse w)) eqn:Ee; [by rewrite E in Ee|]. by rewrite reverse_involutive.
Qed.
