(* ===== verification/BTreeMap.v ===== *)
(** * Ordered string maps

    [BTreeMap<String, V>] as the code uses it: an association list kept in
    key order, so that [values()], [keys()] and [into_iter()] visit it in the
    order the program does.  [serde_json::Map] and [toml::map::Map] are the
    same structure (neither crate is built with [preserve_order]). *)

From S2P Require Import Prelude Text.

Abbreviation btree V := (list (text * V)).

Section btree.
Context {V : Type}.
Implicit Types (m : btree V) (k : text) (v : V).

Fixpoint bget (m : btree V) (k : text) : option V :=
  match m with
  | [] => None
  | (k', v) :: m' => if text_eqb k k' then Some v else bget m' k
  end.

Definition bhas (m : btree V) (k : text) : bool :=
  match bget m k with Some _ => true | None => false end.

(** [insert]: replaces the value of a present key, keeps the key order. *)
Fixpoint bset (k : text) (v : V) (m : btree V) : btree V :=
  match m with
  | [] => [(k, v)]
  | (k', v') :: m' =>
      match text_compare k k' with
      | Eq => (k, v) :: m'
      | Lt => (k, v) :: m
      | Gt => (k', v') :: bset k v m'
      end
  end.

Definition bdel (k : text) (m : btree V) : btree V :=
  List.filter (λ e, negb (text_eqb k e.1)) m.

(** [retain]. *)
Definition bretain (p : text → V → bool) (m : btree V) : btree V :=
  List.filter (λ e, p e.1 e.2) m.

(** [extend]. *)
Definition bextend (m : btree V) (l : list (text * V)) : btree V :=
  fold_left (λ m e, bset e.1 e.2 m) l m.

(** [collect::<BTreeMap<_, _>>()]. *)
Definition bcollect (l : list (text * V)) : btree V := bextend [] l.

Definition bkeys (m : btree V) : list text := m.*1.
Definition bvalues (m : btree V) : list V := m.*2.

(** The keys are strictly increasing. *)
Fixpoint bsorted (m : btree V) : Prop :=
  match m with
  | [] => True
  | (k, _) :: m' => Forall (λ e, text_compare k e.1 = Lt) m' ∧ bsorted m'
  end.

(** ** Lookups *)

Lemma bget_set_eq m k v : bget (bset k v m) k = Some v.
Proof.
  induction m as [|[k' v'] m IH]; simpl.
  - by rewrite text_eqb_refl.
  - destruct (text_compare k k') eqn:E; simpl; rewrite ?text_eqb_refl; try done.
    destruct (text_eqb k k') eqn:E'; [|done].
    apply text_eqb_eq in E' as <-. by rewrite text_compare_refl in E.
Qed.

Lemma text_eqb_neq k k' : k ≠ k' → text_eqb k k' = false.
Proof. intros. by apply bool_decide_eq_false. Qed.

Lemma bget_set_ne m k k' v : k ≠ k' → bget (bset k v m) k' = bget m k'.
Proof.
  intros Hne. induction m as [|[k1 v1] m IH]; simpl.
  - by rewrite text_eqb_neq.
  - destruct (text_compare k k1) eqn:E; simpl.
    + apply text_compare_eq in E as <-. by rewrite !text_eqb_neq.
    + by rewrite text_eqb_neq.
    + by rewrite IH.
Qed.

Lemma bget_set m k k' v :
  bget (bset k v m) k' = if text_eqb k k' then Some v else bget m k'.
Proof.
  destruct (text_eqb k k') eqn:E.
  - apply text_eqb_eq in E as <-. apply bget_set_eq.
  - apply bget_set_ne. by apply bool_decide_eq_false in E.
Qed.

Lemma bset_bset m k v v' : bset k v (bset k v' m) = bset k v m.
Proof.
  induction m as [|[k1 v1] m IH]; simpl; [by rewrite text_compare_refl|].
  destruct (text_compare k k1) eqn:E; simpl; rewrite ?text_compare_refl, ?E, ?IH; done.
Qed.

Lemma bget_filter (p : text → V → bool) m k :
  (∀ v v', p k v = p k v') →
  bget (bretain p m) k =
    match bget m k with Some v => if p k v then Some v else None | None => None end.
Proof.
  intros Hp. induction m as [|[k1 v1] m IH]; simpl; [done|].
  destruct (text_eqb k k1) eqn:E.
  - apply text_eqb_eq in E as <-. destruct (p k v1) eqn:Ep; simpl.
    + by rewrite text_eqb_refl.
    + rewrite IH. destruct (bget m k) as [v2|]; [|done]. by rewrite (Hp v2 v1), Ep.
  - destruct (p k1 v1); simpl; rewrite ?E; apply IH.
Qed.

Lemma bget_del_eq m k : bget (bdel k m) k = None.
Proof.
  change (bdel k m) with (bretain (λ k' _, negb (text_eqb k k')) m).
  rewrite bget_filter by done. rewrite text_eqb_refl. by destruct (bget m k).
Qed.

Lemma bget_del_ne m k k' : k ≠ k' → bget (bdel k m) k' = bget m k'.
Proof.
  intros H. change (bdel k m) with (bretain (λ k' _, negb (text_eqb k k')) m).
  rewrite bget_filter by done. rewrite text_eqb_neq by done. by destruct (bget m k').
Qed.

Lemma bget_elem m k v : bget m k = Some v → (k, v) ∈ m.
Proof.
  induction m as [|[k1 v1] m IH]; simpl; [done|].
  destruct (text_eqb k k1) eqn:E; [|set_solver].
  apply text_eqb_eq in E as <-. intros [= ->]. set_solver.
Qed.

Lemma bget_None m k : bget m k = None ↔ k ∉ bkeys m.
Proof.
  unfold bkeys. induction m as [|[k1 v1] m IH]; simpl; [set_solver|].
  destruct (text_eqb k k1) eqn:E.
  - apply text_eqb_eq in E as <-. set_solver.
  - apply bool_decide_eq_false in E. set_solver.
Qed.

Lemma bhas_spec m k : bhas m k = true ↔ k ∈ bkeys m.
Proof.
  unfold bhas. destruct (bget m k) as [v|] eqn:E.
  - split; [intros _|done]. apply bget_elem in E.
    apply (list_elem_of_fmap_2 fst) in E. done.
  - apply bget_None in E. split; [done|]. intros H. by destruct E.
Qed.

(** ** Order *)

Lemma Forall_bset (P : text * V → Prop) k v m :
  P (k, v) → Forall P m → Forall P (bset k v m).
Proof.
  intros Hk. induction 1 as [|[k' v'] m Hk' Hm IH]; simpl; [by constructor|].
  destruct (text_compare k k'); repeat constructor; auto.
Qed.

Lemma bset_sorted k v m : bsorted m → bsorted (bset k v m).
Proof.
  induction m as [|[k' v'] m IH]; simpl; [done|]. intros [Hk' Hm].
  destruct (text_compare k k') eqn:E; simpl.
  - apply text_compare_eq in E as <-. done.
  - split; [|done]. constructor; [done|].
    eapply Forall_impl; [exact Hk'|]. intros e He. by eapply text_compare_trans.
  - split; [|auto]. apply Forall_bset; [|done]. simpl.
    rewrite text_compare_antisym, E. done.
Qed.

Lemma Forall_filter_list (P : text * V → Prop) (p : text * V → bool) m :
  Forall P m → Forall P (List.filter p m).
Proof. induction 1; simpl; [done|]. case_match; auto. Qed.

Lemma bretain_sorted p m : bsorted m → bsorted (bretain p m).
Proof.
  induction m as [|[k v] m IH]; simpl; [done|]. intros [Hk Hm].
  destruct (p k v); simpl; [|auto]. split; [|auto]. by apply Forall_filter_list.
Qed.

Lemma bdel_sorted k m : bsorted m → bsorted (bdel k m).
Proof. apply (bretain_sorted (λ k' _, negb (text_eqb k k'))). Qed.

Lemma bextend_sorted m l : bsorted m → bsorted (bextend m l).
Proof.
  revert m. induction l as [|[k v] l IH]; intros m Hm; simpl; [done|].
  by apply IH, bset_sorted.
Qed.

Lemma bcollect_sorted l : bsorted (bcollect l).
Proof. by apply bextend_sorted. Qed.

Lemma bsorted_nodup m : bsorted m → NoDup (bkeys m).
Proof.
  induction m as [|[k v] m IH]; simpl; [constructor|]. intros [Hk Hm].
  constructor; [|by apply IH]. intros Hin. unfold bkeys in Hin.
  apply list_elem_of_fmap in Hin as [[k1 v1] [-> Hin]].
  rewrite Forall_forall in Hk. specialize (Hk _ Hin). simpl in Hk.
  by rewrite text_compare_refl in Hk.
Qed.

(** In a sorted map, an entry is what a lookup finds. *)
Lemma elem_bget m k v : bsorted m → (k, v) ∈ m → bget m k = Some v.
Proof.
  induction m as [|[k1 v1] m IH]; simpl; [set_solver|]. intros [Hk Hm] Hin.
  apply elem_of_cons in Hin as [[= -> ->]|Hin]; [by rewrite text_eqb_refl|].
  rewrite Forall_forall in Hk. specialize (Hk _ Hin). simpl in Hk.
  rewrite text_eqb_neq; [auto|]. intros ->. by rewrite text_compare_refl in Hk.
Qed.

(** Sorted maps with the same lookups are equal. *)
Lemma bsorted_ext m m' : bsorted m → bsorted m' → (∀ k, bget m k = bget m' k) → m = m'.
Proof.
  assert (Hsub : ∀ m m', bsorted m → bsorted m' → (∀ k, bget m k = bget m' k) →
                   ∀ e, e ∈ m → e ∈ m').
  { intros m1 m2 H1 H2 He [k v] Hin. apply bget_elem. rewrite <-He. by apply elem_bget. }
  revert m'. induction m as [|[k v] m IH]; intros [|[k' v'] m'] Hs Hs' He.
  - done.
  - specialize (He k'). simpl in He. by rewrite text_eqb_refl in He.
  - specialize (He k). simpl in He. by rewrite text_eqb_refl in He.
  - assert (Hk : k = k').
    { pose proof (Hsub _ _ Hs Hs' He (k, v)) as H1. pose proof (Hsub _ _ Hs' Hs (λ k, eq_sym (He k)) (k', v')) as H2.
      destruct Hs as [Hf _], Hs' as [Hf' _]. rewrite Forall_forall in Hf, Hf'.
      destruct (proj1 (elem_of_cons _ _ _) (H1 (list_elem_of_here _ _))) as [[= -> _]|Hin]; [done|].
      destruct (proj1 (elem_of_cons _ _ _) (H2 (list_elem_of_here _ _))) as [[= -> _]|Hin']; [done|].
      apply Hf' in Hin. apply Hf in Hin'. simpl in *. rewrite text_compare_antisym, Hin in Hin'. done. }
    subst k'. pose proof (He k) as Hv. simpl in Hv. rewrite !text_eqb_refl in Hv. injection Hv as <-.
    f_equal. apply IH; [apply Hs|apply Hs'|]. intros x. specialize (He x). simpl in He.
    destruct (text_eqb x k) eqn:E; [|done]. apply text_eqb_eq in E as ->.
    destruct Hs as [Hf _], Hs' as [Hf' _].
    assert (Hout : ∀ l, Forall (λ e, text_compare k e.1 = Lt) l → bget l k = None).
    { intros l Hl. apply bget_None. intros (e & -> & Hin)%list_elem_of_fmap.
      rewrite Forall_forall in Hl. specialize (Hl _ Hin). by rewrite text_compare_refl in Hl. }
    by rewrite !Hout.
Qed.

(** With distinct keys, an entry is what a lookup finds. *)
Lemma bget_nodup_elem m k v : NoDup (bkeys m) → (k, v) ∈ m → bget m k = Some v.
Proof.
  unfold bkeys. induction m as [|[k1 v1] m IH]; simpl; [set_solver|].
  intros [Hk Hm]%NoDup_cons Hin.
  apply elem_of_cons in Hin as [[= -> ->]|Hin]; [by rewrite text_eqb_refl|].
  rewrite text_eqb_neq; [auto|]. intros ->. apply Hk. by apply (list_elem_of_fmap_2 fst) in Hin.
Qed.

(** Extending a map: the last binding of a key in the list wins. *)
Lemma bget_extend m l k :
  bget (bextend m l) k =
    match bget (reverse l) k with Some v => Some v | None => bget m k end.
Proof.
  revert m. induction l as [|[k1 v1] l IH]; intros m; simpl; [done|].
  rewrite IH, reverse_cons, bget_set. clear.
  induction (reverse l) as [|[k2 v2] r IH]; simpl.
  - destruct (text_eqb k k1) eqn:E.
    + apply text_eqb_eq in E as <-. by rewrite text_eqb_refl.
    + by rewrite text_eqb_neq by (apply bool_decide_eq_false in E; done).
  - by destruct (text_eqb k k2).
Qed.

(** Collecting entries with distinct keys keeps them all. *)
Lemma bget_collect l k v : NoDup l.*1 → bget (bcollect l) k = Some v ↔ (k, v) ∈ l.
Proof.
  intros Hn. unfold bcollect. rewrite bget_extend. simpl.
  assert (Hr : NoDup (bkeys (reverse l))).
  { unfold bkeys. by rewrite fmap_reverse, reverse_Permutation. }
  split.
  - destruct (bget (reverse l) k) as [v'|] eqn:E; [|done]. intros [= ->].
    apply bget_elem in E. by rewrite elem_of_reverse in E.
  - intros Hin. rewrite (bget_nodup_elem (reverse l) k v Hr); [done|]. by apply elem_of_reverse.
Qed.

(** A binding of a collection is one of its entries, and every key is bound. *)
Lemma bcollect_elem l k v : bget (bcollect l) k = Some v → (k, v) ∈ l.
Proof.
  unfold bcollect. rewrite bget_extend. simpl. destruct (bget (reverse l) k) eqn:E; [|done]. intros [= ->].
  apply bget_elem in E. by rewrite elem_of_reverse in E.
Qed.

Lemma bcollect_some l k : k ∈ l.*1 → is_Some (bget (bcollect l) k).
Proof.
  intros Hk. unfold bcollect. rewrite bget_extend. destruct (bget (reverse l) k) eqn:E; [eauto|].
  apply bget_None in E. destruct E. unfold bkeys. by rewrite fmap_reverse, elem_of_reverse.
Qed.

Lemma bset_last k v m :
  Forall (λ e, text_compare e.1 k = Lt) m → bset k v m = m ++ [(k, v)].
Proof.
  induction 1 as [|[k' v'] m Hk Hm IH]; simpl in *; [done|].
  rewrite text_compare_antisym, Hk. simpl. by rewrite IH.
Qed.

Lemma bsorted_app_inv m k v l :
  bsorted (m ++ (k, v) :: l) → Forall (λ e, text_compare e.1 k = Lt) m.
Proof.
  induction m as [|[k' v'] m IH]; simpl; [constructor|]. intros [Hk Hm].
  constructor; [|auto]. rewrite Forall_app in Hk. destruct Hk as [_ Hk].
  by apply Forall_cons in Hk as [Hk _].
Qed.

Lemma bextend_sorted_id m l : bsorted (m ++ l) → bextend m l = m ++ l.
Proof.
  revert m. induction l as [|[k v] l IH]; intros m Hs; simpl; [by rewrite app_nil_r|].
  rewrite bset_last by (by eapply bsorted_app_inv). rewrite IH; by rewrite <-(assoc_L (++)).
Qed.

(** Replacing the value of an entry that is there. *)
Lemma bset_app m k v v' l : bsorted (m ++ (k, v') :: l) → bset k v (m ++ (k, v') :: l) = m ++ (k, v) :: l.
Proof.
  intros Hs. apply bsorted_app_inv in Hs. induction Hs as [|[k1 v1] m Hk Hm IH]; simpl in *.
  - by rewrite text_compare_refl.
  - by rewrite text_compare_antisym, Hk, IH.
Qed.

Lemma bget_app_eq m k v l : bsorted (m ++ (k, v) :: l) → bget (m ++ (k, v) :: l) k = Some v.
Proof. intros Hs. apply elem_bget; [done|]. set_solver. Qed.

(** Collecting what is in order already. *)
Lemma bcollect_id l : bsorted l → bcollect l = l.
Proof. intros. by apply (bextend_sorted_id []). Qed.

Lemma bkeys_set k v m k' : k' ∈ bkeys (bset k v m) ↔ k' = k ∨ k' ∈ bkeys m.
Proof.
  destruct (decide (k' = k)) as [->|Hne].
  - split; [by left|]. intros _. apply bhas_spec. unfold bhas. by rewrite bget_set_eq.
  - rewrite <-!bhas_spec. unfold bhas. rewrite bget_set_ne by done. naive_solver.
Qed.

End btree.

(** The order is a property of the keys. *)
Lemma bsorted_keys {V W} (m : btree V) (l : btree W) : m.*1 = l.*1 → bsorted m → bsorted l.
Proof.
  revert l. induction m as [|[k v] m IH]; intros [|[k' v'] l]; simpl; try done.
  intros [= <- Heq] [Hk Hm]. split; [|by apply IH].
  assert (H : Forall (λ k', text_compare k k' = Lt) m.*1) by (by apply Forall_fmap).
  change (m.*1 = l.*1) in Heq. rewrite Heq in H. by apply Forall_fmap in H.
Qed.

#[export] Hint Resolve bset_sorted bdel_sorted bretain_sorted bextend_sorted
  bcollect_sorted : host.
#[export] Hint Rewrite @bget_set_eq @bget_del_eq @text_eqb_refl : host.
