(* ===== verification/Value.v ===== *)
(** * JSON and TOML values

    [serde_json::Value] and [toml::Value] as data: the types of the values
    that requests, responses, plugin configs and product files carry.  A float
    is its 64-bit pattern; a TOML datetime is its text, which the host never
    looks into. *)

From S2P Require Import Prelude Text BTreeMap.

(** [serde_json::Number]: [as_i64], [as_u64] and [as_f64] tell the three
    representations apart. *)
Inductive number : Type :=
| PosInt (n : N)
| NegInt (z : Z)
| Float (bits : N).

Inductive json : Type :=
| JNull
| JBool (b : bool)
| JNumber (n : number)
| JString (s : text)
| JArray (l : list json)
| JObject (m : list (text * json)).

Inductive toml : Type :=
| TString (s : text)
| TInteger (z : Z)
| TFloat (bits : N)
| TBoolean (b : bool)
| TDatetime (s : text)
| TArray (l : list toml)
| TTable (m : list (text * toml)).

Definition i64_max : Z := 2 ^ 63 - 1.
Definition i64_min : Z := - 2 ^ 63.

(** The ranges the crates guarantee. *)
Definition wf_number (n : number) : Prop :=
  match n with
  | PosInt n => (n ≤ u64_max)%N
  | NegInt z => (i64_min ≤ z < 0)%Z
  | Float _ => True
  end.

Definition is_null (v : json) : bool := match v with JNull => true | _ => false end.
Definition as_str (v : json) : option text := match v with JString s => Some s | _ => None end.
Definition as_bool (v : json) : option bool := match v with JBool b => Some b | _ => None end.

Definition as_table (v : toml) : option (btree toml) :=
  match v with TTable m => Some m | _ => None end.
Definition is_table (v : toml) : bool := match v with TTable _ => true | _ => false end.
Definition toml_as_array (v : toml) : option (list toml) :=
  match v with TArray l => Some l | _ => None end.
Definition toml_as_str (v : toml) : option text :=
  match v with TString s => Some s | _ => None end.
(** [toml::Value::get] with a string index. *)
Definition toml_get (v : toml) (k : text) : option toml := m ← as_table v; bget m k.

(** [serde::Serialize] through [serde_json::to_value]. *)
Class Serialize (T : Type) := to_value : T → result json text.

Definition to_array {T} (f : T → json) (l : list T) : json := JArray (f <$> l).
Definition jnum (n : N) : json := JNumber (PosInt n).
(** [Option::None] is [null] unless the field is skipped. *)
Definition jopt {T} (f : T → json) (o : option T) : json :=
  match o with Some x => f x | None => JNull end.
(** A field with [skip_serializing_if = "Option::is_none"]. *)
Definition jskip {T} (k : text) (f : T → json) (o : option T) : list (text * json) :=
  match o with Some x => [(k, f x)] | None => [] end.
Definition jobj (fields : list (text * json)) : json := JObject (bcollect fields).

(** ** Induction on nested values *)

Section json_ind.
Variable P : json → Prop.
Hypotheses (Hnull : P JNull) (Hbool : ∀ b, P (JBool b)) (Hnum : ∀ n, P (JNumber n))
  (Hstr : ∀ s, P (JString s))
  (Harr : ∀ l, Forall P l → P (JArray l))
  (Hobj : ∀ m, Forall (λ e, P e.2) m → P (JObject m)).

Fixpoint json_ind_nested (v : json) : P v :=
  match v with
  | JNull => Hnull
  | JBool b => Hbool b
  | JNumber n => Hnum n
  | JString s => Hstr s
  | JArray l =>
      Harr l ((fix go (l : list json) : Forall P l :=
                 match l with
                 | [] => Forall_nil_2 P
                 | x :: l' => Forall_cons_2 P x l' (json_ind_nested x) (go l')
                 end) l)
  | JObject m =>
      Hobj m ((fix go (m : list (text * json)) : Forall (λ e, P e.2) m :=
                 match m with
                 | [] => Forall_nil_2 _
                 | e :: m' => Forall_cons_2 (λ e, P e.2) e m' (json_ind_nested e.2) (go m')
                 end) m)
  end.
End json_ind.
