(* ===== verification/Serde.v ===== *)
(** * Serde

    What [#[derive(Serialize, Deserialize)]] gives the types of the control API
    (crates/mutsuki-service-control/src/lib.rs): how a JSON value is read into a
    struct, field by field, with defaults, optional fields, unknown fields and
    the array form, and how a struct is written.  A [codec] puts both directions
    of a type together; what it writes it reads back ([codec_ok]), which every
    combinator preserves. *)

From S2P Require Import Prelude Text BTreeMap Value.

(** ** Deserialization *)

Inductive de_error : Type :=
| InvalidType (found : json) (expected : text)
| InvalidValue (found : json) (expected : text)
| InvalidLength (n : nat) (expected : text)
| UnknownField (field : text) (expected : list text)
| MissingField (field : text)
| Custom (m : text).

Abbreviation decoder A := (json → result A de_error).

Definition de_string : decoder text := λ v,
  match v with JString s => Ok s | _ => Err (InvalidType v (lit "a string")) end.

(** Unsigned integers; [expected] is the name of the type. *)
Definition de_unsigned (expected : text) : decoder N := λ v,
  match v with
  | JNumber (PosInt n) => Ok n
  | JNumber (NegInt _) => Err (InvalidValue v expected)
  | _ => Err (InvalidType v expected)
  end.

Definition de_option {A} (d : decoder A) : decoder (option A) := λ v,
  match v with JNull => Ok None | _ => rmap Some (d v) end.

Definition de_seq {A} (d : decoder A) : decoder (list A) := λ v,
  match v with
  | JArray l => collect_results (d <$> l)
  | _ => Err (InvalidType v (lit "a sequence"))
  end.

Definition de_map {A} (d : decoder A) : decoder (btree A) := λ v,
  match v with
  | JObject m => rmap bcollect (collect_results ((λ e, rmap (pair e.1) (d e.2)) <$> m))
  | _ => Err (InvalidType v (lit "a map"))
  end.

(** ** Structs

    A field has a decoder, what is used when an object lacks it, and what is
    used when an array is too short. *)
Record field (A : Type) : Type := mkField {
  f_name : text; f_decode : decoder A; f_missing : result A de_error; f_short : option A;
}.
Arguments mkField {A}. Arguments f_name {A}. Arguments f_decode {A}.
Arguments f_missing {A}. Arguments f_short {A}.

Definition required {A} (name : text) (d : decoder A) : field A :=
  mkField name d (Err (MissingField name)) None.
(** An [Option] without an attribute. *)
Definition optional {A} (name : text) (d : decoder A) : field (option A) :=
  mkField name (de_option d) (Ok None) None.
(** [#[serde(default)]] and [#[serde(default = "..")]]. *)
Definition defaulted {A} (name : text) (d : decoder A) (a : A) : field A := mkField name d (Ok a) (Some a).

(** The fields of a struct of type [T]. *)
Record fields (T : Type) : Type := mkFields {
  names : list text;
  check_field : text → json → result unit de_error;
  from_map : btree json → result T de_error;
  from_seq : text → nat → list json → result (T * list json) de_error;
}.
Arguments mkFields {T}. Arguments names {T}. Arguments check_field {T}.
Arguments from_map {T}. Arguments from_seq {T}.

Definition fnil : fields unit :=
  mkFields [] (λ _ _, Ok tt) (λ _, Ok tt) (λ _ _ l, Ok (tt, l)).

Definition fcons {A T} (f : field A) (fs : fields T) : fields (A * T) :=
  mkFields (f_name f :: names fs)
    (λ k v, if text_eqb k (f_name f) then rmap (λ _, tt) (f_decode f v) else check_field fs k v)
    (λ m,
       let? a := match bget m (f_name f) with Some v => f_decode f v | None => f_missing f end in
       let? t := from_map fs m in Ok (a, t))
    (λ expected i l,
       let? a := match l with
                 | v :: _ => f_decode f v
                 | [] => ok_or (f_short f) (InvalidLength i expected)
                 end in
       let? t := from_seq fs expected (S i) (tail l) in Ok ((a, t.1), t.2)).

(** The entries of an object in their order: a field is decoded, anything else
    is refused by a struct with [deny_unknown_fields] and skipped otherwise. *)
Fixpoint check_entries {T} (deny : bool) (fs : fields T) (m : btree json) : result unit de_error :=
  match m with
  | [] => Ok tt
  | (k, v) :: m =>
      let? _ := if bool_decide (k ∈ names fs) then check_field fs k v
                else if deny then Err (UnknownField k (names fs)) else Ok tt in
      check_entries deny fs m
  end.

Definition expectation {T} (name : text) (fs : fields T) : text :=
  let n := List.length (names fs) in
  lit "struct " ++ name ++ lit " with " ++ show_N (N.of_nat n) ++ (if (n =? 1)%nat then lit " element" else lit " elements").

Definition de_struct {T} (name : text) (deny : bool) (fs : fields T) : decoder T := λ v,
  match v with
  | JObject m => let? _ := check_entries deny fs m in from_map fs m
  | JArray l =>
      let? t := from_seq fs (expectation name fs) 0 l in
      match t.2 with
      | [] => Ok t.1
      | _ => Err (InvalidLength (List.length l) (lit "fewer elements in array"))
      end
  | _ => Err (InvalidType v (lit "struct " ++ name))
  end.

(** ** Lemmas *)

(** A struct value and the entries it is written as. *)
Inductive fits : ∀ {T}, fields T → T → list (text * json) → Prop :=
| fits_nil : fits fnil tt []
| fits_cons {A T} (f : field A) (fs : fields T) a t v es :
    f_decode f v = Ok a → fits fs t es → fits (fcons f fs) (a, t) ((f_name f, v) :: es).

Section lemmas.
Context {T : Type}.

Lemma fits_names (fs : fields T) t es : fits fs t es → names fs = es.*1.
Proof. induction 1 as [|A T' f fs a t v es Hf Hfs IH]; [done|]. simpl. by f_equal. Qed.

Lemma fits_map (fs : fields T) t es m :
  fits fs t es → (∀ k v, (k, v) ∈ es → bget m k = Some v) → from_map fs m = Ok t.
Proof.
  induction 1 as [|A T' f fs a t v es Hf Hfs IH]; intros Hm; [done|]. simpl.
  rewrite (Hm (f_name f) v) by set_solver. rewrite Hf. simpl. rewrite IH; [done|]. set_solver.
Qed.

Lemma fits_seq (fs : fields T) t es expected i rest :
  fits fs t es → from_seq fs expected i (es.*2 ++ rest) = Ok (t, rest).
Proof.
  intros Hfit. revert i. induction Hfit as [|A T' f fs a t v es Hf Hfs IH]; intros i; [done|]. simpl.
  rewrite Hf. simpl. by rewrite IH.
Qed.

Lemma fits_check (fs : fields T) t es k v :
  fits fs t es → NoDup es.*1 → (k, v) ∈ es → check_field fs k v = Ok tt.
Proof.
  induction 1 as [|A T' f fs a t w es Hf Hfs IH]; simpl; [set_solver|].
  intros [Hn Hd]%NoDup_cons [[= -> ->]|Hin]%elem_of_cons.
  - by rewrite text_eqb_refl, Hf.
  - rewrite text_eqb_neq; [auto|]. intros ->. apply Hn. by apply (list_elem_of_fmap_2 fst) in Hin.
Qed.

(** What was written is read, as an object and as an array. *)
Lemma fits_decode name deny (fs : fields T) t es :
  fits fs t es → NoDup es.*1 →
  de_struct name deny fs (jobj es) = Ok t ∧ de_struct name deny fs (JArray es.*2) = Ok t.
Proof.
  intros Hf Hn. split; simpl.
  - assert (Hall : ∀ m, (∀ k v, (k, v) ∈ m → (k, v) ∈ es) → check_entries deny fs m = Ok tt).
    { induction m as [|[k v] m IH]; intros Hm; [done|]. simpl.
      assert (Hin : (k, v) ∈ es) by (apply Hm; set_solver).
      rewrite bool_decide_true by (rewrite (fits_names _ _ _ Hf); by apply (list_elem_of_fmap_2 fst) in Hin).
      rewrite (fits_check _ _ _ _ _ Hf Hn Hin). simpl. apply IH. set_solver. }
    rewrite Hall; [simpl; apply (fits_map _ _ es); [done|]|].
    + intros k v Hin. by apply bget_collect.
    + intros k v Hin. apply bget_collect; [done|]. apply elem_bget; [apply bcollect_sorted|done].
  - pose proof (fits_seq _ _ _ (expectation name fs) 0 [] Hf) as Hs. rewrite app_nil_r in Hs. by rewrite Hs.
Qed.

(** The keys of an object that a strict struct accepts. *)
Lemma strict_names (fs : fields T) m :
  check_entries true fs m = Ok tt → Forall (λ e, e.1 ∈ names fs ∧ check_field fs e.1 e.2 = Ok tt) m.
Proof.
  induction m as [|[k v] m IH]; simpl; [constructor|].
  case_bool_decide as Hk; [|done]. destruct (check_field fs k v) as [[]|e] eqn:Ec; [|done]. simpl. intros Hm.
  constructor; auto.
Qed.

Lemma strict_names_2 (fs : fields T) m :
  Forall (λ e, e.1 ∈ names fs ∧ check_field fs e.1 e.2 = Ok tt) m → check_entries true fs m = Ok tt.
Proof.
  induction 1 as [|[k v] m [Hk Hc] Hm IH]; [done|]. cbn [check_entries]. simpl in Hk, Hc.
  by rewrite bool_decide_true, Hc.
Qed.

End lemmas.

Lemma de_seq_strings l v : de_seq de_string v = Ok l ↔ v = to_array JString l.
Proof.
  unfold to_array. split.
  - destruct v as [| | | |vs|]; simpl; try done. intros Hc%collect_results_ok. f_equal.
    revert l Hc. induction vs as [|v vs IH]; intros [|x l] Hc; simpl in *; try done.
    injection Hc as Hv Hvs. rewrite (IH l Hvs). destruct v; simpl in Hv; by simplify_eq.
  - intros ->. simpl. apply collect_results_ok. by rewrite <-list_fmap_compose.
Qed.

Lemma de_unsigned_num e n v : de_unsigned e v = Ok n ↔ v = jnum n.
Proof. unfold jnum. destruct v as [| |[]| | |]; simpl; naive_solver. Qed.

Lemma de_option_num e o : de_option (de_unsigned e) (jopt jnum o) = Ok o.
Proof. by destruct o. Qed.

Lemma de_map_strings m : bsorted m → de_map de_string (JObject ((λ e, (e.1, JString e.2)) <$> m)) = Ok m.
Proof.
  intros Hs. simpl. rewrite <-list_fmap_compose.
  assert (Hc : collect_results ((λ e : text * json, rmap (pair e.1) (de_string e.2)) ∘
      (λ e : text * text, (e.1, JString e.2)) <$> m) = Ok m).
  { apply collect_results_ok. apply list_fmap_ext. by intros ? [k v] _. }
  rewrite Hc. simpl. by rewrite bcollect_id.
Qed.

(** ** Codecs

    [enc] can fail (a 128-bit number that does not fit, a foreign type's own
    serializer); [fit] are the values the Rust type has, and [norm] is what a
    value reads back as. *)

Record codec (A : Type) : Type := mkCodec {
  enc : A → result json text; dec : decoder A; norm : A → A; fit : A → Prop;
}.
Arguments mkCodec {A}. Arguments enc {A}. Arguments dec {A}. Arguments norm {A}. Arguments fit {A}.

Class CodecOk {A} (c : codec A) : Prop :=
  codec_ok : ∀ a v, fit c a → enc c a = Ok v → dec c v = Ok (norm c a).

Definition de_bool : decoder bool := λ v,
  match v with JBool b => Ok b | _ => Err (InvalidType v (lit "a boolean")) end.
Definition de_u32 : decoder N := λ v,
  match v with
  | JNumber (PosInt n) => if (n <=? u32_max)%N then Ok n else Err (InvalidValue v (lit "u32"))
  | JNumber (NegInt _) => Err (InvalidValue v (lit "u32"))
  | _ => Err (InvalidType v (lit "u32"))
  end.
Definition de_i64 : decoder Z := λ v,
  match v with
  | JNumber (PosInt n) =>
      if (Z.of_N n <=? i64_max)%Z then Ok (Z.of_N n) else Err (InvalidValue v (lit "i64"))
  | JNumber (NegInt z) => Ok z
  | _ => Err (InvalidType v (lit "i64"))
  end.
Definition jint (z : Z) : json := JNumber (if (z <? 0)%Z then NegInt z else PosInt (Z.to_N z)).

(** A [serde_json::Value] holds no number above 64 bits. *)
Definition ser_u128 (n : N) : result json text :=
  if (n <=? u64_max)%N then Ok (jnum n) else Err (lit "number out of range").

Definition c_string : codec text := mkCodec (λ s, Ok (JString s)) de_string id (λ _, True).
Definition c_bool : codec bool := mkCodec (λ b, Ok (JBool b)) de_bool id (λ _, True).
Definition c_unsigned (name : text) : codec N := mkCodec (λ n, Ok (jnum n)) (de_unsigned name) id (λ _, True).
Definition c_u64 : codec N := c_unsigned (lit "u64").
Definition c_usize : codec N := c_unsigned (lit "usize").
Definition c_u32 : codec N := mkCodec (λ n, Ok (jnum n)) de_u32 id (λ n, (n ≤ u32_max)%N).
Definition c_u128 : codec N := mkCodec ser_u128 (de_unsigned (lit "u128")) id (λ _, True).
Definition c_i64 : codec Z := mkCodec (λ z, Ok (jint z)) de_i64 id (λ z, (i64_min ≤ z ≤ i64_max)%Z).
Definition c_json : codec json := mkCodec Ok Ok id (λ _, True).

(** [Some] of a value that is written as [null] reads back as [None]. *)
Definition c_option {A} (c : codec A) : codec (option A) :=
  mkCodec (λ o, match o with Some a => enc c a | None => Ok JNull end) (de_option (dec c))
    (λ o, a ← o; match enc c a with Ok JNull => None | _ => Some (norm c a) end)
    (λ o, match o with Some a => fit c a | None => True end).
Definition c_seq {A} (c : codec A) : codec (list A) :=
  mkCodec (λ l, rmap JArray (collect_results (enc c <$> l))) (de_seq (dec c)) (fmap (norm c)) (Forall (fit c)).
(** [BTreeMap<String, Value>]. *)
Definition c_json_map : codec (btree json) := mkCodec (λ m, Ok (JObject m)) (de_map Ok) id bsorted.

(** ** Fields with their attributes *)

Record fcodec (A : Type) : Type := mkFieldCodec {
  fc_field : field A;
  fc_enc : A → option (result json text);         (* [None] when the field is skipped *)
  fc_norm : A → A; fc_fit : A → Prop;
}.
Arguments mkFieldCodec {A}. Arguments fc_field {A}. Arguments fc_enc {A}. Arguments fc_norm {A}.
Arguments fc_fit {A}.

Definition req {A} (name : text) (c : codec A) : fcodec A :=
  mkFieldCodec (required name (dec c)) (λ a, Some (enc c a)) (norm c) (fit c).
Definition opt {A} (name : text) (c : codec A) : fcodec (option A) :=
  mkFieldCodec (optional name (dec c)) (λ o, Some (enc (c_option c) o)) (norm (c_option c)) (fit (c_option c)).
(** [#[serde(default)]]. *)
Definition dflt {A} (name : text) (c : codec A) (a : A) : fcodec A :=
  mkFieldCodec (defaulted name (dec c) a) (λ a, Some (enc c a)) (norm c) (fit c).
(** [#[serde(default, skip_serializing_if = "Option::is_none")]]. *)
Definition skip_none {A} (name : text) (c : codec A) : fcodec (option A) :=
  mkFieldCodec (defaulted name (de_option (dec c)) None)
    (λ o, match o with Some a => Some (enc c a) | None => None end) (norm (c_option c)) (fit (c_option c)).
(** [#[serde(default, skip_serializing_if = "BTreeMap::is_empty")]]. *)
Definition skip_empty {A} (name : text) (c : codec (list A)) : fcodec (list A) :=
  mkFieldCodec (defaulted name (dec c) [])
    (λ l, match l with [] => None | _ => Some (enc c l) end)
    (λ l, match l with [] => [] | _ => norm c l end) (fit c).

Record scodec (T : Type) : Type := mkStructCodec {
  sc_fields : fields T; sc_enc : T → result (list (text * json)) text; sc_norm : T → T; sc_fit : T → Prop;
}.
Arguments mkStructCodec {T}. Arguments sc_fields {T}. Arguments sc_enc {T}. Arguments sc_norm {T}.
Arguments sc_fit {T}.

Definition snil : scodec unit := mkStructCodec fnil (λ _, Ok []) id (λ _, True).
Definition scons {A T} (f : fcodec A) (s : scodec T) : scodec (A * T) :=
  mkStructCodec (fcons (fc_field f) (sc_fields s))
    (λ p, match fc_enc f p.1 with
          | None => sc_enc s p.2
          | Some r =>
              let? v := r in let? es := sc_enc s p.2 in Ok ((f_name (fc_field f), v) :: es)
          end)
    (λ p, (fc_norm f p.1, sc_norm s p.2)) (λ p, fc_fit f p.1 ∧ sc_fit s p.2).

(** A struct [R] with its fields as a tuple. *)
Definition c_struct {R T} (name : text) (deny : bool) (s : scodec T) (to : R → T) (of_ : T → R) : codec R :=
  mkCodec (λ r, rmap jobj (sc_enc s (to r))) (λ v, rmap of_ (de_struct name deny (sc_fields s) v))
    (λ r, of_ (sc_norm s (to r))) (λ r, sc_fit s (to r)).

Infix "&:" := scons (at level 60, right associativity) : rust_scope.

(** ** What a codec writes it reads back *)

Class FieldOk {A} (f : fcodec A) : Prop := field_ok : ∀ a, fc_fit f a →
  match fc_enc f a with
  | None => f_missing (fc_field f) = Ok (fc_norm f a)
  | Some (Ok v) => f_decode (fc_field f) v = Ok (fc_norm f a)
  | Some (Err _) => True
  end.

(** The entries of an object that lacks the fields that were skipped. *)
Inductive written : ∀ {T}, fields T → T → list (text * json) → Prop :=
| written_nil : written fnil tt []
| written_cons {A T} (f : field A) (fs : fields T) a t v es :
    f_decode f v = Ok a → written fs t es → written (fcons f fs) (a, t) ((f_name f, v) :: es)
| written_skip {A T} (f : field A) (fs : fields T) a t es :
    f_missing f = Ok a → written fs t es → written (fcons f fs) (a, t) es.

Class StructOk {T} (s : scodec T) : Prop := struct_ok : ∀ t es,
  sc_fit s t → sc_enc s t = Ok es → written (sc_fields s) (sc_norm s t) es.

Lemma written_names {T} (fs : fields T) t es : written fs t es → es.*1 ⊆ names fs.
Proof. induction 1 as [|A T' f fs a t v es Hf Hw IH|A T' f fs a t es Hf Hw IH]; simpl; set_solver. Qed.

Lemma written_nodup {T} (fs : fields T) t es : written fs t es → NoDup (names fs) → NoDup es.*1.
Proof.
  induction 1 as [|A T' f fs a t v es Hf Hw IH|A T' f fs a t es Hf Hw IH]; simpl; [done|..];
    intros [Hn Hd]%NoDup_cons; [|auto].
  constructor; [|auto]. intros Hin. by apply Hn, (written_names _ _ _ Hw).
Qed.

Lemma written_map {T} (fs : fields T) t es m :
  written fs t es → NoDup (names fs) → (∀ k v, (k, v) ∈ es → bget m k = Some v) →
  (∀ k, k ∈ names fs → k ∉ es.*1 → bget m k = None) → from_map fs m = Ok t.
Proof.
  induction 1 as [|A T' f fs a t v es Hf Hw IH|A T' f fs a t es Hf Hw IH]; [done|..];
    intros [Hn Hd]%NoDup_cons Hm Hno; simpl in *.
  - rewrite (Hm (f_name f) v) by set_solver. rewrite Hf. simpl. rewrite IH; [done|done|set_solver|].
    intros k Hk Hes. apply Hno; [set_solver|]. intros [->|?]%elem_of_cons; set_solver.
  - rewrite (Hno (f_name f)); [|set_solver|].
    + rewrite Hf. simpl. rewrite IH; [done|done|done|set_solver].
    + intros Hin. by apply Hn, (written_names _ _ _ Hw).
Qed.

Lemma written_check {T} (fs : fields T) t es k v :
  written fs t es → NoDup (names fs) → (k, v) ∈ es → check_field fs k v = Ok tt.
Proof.
  induction 1 as [|A T' f fs a t w es Hf Hw IH|A T' f fs a t es Hf Hw IH]; simpl; [set_solver|..];
    intros [Hn Hd]%NoDup_cons.
  - intros [[= -> ->]|Hin]%elem_of_cons; [by rewrite text_eqb_refl, Hf|].
    rewrite text_eqb_neq; [auto|]. intros ->. apply Hn, (written_names _ _ _ Hw).
    by apply (list_elem_of_fmap_2 fst) in Hin.
  - intros Hin. rewrite text_eqb_neq; [auto|]. intros ->. apply Hn, (written_names _ _ _ Hw).
    by apply (list_elem_of_fmap_2 fst) in Hin.
Qed.

Lemma written_decode {T} name deny (fs : fields T) t es :
  written fs t es → NoDup (names fs) → de_struct name deny fs (jobj es) = Ok t.
Proof.
  intros Hw Hd. pose proof (written_nodup _ _ _ Hw Hd) as Hn. simpl.
  assert (Hall : ∀ m, (∀ k v, (k, v) ∈ m → (k, v) ∈ es) → check_entries deny fs m = Ok tt).
  { induction m as [|[k v] m IH]; intros Hm; [done|]. simpl.
    assert (Hin : (k, v) ∈ es) by (apply Hm; set_solver).
    rewrite bool_decide_true
      by (apply (written_names _ _ _ Hw); by apply (list_elem_of_fmap_2 fst) in Hin).
    rewrite (written_check _ _ _ _ _ Hw Hd Hin). simpl. apply IH. set_solver. }
  rewrite Hall; [simpl; apply (written_map _ _ es); [done|done|..]|].
  - intros k v Hin. by apply bget_collect.
  - intros k _ Hk. destruct (bget (bcollect es) k) as [v|] eqn:E; [|done].
    apply bget_collect in E; [|done]. by apply (list_elem_of_fmap_2 fst) in E.
  - intros k v Hin. apply bget_collect; [done|]. apply elem_bget; [apply bcollect_sorted|done].
Qed.


#[export] Instance c_string_ok : CodecOk c_string.
Proof. by intros a v _ [= <-]. Qed.
#[export] Instance c_bool_ok : CodecOk c_bool.
Proof. by intros a v _ [= <-]. Qed.
#[export] Instance c_unsigned_ok name : CodecOk (c_unsigned name).
Proof. by intros a v _ [= <-]. Qed.
#[export] Instance c_u32_ok : CodecOk c_u32.
Proof. intros a v Ha [= <-]. simpl in *. by rewrite (proj2 (N.leb_le _ _) Ha). Qed.
#[export] Instance c_u128_ok : CodecOk c_u128.
Proof. intros a v _. simpl. unfold ser_u128. destruct (_ <=? _)%N; [|done]. by intros [= <-]. Qed.
#[export] Instance c_i64_ok : CodecOk c_i64.
Proof.
  intros a v Ha [= <-]. simpl in *. unfold jint, de_i64. destruct (Z.ltb_spec a 0); [done|].
  rewrite Z2N.id by lia. by rewrite (proj2 (Z.leb_le _ _)) by lia.
Qed.
#[export] Instance c_json_ok : CodecOk c_json.
Proof. by intros a v _ [= <-]. Qed.
#[export] Instance c_json_map_ok : CodecOk c_json_map.
Proof.
  intros m v Hm [= <-]. simpl in *.
  assert (Hc : collect_results ((λ e : text * json, Ok (E:=de_error) (e.1, e.2)) <$> m) = Ok m).
  { apply collect_results_ok. apply list_fmap_ext. by intros ? [] _. }
  unfold de_map. simpl. rewrite Hc. simpl. by rewrite bcollect_id.
Qed.

#[export] Instance c_option_ok {A} (c : codec A) `{!CodecOk c} : CodecOk (c_option c).
Proof.
  intros [a|] v Ha Hv; simpl in *; [|by injection Hv as <-]. rewrite Hv.
  pose proof (codec_ok a v Ha Hv) as Hd. unfold de_option. by destruct v; rewrite ?Hd.
Qed.

#[export] Instance c_seq_ok {A} (c : codec A) `{!CodecOk c} : CodecOk (c_seq c).
Proof.
  intros l v Hl. simpl. destruct (collect_results (enc c <$> l)) as [vs|e] eqn:E; simpl; [|done].
  intros [= <-]. apply collect_results_ok in E. simpl. apply collect_results_ok.
  revert vs E. induction Hl as [|a l Ha Hl IH]; intros [|v vs] E; simpl in *; try done.
  injection E as Ev Evs. rewrite (codec_ok a v Ha Ev). f_equal. by apply IH.
Qed.

#[export] Instance req_ok {A} name (c : codec A) `{!CodecOk c} : FieldOk (req name c).
Proof. intros a Ha. simpl. destruct (enc c a) eqn:E; [|done]. by apply codec_ok. Qed.
#[export] Instance opt_ok {A} name (c : codec A) `{!CodecOk c} : FieldOk (opt name c).
Proof. intros a Ha. simpl. destruct a as [a|]; [|done]. simpl. destruct (enc c a) eqn:E; [|done].
  pose proof (codec_ok (c:=c_option c) (Some a) a0 Ha E) as Hd. simpl in Hd. by rewrite E in Hd. Qed.
#[export] Instance dflt_ok {A} name (c : codec A) a `{!CodecOk c} : FieldOk (dflt name c a).
Proof. intros x Hx. simpl. destruct (enc c x) eqn:E; [|done]. by apply codec_ok. Qed.
#[export] Instance skip_none_ok {A} name (c : codec A) `{!CodecOk c} : FieldOk (skip_none name c).
Proof. intros [a|] Ha; [|done]. simpl. destruct (enc c a) eqn:E; [|done].
  pose proof (codec_ok (c:=c_option c) (Some a) a0 Ha E) as Hd. simpl in Hd. by rewrite E in Hd. Qed.
#[export] Instance skip_empty_ok {A} name (c : codec (list A)) `{!CodecOk c} : FieldOk (skip_empty name c).
Proof. intros [|a l] Ha; [done|]. simpl. destruct (enc c (a :: l)) eqn:E; [|done]. by apply codec_ok. Qed.

#[export] Instance snil_ok : StructOk snil.
Proof. intros [] es _ [= <-]. constructor. Qed.
#[export] Instance scons_ok {A T} (f : fcodec A) (s : scodec T) `{!FieldOk f, !StructOk s} : StructOk (f &: s).
Proof.
  intros [a t] es [Ha Ht]. simpl in *. pose proof (field_ok a Ha) as Hf.
  destruct (fc_enc f a) as [[v|e]|]; simpl; [|done|].
  - destruct (sc_enc s t) as [es'|e] eqn:E; simpl; [|done]. intros [= <-]. constructor; [done|].
    by apply struct_ok.
  - intros Hes. by apply written_skip; [|apply struct_ok].
Qed.

Lemma c_struct_ok {R T} name deny (s : scodec T) (to : R → T) of_ `{!StructOk s} :
  bool_decide (NoDup (names (sc_fields s))) = true → CodecOk (c_struct name deny s to of_).
Proof.
  intros Hn%bool_decide_eq_true r v Hr. simpl in *. destruct (sc_enc s (to r)) as [es|e] eqn:E; simpl; [|done].
  intros [= <-]. apply struct_ok in E; [|done]. by rewrite (written_decode _ _ _ _ _ E Hn).
Qed.

(** A codec of a struct whose fields have lawful codecs. *)
Ltac solve_codec := apply c_struct_ok; [apply _|vm_compute; reflexivity].

(** ** Codecs that never fail to write *)

Class CodecTotal {A} (c : codec A) : Prop := codec_total : ∀ a, is_ok (enc c a) = true.
Class FieldTotal {A} (f : fcodec A) : Prop := field_total : ∀ a r, fc_enc f a = Some r → is_ok r = true.
Class StructTotal {T} (s : scodec T) : Prop := struct_total : ∀ t, is_ok (sc_enc s t) = true.

#[export] Instance c_string_total : CodecTotal c_string.
Proof. done. Qed.
#[export] Instance c_bool_total : CodecTotal c_bool.
Proof. done. Qed.
#[export] Instance c_unsigned_total name : CodecTotal (c_unsigned name).
Proof. done. Qed.
#[export] Instance c_u32_total : CodecTotal c_u32.
Proof. done. Qed.
#[export] Instance c_i64_total : CodecTotal c_i64.
Proof. done. Qed.
#[export] Instance c_json_total : CodecTotal c_json.
Proof. done. Qed.
#[export] Instance c_json_map_total : CodecTotal c_json_map.
Proof. done. Qed.
#[export] Instance c_option_total {A} (c : codec A) `{!CodecTotal c} : CodecTotal (c_option c).
Proof. intros [a|]; [apply (codec_total a)|done]. Qed.
#[export] Instance c_seq_total {A} (c : codec A) `{!CodecTotal c} : CodecTotal (c_seq c).
Proof.
  intros l. simpl. induction l as [|a l IH]; simpl; [done|]. pose proof (codec_total a) as Ha.
  destruct (enc c a); [|done]. simpl in *. by destruct (collect_results _).
Qed.
#[export] Instance req_total {A} name (c : codec A) `{!CodecTotal c} : FieldTotal (req name c).
Proof. intros a r [= <-]. apply codec_total. Qed.
#[export] Instance opt_total {A} name (c : codec A) `{!CodecTotal c} : FieldTotal (opt name c).
Proof. intros a r [= <-]. apply (codec_total (c:=c_option c) a). Qed.
#[export] Instance dflt_total {A} name (c : codec A) a `{!CodecTotal c} : FieldTotal (dflt name c a).
Proof. intros x r [= <-]. apply codec_total. Qed.
#[export] Instance skip_none_total {A} name (c : codec A) `{!CodecTotal c} : FieldTotal (skip_none name c).
Proof. intros [a|] r; [|done]. intros [= <-]. apply codec_total. Qed.
#[export] Instance skip_empty_total {A} name (c : codec (list A)) `{!CodecTotal c} : FieldTotal (skip_empty name c).
Proof. intros [|a l] r; [done|]. intros [= <-]. apply codec_total. Qed.
#[export] Instance snil_total : StructTotal snil.
Proof. done. Qed.
#[export] Instance scons_total {A T} (f : fcodec A) (s : scodec T) `{!FieldTotal f, !StructTotal s} :
  StructTotal (f &: s).
Proof.
  intros [a t]. simpl. pose proof (struct_total (s:=s) t) as Ht. destruct (fc_enc f a) as [r|] eqn:E; [|done].
  pose proof (field_total a r E) as Hr. by destruct r, (sc_enc s t).
Qed.
#[export] Instance c_struct_total {R T} name deny (s : scodec T) (to : R → T) of_ `{!StructTotal s} :
  CodecTotal (c_struct name deny s to of_).
Proof. intros r. simpl. pose proof (struct_total (s:=s) (to r)). by destruct (sc_enc s (to r)). Qed.

(** ** Codecs that read back the value itself *)

Class CodecExact {A} (c : codec A) : Prop := codec_exact : ∀ a, norm c a = a.
Class NonNull {A} (c : codec A) : Prop := non_null : ∀ a, enc c a ≠ Ok JNull.
Class FieldExact {A} (f : fcodec A) : Prop := field_exact : ∀ a, fc_norm f a = a.
Class StructExact {T} (s : scodec T) : Prop := struct_exact : ∀ t, sc_norm s t = t.

#[export] Instance c_string_exact : CodecExact c_string.
Proof. done. Qed.
#[export] Instance c_bool_exact : CodecExact c_bool.
Proof. done. Qed.
#[export] Instance c_unsigned_exact name : CodecExact (c_unsigned name).
Proof. done. Qed.
#[export] Instance c_u32_exact : CodecExact c_u32.
Proof. done. Qed.
#[export] Instance c_u128_exact : CodecExact c_u128.
Proof. done. Qed.
#[export] Instance c_i64_exact : CodecExact c_i64.
Proof. done. Qed.
#[export] Instance c_json_map_exact : CodecExact c_json_map.
Proof. done. Qed.
#[export] Instance c_seq_exact {A} (c : codec A) `{!CodecExact c} : CodecExact (c_seq c).
Proof. intros l. simpl. rewrite <-(list_fmap_id l) at 2. apply list_fmap_ext. intros ? a _. apply codec_exact. Qed.
#[export] Instance c_option_exact {A} (c : codec A) `{!CodecExact c, !NonNull c} : CodecExact (c_option c).
Proof.
  intros [a|]; [|done]. simpl. pose proof (non_null a) as Hn. rewrite codec_exact.
  by destruct (enc c a) as [[]|].
Qed.

#[export] Instance c_string_nonnull : NonNull c_string.
Proof. done. Qed.
#[export] Instance c_unsigned_nonnull name : NonNull (c_unsigned name).
Proof. done. Qed.
#[export] Instance c_u32_nonnull : NonNull c_u32.
Proof. done. Qed.
#[export] Instance c_u128_nonnull : NonNull c_u128.
Proof. intros a. simpl. unfold ser_u128. by destruct (_ <=? _)%N. Qed.
#[export] Instance c_struct_nonnull {R T} name deny (s : scodec T) (to : R → T) of_ :
  NonNull (c_struct name deny s to of_).
Proof. intros r. simpl. by destruct (sc_enc s (to r)). Qed.

#[export] Instance req_exact {A} name (c : codec A) `{!CodecExact c} : FieldExact (req name c).
Proof. intros a. apply codec_exact. Qed.
#[export] Instance opt_exact {A} name (c : codec A) `{!CodecExact c, !NonNull c} : FieldExact (opt name c).
Proof. intros a. apply (codec_exact (c:=c_option c) a). Qed.
#[export] Instance dflt_exact {A} name (c : codec A) a `{!CodecExact c} : FieldExact (dflt name c a).
Proof. intros x. apply codec_exact. Qed.
#[export] Instance skip_none_exact {A} name (c : codec A) `{!CodecExact c, !NonNull c} :
  FieldExact (skip_none name c).
Proof. intros a. apply (codec_exact (c:=c_option c) a). Qed.
#[export] Instance snil_exact : StructExact snil.
Proof. done. Qed.
#[export] Instance scons_exact {A T} (f : fcodec A) (s : scodec T) `{!FieldExact f, !StructExact s} :
  StructExact (f &: s).
Proof. intros [a t]. simpl. by rewrite field_exact, struct_exact. Qed.

Lemma c_struct_exact {R T} name deny (s : scodec T) (to : R → T) of_ `{!StructExact s} :
  (∀ r, of_ (to r) = r) → CodecExact (c_struct name deny s to of_).
Proof. intros Hr r. simpl. by rewrite struct_exact. Qed.

Ltac solve_exact := apply c_struct_exact; [apply _|by intros []].
