(* ===== verification/Control.v ===== *)
(** * The control API

    [crates/mutsuki-service-control/src/lib.rs]: control methods with their
    wire opcodes, requests, responses, errors, and the handler interface that
    the transports call and the service runtime implements. *)

From S2P Require Import Prelude Text BTreeMap Value.

Inductive ControlMethod : Type :=
| ServiceStatus | ServiceShutdown | CoreStatus | PluginList | PluginReload
| PluginDeploymentSet | PluginDeploymentClear | RunnerList | RunnerRestart
| RunnerStop | EventSourceList | EventSourceRestart | CoreBeginDrain
| TaskSubmitBatch | TaskList | TaskCancel | TaskOutcome | TaskEventsAfter
| HealthCheck | LogTail | TaskOutcomesBatch | TaskWait | RuntimeStatistics
| HostMetrics.

#[export] Instance ControlMethod_eq_dec : EqDecision ControlMethod.
Proof. solve_decision. Defined.

Definition opcode (m : ControlMethod) : N :=
  match m with
  | ServiceStatus => 0x0001 | ServiceShutdown => 0x0002 | CoreStatus => 0x0003
  | PluginList => 0x0004 | PluginReload => 0x0005 | PluginDeploymentSet => 0x0006
  | PluginDeploymentClear => 0x0007 | RunnerList => 0x0008 | RunnerRestart => 0x0009
  | RunnerStop => 0x000A | EventSourceList => 0x000B | EventSourceRestart => 0x000C
  | CoreBeginDrain => 0x000D | TaskSubmitBatch => 0x000E | TaskList => 0x000F
  | TaskCancel => 0x0010 | TaskOutcome => 0x0011 | TaskEventsAfter => 0x0012
  | HealthCheck => 0x0013 | LogTail => 0x0014 | TaskOutcomesBatch => 0x0015
  | TaskWait => 0x0016 | RuntimeStatistics => 0x0017 | HostMetrics => 0x0018
  end.

Definition from_opcode (op : N) : option ControlMethod :=
  match op with
  | 0x0001%N => Some ServiceStatus
  | 0x0002%N => Some ServiceShutdown
  | 0x0003%N => Some CoreStatus
  | 0x0004%N => Some PluginList
  | 0x0005%N => Some PluginReload
  | 0x0006%N => Some PluginDeploymentSet
  | 0x0007%N => Some PluginDeploymentClear
  | 0x0008%N => Some RunnerList
  | 0x0009%N => Some RunnerRestart
  | 0x000A%N => Some RunnerStop
  | 0x000B%N => Some EventSourceList
  | 0x000C%N => Some EventSourceRestart
  | 0x000D%N => Some CoreBeginDrain
  | 0x000E%N => Some TaskSubmitBatch
  | 0x000F%N => Some TaskList
  | 0x0010%N => Some TaskCancel
  | 0x0011%N => Some TaskOutcome
  | 0x0012%N => Some TaskEventsAfter
  | 0x0013%N => Some HealthCheck
  | 0x0014%N => Some LogTail
  | 0x0015%N => Some TaskOutcomesBatch
  | 0x0016%N => Some TaskWait
  | 0x0017%N => Some RuntimeStatistics
  | 0x0018%N => Some HostMetrics
  | _ => None
  end.

(** Mutating operations stay ordered on a connection under multiplexing. *)
Definition is_mutating (m : ControlMethod) : bool :=
  match m with
  | ServiceShutdown | PluginReload | PluginDeploymentSet | PluginDeploymentClear
  | RunnerRestart | RunnerStop | EventSourceRestart | CoreBeginDrain
  | TaskSubmitBatch | TaskCancel => true
  | _ => false
  end.

Record ControlRequest : Type := mkRequest {
  req_token : text;
  req_method : ControlMethod;
  req_params : json;
}.

Record ControlErrorBody : Type := mkErrorBody { code : text; message : text }.

Record ControlResponse : Type := mkResponse {
  resp_ok : bool;
  resp_result : option json;
  resp_error : option ControlErrorBody;
}.

Inductive ControlError : Type :=
| Unauthorized
| Unsupported (method : text)
| BadRequest (message : text)
| Failed (message : text).

(** The [Display] of [ControlError]. *)
Definition control_error_text (e : ControlError) : text :=
  match e with
  | Unauthorized => lit "unauthorized control request"
  | Unsupported m => lit "unsupported control method: " ++ m
  | BadRequest m => lit "bad request: " ++ m
  | Failed m => lit "operation failed: " ++ m
  end.

Definition response_err (error : ControlError) : ControlResponse :=
  let '(code, message) :=
    match error with
    | Unauthorized => (lit "unauthorized", control_error_text error)
    | Unsupported method =>
        (lit "unsupported", method ++ lit " is not supported by the current runtime API")
    | BadRequest message => (lit "bad_request", message)
    | Failed message => (lit "failed", message)
    end in
  mkResponse false None (Some (mkErrorBody code message)).

Definition response_ok {T} `{Serialize T} (r : T) : ControlResponse :=
  match to_value r with
  | Ok value => mkResponse true (Some value) None
  | Err error => response_err (Failed error)
  end.

Definition empty_ok : ControlResponse := mkResponse true (Some JNull) None.

(** What a response is allowed to be: a success carries a result and no
    error, a failure carries an error and no result. *)
Definition wf_response (r : ControlResponse) : Prop :=
  if resp_ok r then is_Some (resp_result r) ∧ resp_error r = None
  else resp_result r = None ∧ is_Some (resp_error r).

(** ** The handler interface

    [trait ControlHandler]: one operation, which may change the state it
    serves.  The transports are defined over any instance; the service
    runtime is one. *)
Class ControlHandler (S : Type) := handle : ControlRequest → S → S * ControlResponse.

(** What a handler promises to the transports. *)
Class ControlHandlerOk (S : Type) {H : ControlHandler S} : Prop :=
  handle_wf : ∀ req s, wf_response (handle req s).2.

(** ** Lemmas *)

Lemma wf_response_err e : wf_response (response_err e).
Proof. destruct e; unfold response_err, wf_response; simpl; eauto. Qed.

Lemma wf_response_ok {T} `{Serialize T} (x : T) : wf_response (response_ok x).
Proof.
  unfold response_ok. destruct (to_value x); [|apply wf_response_err].
  unfold wf_response; simpl; eauto.
Qed.

Lemma wf_empty_ok : wf_response empty_ok.
Proof. unfold wf_response; simpl; eauto. Qed.
#[export] Hint Resolve wf_response_err wf_response_ok wf_empty_ok : host.

Lemma from_opcode_opcode m : from_opcode (opcode m) = Some m.
Proof. by destruct m. Qed.

Lemma opcode_bounds m : (1 ≤ opcode m ≤ 0x18)%N.
Proof. destruct m; simpl; lia. Qed.

Lemma from_opcode_Some op m : from_opcode op = Some m → opcode m = op.
Proof.
  intros H. destruct op as [|p]; [done|].
  do 6 try destruct p as [p|p|]; simpl in H; by simplify_eq.
Qed.

(** Opcodes and methods correspond one to one, [from_opcode] accepts
    exactly the opcodes of methods, and no method uses the cancel opcode. *)
Theorem opcode_bijection (op : N) (m : ControlMethod) :
  (from_opcode op = Some m ↔ opcode m = op) ∧ opcode m ≠ 0x7FFF%N.
Proof.
  split.
  - split; [apply from_opcode_Some|]. intros <-. apply from_opcode_opcode.
  - pose proof (opcode_bounds m). lia.
Qed.
