(* ===== verification/ConfigTypes.v ===== *)
(** * Service configuration data

    The sections of [crates/mutsuki-service-config/src/lib.rs] with their
    defaults, and the worker pool settings derived from a profile.  [windows]
    stands for [cfg(windows)] and [home] for [dirs::home_dir()].  Paths are
    Unix path strings; [path_join] is [Path::join]. *)

From S2P Require Import Prelude Text BTreeMap Value.

Definition is_absolute (p : text) : bool := starts_with (lit "/") p.

Definition path_join (base p : text) : text :=
  if is_absolute p then p
  else if is_empty base || ends_with (lit "/") base then base ++ p
  else base ++ lit "/" ++ p.

Inductive IpcTransport : Type := NamedPipe | UnixSocket | TcpDebug.
Inductive IpcCodec : Type := Binary | Jsonl.
Inductive WorkerProfile : Type := LowResource | Desktop | Server.

#[export] Instance IpcTransport_eq_dec : EqDecision IpcTransport.
Proof. solve_decision. Defined.
#[export] Instance IpcCodec_eq_dec : EqDecision IpcCodec.
Proof. solve_decision. Defined.

Record ServiceSection : Type := mkServiceSection {
  profile : text; instance_id : text; home_dir : text; data_dir : text;
  log_dir : text; plugin_dir : text; run_dir : text;
}.

Record CoreSection : Type := mkCoreSection {
  max_tasks : N; shutdown_timeout_ms : N; worker_profile : WorkerProfile;
  worker_threads : option N; blocking_threads : option N;
  pool_queue_limit : option N; pool_max_inflight_bytes : option N;
  max_isolated_workers : option N; runner_wall_clock_timeout_ms : option N;
  cancel_grace_period_ms : option N; worker_health_timeout_ms : option N;
}.

Record IpcSection : Type := mkIpcSection {
  ipc_enabled : bool; ipc_transport : IpcTransport; ipc_codec : IpcCodec;
  ipc_name : text; ipc_token : option text; tcp_debug_addr : option text;
  sec_max_frame_bytes : N; sec_max_payload_bytes : N; sec_max_jsonl_line_bytes : N;
  sec_max_in_flight : N; sec_idle_timeout_ms : N; sec_request_timeout_ms : N;
}.

Record ConfiguredPluginSelection : Type := mkSelection {
  sel_id : text; sel_enabled : bool; sel_config : json;
}.

Record PluginsSection : Type := mkPluginsSection {
  configured : list ConfiguredPluginSelection;
  dynamic_dirs : list text; disabled_dir : text;
}.

Record RunnersSection : Type := mkRunnersSection {
  restart : bool; max_restart_per_minute : N; graceful_shutdown_ms : N;
  env_allowlist : list text;
}.

Record ObserveSection : Type := mkObserveSection {
  console : bool; observe_json : bool; log_file : text; panic_file : text;
}.

Record SecuritySection : Type := mkSecuritySection {
  control_token_env : text; secret_env_prefix : text; secret_file : option text;
}.

(** The serialized sections; the secret store and the plugin store are
    handles on shared state, modelled in [Config]. *)
Record ServiceConfig : Type := mkServiceConfig {
  service : ServiceSection; core : CoreSection; ipc : IpcSection;
  plugins : PluginsSection; runners : RunnersSection; observe : ObserveSection;
  security : SecuritySection;
}.

(** ** Defaults *)

Definition default_transport (windows : bool) : IpcTransport :=
  if windows then NamedPipe else UnixSocket.

Definition default_home_dir (home : option text) : text :=
  path_join (default (lit ".") home) (lit ".mutsuki").

Definition default_env_allowlist (windows : bool) : list text :=
  lit "PATH" :: if windows then [lit "SystemRoot"; lit "WINDIR"; lit "COMSPEC"] else [].

Definition default_service_section (home : option text) : ServiceSection :=
  mkServiceSection (lit "default") (lit "default") (default_home_dir home)
    (lit "data") (lit "logs") (lit "plugins") (lit "run").

Definition default_core_section : CoreSection :=
  mkCoreSection 4096 30000 Desktop None None None None None None (Some 30000%N) None.

Definition default_ipc_section (windows : bool) : IpcSection :=
  mkIpcSection true (default_transport windows) Binary (lit "mutsuki-service-default")
    None None (1024 * 1024) (512 * 1024) (256 * 1024) 64 60000 30000.

Definition default_plugins_section (home : option text) : PluginsSection :=
  let home := default_home_dir home in
  mkPluginsSection []
    [path_join (path_join home (lit "plugins")) (lit "installed")]
    (path_join (path_join home (lit "plugins")) (lit "disabled")).

Definition default_runners_section (windows : bool) : RunnersSection :=
  mkRunnersSection true 5 5000 (default_env_allowlist windows).

Definition default_observe_section : ObserveSection :=
  mkObserveSection true false (lit "service.log") (lit "panic.log").

Definition default_security_section : SecuritySection :=
  mkSecuritySection (lit "MUTSUKI_CONTROL_TOKEN") (lit "MUTSUKI_SECRET_") None.

Definition default_config (windows : bool) (home : option text) : ServiceConfig :=
  mkServiceConfig (default_service_section home) default_core_section
    (default_ipc_section windows) (default_plugins_section home)
    (default_runners_section windows) default_observe_section
    default_security_section.

(** ** Worker pool settings *)

Record WorkerPoolSettings : Type := mkWorkerPool {
  compute_threads : N; pool_blocking_threads : N; queue_capacity : N;
  max_inflight_bytes : N; pool_max_isolated_workers : N;
}.

Definition clamp (lo hi v : N) : N := N.min hi (N.max lo v).

Definition profile_settings (p : WorkerProfile) (parallelism : N) : WorkerPoolSettings :=
  match p with
  | LowResource => mkWorkerPool 1 1 64 (8 * 1024 * 1024) 1
  | Desktop => mkWorkerPool parallelism 2 256 (64 * 1024 * 1024) 1
  | Server =>
      let blocking_threads := clamp 2 8 (parallelism / 4) in
      mkWorkerPool parallelism blocking_threads 1024 (256 * 1024 * 1024) blocking_threads
  end.

(** [available] is [std::thread::available_parallelism()]. *)
Definition worker_pool_settings (c : CoreSection) (available : option N) : WorkerPoolSettings :=
  let parallelism := N.max 1 (default 2%N available) in
  let profile := profile_settings (worker_profile c) parallelism in
  mkWorkerPool
    (default (compute_threads profile) (worker_threads c))
    (default (pool_blocking_threads profile) (blocking_threads c))
    (default (queue_capacity profile) (pool_queue_limit c))
    (default (max_inflight_bytes profile) (pool_max_inflight_bytes c))
    (default (pool_max_isolated_workers profile) (max_isolated_workers c)).

(** [ServiceConfig::ipc_endpoint]. *)
Definition ipc_endpoint (c : ServiceConfig) : text :=
  match ipc_transport (ipc c) with
  | NamedPipe => ipc_name (ipc c)
  | UnixSocket => path_join (run_dir (service c)) (ipc_name (ipc c) ++ lit ".sock")
  | TcpDebug => default (lit "127.0.0.1:7687") (tcp_debug_addr (ipc c))
  end.

(** With no explicit override every worker profile yields a usable pool:
    at least one compute and one blocking thread, at most as many isolated
    workers as blocking threads, blocking threads within the documented
    bounds; and an explicit override replaces exactly its own setting. *)
Theorem worker_pool_bounds (c : CoreSection) (available : option N) :
  let s := worker_pool_settings c available in
  let d := worker_pool_settings
             (mkCoreSection (max_tasks c) (shutdown_timeout_ms c) (worker_profile c)
                None None None None None None None None) available in
  (1 ≤ compute_threads d)%N ∧ (1 ≤ pool_blocking_threads d ≤ 8)%N ∧
  (pool_max_isolated_workers d ≤ pool_blocking_threads d)%N ∧
  (worker_profile c = Server →
     (2 ≤ pool_blocking_threads d)%N ∧
     compute_threads d = compute_threads (profile_settings Desktop (N.max 1 (default 2%N available)))) ∧
  compute_threads s = default (compute_threads d) (worker_threads c) ∧
  pool_blocking_threads s = default (pool_blocking_threads d) (blocking_threads c) ∧
  queue_capacity s = default (queue_capacity d) (pool_queue_limit c) ∧
  max_inflight_bytes s = default (max_inflight_bytes d) (pool_max_inflight_bytes c) ∧
  pool_max_isolated_workers s = default (pool_max_isolated_workers d) (max_isolated_workers c).
Proof.
  unfold worker_pool_settings, profile_settings, clamp.
  destruct (worker_profile c); simpl; repeat split; try done; try lia.
Qed.
