(* ===== verification/Frame.v ===== *)
(** * The binary control wire

    [crates/mutsuki-service-ipc/src/{error,limits,frame}.rs]: IPC errors, the
    connection limits, and the length-prefixed frame with its header: encoding,
    header decoding and whole-frame decoding, every error path included. *)

From S2P Require Import Prelude Text Value ConfigTypes.

(** ** Errors *)

(** [std::io::Error], as far as the code looks at it. *)
Record io_error : Type := mkIo { is_unexpected_eof : bool; io_text : text }.

Inductive IpcError : Type :=
| UnsupportedTransport (t : IpcTransport)
| Io (e : io_error)
| Protocol (m : text)
| JsonError (m : text)
| FrameOversized (actual limit : N)
| PayloadOversized (actual limit : N)
| JsonlLineOversized (actual limit : N)
| Truncated (expected actual : N)
| UnknownOpcode (op : N)
| UnknownFlags (bits : N)
| InvalidMagic (m : N)
| InvalidRequestId
| DuplicateResponse (id : N)
| LateResponse (id : N)
| PendingLimitExceeded (n : N)
| Timeout
| Cancelled
| Closed
| Draining.

Abbreviation IpcResult A := (result A IpcError).

Definition transport_debug (t : IpcTransport) : text :=
  match t with
  | NamedPipe => lit "NamedPipe" | UnixSocket => lit "UnixSocket" | TcpDebug => lit "TcpDebug"
  end.

(** The [Display] of [IpcError]. *)
Definition ipc_error_text (e : IpcError) : text :=
  let sized what actual limit :=
    what ++ lit " oversized: actual=" ++ show_N actual ++ lit " limit=" ++ show_N limit in
  match e with
  | UnsupportedTransport t =>
      lit "ipc transport " ++ transport_debug t ++ lit " is not supported on this platform"
  | Io e => lit "ipc io error: " ++ io_text e
  | Protocol m => lit "ipc protocol error: " ++ m
  | JsonError m => lit "json decode error: " ++ m
  | FrameOversized a l => sized (lit "frame") a l
  | PayloadOversized a l => sized (lit "payload") a l
  | JsonlLineOversized a l => sized (lit "jsonl line") a l
  | Truncated e a => lit "truncated frame: expected=" ++ show_N e ++ lit " actual=" ++ show_N a
  | UnknownOpcode op => lit "unknown opcode: " ++ show_hex_prefixed 6 op
  | UnknownFlags b => lit "unknown flags: " ++ show_hex_prefixed 6 b
  | InvalidMagic m => lit "invalid magic: " ++ show_hex_prefixed 10 m
  | InvalidRequestId => lit "invalid request id"
  | DuplicateResponse id => lit "duplicate response for request " ++ show_N id
  | LateResponse id => lit "late response for unknown request " ++ show_N id
  | PendingLimitExceeded n => lit "pending request limit exceeded (" ++ show_N n ++ lit ")"
  | Timeout => lit "request timed out"
  | Cancelled => lit "request cancelled"
  | Closed => lit "connection closed"
  | Draining => lit "server is draining"
  end.

(** ** Limits *)

Record ControlIpcLimits : Type := mkLimits {
  max_frame_bytes : N; max_payload_bytes : N; max_jsonl_line_bytes : N;
  max_in_flight : N; idle_timeout_ms : N; request_timeout_ms : N;
  max_msgpack_nesting_depth : N;
}.

Definition DEFAULT_MAX_MSGPACK_NESTING_DEPTH : N := 64.

Definition from_section (s : IpcSection) : ControlIpcLimits :=
  mkLimits (sec_max_frame_bytes s)
    (N.min (sec_max_payload_bytes s) (sec_max_frame_bytes s))
    (sec_max_jsonl_line_bytes s) (N.max 1 (sec_max_in_flight s))
    (sec_idle_timeout_ms s) (sec_request_timeout_ms s)
    DEFAULT_MAX_MSGPACK_NESTING_DEPTH.

Definition from_config (c : ServiceConfig) : ControlIpcLimits := from_section (ipc c).

Record ControlIpcProfile : Type := mkProfile { codec : IpcCodec; limits : ControlIpcLimits }.

Definition profile_from_config (c : ServiceConfig) : ControlIpcProfile :=
  mkProfile (ipc_codec (ipc c)) (from_config c).

(** ** Frames *)

Definition CONTROL_WIRE_MAGIC : N := 0x4d534843.
Definition CONTROL_WIRE_MAJOR : N := 1.
Definition CONTROL_WIRE_MINOR : N := 0.
Definition BINARY_LENGTH_PREFIX_LEN : N := 4.
Definition BINARY_HEADER_LEN : N := 24.
Definition OPCODE_CANCEL : N := 0x7FFF.

(** [FrameFlags(u16)]. *)
Definition REQUEST : N := 0x0001.
Definition RESPONSE : N := 0x0002.
Definition ERROR : N := 0x0004.
Definition CANCEL : N := 0x0008.
Definition KNOWN : N := N.lor (N.lor (N.lor REQUEST RESPONSE) ERROR) CANCEL.

Definition contains_flag (flags other : N) : bool := (N.land flags other =? other)%N.

(** [!KNOWN] on sixteen bits is [KNOWN ^ 0xFFFF]. *)
Definition flags_from_bits (bits : N) : IpcResult N :=
  if negb (N.land bits (N.lxor KNOWN u16_max) =? 0)%N then Err (UnknownFlags bits)
  else
    let is_request := contains_flag bits REQUEST in
    let is_response := contains_flag bits RESPONSE in
    let is_cancel := contains_flag bits CANCEL in
    if is_cancel then
      if is_response || contains_flag bits ERROR then Err (UnknownFlags bits) else Ok bits
    else if Bool.eqb is_request is_response then Err (UnknownFlags bits)
    else if contains_flag bits ERROR && negb is_response then Err (UnknownFlags bits)
    else Ok bits.

Record FrameHeader : Type := mkHeader {
  h_opcode : N; h_flags : N; h_request_id : N; h_payload_len : N;
}.

Record BinaryFrame : Type := mkFrame { f_header : FrameHeader; f_payload : list byte }.

#[export] Instance FrameHeader_eq_dec : EqDecision FrameHeader.
Proof. solve_decision. Defined.

Definition validate_frame_length (body_len : N) (limits : ControlIpcLimits) : IpcResult unit :=
  if (body_len =? 0)%N || (max_frame_bytes limits <? body_len)%N then
    Err (FrameOversized body_len (max_frame_bytes limits))
  else if (body_len <? BINARY_HEADER_LEN)%N then
    Err (Truncated BINARY_HEADER_LEN body_len)
  else Ok tt.

(** The body as it is written: [as u32] keeps the low 32 bits. *)
Definition frame_bytes (opcode flags request_id : N) (payload : list byte) : list byte :=
  be_bytes 4 (wrap 32 (BINARY_HEADER_LEN + len payload))
  ++ be_bytes 4 CONTROL_WIRE_MAGIC
  ++ be_bytes 2 CONTROL_WIRE_MAJOR
  ++ be_bytes 2 CONTROL_WIRE_MINOR
  ++ be_bytes 2 opcode
  ++ be_bytes 2 flags
  ++ be_bytes 8 request_id
  ++ be_bytes 4 (wrap 32 (len payload))
  ++ payload.

(** [encode_frame_into] overwrites the buffer [out]; on an error the buffer
    keeps its content. *)
Definition encode_frame_into (out : list byte) (opcode flags request_id : N)
    (payload : list byte) (limits : ControlIpcLimits) : list byte * IpcResult unit :=
  if (request_id =? 0)%N then (out, Err InvalidRequestId)
  else if (max_payload_bytes limits <? len payload)%N then
    (out, Err (PayloadOversized (len payload) (max_payload_bytes limits)))
  else
    match validate_frame_length (BINARY_HEADER_LEN + len payload) limits with
    | Err e => (out, Err e)
    | Ok _ => (frame_bytes opcode flags request_id payload, Ok tt)
    end.

Definition encode_frame (opcode flags request_id : N) (payload : list byte)
    (limits : ControlIpcLimits) : IpcResult (list byte) :=
  let '(encoded, r) := encode_frame_into [] opcode flags request_id payload limits in
  let? _ := r in Ok encoded.

(** [body[a..b]]. *)
Definition slice (a b : nat) (l : list byte) : list byte := take (b - a) (drop a l).

Definition decode_frame_header (body : list byte) (limits : ControlIpcLimits)
    : IpcResult FrameHeader :=
  if (len body <? BINARY_HEADER_LEN)%N then Err (Truncated BINARY_HEADER_LEN (len body))
  else
    let magic := be_value (slice 0 4 body) in
    if negb (magic =? CONTROL_WIRE_MAGIC)%N then Err (InvalidMagic magic)
    else
      let major := be_value (slice 4 6 body) in
      if negb (major =? CONTROL_WIRE_MAJOR)%N then
        Err (Protocol (lit "unsupported control wire major " ++ show_N major))
      else
        let opcode := be_value (slice 8 10 body) in
        let? flags := flags_from_bits (be_value (slice 10 12 body)) in
        let request_id := be_value (slice 12 20 body) in
        if (request_id =? 0)%N then Err InvalidRequestId
        else
          let payload_len := be_value (slice 20 24 body) in
          if (max_payload_bytes limits <? payload_len)%N then
            Err (PayloadOversized payload_len (max_payload_bytes limits))
          else Ok (mkHeader opcode flags request_id payload_len).

Definition decode_binary_frame (bytes : list byte) (limits : ControlIpcLimits)
    : IpcResult BinaryFrame :=
  if (len bytes <? BINARY_LENGTH_PREFIX_LEN)%N then
    Err (Truncated BINARY_LENGTH_PREFIX_LEN (len bytes))
  else
    let declared := be_value (take 4 bytes) in
    let? _ := validate_frame_length declared limits in
    let actual := (len bytes - BINARY_LENGTH_PREFIX_LEN)%N in
    if negb (declared =? actual)%N then Err (Truncated declared actual)
    else
      let body := drop 4 bytes in
      let? header := decode_frame_header body limits in
      let payload := drop 24 body in
      if negb (len payload =? h_payload_len header)%N then
        Err (Truncated (h_payload_len header) (len payload))
      else Ok (mkFrame header payload).

(** ** Well-formedness *)

(** The 24 bytes between the length prefix and the payload. *)
Definition header_bytes (h : FrameHeader) : list byte :=
  be_bytes 4 CONTROL_WIRE_MAGIC ++ be_bytes 2 CONTROL_WIRE_MAJOR
  ++ be_bytes 2 CONTROL_WIRE_MINOR ++ be_bytes 2 (h_opcode h) ++ be_bytes 2 (h_flags h)
  ++ be_bytes 8 (h_request_id h) ++ be_bytes 4 (h_payload_len h).

(** Limits whose frames fit the 32-bit length prefix. *)
Definition wire_limits (l : ControlIpcLimits) : Prop :=
  (max_frame_bytes l ≤ u32_max)%N ∧ (max_payload_bytes l ≤ max_frame_bytes l)%N.

#[export] Instance wire_limits_dec l : Decision (wire_limits l) := _.

(** A header the type of the code can hold, with accepted flags. *)
Definition wf_header (h : FrameHeader) : Prop :=
  (h_opcode h ≤ u16_max)%N ∧ (h_flags h ≤ u16_max)%N ∧ flags_from_bits (h_flags h) = Ok (h_flags h) ∧
  (0 < h_request_id h ≤ u64_max)%N ∧ (h_payload_len h ≤ u32_max)%N.

(** The limits the code starts from when nothing is configured. *)
Definition default_limits : ControlIpcLimits := from_section (default_ipc_section false).

(** ** Lemmas on frames *)

Lemma length_header_bytes h : List.length (header_bytes h) = 24%nat.
Proof. unfold header_bytes. rewrite !length_app, !length_be_bytes. done. Qed.

Lemma len_header_bytes h : len (header_bytes h) = BINARY_HEADER_LEN.
Proof. unfold len. by rewrite length_header_bytes. Qed.
#[export] Hint Rewrite len_header_bytes : host.

(** A field of a byte string: [k] bytes after a prefix of [n]. *)
Lemma slice_app_skip (p l : list byte) a b :
  (List.length p ≤ a)%nat →
  slice a b (p ++ l) = slice (a - List.length p) (b - List.length p) l.
Proof.
  intros H. unfold slice. rewrite drop_app_ge by lia. f_equal. lia.
Qed.

Lemma slice_app_here (f l : list byte) : slice 0 (List.length f) (f ++ l) = f.
Proof. unfold slice. simpl. rewrite Nat.sub_0_r. apply take_app_length. Qed.

Ltac slice_field :=
  repeat (rewrite slice_app_skip by (rewrite length_be_bytes; lia);
          rewrite !length_be_bytes; cbn [Nat.sub]);
  match goal with
  | |- be_value (slice 0 ?k (be_bytes ?k ?v ++ ?l)) = _ =>
      rewrite <-(length_be_bytes k v) at 1; rewrite slice_app_here;
      apply be_value_small
  end.

Lemma validate_frame_length_ok n l :
  validate_frame_length n l = Ok tt ↔
  (BINARY_HEADER_LEN ≤ n ≤ max_frame_bytes l)%N.
Proof.
  unfold validate_frame_length, BINARY_HEADER_LEN. repeat case_goal; bool_props;
    (split; [discriminate || lia | done || lia]).
Qed.

(** The fields of the header, where the decoder reads them. *)
Lemma header_fields h rest :
  (h_opcode h ≤ u16_max)%N → (h_flags h ≤ u16_max)%N →
  (h_request_id h ≤ u64_max)%N → (h_payload_len h ≤ u32_max)%N →
  be_value (slice 0 4 (header_bytes h ++ rest)) = CONTROL_WIRE_MAGIC ∧
  be_value (slice 4 6 (header_bytes h ++ rest)) = CONTROL_WIRE_MAJOR ∧
  be_value (slice 8 10 (header_bytes h ++ rest)) = h_opcode h ∧
  be_value (slice 10 12 (header_bytes h ++ rest)) = h_flags h ∧
  be_value (slice 12 20 (header_bytes h ++ rest)) = h_request_id h ∧
  be_value (slice 20 24 (header_bytes h ++ rest)) = h_payload_len h.
Proof.
  unfold u16_max, u32_max, u64_max, header_bytes. intros. rewrite <-!(assoc_L (++)).
  assert (CONTROL_WIRE_MAGIC < 256 ^ 4)%N by done.
  assert (CONTROL_WIRE_MAJOR < 256 ^ 2)%N by done.
  split_and!; slice_field; simpl; lia.
Qed.

(** Decoding the header bytes of a well-formed header. *)
Lemma decode_header_bytes h rest l :
  wf_header h → (h_payload_len h ≤ max_payload_bytes l)%N →
  decode_frame_header (header_bytes h ++ rest) l = Ok h.
Proof.
  intros (Ho & Hf & Hfl & [Hi0 Hi] & Hp) Hl. unfold decode_frame_header.
  destruct (header_fields h rest Ho Hf Hi Hp) as (-> & -> & -> & -> & -> & ->).
  rewrite len_app, len_header_bytes, Hfl.
  destruct (N.ltb_spec (BINARY_HEADER_LEN + len rest) BINARY_HEADER_LEN); [lia|].
  cbn [rbind negb]. rewrite !N.eqb_refl. cbn [negb].
  destruct (N.eqb_spec (h_request_id h) 0); [lia|].
  destruct (N.ltb_spec (max_payload_bytes l) (h_payload_len h)); [lia|].
  by destruct h.
Qed.

(** What the encoder writes is the prefix, the header and the payload. *)
Lemma frame_bytes_layout opcode flags id payload :
  (len payload ≤ u32_max)%N →
  frame_bytes opcode flags id payload =
  be_bytes 4 (wrap 32 (BINARY_HEADER_LEN + len payload))
  ++ header_bytes (mkHeader opcode flags id (len payload)) ++ payload.
Proof.
  intros H. unfold frame_bytes, header_bytes. simpl h_opcode. simpl h_flags.
  simpl h_request_id. simpl h_payload_len.
  replace (wrap 32 (len payload)) with (len payload).
  - by rewrite <-!(assoc_L (++)).
  - unfold wrap. symmetry. apply N.mod_small. unfold u32_max in H. lia.
Qed.

Lemma encode_frame_ok opcode flags id payload l bytes :
  encode_frame opcode flags id payload l = Ok bytes ↔
  id ≠ 0%N ∧ (len payload ≤ max_payload_bytes l)%N ∧
  (BINARY_HEADER_LEN + len payload ≤ max_frame_bytes l)%N ∧
  bytes = frame_bytes opcode flags id payload.
Proof.
  unfold encode_frame, encode_frame_into.
  destruct (N.eqb_spec id 0); [naive_solver|].
  destruct (N.ltb_spec (max_payload_bytes l) (len payload)); [simpl; split; [done|lia]|].
  destruct (validate_frame_length (BINARY_HEADER_LEN + len payload) l) as [[]|e] eqn:E;
    simpl; [apply validate_frame_length_ok in E; naive_solver|].
  split; [done|]. intros (_ & _ & Hm & _).
  assert (validate_frame_length (BINARY_HEADER_LEN + len payload) l = Ok tt)
    by (apply validate_frame_length_ok; unfold BINARY_HEADER_LEN in *; lia).
  congruence.
Qed.

(** Accepted flags use the four known bits only. *)
Lemma known_bits_bound bits :
  (bits ≤ u16_max)%N → N.land bits (N.lxor KNOWN u16_max) = 0%N → (bits < 16)%N.
Proof.
  intros Hb Hl.
  assert (H : N.shiftr (N.land bits (N.lxor KNOWN u16_max)) 4 = 0%N) by (rewrite Hl; done).
  rewrite N.shiftr_land in H. change (N.shiftr (N.lxor KNOWN u16_max) 4) with (N.ones 12) in H.
  rewrite N.land_ones, N.shiftr_div_pow2 in H. unfold u16_max in Hb.
  change (2 ^ 4)%N with 16%N in H. change (2 ^ 12)%N with 4096%N in H.
  rewrite N.mod_small in H.
  - apply N.div_small_iff in H; lia.
  - apply N.Div0.div_lt_upper_bound; lia.
Qed.

Lemma flags_from_bits_id bits f : flags_from_bits bits = Ok f → f = bits.
Proof. unfold flags_from_bits. intros H. cbv zeta in H. repeat case_hyp H; naive_solver. Qed.

(** The bounds of every field a reader gets from the wire. *)
Lemma slice_value_bound a b l : (be_value (slice a b l) < 256 ^ N.of_nat (b - a))%N.
Proof.
  eapply N.lt_le_trans; [apply be_value_bound|].
  apply N.pow_le_mono_r; [done|]. unfold len, slice. rewrite length_take. lia.
Qed.

Lemma decode_frame_header_wf body l h :
  decode_frame_header body l = Ok h →
  wf_header h ∧ (h_payload_len h ≤ max_payload_bytes l)%N ∧
  (BINARY_HEADER_LEN ≤ len body)%N.
Proof.
  unfold decode_frame_header. intros H.
  cbv zeta in H. repeat case_hyp H; bool_props;
    destruct (flags_from_bits _) as [f|e] eqn:Hf; try done; cbn [rbind] in H; try done.
  injection H as <-. unfold wf_header. simpl.
  apply flags_from_bits_id in Hf as Hf'. subst f.
  pose proof (slice_value_bound 8 10 body). pose proof (slice_value_bound 10 12 body).
  pose proof (slice_value_bound 12 20 body). pose proof (slice_value_bound 20 24 body).
  simpl in *. unfold u16_max, u32_max, u64_max. split_and!; try lia. done.
Qed.

Lemma be_value_prefix n v rest :
  (v < 256 ^ N.of_nat n)%N → be_value (take n (be_bytes n v ++ rest)) = v.
Proof.
  intros H. rewrite <-(length_be_bytes n v) at 1. rewrite take_app_length.
  by apply be_value_small.
Qed.

Lemma drop_be_bytes n v rest : drop n (be_bytes n v ++ rest) = rest.
Proof. rewrite <-(length_be_bytes n v) at 1. apply drop_app_length. Qed.

Lemma drop_header_bytes h rest : drop 24 (header_bytes h ++ rest) = rest.
Proof. rewrite <-(length_header_bytes h) at 1. apply drop_app_length. Qed.

(** The encoded frame, for a frame within limits that fit the prefix. *)
Lemma encoded_layout opcode flags id payload l bytes :
  wire_limits l → encode_frame opcode flags id payload l = Ok bytes →
  let body := (BINARY_HEADER_LEN + len payload)%N in
  bytes = be_bytes 4 body ++ header_bytes (mkHeader opcode flags id (len payload)) ++ payload
  ∧ validate_frame_length body l = Ok tt ∧ (body < 256 ^ 4)%N
  ∧ (len payload ≤ max_payload_bytes l)%N ∧ (0 < id)%N.
Proof.
  intros [Hl1 Hl2] He. apply encode_frame_ok in He as (Hid & Hp & Hf & ->). cbv zeta.
  unfold u32_max in Hl1. unfold BINARY_HEADER_LEN in *.
  rewrite frame_bytes_layout by (unfold u32_max; lia).
  unfold wrap, BINARY_HEADER_LEN. rewrite N.mod_small by lia.
  split_and!; try done; try lia.
  apply validate_frame_length_ok. unfold BINARY_HEADER_LEN. lia.
Qed.

(** ** Properties *)

(** The flag words the wire accepts are exactly request, response,
    error response, cancel and cancel with request; every other 16-bit word is
    refused with [UnknownFlags] of that word. *)
Theorem flags_accepted bits :
  (bits ≤ u16_max)%N →
  flags_from_bits bits =
    if bool_decide (bits ∈ [REQUEST; RESPONSE; N.lor RESPONSE ERROR; CANCEL;
                            N.lor CANCEL REQUEST])
    then Ok bits else Err (UnknownFlags bits).
Proof.
  intros Hb. destruct (N.eqb_spec (N.land bits (N.lxor KNOWN u16_max)) 0) as [Hz|Hz].
  - apply known_bits_bound in Hz; [|done].
    assert (Hall : Forall (λ b, flags_from_bits b =
      if bool_decide (b ∈ [REQUEST; RESPONSE; N.lor RESPONSE ERROR; CANCEL;
                           N.lor CANCEL REQUEST])
      then Ok b else Err (UnknownFlags b)) (N.of_nat <$> seq 0 16)).
    { repeat constructor. }
    rewrite Forall_forall in Hall. apply Hall. apply list_elem_of_fmap.
    exists (N.to_nat bits). split; [lia|]. apply elem_of_seq. lia.
  - rewrite bool_decide_false.
    + unfold flags_from_bits. by rewrite (proj2 (N.eqb_neq _ _) Hz).
    + intros Hin. apply Hz. rewrite !elem_of_cons, elem_of_nil in Hin.
      naive_solver.
Qed.

Lemma flags_accepted_witness :
  (6 ≤ u16_max)%N ∧ flags_from_bits 6 = Ok 6%N.
Proof. split; [vm_compute; discriminate|]. exact (flags_accepted 6 ltac:(vm_compute; discriminate)). Defined.

(** Round trip.  Whatever frame the encoder produces under limits that fit
    the length prefix, the decoder reads back: same opcode, flags, request id
    and payload. *)
Theorem decode_encode_frame opcode flags id payload l bytes :
  wire_limits l → (opcode ≤ u16_max)%N → (flags ≤ u16_max)%N → (id ≤ u64_max)%N →
  flags_from_bits flags = Ok flags →
  encode_frame opcode flags id payload l = Ok bytes →
  decode_binary_frame bytes l = Ok (mkFrame (mkHeader opcode flags id (len payload)) payload).
Proof.
  intros Hl Ho Hf Hid Hfl He.
  destruct (encoded_layout _ _ _ _ _ _ Hl He) as (-> & Hv & Hb & Hp & Hid0).
  destruct Hl as [Hl1 Hl2]. unfold decode_binary_frame.
  rewrite be_value_prefix by done. rewrite drop_be_bytes, drop_header_bytes, Hv.
  rewrite !len_app, len_be_bytes, len_header_bytes. cbn [rbind].
  destruct (N.ltb_spec (N.of_nat 4 + (BINARY_HEADER_LEN + len payload)) BINARY_LENGTH_PREFIX_LEN) as [H|_];
    [unfold BINARY_HEADER_LEN, BINARY_LENGTH_PREFIX_LEN in H; lia|].
  replace (N.of_nat 4 + (BINARY_HEADER_LEN + len payload) - BINARY_LENGTH_PREFIX_LEN)%N
    with (BINARY_HEADER_LEN + len payload)%N by (unfold BINARY_LENGTH_PREFIX_LEN; lia).
  rewrite N.eqb_refl. cbn [negb]. rewrite decode_header_bytes.
  - cbn [rbind h_payload_len]. by rewrite N.eqb_refl.
  - unfold wf_header, u32_max in *. simpl. split_and!; try done; lia.
  - done.
Qed.

Lemma decode_encode_frame_witness :
  decode_binary_frame (default [] (match encode_frame 7 2 9 [x01; x02] default_limits with
                                   | Ok b => Some b | Err _ => None end)) default_limits
  = Ok (mkFrame (mkHeader 7 2 9 2) [x01; x02]).
Proof.
  eapply (decode_encode_frame 7 2 9 [x01; x02] default_limits);
    vm_compute; done.
Defined.

(** A decoded frame is within the limits and well formed: it holds an
    accepted flag word, a non-zero id, a payload no longer than the limit whose
    length is the declared one, and the whole body is no longer than
    [max_frame_bytes]. *)
Theorem decode_frame_bounds bytes l f :
  decode_binary_frame bytes l = Ok f →
  wf_header (f_header f) ∧ len (f_payload f) = h_payload_len (f_header f) ∧
  (len (f_payload f) ≤ max_payload_bytes l)%N ∧
  len bytes = (BINARY_LENGTH_PREFIX_LEN + BINARY_HEADER_LEN + len (f_payload f))%N ∧
  (BINARY_HEADER_LEN + len (f_payload f) ≤ max_frame_bytes l)%N.
Proof.
  unfold decode_binary_frame. intros H. case_hyp H. bool_props. cbv zeta in H.
  destruct (validate_frame_length (be_value (take 4 bytes)) l) as [[]|e] eqn:Hv; [|done].
  apply validate_frame_length_ok in Hv. cbn [rbind] in H. case_hyp H. bool_props.
  destruct (decode_frame_header (drop 4 bytes) l) as [h|e] eqn:Hh; [|done].
  cbn [rbind] in H. case_hyp H. bool_props. injection H as <-. simpl.
  apply decode_frame_header_wf in Hh as (Hw & Hp & Hb).
  unfold len, BINARY_LENGTH_PREFIX_LEN, BINARY_HEADER_LEN in *.
  rewrite !length_drop in *. split_and!; try done; lia.
Qed.

Lemma decode_frame_bounds_witness :
  let bytes := frame_bytes 7 2 9 [x01; x02] in
  wf_header (mkHeader 7 2 9 2) ∧ len [x01; x02] = 2%N ∧
  (len [x01; x02] ≤ max_payload_bytes default_limits)%N ∧ len bytes = 30%N ∧
  (26 ≤ max_frame_bytes default_limits)%N.
Proof.
  exact (decode_frame_bounds (frame_bytes 7 2 9 [x01; x02]) default_limits
    (mkFrame (mkHeader 7 2 9 2) [x01; x02]) ltac:(vm_compute; reflexivity)).
Defined.
