(* ===== verification/Stream.v ===== *)
(** * Reading frames and lines from a byte stream

    [crates/mutsuki-service-ipc/src/io.rs] and [frame.rs::discard_bytes]: the
    reads of the two codecs over a stream that may end or fail at any byte. *)

From S2P Require Import Prelude Text ConfigTypes Frame.

(** ** The stream

    What an [AsyncRead] has still to deliver: its bytes, then the error every
    further [read_exact] reports (kind [UnexpectedEof] at a plain end of
    stream). *)
Record reader : Type := mkReader { remaining : list byte; at_end : io_error }.

(** Reads as state transformers over the stream, with [?] on errors. *)
Definition ReadM (A : Type) : Type := reader → IpcResult A * reader.

#[export] Instance readm_ret : MRet ReadM := λ A a r, (Ok a, r).
#[export] Instance readm_bind : MBind ReadM := λ A B f m r,
  match m r with (Ok a, r') => f a r' | (Err e, r') => (Err e, r') end.

Definition lift {A} (x : IpcResult A) : ReadM A := λ r, (x, r).

(** [AsyncReadExt::read_exact]: all [n] bytes, or the stream is used up. *)
Definition try_read_exact (n : nat) (r : reader) : result (list byte) io_error * reader :=
  if (n <=? List.length (remaining r))%nat
  then (Ok (take n (remaining r)), mkReader (drop n (remaining r)) (at_end r))
  else (Err (at_end r), mkReader [] (at_end r)).

(** [read_exact(..).await?]. *)
Definition read_exact (n : nat) : ReadM (list byte) := λ r,
  let '(x, r') := try_read_exact n r in (map_err Io x, r').

(** A read that takes a clean end of stream as "no more frames". *)
Definition read_exact_or_eof (n : nat) : ReadM (option (list byte)) := λ r,
  match try_read_exact n r with
  | (Ok bytes, r') => (Ok (Some bytes), r')
  | (Err e, r') => if is_unexpected_eof e then (Ok None, r') else (Err (Io e), r')
  end.

(** ** Binary frames *)

Definition read_frame_prefix (limits : ControlIpcLimits) : ReadM (option (N * FrameHeader)) :=
  prefix ← read_exact_or_eof 4;
  match prefix with
  | None => mret None
  | Some prefix =>
      let declared := be_value prefix in
      _ ← lift (validate_frame_length declared limits);
      body ← read_exact 24;
      header ← lift (decode_frame_header body limits);
      mret (Some (declared, header))
  end.

Definition expect_body (declared : N) (header : FrameHeader) : IpcResult unit :=
  let expected := (BINARY_HEADER_LEN + h_payload_len header)%N in
  if negb (declared =? expected)%N then Err (Truncated declared expected) else Ok tt.

Definition read_payload (payload_len : N) : ReadM (list byte) :=
  if (0 <? payload_len)%N then read_exact (N.to_nat payload_len) else mret [].

(** The payload buffer is an in-out argument; the code's callers look at it
    only after a frame was read, which is when it is returned here. *)
Definition read_binary_frame_into (limits : ControlIpcLimits)
    : ReadM (option (FrameHeader * list byte)) :=
  prefix ← read_exact_or_eof 4;
  match prefix with
  | None => mret None
  | Some prefix =>
      let declared := be_value prefix in
      _ ← lift (validate_frame_length declared limits);
      body ← read_exact 24;
      header ← lift (decode_frame_header body limits);
      _ ← lift (expect_body declared header);
      payload ← read_payload (h_payload_len header);
      mret (Some (header, payload))
  end.

Definition read_binary_frame (limits : ControlIpcLimits) : ReadM (option BinaryFrame) :=
  r ← read_binary_frame_into limits;
  mret (match r with
        | None => None
        | Some (header, payload) => Some (mkFrame header payload)
        end).

(** The scratch buffer of [discard_bytes]. *)
Definition DISCARD_CHUNK : N := 8 * 1024.

(** [while len > 0], one iteration per unit of fuel; [None] when it is used
    up. *)
Fixpoint discard_loop (fuel : nat) (len : N) (r : reader) : option (IpcResult unit * reader) :=
  if (0 <? len)%N then
    match fuel with
    | O => None
    | S fuel' =>
        let chunk := N.min len DISCARD_CHUNK in
        match read_exact (N.to_nat chunk) r with
        | (Err e, r') => Some (Err e, r')
        | (Ok _, r') => discard_loop fuel' (len - chunk) r'
        end
    end
  else Some (Ok tt, r).

(** The number of iterations the loop needs. *)
Definition discard_fuel (len : N) : nat := N.to_nat (len / DISCARD_CHUNK + 1).

Definition discard_bytes (len : N) : ReadM unit := λ r,
  match discard_loop (discard_fuel len) len r with
  | Some x => x
  | None => (Err Closed, r)
  end.

Definition read_payload_or_discard (declared_body : N) (header : FrameHeader)
    (allocate : bool) : ReadM (option (list byte)) :=
  _ ← lift (expect_body declared_body header);
  if negb allocate then
    _ ← discard_bytes (h_payload_len header);
    mret None
  else
    payload ← read_payload (h_payload_len header);
    mret (Some payload).

(** ** JSONL lines *)

Definition truncated_line : IpcError :=
  Protocol (lit "truncated jsonl line without trailing newline").

Definition oversized_line (limits : ControlIpcLimits) : IpcError :=
  JsonlLineOversized (wrap 64 (max_jsonl_line_bytes limits + 1)) (max_jsonl_line_bytes limits).

(** The inner loop: everything up to the newline or the end is dropped. *)
Fixpoint drain_line (limits : ControlIpcLimits) (end_error : io_error) (l : list byte)
    : IpcError * list byte :=
  match l with
  | [] => (if is_unexpected_eof end_error then oversized_line limits else Io end_error, [])
  | b :: l' =>
      if Byte.eqb b x0a then (oversized_line limits, l') else drain_line limits end_error l'
  end.

(** The outer loop, one byte at a time; [line] is [line_buf]. *)
Fixpoint line_loop (limits : ControlIpcLimits) (end_error : io_error)
    (line l : list byte) : IpcResult (option (list byte)) * list byte :=
  match l with
  | [] =>
      if is_unexpected_eof end_error then
        match line with [] => (Ok None, []) | _ => (Err truncated_line, []) end
      else (Err (Io end_error), [])
  | b :: l' =>
      if Byte.eqb b x0a then (Ok (Some line), l')
      else if (max_jsonl_line_bytes limits <? len line + 1)%N then
        let '(e, rest) := drain_line limits end_error l' in (Err e, rest)
      else line_loop limits end_error (line ++ [b]) l'
  end.

(** [if line_buf.last() == Some(&b'\r') { line_buf.pop(); }] *)
Definition strip_cr (line : list byte) : list byte :=
  match last line with
  | Some b => if Byte.eqb b x0d then take (List.length line - 1) line else line
  | None => line
  end.

Definition line_text (line : list byte) : IpcResult text :=
  ok_or (from_utf8 line) (Protocol (utf8_error_text line)).

Definition read_jsonl_line (limits : ControlIpcLimits) : ReadM (option text) := λ r,
  match line_loop limits (at_end r) [] (remaining r) with
  | (Ok None, l) => (Ok None, mkReader l (at_end r))
  | (Ok (Some line), l) =>
      (rmap Some (line_text (strip_cr line)), mkReader l (at_end r))
  | (Err e, l) => (Err e, mkReader l (at_end r))
  end.

(** ** Writing

    What a peer has received so far, and whether the connection still takes
    bytes: a [write_all] on a broken connection fails and the peer sees
    nothing more of it. *)
Record writer : Type := mkWriter { written : list byte; broken : option io_error }.

Definition write_all_flush (bytes : list byte) (w : writer) : IpcResult unit * writer :=
  match broken w with
  | Some e => (Err (Io e), w)
  | None => (Ok tt, mkWriter (written w ++ bytes) None)
  end.

(** A write whose future is dropped after [k] bytes. *)
Definition write_part (k : nat) (bytes : list byte) (w : writer) : writer :=
  match broken w with
  | Some _ => w
  | None => mkWriter (written w ++ take k bytes) None
  end.

(** ** The line reader's specification

    One line is what precedes the first newline; an oversized one is consumed
    whole, so that the next read starts at the next line. *)
Fixpoint split_line (l : list byte) : option (list byte * list byte) :=
  match l with
  | [] => None
  | b :: l' =>
      if Byte.eqb b x0a then Some ([], l')
      else '(line, rest) ← split_line l'; Some (b :: line, rest)
  end.

Definition fits (limits : ControlIpcLimits) (line : list byte) : bool :=
  (len line <=? max_jsonl_line_bytes limits)%N.

Definition line_spec (limits : ControlIpcLimits) (r : reader) : IpcResult (option text) * reader :=
  match split_line (remaining r) with
  | Some (line, rest) =>
      (if fits limits line then rmap Some (line_text (strip_cr line))
       else Err (oversized_line limits),
       mkReader rest (at_end r))
  | None =>
      (if is_unexpected_eof (at_end r) then
         if bool_decide (remaining r = []) then Ok None
         else if fits limits (remaining r) then Err truncated_line
         else Err (oversized_line limits)
       else Err (Io (at_end r)),
       mkReader [] (at_end r))
  end.

(** ** Lemmas on reads *)

Lemma read_exact_app bytes rest e :
  read_exact (List.length bytes) (mkReader (bytes ++ rest) e) = (Ok bytes, mkReader rest e).
Proof.
  unfold read_exact, try_read_exact. simpl.
  rewrite (proj2 (Nat.leb_le _ _)) by (rewrite length_app; lia).
  by rewrite take_app_length, drop_app_length.
Qed.

Lemma read_exact_eq n bytes rest e :
  List.length bytes = n → read_exact n (mkReader (bytes ++ rest) e) = (Ok bytes, mkReader rest e).
Proof. intros <-. apply read_exact_app. Qed.

Lemma read_exact_or_eof_eq n bytes rest e :
  List.length bytes = n →
  read_exact_or_eof n (mkReader (bytes ++ rest) e) = (Ok (Some bytes), mkReader rest e).
Proof.
  intros <-. unfold read_exact_or_eof, try_read_exact. simpl.
  rewrite (proj2 (Nat.leb_le _ _)) by (rewrite length_app; lia).
  by rewrite take_app_length, drop_app_length.
Qed.

Lemma read_exact_short n r :
  (List.length (remaining r) < n)%nat → read_exact n r = (Err (Io (at_end r)), mkReader [] (at_end r)).
Proof.
  intros H. unfold read_exact, try_read_exact.
  by rewrite (proj2 (Nat.leb_gt _ _)) by lia.
Qed.

Lemma read_exact_enough n r :
  (n ≤ List.length (remaining r))%nat →
  read_exact n r = (Ok (take n (remaining r)), mkReader (drop n (remaining r)) (at_end r)).
Proof.
  intros H. unfold read_exact, try_read_exact.
  by rewrite (proj2 (Nat.leb_le _ _)) by lia.
Qed.

Lemma read_payload_app payload rest e :
  read_payload (len payload) (mkReader (payload ++ rest) e) = (Ok payload, mkReader rest e).
Proof.
  unfold read_payload. destruct (N.ltb_spec 0 (len payload)) as [H|H].
  - apply read_exact_eq. unfold len. lia.
  - destruct payload; [done|]. rewrite len_cons in H. lia.
Qed.

(** ** Lemmas on discarding *)

Definition forget {A} (x : IpcResult A * reader) : IpcResult unit * reader :=
  (rmap (λ _, tt) x.1, x.2).

Lemma discard_loop_done fuel r : discard_loop fuel 0 r = Some (Ok tt, r).
Proof. by destruct fuel. Qed.

(** With enough fuel the loop has the effect of one read of [n] bytes. *)
Lemma discard_loop_spec fuel n r :
  (n ≤ N.of_nat fuel * DISCARD_CHUNK)%N →
  discard_loop fuel n r = Some (forget (read_exact (N.to_nat n) r)).
Proof.
  unfold DISCARD_CHUNK. revert n r. induction fuel as [|fuel IH]; intros n r Hn.
  - assert (n = 0%N) as -> by lia. simpl. unfold forget. rewrite read_exact_enough by (simpl; lia).
    simpl. by rewrite drop_0; destruct r.
  - simpl. destruct (N.ltb_spec 0 n) as [Hpos|Hz].
    2: { assert (n = 0%N) as -> by lia. unfold forget. rewrite read_exact_enough by (simpl; lia).
         simpl. by rewrite drop_0; destruct r. }
    set (chunk := N.min n DISCARD_CHUNK). assert (Hc : (0 < chunk ≤ n)%N) by (unfold chunk, DISCARD_CHUNK; lia).
    destruct (decide (N.to_nat chunk ≤ List.length (remaining r))%nat) as [Hle|Hgt].
    + rewrite read_exact_enough by done. rewrite IH by (unfold chunk, DISCARD_CHUNK; lia).
      f_equal. unfold forget.
      destruct (decide (N.to_nat n ≤ List.length (remaining r))%nat).
      * rewrite !read_exact_enough by (simpl; rewrite ?length_drop; lia). simpl.
        rewrite drop_drop. repeat f_equal. lia.
      * rewrite !read_exact_short by (simpl; rewrite ?length_drop; lia). done.
    + rewrite !read_exact_short by lia. done.
Qed.

Lemma discard_bytes_spec n r : discard_bytes n r = forget (read_exact (N.to_nat n) r).
Proof.
  unfold discard_bytes. rewrite discard_loop_spec; [done|].
  unfold discard_fuel, DISCARD_CHUNK. pose proof (N.div_mod n (8 * 1024)).
  pose proof (N.mod_lt n (8 * 1024)). lia.
Qed.

(** ** Lemmas on lines *)

Lemma drain_line_spec limits e l :
  drain_line limits e l =
    match split_line l with
    | Some (_, rest) => (oversized_line limits, rest)
    | None => (if is_unexpected_eof e then oversized_line limits else Io e, [])
    end.
Proof.
  induction l as [|b l IH]; simpl; [done|]. destruct (Byte.eqb b x0a); [done|].
  rewrite IH. by destruct (split_line l) as [[line rest]|].
Qed.

Lemma line_loop_spec limits e line l :
  fits limits line = true →
  line_loop limits e line l =
    match split_line l with
    | Some (a, rest) =>
        (if fits limits (line ++ a) then Ok (Some (line ++ a)) else Err (oversized_line limits), rest)
    | None =>
        (if is_unexpected_eof e then
           if bool_decide (line ++ l = []) then Ok None
           else if fits limits (line ++ l) then Err truncated_line
           else Err (oversized_line limits)
         else Err (Io e), [])
    end.
Proof.
  unfold fits. revert line. induction l as [|b l IH]; intros line Hl; simpl.
  - rewrite app_nil_r, Hl. destruct line; simpl; by destruct (is_unexpected_eof e).
  - destruct (Byte.eqb b x0a); [by rewrite app_nil_r, Hl|].
    destruct (N.ltb_spec (max_jsonl_line_bytes limits) (len line + 1)) as [Hlt|Hle].
    + assert (Hbig : ∀ a, (len (line ++ b :: a) <=? max_jsonl_line_bytes limits)%N = false).
      { intros a. rewrite len_app, len_cons. apply N.leb_gt. lia. }
      rewrite drain_line_spec, Hbig. destruct (split_line l) as [[a rest]|]; simpl.
      * by rewrite Hbig.
      * rewrite bool_decide_false by (by destruct line). by destruct (is_unexpected_eof e).
    + rewrite IH by (rewrite len_app, len_cons, len_nil; apply N.leb_le; lia).
      destruct (split_line l) as [[a rest]|]; simpl; rewrite <-(assoc_L (++)); done.
Qed.

Lemma read_jsonl_line_spec limits r : read_jsonl_line limits r = line_spec limits r.
Proof.
  unfold read_jsonl_line, line_spec. rewrite line_loop_spec by (apply N.leb_le; apply N.le_0_l).
  rewrite !app_nil_l. destruct (split_line (remaining r)) as [[line rest]|]; simpl.
  - by destruct (fits limits line).
  - repeat case_goal; congruence.
Qed.

Lemma split_line_app a rest : x0a ∉ a → split_line (a ++ x0a :: rest) = Some (a, rest).
Proof.
  induction a as [|b a IH]; intros H; simpl; [done|].
  apply not_elem_of_cons in H as [Hb Ha]. rewrite IH by done.
  destruct (Byte.eqb b x0a) eqn:E; [|done]. apply Byte.byte_dec_bl in E. congruence.
Qed.

Lemma strip_cr_id line : last line ≠ Some x0d → strip_cr line = line.
Proof.
  unfold strip_cr. destruct (last line) as [b|]; [|done]. intros Hb.
  destruct (Byte.eqb b x0d) eqn:E; [|done]. apply Byte.byte_dec_bl in E. congruence.
Qed.

Lemma read_frame_of_encoded opcode flags id payload l bytes rest e :
  wire_limits l → (opcode ≤ u16_max)%N → (flags ≤ u16_max)%N → (id ≤ u64_max)%N →
  flags_from_bits flags = Ok flags →
  encode_frame opcode flags id payload l = Ok bytes →
  read_binary_frame l (mkReader (bytes ++ rest) e) =
    (Ok (Some (mkFrame (mkHeader opcode flags id (len payload)) payload)), mkReader rest e).
Proof.
  intros Hl Ho Hf Hid Hfl He.
  destruct (encoded_layout _ _ _ _ _ _ Hl He) as (-> & Hv & Hb & Hp & Hid0).
  destruct Hl as [Hl1 Hl2]. rewrite <-!(assoc_L (++)).
  unfold read_binary_frame, read_binary_frame_into. unfold mbind, readm_bind.
  rewrite (read_exact_or_eof_eq 4) by apply length_be_bytes.
  cbv zeta. unfold lift. rewrite be_value_small by done. rewrite Hv.
  rewrite (read_exact_eq 24) by apply length_header_bytes.
  rewrite <-(app_nil_r (header_bytes _)), decode_header_bytes.
  2: { unfold wf_header, u32_max in *. simpl. split_and!; try done; lia. }
  2: done.
  unfold expect_body. simpl h_payload_len. rewrite N.eqb_refl. cbn [negb].
  by rewrite read_payload_app.
Qed.

Lemma two_step l r :
  (pf ← read_frame_prefix l;
   match pf with
   | None => mret None
   | Some (declared, header) =>
       p ← read_payload_or_discard declared header true;
       mret ((λ p, (header, p)) <$> p)
   end) r = read_binary_frame_into l r ∧
  forget ((pf ← read_frame_prefix l;
           match pf with
           | None => mret ()
           | Some (declared, header) =>
               _ ← read_payload_or_discard declared header false; mret ()
           end) r) = forget (read_binary_frame_into l r).
Proof.
  unfold read_binary_frame_into, read_frame_prefix, mbind, readm_bind.
  destruct (read_exact_or_eof 4 r) as [[[prefix|]|e] r1]; try done. cbv zeta. unfold lift.
  destruct (validate_frame_length _ _) as [[]|e]; [|done].
  destruct (read_exact 24 r1) as [[body|e] r2]; [|done].
  destruct (decode_frame_header body l) as [h|e]; [|done].
  unfold read_payload_or_discard, mbind, readm_bind, lift, mret, readm_ret. cbn [negb].
  destruct (expect_body (be_value prefix) h) as [[]|e]; [|done]. split.
  - by destruct (read_payload (h_payload_len h) r2) as [[p|e] r3].
  - rewrite discard_bytes_spec. unfold read_payload.
    destruct (N.ltb_spec 0 (h_payload_len h)) as [Hp|Hp].
    + by destruct (read_exact (N.to_nat (h_payload_len h)) r2) as [[p|e] r3].
    + assert (h_payload_len h = 0%N) as -> by lia. rewrite read_exact_enough by (simpl; lia).
      simpl. by rewrite drop_0; destruct r2.
Qed.

(** Where the payload read leaves the stream, allocated or discarded. *)
Lemma payload_aligned l r declared header r1 allocate :
  read_frame_prefix l r = (Ok (Some (declared, header)), r1) →
  (read_payload_or_discard declared header allocate r1).2 = (read_binary_frame_into l r).2.
Proof.
  intros Hp. destruct (two_step l r) as [H1 H2]. unfold mbind, readm_bind in *.
  rewrite Hp in H1, H2. destruct allocate.
  - rewrite <-H1. by destruct (read_payload_or_discard declared header true r1) as [[]].
  - apply (f_equal snd) in H2. unfold forget in H2. simpl in H2. rewrite <-H2.
    by destruct (read_payload_or_discard declared header false r1) as [[]].
Qed.

(** ** Properties *)

(** Reading an encoded frame from a stream returns exactly its header and
    payload and leaves the stream at the byte after the frame, whatever
    follows. *)
Theorem read_encoded_frame opcode flags id payload l bytes rest e :
  wire_limits l → (opcode ≤ u16_max)%N → (flags ≤ u16_max)%N → (id ≤ u64_max)%N →
  flags_from_bits flags = Ok flags →
  encode_frame opcode flags id payload l = Ok bytes →
  read_binary_frame l (mkReader (bytes ++ rest) e) =
    (Ok (Some (mkFrame (mkHeader opcode flags id (len payload)) payload)), mkReader rest e).
Proof. apply read_frame_of_encoded. Qed.

Lemma read_encoded_frame_witness :
  read_binary_frame default_limits
    (mkReader (frame_bytes 7 2 9 [x01; x02] ++ [xff]) (mkIo true [])) =
  (Ok (Some (mkFrame (mkHeader 7 2 9 2) [x01; x02])), mkReader [xff] (mkIo true [])).
Proof.
  apply (read_encoded_frame 7 2 9 [x01; x02] default_limits
           (frame_bytes 7 2 9 [x01; x02]) [xff]); vm_compute; done.
Defined.

(** C30: the server's two-step read agrees with the one-step read: reading the
    prefix and then allocating the payload is [read_binary_frame_into], and
    discarding the payload instead leaves the stream in the same place with
    the same error, so a refused request never loses frame alignment. *)
Theorem two_step_read l r :
  (pf ← read_frame_prefix l;
   match pf with
   | None => mret None
   | Some (declared, header) =>
       p ← read_payload_or_discard declared header true;
       mret ((λ p, (header, p)) <$> p)
   end) r = read_binary_frame_into l r ∧
  forget ((pf ← read_frame_prefix l;
           match pf with
           | None => mret ()
           | Some (declared, header) =>
               _ ← read_payload_or_discard declared header false; mret ()
           end) r) = forget (read_binary_frame_into l r).
Proof. apply two_step. Qed.

(** Discarding a payload of any length ends within its chunk count and
    has the effect of a single read of that many bytes: it consumes exactly
    the payload, or reports the stream's error having consumed everything. *)
Theorem discard_terminates n r :
  discard_loop (discard_fuel n) n r ≠ None ∧
  discard_bytes n r =
    if (n <=? len (remaining r))%N
    then (Ok (), mkReader (drop (N.to_nat n) (remaining r)) (at_end r))
    else (Err (Io (at_end r)), mkReader [] (at_end r)).
Proof.
  split.
  - rewrite discard_loop_spec; [done|]. unfold discard_fuel, DISCARD_CHUNK.
    pose proof (N.div_mod n (8 * 1024)). pose proof (N.mod_lt n (8 * 1024)). lia.
  - rewrite discard_bytes_spec. unfold len. destruct (N.leb_spec n (N.of_nat (List.length (remaining r)))).
    + by rewrite read_exact_enough by lia.
    + by rewrite read_exact_short by lia.
Qed.

(** C16: the line reader meets its specification on every stream: it returns
    the bytes before the first newline without a trailing carriage return, it
    consumes an oversized line whole so that the next read is aligned, and it
    tells a clean end of stream from a truncated line. *)
Theorem jsonl_line_refines limits r : read_jsonl_line limits r = line_spec limits r.
Proof. apply read_jsonl_line_spec. Qed.

(** Round trip.  A valid text without a newline that does not end in a
    carriage return and fits the line limit is read back from its line, and the
    stream is left at the next line. *)
Theorem jsonl_line_roundtrip limits (t : text) rest e :
  wf_text t → 10%N ∉ t → last (utf8 t) ≠ Some x0d → (text_len t ≤ max_jsonl_line_bytes limits)%N →
  read_jsonl_line limits (mkReader (utf8 t ++ x0a :: rest) e) = (Ok (Some t), mkReader rest e).
Proof.
  intros Hw Hn Hr Hl. rewrite read_jsonl_line_spec. unfold line_spec. simpl.
  rewrite split_line_app by (intros Hin; by apply Hn, utf8_newline).
  unfold fits. rewrite (proj2 (N.leb_le _ _)) by done. rewrite strip_cr_id by done.
  unfold line_text. by rewrite from_utf8_utf8.
Qed.

Lemma jsonl_line_roundtrip_witness :
  read_jsonl_line default_limits
    (mkReader (utf8 (lit "{}") ++ [x0a; x7b]) (mkIo true [])) =
  (Ok (Some (lit "{}")), mkReader [x7b] (mkIo true [])).
Proof.
  apply (jsonl_line_roundtrip default_limits (lit "{}") [x7b] (mkIo true [])).
  - repeat constructor.
  - vm_compute. intros H. repeat (apply elem_of_cons in H as [H|H]; [discriminate|]).
    by apply not_elem_of_nil in H.
  - vm_compute. discriminate.
  - vm_compute. discriminate.
Defined.
