(* ===== verification/Codec.v ===== *)
(** * Encoding requests and responses

    [crates/mutsuki-service-ipc/src/codec.rs]: what the two codecs put on the
    wire.  The serializers (rmp_serde, serde_json) are an interface: [Wire]
    holds what the code calls, [WireOk] what it relies on. *)

From S2P Require Import Prelude Text Value Control ConfigTypes Frame Stream.

(** ** The serializers *)

(** The MessagePack functions take the nesting limit; the body of a request
    is its token and parameters.  An error is the serializer's message. *)
Class Wire : Type := {
  msgpack_request : N → text * json → result (list byte) text;
  msgpack_read_request : N → list byte → result (text * json) text;
  msgpack_response : N → ControlResponse → result (list byte) text;
  msgpack_read_response : N → list byte → result ControlResponse text;
  json_request : ControlRequest → result (list byte) text;
  json_read_request : text → result ControlRequest text;
  json_response : ControlResponse → result (list byte) text;
  json_read_response : text → result ControlResponse text;
}.

(** One line of compact JSON: valid UTF-8 without a newline, not ending in a
    carriage return. *)
Definition one_line (t : text) : Prop :=
  wf_text t ∧ (10%N ∉ t) ∧ last (utf8 t) ≠ Some x0d.

(** Reading back what was written, and the shape of [serde_json]'s compact
    output. *)
Class WireOk `{Wire} : Prop := {
  msgpack_request_law d b bytes :
    msgpack_request d b = Ok bytes → msgpack_read_request d bytes = Ok b;
  msgpack_response_law d r bytes :
    msgpack_response d r = Ok bytes → msgpack_read_response d bytes = Ok r;
  json_request_law r bytes :
    json_request r = Ok bytes →
    ∃ t : text, bytes = utf8 t ∧ one_line t ∧ json_read_request t = Ok r;
  json_response_law r bytes :
    json_response r = Ok bytes →
    ∃ t : text, bytes = utf8 t ∧ one_line t ∧ json_read_response t = Ok r;
}.

Section codec.
Context `{Wire}.

(** [encode_messagepack_into] on a cleared buffer. *)
Definition encode_messagepack (encoded : result (list byte) text) (limits : ControlIpcLimits)
    : IpcResult (list byte) :=
  let? buf := map_err Protocol encoded in
  if (max_payload_bytes limits <? len buf)%N then
    Err (PayloadOversized (len buf) (max_payload_bytes limits))
  else Ok buf.

(** The scratch buffers are arguments of the code; what they hold after a
    success is the result here. *)
Definition encode_binary_request (request_id : N) (request : ControlRequest)
    (limits : ControlIpcLimits) : IpcResult (list byte) :=
  let? payload := encode_messagepack
    (msgpack_request (max_msgpack_nesting_depth limits) (req_token request, req_params request))
    limits in
  encode_frame (opcode (req_method request)) REQUEST request_id payload limits.

Definition encode_binary_response (request_id : N) (method : ControlMethod)
    (response : ControlResponse) (limits : ControlIpcLimits) : IpcResult (list byte) :=
  let? payload := encode_messagepack
    (msgpack_response (max_msgpack_nesting_depth limits) response) limits in
  let flags := if resp_ok response then RESPONSE else N.lor RESPONSE ERROR in
  encode_frame (opcode method) flags request_id payload limits.

Definition encode_binary_cancel (request_id : N) (limits : ControlIpcLimits)
    : IpcResult (list byte) :=
  encode_frame OPCODE_CANCEL CANCEL request_id [] limits.

Definition encode_jsonl (encoded : result (list byte) text) (limits : ControlIpcLimits)
    : IpcResult (list byte) :=
  let? buf := map_err JsonError encoded in
  let buf := buf ++ [x0a] in
  if (max_jsonl_line_bytes limits <? len buf)%N then
    Err (JsonlLineOversized (len buf) (max_jsonl_line_bytes limits))
  else Ok buf.

Definition encode_jsonl_request (request : ControlRequest) (limits : ControlIpcLimits) :=
  encode_jsonl (json_request request) limits.

Definition encode_jsonl_response (response : ControlResponse) (limits : ControlIpcLimits) :=
  encode_jsonl (json_response response) limits.

Definition decode_jsonl {T} (from_str : text → result T text) (line : text)
    (limits : ControlIpcLimits) : IpcResult T :=
  if (max_jsonl_line_bytes limits <? text_len line)%N then
    Err (JsonlLineOversized (text_len line) (max_jsonl_line_bytes limits))
  else map_err JsonError (from_str line).

Definition decode_jsonl_request (line : text) (limits : ControlIpcLimits)
    : IpcResult ControlRequest := decode_jsonl json_read_request line limits.

Definition decode_jsonl_response (line : text) (limits : ControlIpcLimits)
    : IpcResult ControlResponse := decode_jsonl json_read_response line limits.

(** ** Lemmas *)

Lemma encode_messagepack_ok encoded l buf :
  encode_messagepack encoded l = Ok buf ↔
  encoded = Ok buf ∧ (len buf ≤ max_payload_bytes l)%N.
Proof.
  unfold encode_messagepack. destruct encoded as [b|e]; simpl; [|naive_solver].
  destruct (N.ltb_spec (max_payload_bytes l) (len b)); [|naive_solver].
  split; [done|]. intros [[= ->] ?]. lia.
Qed.

Lemma encode_jsonl_ok encoded l line :
  encode_jsonl encoded l = Ok line ↔
  ∃ buf, encoded = Ok buf ∧ line = buf ++ [x0a] ∧ (len line ≤ max_jsonl_line_bytes l)%N.
Proof.
  unfold encode_jsonl. destruct encoded as [b|e]; simpl; [|naive_solver].
  destruct (N.ltb_spec (max_jsonl_line_bytes l) (len (b ++ [x0a]))); [|naive_solver].
  split; [done|]. intros (? & [= ->] & -> & ?). lia.
Qed.

Lemma flags_ok : flags_from_bits REQUEST = Ok REQUEST ∧ flags_from_bits RESPONSE = Ok RESPONSE ∧
  flags_from_bits (N.lor RESPONSE ERROR) = Ok (N.lor RESPONSE ERROR) ∧
  flags_from_bits CANCEL = Ok CANCEL.
Proof. done. Qed.

Lemma opcode_u16 m : (opcode m ≤ u16_max)%N.
Proof. destruct m; vm_compute; discriminate. Qed.

(** A line the JSONL encoder wrote is read back as its text. *)
Lemma read_encoded_line encoded l line t rest e :
  encode_jsonl encoded l = Ok line → encoded = Ok (utf8 t) → one_line t →
  read_jsonl_line l (mkReader (line ++ rest) e) = (Ok (Some t), mkReader rest e) ∧
  (text_len t ≤ max_jsonl_line_bytes l)%N.
Proof.
  intros Hl He (Hw & Hn & Hr). apply encode_jsonl_ok in Hl as (buf & He' & -> & Hlen).
  assert (buf = utf8 t) as -> by congruence. rewrite len_app in Hlen. split; [|unfold text_len; lia].
  rewrite <-(assoc_L (++)). simpl app at 2. rewrite read_jsonl_line_spec. unfold line_spec. simpl.
  rewrite split_line_app by (intros Hin; by apply Hn, utf8_newline).
  unfold fits. rewrite (proj2 (N.leb_le _ _)) by lia. rewrite strip_cr_id by done.
  unfold line_text. by rewrite from_utf8_utf8.
Qed.

End codec.

(** ** A concrete wire

    Serializers that write one request and one response, for the examples:
    they satisfy [WireOk] and show that its laws can hold. *)
Definition sample_request : ControlRequest := mkRequest [] ServiceStatus JNull.

#[export] Instance sample_wire : Wire := {|
  msgpack_request _ b := match b with ([], JNull) => Ok [xc0] | _ => Err (lit "unsupported") end;
  msgpack_read_request _ l := match l with [xc0] => Ok ([], JNull) | _ => Err (lit "unsupported") end;
  msgpack_response _ r :=
    match r with mkResponse true (Some JNull) None => Ok [xc0] | _ => Err (lit "unsupported") end;
  msgpack_read_response _ l := match l with [xc0] => Ok empty_ok | _ => Err (lit "unsupported") end;
  json_request r :=
    match r with
    | mkRequest [] ServiceStatus JNull => Ok (utf8 (lit "{}"))
    | _ => Err (lit "unsupported")
    end;
  json_read_request t :=
    if text_eqb t (lit "{}") then Ok sample_request else Err (lit "unsupported");
  json_response r :=
    match r with
    | mkResponse true (Some JNull) None => Ok (utf8 (lit "{}"))
    | _ => Err (lit "unsupported")
    end;
  json_read_response t :=
    if text_eqb t (lit "{}") then Ok empty_ok else Err (lit "unsupported");
|}.

Lemma one_line_braces : one_line (lit "{}").
Proof.
  split; [repeat constructor|]. split; [|vm_compute; discriminate].
  vm_compute. intros H. repeat (apply elem_of_cons in H as [H|H]; [discriminate|]).
  by apply not_elem_of_nil in H.
Qed.

#[export] Instance sample_wire_ok : WireOk.
Proof.
  split.
  - intros d [t v] bytes. destruct t, v; simpl; by intros [= <-].
  - intros d [[|] [[]|] [|]] bytes; simpl; by intros [= <-].
  - intros [[|] [] []] bytes; simpl; intros [= <-];
      (exists (lit "{}"); split_and!; [done|apply one_line_braces|done]).
  - intros [[|] [[]|] [|]] bytes; simpl; intros [= <-];
      (exists (lit "{}"); split_and!; [done|apply one_line_braces|done]).
Qed.

(** ** Properties *)

Section properties.
Context `{WireOk}.

(** A request that the binary codec accepts arrives intact: the stream
    reader yields a request frame with the method's opcode and the id, the
    opcode maps back to the method, and the payload decodes to the token and
    parameters that were sent. *)
Theorem binary_request_arrives id r l bytes rest e :
  wire_limits l → (id ≤ u64_max)%N → encode_binary_request id r l = Ok bytes →
  ∃ payload,
    read_binary_frame l (mkReader (bytes ++ rest) e) =
      (Ok (Some (mkFrame (mkHeader (opcode (req_method r)) REQUEST id (len payload)) payload)),
       mkReader rest e) ∧
    from_opcode (opcode (req_method r)) = Some (req_method r) ∧
    msgpack_read_request (max_msgpack_nesting_depth l) payload = Ok (req_token r, req_params r).
Proof.
  intros Hl Hid He. unfold encode_binary_request in He.
  apply rbind_ok in He as (payload & Hp & He). apply encode_messagepack_ok in Hp as [Hp _].
  exists payload. split_and!.
  - eapply read_frame_of_encoded;
      [done|apply opcode_u16|by apply N.leb_le|done|done|exact He].
  - apply from_opcode_opcode.
  - by apply msgpack_request_law.
Qed.

(** A response that the binary codec accepts arrives intact under the id of
    its request, flagged as a response, and flagged as an error exactly when
    it is one. *)
Theorem binary_response_arrives id m r l bytes rest e :
  wire_limits l → (id ≤ u64_max)%N → encode_binary_response id m r l = Ok bytes →
  ∃ payload flags,
    read_binary_frame l (mkReader (bytes ++ rest) e) =
      (Ok (Some (mkFrame (mkHeader (opcode m) flags id (len payload)) payload)),
       mkReader rest e) ∧
    contains_flag flags RESPONSE = true ∧ contains_flag flags ERROR = negb (resp_ok r) ∧
    msgpack_read_response (max_msgpack_nesting_depth l) payload = Ok r.
Proof.
  intros Hl Hid He. unfold encode_binary_response in He.
  apply rbind_ok in He as (payload & Hp & He). apply encode_messagepack_ok in Hp as [Hp _].
  exists payload. eexists. split_and!.
  - eapply read_frame_of_encoded;
      [done|apply opcode_u16| |done| |exact He]; destruct (resp_ok r); by try apply N.leb_le.
  - by destruct (resp_ok r).
  - by destruct (resp_ok r).
  - by apply msgpack_response_law.
Qed.

(** The JSONL codec is a round trip over the stream for requests and
    responses: one encoded line is read back as one line, which decodes to what
    was sent, and the stream is left at the next line. *)
Theorem jsonl_arrives l line rest e :
  (∀ r, encode_jsonl_request r l = Ok line →
     ∃ t, read_jsonl_line l (mkReader (line ++ rest) e) = (Ok (Some t), mkReader rest e) ∧
          decode_jsonl_request t l = Ok r) ∧
  (∀ r, encode_jsonl_response r l = Ok line →
     ∃ t, read_jsonl_line l (mkReader (line ++ rest) e) = (Ok (Some t), mkReader rest e) ∧
          decode_jsonl_response t l = Ok r).
Proof.
  split; intros r He; pose proof He as He'; apply encode_jsonl_ok in He' as (buf & Hb & _).
  - destruct (json_request_law _ _ Hb) as (t & -> & Ht & Hd).
    destruct (read_encoded_line _ _ _ _ rest e He Hb Ht) as [Hr Hlen].
    exists t. split; [done|]. unfold decode_jsonl_request, decode_jsonl.
    rewrite (proj2 (N.ltb_ge _ _)) by done. by rewrite Hd.
  - destruct (json_response_law _ _ Hb) as (t & -> & Ht & Hd).
    destruct (read_encoded_line _ _ _ _ rest e He Hb Ht) as [Hr Hlen].
    exists t. split; [done|]. unfold decode_jsonl_response, decode_jsonl.
    rewrite (proj2 (N.ltb_ge _ _)) by done. by rewrite Hd.
Qed.

End properties.

Lemma binary_request_arrives_witness :
  ∃ payload,
    read_binary_frame default_limits
      (mkReader (frame_bytes 1 REQUEST 5 [xc0] ++ [x00]) (mkIo true [])) =
      (Ok (Some (mkFrame (mkHeader 1 REQUEST 5 (len payload)) payload)),
       mkReader [x00] (mkIo true [])) ∧
    from_opcode 1 = Some ServiceStatus ∧
    msgpack_read_request 64 payload = Ok ([], JNull).
Proof.
  apply (binary_request_arrives 5 sample_request default_limits
           (frame_bytes 1 REQUEST 5 [xc0]) [x00] (mkIo true [])); vm_compute; done.
Defined.

Lemma binary_response_arrives_witness :
  ∃ payload flags,
    read_binary_frame default_limits
      (mkReader (frame_bytes 1 RESPONSE 5 [xc0] ++ [x00]) (mkIo true [])) =
      (Ok (Some (mkFrame (mkHeader 1 flags 5 (len payload)) payload)),
       mkReader [x00] (mkIo true [])) ∧
    contains_flag flags RESPONSE = true ∧ contains_flag flags ERROR = false ∧
    msgpack_read_response 64 payload = Ok empty_ok.
Proof.
  apply (binary_response_arrives 5 ServiceStatus empty_ok default_limits
           (frame_bytes 1 RESPONSE 5 [xc0]) [x00] (mkIo true [])); vm_compute; done.
Defined.

Lemma jsonl_arrives_witness :
  ∃ t, read_jsonl_line default_limits
         (mkReader ((utf8 (lit "{}") ++ [x0a]) ++ [x7b]) (mkIo true [])) =
         (Ok (Some t), mkReader [x7b] (mkIo true [])) ∧
       decode_jsonl_request t default_limits = Ok sample_request.
Proof.
  refine (proj1 (jsonl_arrives default_limits (utf8 (lit "{}") ++ [x0a]) [x7b] (mkIo true []))
            sample_request _). vm_compute. reflexivity.
Defined.
