(* ===== verification/Session.v ===== *)
(** * The multiplexed client session

    [crates/mutsuki-service-ipc/src/session.rs]: [ControlSession] as a state
    machine.  A label is one step of one of its tasks between two points where
    another task can run (a lock, a write, an await): the steps of every
    [send] in flight, [cancel], [close], the reader task, and the drop of a
    future of [send] or [cancel] wherever it waits.  The bytes the peer will ever send are fixed at the start; a theorem over all initial
    states and all label sequences covers every schedule. *)

From S2P Require Import Prelude Text Value Control ConfigTypes Frame Stream Codec.

Section session.
Context `{Wire}.

(** Where a call of [send] that drew a request id stands. *)
Inductive call : Type :=
| Allocated (request : ControlRequest)   (* id drawn, limit not yet checked *)
| Checked (request : ControlRequest)     (* limit checked, not yet inserted *)
| Inserted (request : ControlRequest)    (* in the pending map *)
| WriteFailed (e : IpcError)             (* the entry is still to be removed *)
| Waiting                                (* on the oneshot receiver *)
| TimedOut                               (* entry removed, cancel not yet sent *)
| Dropped                                (* the caller dropped the future of [send] *)
| Returned (r : IpcResult ControlResponse).

Inductive reader_task : Type :=
| Reading
| Stopping (r : IpcResult unit)          (* loop ended, [closed] set, not drained *)
| Stopped.

(** [mail] holds what was sent on the oneshot channel of a request; [history]
    lists the responses the reader handed over, with the id of their frame. *)
Record session : Type := mkSession {
  s_codec : IpcCodec;
  s_limits : ControlIpcLimits;
  closed : bool;
  next_id : N;
  pending : gset N;
  mail : gmap N (IpcResult ControlResponse);
  calls : gmap N call;
  incoming : reader;
  outgoing : writer;
  task : reader_task;
  history : list (N * ControlResponse);
}.

(** [ControlSession::from_stream]. *)
Definition from_stream (codec : IpcCodec) (limits : ControlIpcLimits) (r : reader) (w : writer)
    : session :=
  mkSession codec limits false 1 ∅ ∅ ∅ r w Reading [].

(** Field updates. *)
Definition set_call (id : N) (c : call) (s : session) : session :=
  mkSession (s_codec s) (s_limits s) (closed s) (next_id s) (pending s) (mail s)
    (<[id := c]> (calls s)) (incoming s) (outgoing s) (task s) (history s).
Definition set_pending (p : gset N) (s : session) : session :=
  mkSession (s_codec s) (s_limits s) (closed s) (next_id s) p (mail s)
    (calls s) (incoming s) (outgoing s) (task s) (history s).
Definition set_next (n : N) (s : session) : session :=
  mkSession (s_codec s) (s_limits s) (closed s) n (pending s) (mail s)
    (calls s) (incoming s) (outgoing s) (task s) (history s).
Definition set_outgoing (w : writer) (s : session) : session :=
  mkSession (s_codec s) (s_limits s) (closed s) (next_id s) (pending s) (mail s)
    (calls s) (incoming s) w (task s) (history s).
Definition set_incoming (r : reader) (s : session) : session :=
  mkSession (s_codec s) (s_limits s) (closed s) (next_id s) (pending s) (mail s)
    (calls s) r (outgoing s) (task s) (history s).

(** [pending.remove(&id)] and a send on its channel, if it was there. *)
Definition complete (id : N) (v : IpcResult ControlResponse) (s : session) : session :=
  if bool_decide (id ∈ pending s) then
    mkSession (s_codec s) (s_limits s) (closed s) (next_id s) (pending s ∖ {[id]})
      (<[id := v]> (mail s)) (calls s) (incoming s) (outgoing s) (task s) (history s)
  else s.

(** [for (_, entry) in pending.drain()]: the same error to every waiter. *)
Definition drain (e : IpcError) (s : session) : session :=
  mkSession (s_codec s) (s_limits s) (closed s) (next_id s) ∅
    (gset_to_gmap (Err e) (pending s) ∪ mail s) (calls s) (incoming s) (outgoing s) (task s)
    (history s).

Definition encode_request (s : session) (id : N) (request : ControlRequest) : IpcResult (list byte) :=
  match s_codec s with
  | Binary => encode_binary_request id request (s_limits s)
  | Jsonl => encode_jsonl_request request (s_limits s)
  end.

(** ** The steps of [send] *)

Definition send_start (request : ControlRequest) (s : session) : session :=
  if closed s then s                                        (* returns Closed *)
  else
    let request_id := next_id s in
    let s := set_next (wrap 64 (request_id + 1)) s in
    if (request_id =? 0)%N then s                           (* returns InvalidRequestId *)
    else set_call request_id (Allocated request) s.

Definition send_check (id : N) (request : ControlRequest) (s : session) : session :=
  let max := max_in_flight (s_limits s) in
  if (max <=? N.of_nat (size (pending s)))%N
  then set_call id (Returned (Err (PendingLimitExceeded max))) s
  else set_call id (Checked request) s.

Definition send_insert (id : N) (request : ControlRequest) (s : session) : session :=
  set_call id (Inserted request) (set_pending (pending s ∪ {[id]}) s).

(** Encoding errors leave through [?]; write errors are kept. *)
Definition send_write (id : N) (request : ControlRequest) (s : session) : session :=
  match encode_request s id request with
  | Err e => set_call id (Returned (Err e)) s
  | Ok bytes =>
      match write_all_flush bytes (outgoing s) with
      | (Ok _, w) => set_call id Waiting (set_outgoing w s)
      | (Err e, w) => set_call id (WriteFailed e) (set_outgoing w s)
      end
  end.

Definition send_unwind (id : N) (e : IpcError) (s : session) : session :=
  set_call id (Returned (Err e)) (set_pending (pending s ∖ {[id]}) s).

Definition send_timeout (id : N) (s : session) : session :=
  set_call id TimedOut (set_pending (pending s ∖ {[id]}) s).

Definition cancel (id : N) (s : session) : IpcResult unit * session :=
  match s_codec s with
  | Jsonl => (Ok tt, complete id (Err Cancelled) s)
  | Binary =>
      match encode_binary_cancel id (s_limits s) with
      | Err e => (Err e, s)
      | Ok bytes =>
          match write_all_flush bytes (outgoing s) with
          | (Err e, w) => (Err e, set_outgoing w s)
          | (Ok _, w) => (Ok tt, complete id (Err Cancelled) (set_outgoing w s))
          end
      end
  end.

(** ** Futures that are dropped

    A caller may drop the future of [send] or [cancel] wherever it waits.  What
    was written of a frame by then stays written ([k] bytes of it), and an entry
    of the pending map stays there. *)
Definition cancel_drop (id : N) (k : nat) (s : session) : session :=
  match s_codec s, encode_binary_cancel id (s_limits s) with
  | Binary, Ok bytes => set_outgoing (write_part k bytes (outgoing s)) s
  | _, _ => s
  end.

Definition send_drop (id : N) (k : nat) (c : call) (s : session) : option session :=
  match c with
  | Allocated _ | Checked _ | WriteFailed _ | Waiting => Some (set_call id Dropped s)
  | Inserted request =>
      Some (set_call id Dropped
              match encode_request s id request with
              | Ok bytes => set_outgoing (write_part k bytes (outgoing s)) s
              | Err _ => s
              end)
  | TimedOut => Some (set_call id Dropped (cancel_drop id k s))
  | Dropped | Returned _ => None
  end.

(** ** The reader task *)

Definition stop (r : IpcResult unit) (s : session) : session :=
  mkSession (s_codec s) (s_limits s) true (next_id s) (pending s) (mail s)
    (calls s) (incoming s) (outgoing s) (Stopping r) (history s).

Definition deliver (id : N) (response : ControlResponse) (s : session) : session :=
  let s' := complete id (Ok response) s in
  mkSession (s_codec s') (s_limits s') (closed s') (next_id s') (pending s') (mail s')
    (calls s') (incoming s') (outgoing s') (task s') (history s ++ [(id, response)]).

(** One turn of [read_binary_loop]. *)
Definition read_binary_turn (s : session) : session :=
  let l := s_limits s in
  let '(r, rest) := read_binary_frame_into l (incoming s) in
  let s := set_incoming rest s in
  match r with
  | Err e => stop (Err e) s
  | Ok None => stop (Ok tt) s
  | Ok (Some (header, payload)) =>
      if negb (contains_flag (h_flags header) RESPONSE)
      then stop (Err (UnknownFlags (h_flags header))) s
      else
        let request_id := h_request_id header in
        match msgpack_read_response (max_msgpack_nesting_depth l) payload with
        | Err m => stop (Err (Protocol m)) s
        | Ok response =>
            if bool_decide (request_id ∈ pending s) then deliver request_id response s
            else stop (Err (LateResponse request_id)) s
        end
  end.

(** [map.keys().copied().min()]. *)
Definition oldest (p : gset N) : option N :=
  match elements p with
  | [] => None
  | id :: ids => Some (fold_left N.min ids id)
  end.

(** One turn of [read_jsonl_loop]. *)
Definition read_jsonl_turn (s : session) : session :=
  let l := s_limits s in
  let '(r, rest) := read_jsonl_line l (incoming s) in
  let s := set_incoming rest s in
  match r with
  | Err e => stop (Err e) s
  | Ok None => stop (Ok tt) s
  | Ok (Some line) =>
      match decode_jsonl_response line l with
      | Err e => stop (Err e) s
      | Ok response =>
          match oldest (pending s) with
          | None => stop (Err (LateResponse 0)) s
          | Some request_id => deliver request_id response s
          end
      end
  end.

Definition read_turn (s : session) : session :=
  match s_codec s with Binary => read_binary_turn s | Jsonl => read_jsonl_turn s end.

(** The end of [spawn_reader]'s task. *)
Definition finish_reader (r : IpcResult unit) (s : session) : session :=
  let err := match r with Ok _ => Closed | Err e => Protocol (ipc_error_text e) end in
  let s := drain err s in
  mkSession (s_codec s) (s_limits s) (closed s) (next_id s) (pending s) (mail s)
    (calls s) (incoming s) (outgoing s) Stopped (history s).

(** [close]: the flag, the drain, and the abort of the reader task. *)
Definition close (s : session) : session :=
  let s := drain Closed s in
  mkSession (s_codec s) (s_limits s) true (next_id s) (pending s) (mail s)
    (calls s) (incoming s) (outgoing s) Stopped (history s).

(** ** The machine *)

Inductive label : Type :=
| SendStart (request : ControlRequest)
| SendCheck (id : N) | SendInsert (id : N) | SendWrite (id : N) | SendUnwind (id : N)
| SendReceive (id : N) | SendTimeout (id : N) | SendCancel (id : N)
| Cancel (id : N)
| SendDrop (id : N) (k : nat) | CancelDrop (id : N) (k : nat)
| ReaderTurn | ReaderFinish
| CloseSession
| Break (e : io_error).                  (* the connection stops taking bytes *)

Definition step (lb : label) (s : session) : option session :=
  match lb with
  | SendStart request => Some (send_start request s)
  | SendCheck id =>
      match calls s !! id with
      | Some (Allocated request) => Some (send_check id request s) | _ => None end
  | SendInsert id =>
      match calls s !! id with
      | Some (Checked request) => Some (send_insert id request s) | _ => None end
  | SendWrite id =>
      match calls s !! id with
      | Some (Inserted request) => Some (send_write id request s) | _ => None end
  | SendUnwind id =>
      match calls s !! id with
      | Some (WriteFailed e) => Some (send_unwind id e s) | _ => None end
  | SendReceive id =>
      match calls s !! id, mail s !! id with
      | Some Waiting, Some r => Some (set_call id (Returned r) s) | _, _ => None end
  | SendTimeout id =>
      match calls s !! id with
      | Some Waiting => Some (send_timeout id s) | _ => None end
  | SendCancel id =>
      match calls s !! id with
      | Some TimedOut => Some (set_call id (Returned (Err Timeout)) (cancel id s).2) | _ => None end
  | Cancel id => Some (cancel id s).2
  | SendDrop id k => c ← calls s !! id; send_drop id k c s
  | CancelDrop id k => Some (cancel_drop id k s)
  | ReaderTurn => match task s with Reading => Some (read_turn s) | _ => None end
  | ReaderFinish => match task s with Stopping r => Some (finish_reader r s) | _ => None end
  | CloseSession => Some (close s)
  | Break e => Some (set_outgoing (mkWriter (written (outgoing s)) (Some e)) s)
  end.

Fixpoint run (ls : list label) (s : session) : option session :=
  match ls with
  | [] => Some s
  | lb :: ls' => s' ← step lb s; run ls' s'
  end.

(** How many calls of [send] a schedule starts. *)
Fixpoint starts (ls : list label) : N :=
  match ls with
  | [] => 0
  | SendStart _ :: ls' => 1 + starts ls'
  | _ :: ls' => starts ls'
  end.

(** ** One-shot requests

    [request_oneshot] on a fresh connection: a request with id 1, its response,
    nothing else. *)
Definition oneshot_jsonl (l : ControlIpcLimits) (request : ControlRequest) (r : reader) (w : writer)
    : IpcResult ControlResponse * writer :=
  match encode_jsonl_request request l with
  | Err e => (Err e, w)
  | Ok bytes =>
      match write_all_flush bytes w with
      | (Err e, w) => (Err e, w)
      | (Ok _, w) =>
          (let? line := (read_jsonl_line l r).1 in
           let? line := ok_or line Closed in
           decode_jsonl_response line l, w)
      end
  end.

Definition oneshot_binary (l : ControlIpcLimits) (request : ControlRequest) (r : reader) (w : writer)
    : IpcResult ControlResponse * writer :=
  match encode_binary_request 1 request l with
  | Err e => (Err e, w)
  | Ok bytes =>
      match write_all_flush bytes w with
      | (Err e, w) => (Err e, w)
      | (Ok _, w) =>
          (let? frame := (read_binary_frame l r).1 in
           let? frame := ok_or frame Closed in
           let header := f_header frame in
           if negb (h_request_id header =? 1)%N || negb (contains_flag (h_flags header) RESPONSE)
           then Err (Protocol (lit "oneshot binary response mismatch"))
           else map_err Protocol
                  (msgpack_read_response (max_msgpack_nesting_depth l) (f_payload frame)), w)
      end
  end.

Definition request_oneshot (codec : IpcCodec) (l : ControlIpcLimits) (request : ControlRequest)
    (r : reader) (w : writer) : IpcResult ControlResponse * writer :=
  match codec with
  | Jsonl => oneshot_jsonl l request r w
  | Binary => oneshot_binary l request r w
  end.

(** ** The specification of delivery

    [answered l r0 hist r]: reading response frames from [r0] under the limits
    [l] gives [hist], one entry per frame, and stops at [r]. *)
Inductive answered (l : ControlIpcLimits) (r0 : reader)
    : list (N * ControlResponse) → reader → Prop :=
| answered_nil : answered l r0 [] r0
| answered_frame hist r header payload response r' :
    answered l r0 hist r →
    read_binary_frame_into l r = (Ok (Some (header, payload)), r') →
    contains_flag (h_flags header) RESPONSE = true →
    msgpack_read_response (max_msgpack_nesting_depth l) payload = Ok response →
    answered l r0 (hist ++ [(h_request_id header, response)]) r'.

(** ** The invariant *)

Definition call_ok (s : session) (id : N) (c : call) : Prop :=
  match c with
  | Allocated _ | Checked _ => (id ∉ pending s) ∧ mail s !! id = None
  | Inserted _ | Waiting => id ∈ pending s ∨ is_Some (mail s !! id)
  | WriteFailed _ => True
  | TimedOut => id ∉ pending s
  | Dropped => True
  | Returned (Ok r) => mail s !! id = Some (Ok r)
  | Returned (Err _) => True
  end.

Record inv (s : session) : Prop := mkInv {
  inv_ids : ∀ id c, calls s !! id = Some c → (0 < id < next_id s)%N;
  inv_pending : ∀ id, id ∈ pending s → is_Some (calls s !! id);
  inv_mail : ∀ id, is_Some (mail s !! id) → is_Some (calls s !! id);
  inv_disjoint : ∀ id, id ∈ pending s → mail s !! id = None;
  inv_phase : ∀ id c, calls s !! id = Some c → call_ok s id c;
  inv_history : ∀ id r, mail s !! id = Some (Ok r) ↔ (id, r) ∈ history s;
  inv_once : NoDup (history s).*1;
}.

(** ** The invariant is kept *)

Lemma inv_from_stream codec l r w : inv (from_stream codec l r w).
Proof.
  split; simpl; [by intros *|set_solver|by intros id []|done|by intros *| |constructor].
  intros id x. rewrite lookup_empty. split; [done|]. intros Hin. by apply not_elem_of_nil in Hin.
Qed.

(** Moving a call on, when its new phase is justified. *)
Lemma inv_set_call id c c0 s :
  inv s → calls s !! id = Some c0 → call_ok s id c → inv (set_call id c s).
Proof.
  intros [Hi Hp Hm Hd Hc Hh Ho] Hid Hok. split; simpl; try done.
  - intros id' c' [[<- _]|[_ H']]%lookup_insert_Some; eauto.
  - intros id' Hin. apply lookup_insert_is_Some. destruct (decide (id = id')); eauto.
  - intros id' Hin. apply lookup_insert_is_Some. destruct (decide (id = id')); eauto.
  - intros id' c' [[<- <-]|[_ H']]%lookup_insert_Some; [done|].
    by specialize (Hc _ _ H').
Qed.

Lemma inv_set_outgoing w s : inv s → inv (set_outgoing w s).
Proof. intros [Hi Hp Hm Hd Hc Hh Ho]. by split. Qed.

Lemma inv_set_incoming r s : inv s → inv (set_incoming r s).
Proof. intros [Hi Hp Hm Hd Hc Hh Ho]. by split. Qed.

Lemma inv_stop r s : inv s → inv (stop r s).
Proof. intros [Hi Hp Hm Hd Hc Hh Ho]. by split. Qed.

(** Sending an error on the channel of a registered request. *)
Lemma inv_complete_err id e s : inv s → inv (complete id (Err e) s).
Proof.
  intros Hs. unfold complete. destruct (bool_decide_reflect (id ∈ pending s)) as [Hin|]; [|done].
  destruct Hs as [Hi Hp Hm Hd Hc Hh Ho]. split; simpl; try done.
  - set_solver.
  - intros id' [r [[<- _]|[_ H']]%lookup_insert_Some]; eauto.
  - intros id' [Hin' Hne]%elem_of_difference. rewrite lookup_insert_ne by set_solver. auto.
  - intros id' c Hc'. specialize (Hc _ _ Hc'). unfold call_ok in *; simpl.
    destruct (decide (id = id')) as [<-|Hne].
    + rewrite lookup_insert_eq. rewrite (Hd _ Hin) in Hc. destruct c as [| | | | | | |[]]; naive_solver.
    + rewrite lookup_insert_ne by done. destruct c as [| | | | | | |[]]; set_solver.
  - intros id' r. rewrite <-Hh. destruct (decide (id = id')) as [<-|Hne].
    + rewrite lookup_insert_eq, (Hd _ Hin). naive_solver.
    + by rewrite lookup_insert_ne.
Qed.

Lemma inv_drain e s : inv s → inv (drain e s).
Proof.
  intros [Hi Hp Hm Hd Hc Hh Ho].
  assert (Hg : ∀ id, (gset_to_gmap (Err e) (pending s) ∪ mail s) !! id =
                     if bool_decide (id ∈ pending s) then Some (Err e) else mail s !! id).
  { intros id. case_bool_decide as Hin.
    - apply lookup_union_Some_l. by apply lookup_gset_to_gmap_Some.
    - rewrite lookup_union_r; [done|]. by apply lookup_gset_to_gmap_None. }
  split; simpl; try done.
  - intros id. rewrite Hg. case_bool_decide; eauto.
  - intros id c Hc'. specialize (Hc _ _ Hc'). unfold call_ok in *; simpl. rewrite Hg.
    case_bool_decide as Hin; [rewrite (Hd _ Hin) in Hc|];
      destruct c as [| | | | | | |[]]; rewrite ?elem_of_empty; naive_solver.
  - intros id r. rewrite <-Hh, Hg. case_bool_decide as Hin; [|done].
    rewrite (Hd _ Hin). naive_solver.
Qed.

(** Handing a response to a registered request. *)
Lemma inv_deliver id r s : inv s → id ∈ pending s → inv (deliver id r s).
Proof.
  intros [Hi Hp Hm Hd Hc Hh Ho] Hin. unfold deliver, complete.
  rewrite bool_decide_true by done. split; simpl; try done.
  - set_solver.
  - intros id' [v [[<- _]|[_ H']]%lookup_insert_Some]; eauto.
  - intros id' [Hin' Hne]%elem_of_difference. rewrite lookup_insert_ne by set_solver. auto.
  - intros id' c Hc'. specialize (Hc _ _ Hc'). unfold call_ok in *; simpl.
    destruct (decide (id = id')) as [<-|Hne].
    + rewrite lookup_insert_eq. rewrite (Hd _ Hin) in Hc. destruct c as [| | | | | | |[]]; naive_solver.
    + rewrite lookup_insert_ne by done. destruct c as [| | | | | | |[]]; set_solver.
  - intros id' v. rewrite elem_of_app, list_elem_of_singleton, <-Hh.
    destruct (decide (id = id')) as [<-|Hne].
    + rewrite lookup_insert_eq, (Hd _ Hin). naive_solver.
    + rewrite lookup_insert_ne by done. naive_solver.
  - rewrite fmap_app. simpl. apply NoDup_app. split_and!; [done| |apply NoDup_singleton].
    intros id' [[id2 r'] [-> Hin']]%list_elem_of_fmap. simpl.
    rewrite <-Hh in Hin'. intros Heq%list_elem_of_singleton. subst. by rewrite Hd in Hin'.
Qed.

(** Drawing an id that was never used. *)
Lemma inv_allocate n request s :
  inv s → (0 < next_id s)%N → n = (next_id s + 1)%N →
  inv (set_call (next_id s) (Allocated request) (set_next n s)).
Proof.
  intros [Hi Hp Hm Hd Hc Hh Ho] Hpos ->.
  assert (Hfree : calls s !! next_id s = None).
  { destruct (calls s !! next_id s) as [c|] eqn:E; [|done]. specialize (Hi _ _ E). lia. }
  split; simpl; try done.
  - intros id c [[<- _]|[_ H']]%lookup_insert_Some; [lia|]. specialize (Hi _ _ H'). lia.
  - intros id Hin. apply lookup_insert_is_Some. destruct (decide (next_id s = id)); eauto.
  - intros id Hin. apply lookup_insert_is_Some. destruct (decide (next_id s = id)); eauto.
  - intros id c [[<- <-]|[_ H']]%lookup_insert_Some; [|by specialize (Hc _ _ H')].
    split.
    + intros Hin. apply Hp in Hin as [c Hin]. simpl in *. congruence.
    + apply eq_None_not_Some. intros Hin. apply Hm in Hin as [c Hin]. congruence.
Qed.

(** Registering a request that passed the limit check. *)
Lemma inv_insert id request s :
  inv s → calls s !! id = Some (Checked request) → inv (send_insert id request s).
Proof.
  intros [Hi Hp Hm Hd Hc Hh Ho] Hid. destruct (Hc _ _ Hid) as [Hni Hnm]. split; simpl; try done.
  - intros id' c' [[<- _]|[_ H']]%lookup_insert_Some; eauto.
  - intros id' Hin. apply lookup_insert_is_Some.
    destruct (decide (id = id')) as [|Hne]; [by left|]. right. split; [done|]. apply Hp. set_solver.
  - intros id' Hin. apply lookup_insert_is_Some. destruct (decide (id = id')); eauto.
  - intros id' [Hin| ->%elem_of_singleton]%elem_of_union; eauto.
  - intros id' c' [[<- <-]|[Hne H']]%lookup_insert_Some; simpl; [left; set_solver|].
    specialize (Hc _ _ H'). unfold call_ok in *. simpl.
    destruct c' as [| | | | | | |[]]; set_solver.
Qed.

(** Removing the entry of one's own call. *)
Lemma inv_forget id c c0 s :
  inv s → calls s !! id = Some c0 →
  (∀ p, call_ok (set_pending (p ∖ {[id]}) s) id c) →
  inv (set_call id c (set_pending (pending s ∖ {[id]}) s)).
Proof.
  intros [Hi Hp Hm Hd Hc Hh Ho] Hid Hok. split; simpl; try done.
  - intros id' c' [[<- _]|[_ H']]%lookup_insert_Some; eauto.
  - intros id' [Hin _]%elem_of_difference. apply lookup_insert_is_Some.
    destruct (decide (id = id')); eauto.
  - intros id' Hin. apply lookup_insert_is_Some. destruct (decide (id = id')); eauto.
  - intros id' [Hin _]%elem_of_difference. auto.
  - intros id' c' [[<- <-]|[Hne H']]%lookup_insert_Some; [apply (Hok (pending s))|].
    specialize (Hc _ _ H'). unfold call_ok in *. simpl.
    destruct c' as [| | | | | | |[]]; set_solver.
Qed.

Lemma oldest_elem p id : oldest p = Some id → id ∈ p.
Proof.
  unfold oldest. destruct (elements p) as [|x l] eqn:E; [done|]. intros [= <-].
  apply elem_of_elements. rewrite E. clear E. revert x.
  induction l as [|y l IH]; intros x; simpl; [set_solver|].
  specialize (IH (N.min x y)). apply elem_of_cons in IH as [IH|IH]; [|set_solver].
  rewrite IH. destruct (N.min_spec x y) as [[_ ->]|[_ ->]]; set_solver.
Qed.

Lemma inv_read_turn s : inv s → inv (read_turn s).
Proof.
  intros Hs. unfold read_turn, read_binary_turn, read_jsonl_turn.
  repeat case_match; auto using inv_stop, inv_set_incoming.
  - apply inv_deliver; [by apply inv_set_incoming|]. by case_bool_decide.
  - apply inv_deliver; [by apply inv_set_incoming|]. by apply oldest_elem.
Qed.

Lemma inv_cancel id s : inv s → inv (cancel id s).2.
Proof.
  intros Hs. unfold cancel. repeat case_match; simpl;
    auto using inv_complete_err, inv_set_outgoing.
Qed.

Lemma cancel_drop_same id k s :
  ∃ w, cancel_drop id k s = set_outgoing w s.
Proof.
  assert (Hs : s = set_outgoing (outgoing s) s) by by destruct s.
  unfold cancel_drop. repeat case_match; first [by eexists|by exists (outgoing s)].
Qed.

(** A dropped call changes nothing but its phase and what was written. *)
Lemma send_drop_same id k c s s' :
  send_drop id k c s = Some s' → ∃ w, s' = set_call id Dropped (set_outgoing w s).
Proof.
  assert (Hs : s = set_outgoing (outgoing s) s) by by destruct s.
  unfold send_drop. destruct c; intros [= <-]; try (exists (outgoing s); by rewrite <-Hs).
  - destruct (encode_request s id request) as [bytes|e]; [by eexists|]. exists (outgoing s). by rewrite <-Hs.
  - destruct (cancel_drop_same id k s) as [w ->]. by exists w.
Qed.

(** What no step but a reader turn can change. *)
Definition untouched (s s' : session) : Prop :=
  s_codec s' = s_codec s ∧ s_limits s' = s_limits s ∧ history s' = history s ∧
  (task s' = Reading → task s = Reading ∧ incoming s' = incoming s).

Lemma step_untouched lb s s' : step lb s = Some s' → lb ≠ ReaderTurn → untouched s s'.
Proof.
  intros Hs Hne. destruct lb; simpl in Hs; try done.
  10: { apply bind_Some in Hs as (c & _ & Hs). by apply send_drop_same in Hs as [w ->]. }
  10: { destruct (cancel_drop_same id k s) as [w E]. rewrite E in Hs. by simplify_eq. }
  all: repeat case_match; simplify_eq;
    unfold untouched, send_start, send_check, send_write, cancel, complete;
    repeat case_match; simpl; naive_solver.
Qed.

Lemma cancel_calls id s : calls (cancel id s).2 = calls s ∧ next_id (cancel id s).2 = next_id s.
Proof. unfold cancel, complete. repeat case_match; done. Qed.

Lemma step_next lb s s' :
  step lb s = Some s' → (0 < next_id s)%N → (next_id s + starts [lb] < 2 ^ 64)%N →
  (0 < next_id s' ≤ next_id s + starts [lb])%N.
Proof.
  intros Hs Hpos Hb.
  assert (Hw : (next_id s + 1 < 2 ^ 64)%N → wrap 64 (next_id s + 1) = (next_id s + 1)%N)
    by (intros; by apply N.mod_small).
  destruct lb; simpl in Hs, Hb.
  10: { apply bind_Some in Hs as (c & _ & Hs). apply send_drop_same in Hs as [w ->]. simpl. lia. }
  10: { destruct (cancel_drop_same id k s) as [w E]. rewrite E in Hs. simplify_eq. simpl. lia. }
  all: repeat case_match; simplify_eq;
    unfold send_start, send_check, send_write, read_turn, read_binary_turn, read_jsonl_turn,
      deliver, cancel, complete;
    repeat case_match; simpl in *; rewrite ?Hw by lia; lia.
Qed.

Lemma inv_step lb s s' :
  inv s → (0 < next_id s)%N → (next_id s + starts [lb] < 2 ^ 64)%N →
  step lb s = Some s' → inv s'.
Proof.
  intros Hs Hpos Hb Hst. destruct lb as [request| | | | | | | | |id k|id k| | | |]; simpl in Hst, Hb.
  - injection Hst as <-. unfold send_start. case_match; [done|].
    destruct (N.eqb_spec (next_id s) 0); [lia|].
    apply inv_allocate; try done. by apply N.mod_small.
  - destruct (calls s !! id) as [[]|] eqn:Hid; simplify_eq.
    pose proof (inv_phase s Hs _ _ Hid). unfold send_check. case_match; by eapply inv_set_call.
  - destruct (calls s !! id) as [[]|] eqn:Hid; simplify_eq. by apply inv_insert.
  - destruct (calls s !! id) as [[]|] eqn:Hid; simplify_eq.
    pose proof (inv_phase s Hs _ _ Hid). unfold send_write.
    repeat case_match; eapply inv_set_call; eauto using inv_set_outgoing; done.
  - destruct (calls s !! id) as [[]|] eqn:Hid; simplify_eq. by eapply inv_forget.
  - destruct (calls s !! id) as [[]|] eqn:Hid; simplify_eq.
    destruct (mail s !! id) as [r|] eqn:Hm; simplify_eq.
    eapply inv_set_call; [done..|]. by destruct r.
  - destruct (calls s !! id) as [[]|] eqn:Hid; simplify_eq.
    eapply inv_forget; [done..|]. intros p. simpl. set_solver.
  - destruct (calls s !! id) as [[]|] eqn:Hid; simplify_eq.
    eapply inv_set_call; [by apply inv_cancel| |done]. by rewrite (proj1 (cancel_calls id s)).
  - simplify_eq. by apply inv_cancel.
  - apply bind_Some in Hst as (c & Hid & Hst). apply send_drop_same in Hst as [w ->].
    eapply inv_set_call; [by apply inv_set_outgoing|done|done].
  - destruct (cancel_drop_same id k s) as [w E]. rewrite E in Hst. simplify_eq. by apply inv_set_outgoing.
  - destruct (task s); simplify_eq. by apply inv_read_turn.
  - destruct (task s); simplify_eq. unfold finish_reader.
    destruct (inv_drain (match r with Ok _ => Closed | Err e => Protocol (ipc_error_text e) end) s Hs).
    by split.
  - simplify_eq. unfold close. destruct (inv_drain Closed s Hs). by split.
  - simplify_eq. by apply inv_set_outgoing.
Qed.

Lemma inv_run ls s s' :
  inv s → (0 < next_id s)%N → (next_id s + starts ls < 2 ^ 64)%N →
  run ls s = Some s' → inv s'.
Proof.
  revert s. induction ls as [|lb ls IH]; intros s Hs Hpos Hb Hr; simpl in Hr; [by simplify_eq|].
  apply bind_Some in Hr as (s1 & Hst & Hr).
  assert (Hsp : starts (lb :: ls) = (starts [lb] + starts ls)%N) by (destruct lb; simpl; lia).
  rewrite Hsp in Hb. clear Hsp. revert Hb.
  pose proof (inv_step lb s s1 Hs Hpos) as Hinv. pose proof (step_next lb s s1 Hst Hpos) as Hn.
  generalize dependent (starts [lb]). intros k Hinv Hn Hb.
  assert (Hk : (next_id s + k < 2 ^ 64)%N) by lia. specialize (Hn Hk).
  apply (IH s1); [by apply Hinv|lia|lia|done].
Qed.

(** The history is what was read from the stream. *)
Definition tracked (l : ControlIpcLimits) (r0 : reader) (s : session) : Prop :=
  s_codec s = Binary ∧ s_limits s = l ∧ (∃ r, answered l r0 (history s) r) ∧
  (task s = Reading → answered l r0 (history s) (incoming s)).

Lemma deliver_fields id r s :
  id ∈ pending s →
  history (deliver id r s) = history s ++ [(id, r)] ∧ s_codec (deliver id r s) = s_codec s ∧
  s_limits (deliver id r s) = s_limits s ∧ incoming (deliver id r s) = incoming s.
Proof. intros Hin. unfold deliver, complete. by rewrite bool_decide_true. Qed.

Lemma tracked_step l r0 lb s s' : tracked l r0 s → step lb s = Some s' → tracked l r0 s'.
Proof.
  intros (Hc & Hl & Ha & Ht) Hst. assert (lb = ReaderTurn ∨ lb ≠ ReaderTurn) as [->|Hne] by (destruct lb; auto).
  2: { destruct (step_untouched _ _ _ Hst Hne) as (Ec & El & Eh & Hi).
       unfold tracked. rewrite Ec, El, Eh.
       split_and!; try done. intros Hr. destruct (Hi Hr) as [Hr' ->]. auto. }
  simpl in Hst. destruct (task s) eqn:Htask; simplify_eq. specialize (Ht eq_refl).
  unfold read_turn. rewrite Hc. unfold read_binary_turn.
  destruct (read_binary_frame_into _ (incoming s)) as [[[[h p]|]|e] rest] eqn:Hread; [|done..].
  destruct (contains_flag (h_flags h) RESPONSE) eqn:Hf; [|done]. simpl negb. cbv iota.
  destruct (msgpack_read_response _ p) as [resp|m] eqn:Hd; [|done].
  case_bool_decide as Hin; [|done].
  destruct (deliver_fields (h_request_id h) resp (set_incoming rest s) Hin) as (Eh & Ec & El & Ei).
  assert (answered (s_limits s) r0 (history s ++ [(h_request_id h, resp)]) rest)
    by (by eapply answered_frame).
  unfold tracked. rewrite Eh, Ec, El, Ei. split_and!; eauto.
Qed.

Lemma tracked_run l r0 ls s s' : tracked l r0 s → run ls s = Some s' → tracked l r0 s'.
Proof.
  revert s. induction ls as [|lb ls IH]; intros s Ht Hr; simpl in Hr; [by simplify_eq|].
  apply bind_Some in Hr as (s1 & Hst & Hr). eauto using tracked_step.
Qed.

(** A send whose request does not encode. *)
Definition failing_send (request : ControlRequest) (id : N) : list label :=
  [SendStart request; SendCheck id; SendInsert id; SendWrite id].

Fixpoint failing_sends (request : ControlRequest) (n : nat) : list label :=
  match n with
  | O => []
  | S n' => failing_sends request n' ++ failing_send request (N.of_nat n)
  end.

Lemma session_run_app ls ks s : run (ls ++ ks) s = s' ← run ls s; run ks s'.
Proof.
  revert s. induction ls as [|lb ls IH]; intros s; simpl; [done|].
  destruct (step lb s); simpl; auto.
Qed.

(** A send that writes its request and waits. *)
Definition good_send (request : ControlRequest) (id : N) : list label :=
  [SendStart request; SendCheck id; SendInsert id; SendWrite id].

Definition sent (id : N) (bytes : list byte) (s : session) : session :=
  mkSession (s_codec s) (s_limits s) (closed s) (id + 1) (pending s ∪ {[id]}) (mail s)
    (<[id := Waiting]> (calls s)) (incoming s) (mkWriter (written (outgoing s) ++ bytes) None)
    (task s) (history s).

Lemma run_good_send request id bytes s :
  closed s = false → next_id s = id → (0 < id)%N → (id + 1 < 2 ^ 64)%N →
  pending s = ∅ → (1 ≤ max_in_flight (s_limits s))%N →
  encode_request s id request = Ok bytes → broken (outgoing s) = None →
  run (good_send request id) s = Some (sent id bytes s).
Proof.
  intros Ho Hn Hpos Hb Hp Hm He Hw. simpl. unfold send_start. rewrite Ho, Hn.
  destruct (N.eqb_spec id 0); [lia|]. simpl. rewrite lookup_insert_eq. simpl.
  unfold send_check. simpl.
  rewrite Hp, size_empty. destruct (N.leb_spec (max_in_flight (s_limits s)) (N.of_nat 0)); [lia|].
  simpl. rewrite lookup_insert_eq. simpl. rewrite lookup_insert_eq. simpl. unfold send_write.
  replace (encode_request _ id request) with (encode_request s id request) by done.
  rewrite He. simpl. unfold write_all_flush. rewrite Hw.
  unfold set_call, set_outgoing, sent. simpl. rewrite Ho, !insert_insert_eq.
  repeat f_equal. by apply N.mod_small.
Qed.

(** After [n] of them: [n] entries that no call owns. *)
Record leaked (codec : IpcCodec) (l : ControlIpcLimits) (n : nat) (s : session) : Prop := {
  leaked_open : closed s = false;
  leaked_codec : s_codec s = codec;
  leaked_limits : s_limits s = l;
  leaked_next : next_id s = N.of_nat (S n);
  leaked_size : size (pending s) = n;
  leaked_ids : ∀ id, id ∈ pending s → (id ≤ N.of_nat n)%N;
  leaked_calls : ∀ id c, calls s !! id = Some c → ∃ e, c = Returned (Err e);
}.

Lemma leak_one codec l n s request :
  leaked codec l n s → (N.of_nat (S n) < 2 ^ 64 - 1)%N → (N.of_nat n < max_in_flight l)%N →
  is_ok (encode_request s (N.of_nat (S n)) request) = false →
  ∃ s', run (failing_send request (N.of_nat (S n))) s = Some s' ∧ leaked codec l (S n) s'.
Proof.
  intros [Ho Hc Hl Hn Hs Hi Hr] Hb Hm He. simpl. unfold send_start.
  rewrite Ho, Hn. destruct (N.eqb_spec (N.of_nat (S n)) 0); [lia|].
  simpl. rewrite lookup_insert_eq. simpl. unfold send_check. simpl. rewrite Hl, Hs.
  destruct (N.leb_spec (max_in_flight l) (N.of_nat n)); [lia|]. simpl. rewrite lookup_insert_eq.
  simpl. rewrite lookup_insert_eq. simpl. unfold send_write.
  replace (encode_request _ _ request) with (encode_request s (N.of_nat (S n)) request) by done.
  destruct (encode_request s (N.of_nat (S n)) request) as [b|e]; [done|].
  eexists. split; [done|]. split; simpl; try done.
  - unfold wrap. rewrite N.mod_small; lia.
  - rewrite size_union_alt, Hs. rewrite difference_disjoint_L, size_singleton; [lia|].
    intros id Hin1 Hin2. apply elem_of_singleton in Hin1 as ->. apply Hi in Hin2. lia.
  - intros id [Hin%Hi|Hin%elem_of_singleton]%elem_of_union; lia.
  - intros id c. rewrite !insert_insert_eq.
    intros [[_ <-]|[_ H']]%lookup_insert_Some; eauto.
Qed.

End session.

(** ** Properties *)

Section properties.
Context `{Wire}.

(** C8: responses reach the right caller.  In a binary session, under every
    schedule of sends, timeouts, cancels and reader turns, a call that returns
    a response returns one the peer sent in a response frame carrying that
    call's id, and no id is answered twice. *)
Theorem session_delivery l r0 w ls s id response :
  run ls (from_stream Binary l r0 w) = Some s → (starts ls < 2 ^ 64 - 1)%N →
  calls s !! id = Some (Returned (Ok response)) →
  (∃ rest, answered l r0 (history s) rest) ∧ (id, response) ∈ history s ∧
  NoDup (history s).*1.
Proof.
  intros Hr Hb Hc.
  assert (Hi : inv s) by (eapply inv_run; [apply inv_from_stream| | |done]; simpl; lia).
  assert (Ht : tracked l r0 s).
  { eapply tracked_run; [|done]. repeat split; eauto using answered_nil. }
  destruct Ht as (_ & _ & Ha & _). split; [done|]. split; [|apply Hi].
  apply (inv_history s Hi). apply (inv_phase s Hi _ _ Hc).
Qed.

(** No lost wakeup.  With either codec and under every schedule, a call
    that waits for its response is registered with the reader or already has
    its result; once the reader task has drained, or the session is closed,
    every waiting call has its result. *)
Theorem session_no_lost_wakeup codec l r0 w ls s id :
  run ls (from_stream codec l r0 w) = Some s → (starts ls < 2 ^ 64 - 1)%N →
  calls s !! id = Some Waiting →
  (id ∈ pending s ∨ is_Some (mail s !! id)) ∧
  (∀ lb s', lb = ReaderFinish ∨ lb = CloseSession → step lb s = Some s' →
     calls s' !! id = Some Waiting ∧ is_Some (mail s' !! id) ∧ pending s' = ∅).
Proof.
  intros Hr Hb Hc.
  assert (Hi : inv s) by (eapply inv_run; [apply inv_from_stream| | |done]; simpl; lia).
  pose proof (inv_phase s Hi _ _ Hc) as Hp. simpl in Hp. split; [done|].
  assert (Hg : ∀ e, is_Some ((gset_to_gmap (Err e : IpcResult ControlResponse) (pending s) ∪ mail s) !! id)).
  { intros e. apply lookup_union_is_Some. destruct Hp as [Hp|Hp]; [left|by right].
    exists (Err e). by apply lookup_gset_to_gmap_Some. }
  intros lb s' [-> | ->] Hst; simpl in Hst; [destruct (task s)|]; simplify_eq; simpl; auto.
Qed.

(** A request that does not encode leaves its entry in the pending map: the
    error leaves [send] before the entry is removed.  After as many such calls
    as the in-flight limit, all of them returned, a fresh session refuses every
    further request with [PendingLimitExceeded] although nothing is in
    flight. *)
Theorem encode_failure_leaks codec l r0 w request n :
  max_in_flight l = N.of_nat n → (N.of_nat n < 2 ^ 64 - 2)%N →
  (∀ id, is_ok (encode_request (from_stream codec l r0 w) id request) = false) →
  ∃ s, run (failing_sends request n) (from_stream codec l r0 w) = Some s ∧
    (∀ id c, calls s !! id = Some c → ∃ e, c = Returned (Err e)) ∧
    ∀ other, ∃ s', run [SendStart other; SendCheck (next_id s)] s = Some s' ∧
      calls s' !! next_id s = Some (Returned (Err (PendingLimitExceeded (max_in_flight l)))).
Proof.
  intros Hm Hb He.
  assert (Hk : ∀ k, (k ≤ n)%nat → ∃ s, run (failing_sends request k) (from_stream codec l r0 w) = Some s
    ∧ leaked codec l k s).
  { induction k as [|k IH]; intros Hk.
    - eexists. split; [done|]. by split.
    - destruct IH as (s & Hr & Hl); [lia|].
      destruct (leak_one codec l k s request Hl) as (s' & Hr' & Hl'); [lia|lia| |].
      { rewrite <-(He (N.of_nat (S k))). unfold encode_request.
        by rewrite (leaked_codec _ _ _ _ Hl), (leaked_limits _ _ _ _ Hl). }
      exists s'. split; [|done]. change (failing_sends request (S k)) with
        (failing_sends request k ++ failing_send request (N.of_nat (S k))).
      by rewrite session_run_app, Hr. }
  destruct (Hk n) as (s & Hr & [Ho Hc Hl Hn Hs Hi Hcalls]); [done|].
  exists s. split; [done|]. split; [done|]. intros other. simpl. unfold send_start.
  rewrite Ho, Hn. destruct (N.eqb_spec (N.of_nat (S n)) 0); [lia|]. simpl.
  rewrite lookup_insert_eq. simpl. unfold send_check. simpl. rewrite Hl, Hm, Hs, N.leb_refl.
  eexists. split; [done|]. simpl. by rewrite lookup_insert_eq.
Qed.

(** JSONL responses carry no id and go to the oldest pending request, so a
    request that timed out shifts them: its late response is returned by the
    next call. *)
Theorem jsonl_timeout_shifts `{!WireOk} l w e request1 request2 response line1 line2 line3 :
  (1 ≤ max_in_flight l)%N → broken w = None →
  encode_jsonl_request request1 l = Ok line1 →
  encode_jsonl_request request2 l = Ok line2 →
  encode_jsonl_response response l = Ok line3 →
  ∃ s, run [SendStart request1; SendCheck 1; SendInsert 1; SendWrite 1; SendTimeout 1;
            SendCancel 1; SendStart request2; SendCheck 2; SendInsert 2; SendWrite 2;
            ReaderTurn; SendReceive 2]
           (from_stream Jsonl l (mkReader line3 e) w) = Some s ∧
    written (outgoing s) = written w ++ line1 ++ line2 ∧
    calls s !! 1%N = Some (Returned (Err Timeout)) ∧
    calls s !! 2%N = Some (Returned (Ok response)).
Proof.
  intros Hm Hw H1 H2 H3.
  assert (Hmb : (max_in_flight l <=? 0)%N = false) by (apply N.leb_gt; lia).
  assert (Ht : ∃ t, read_jsonl_line l (mkReader (line3 ++ []) e) = (Ok (Some t), mkReader [] e)
                 ∧ decode_jsonl_response t l = Ok response).
  { pose proof H3 as H3'. apply encode_jsonl_ok in H3' as (buf & Hbuf & _).
    destruct (json_response_law _ _ Hbuf) as (t & -> & Htl & Hd).
    destruct (read_encoded_line _ _ _ _ [] e H3 Hbuf Htl) as [Hr Hlen].
    exists t. split; [done|]. unfold decode_jsonl_response, decode_jsonl.
    rewrite (proj2 (N.ltb_ge _ _)) by done. by rewrite Hd. }
  destruct Ht as (t & Ht & Hd). rewrite app_nil_r in Ht.
  change (run _ ?s0) with
    (run (good_send request1 1 ++ [SendTimeout 1; SendCancel 1] ++ good_send request2 2
          ++ [ReaderTurn; SendReceive 2]) s0).
  rewrite session_run_app, (run_good_send _ _ line1) by (exact H1 || done || lia).
  cbn [mbind option_bind]. rewrite session_run_app. set (s0 := from_stream _ _ _ _).
  assert (Hp : pending (sent 1 line1 s0) ∖ {[1%N]} = ∅) by (unfold_leibniz; simpl; set_solver).
  set (s2 := mkSession Jsonl l false 2 ∅ ∅ {[1%N := Returned (Err Timeout)]}
               (mkReader line3 e) (mkWriter (written w ++ line1) None) Reading []).
  assert (Hs2 : run [SendTimeout 1; SendCancel 1] (sent 1 line1 s0) = Some s2).
  { simpl. rewrite lookup_insert_eq. simpl. rewrite lookup_insert_eq. simpl.
    unfold send_timeout. rewrite Hp. unfold cancel, complete, set_call, set_pending. simpl.
    rewrite !insert_insert_eq. done. }
  rewrite Hs2. cbn [mbind option_bind].
  rewrite session_run_app, (run_good_send _ _ line2) by (exact H2 || done || lia).
  cbn [mbind option_bind]. simpl run. unfold read_turn, read_jsonl_turn. simpl.
  rewrite Ht, Hd.
  assert (Hold : oldest (∅ ∪ {[2%N]}) = Some 2%N) by (vm_compute; reflexivity).
  rewrite Hold. unfold deliver, complete. simpl.
  rewrite bool_decide_true by set_solver. simpl. rewrite lookup_insert_eq. simpl.
  eexists. split; [done|]. simpl. split; [by rewrite (assoc_L (++))|].
  split; [|by rewrite lookup_insert_eq].
  by rewrite lookup_insert_ne, lookup_insert_ne.
Qed.


(** A one-shot request over a working connection sends exactly the encoded
    request, and whatever response the server encodes for it (with id 1 in the
    binary codec) is the result, with either codec. *)
Theorem oneshot_answered `{!WireOk} codec l request response reply bytes rest e w :
  wire_limits l → broken w = None →
  match codec with
  | Binary => encode_binary_request 1 request l
  | Jsonl => encode_jsonl_request request l
  end = Ok bytes →
  match codec with
  | Binary => encode_binary_response 1 (req_method request) response l
  | Jsonl => encode_jsonl_response response l
  end = Ok reply →
  request_oneshot codec l request (mkReader (reply ++ rest) e) w =
    (Ok response, mkWriter (written w ++ bytes) None).
Proof.
  intros Hl Hw Hreq Hresp. destruct codec; simpl.
  - unfold oneshot_binary. rewrite Hreq. unfold write_all_flush. rewrite Hw.
    unfold encode_binary_response in Hresp. apply rbind_ok in Hresp as (payload & Hp & He).
    apply encode_messagepack_ok in Hp as [Hp _].
    rewrite (read_frame_of_encoded (opcode (req_method request))
      (if resp_ok response then RESPONSE else N.lor RESPONSE ERROR) 1 payload l reply rest e).
    + simpl. rewrite (msgpack_response_law _ _ _ Hp). by destruct (resp_ok response).
    + done.
    + apply opcode_u16.
    + destruct (resp_ok response); by apply N.leb_le.
    + done.
    + by destruct (resp_ok response).
    + done.
  - unfold oneshot_jsonl. rewrite Hreq. unfold write_all_flush. rewrite Hw.
    pose proof Hresp as H'. apply encode_jsonl_ok in H' as (buf & Hbuf & _).
    destruct (json_response_law _ _ Hbuf) as (t & -> & Ht & Hd).
    destruct (read_encoded_line _ _ _ _ rest e Hresp Hbuf Ht) as [-> Hlen]. simpl.
    unfold decode_jsonl_response, decode_jsonl.
    rewrite (proj2 (N.ltb_ge _ _)) by done. by rewrite Hd.
Qed.

End properties.

(** A binary session whose peer answers request 1. *)
Definition demo_stream : reader := mkReader (frame_bytes 1 RESPONSE 1 [xc0]) (mkIo true []).
Definition demo_schedule : list label :=
  good_send sample_request 1 ++ [ReaderTurn; SendReceive 1].

Lemma session_delivery_witness :
  ∃ s, run demo_schedule (from_stream Binary default_limits demo_stream (mkWriter [] None)) = Some s ∧
    (∃ rest, answered default_limits demo_stream (history s) rest) ∧
    (1%N, empty_ok) ∈ history s ∧ NoDup (history s).*1.
Proof.
  destruct (run demo_schedule (from_stream Binary default_limits demo_stream (mkWriter [] None)))
    as [s|] eqn:E; [|exfalso; vm_compute in E; discriminate].
  exists s. split; [reflexivity|].
  apply (session_delivery default_limits demo_stream (mkWriter [] None) demo_schedule s 1 empty_ok).
  - exact E.
  - vm_compute. reflexivity.
  - assert (H : (s ← run demo_schedule
                  (from_stream Binary default_limits demo_stream (mkWriter [] None));
                 calls s !! 1%N) = Some (Returned (Ok empty_ok))) by (vm_compute; reflexivity).
    rewrite E in H. exact H.
Defined.

Lemma session_no_lost_wakeup_witness :
  ∃ s, run (good_send sample_request 1)
         (from_stream Binary default_limits demo_stream (mkWriter [] None)) = Some s ∧
    (1%N ∈ pending s ∨ is_Some (mail s !! 1%N)).
Proof.
  destruct (run (good_send sample_request 1)
              (from_stream Binary default_limits demo_stream (mkWriter [] None)))
    as [s|] eqn:E; [|exfalso; vm_compute in E; discriminate].
  exists s. split; [reflexivity|].
  refine (proj1 (session_no_lost_wakeup Binary default_limits demo_stream (mkWriter [] None)
            (good_send sample_request 1) s 1 E _ _)).
  - vm_compute. reflexivity.
  - assert (H : (s ← run (good_send sample_request 1)
                  (from_stream Binary default_limits demo_stream (mkWriter [] None));
                 calls s !! 1%N) = Some Waiting) by (vm_compute; reflexivity).
    rewrite E in H. exact H.
Defined.

Lemma encode_failure_leaks_witness :
  let request := mkRequest (lit "t") ServiceStatus JNull in
  ∃ s, run (failing_sends request 64)
         (from_stream Binary default_limits demo_stream (mkWriter [] None)) = Some s ∧
    (∀ id c, calls s !! id = Some c → ∃ e, c = Returned (Err e)) ∧
    ∀ other, ∃ s', run [SendStart other; SendCheck (next_id s)] s = Some s' ∧
      calls s' !! next_id s = Some (Returned (Err (PendingLimitExceeded 64))).
Proof.
  apply (encode_failure_leaks Binary default_limits demo_stream (mkWriter [] None)
           (mkRequest (lit "t") ServiceStatus JNull) 64);
    [vm_compute; reflexivity|vm_compute; reflexivity|intros id; reflexivity].
Defined.

Lemma jsonl_timeout_shifts_witness :
  ∃ s, run [SendStart sample_request; SendCheck 1; SendInsert 1; SendWrite 1; SendTimeout 1;
            SendCancel 1; SendStart sample_request; SendCheck 2; SendInsert 2; SendWrite 2;
            ReaderTurn; SendReceive 2]
           (from_stream Jsonl default_limits (mkReader (utf8 (lit "{}") ++ [x0a]) (mkIo true []))
              (mkWriter [] None)) = Some s ∧
    written (outgoing s) = [] ++ (utf8 (lit "{}") ++ [x0a]) ++ (utf8 (lit "{}") ++ [x0a]) ∧
    calls s !! 1%N = Some (Returned (Err Timeout)) ∧
    calls s !! 2%N = Some (Returned (Ok empty_ok)).
Proof.
  apply (jsonl_timeout_shifts default_limits (mkWriter [] None) (mkIo true [])
           sample_request sample_request empty_ok);
    [vm_compute; discriminate|reflexivity|vm_compute; reflexivity..].
Defined.

Lemma oneshot_answered_witness :
  request_oneshot Binary default_limits sample_request
    (mkReader (frame_bytes 1 RESPONSE 1 [xc0] ++ [x00]) (mkIo true [])) (mkWriter [] None) =
  (Ok empty_ok, mkWriter ([] ++ frame_bytes 1 REQUEST 1 [xc0]) None).
Proof.
  apply (oneshot_answered Binary default_limits sample_request empty_ok
           (frame_bytes 1 RESPONSE 1 [xc0]) (frame_bytes 1 REQUEST 1 [xc0]) [x00] (mkIo true []));
    vm_compute; done.
Defined.
