(* ===== verification/Client.v ===== *)
(** * The client handle

    [crates/mutsuki-service-ipc/src/client.rs]: [ControlClient], a clonable
    handle on one optional session behind a mutex.  Every clone that is inside
    a call is a caller; a label is one step of a caller between two points
    where another can run, or a step of the session it uses ([Session.step]).
    The label says what the environment does: whether a connection opens, and
    with which bytes to come, and which futures are dropped before they are
    ready. *)

From S2P Require Import Prelude Text Value Control ConfigTypes Frame Stream Codec.
From S2P Require Import Session.

Lemma nodup_snd_fst {A B} (l : list (A * B)) a a' b :
  NoDup l.*2 → (a, b) ∈ l → (a', b) ∈ l → a = a'.
Proof.
  intros Hn [i Hi]%list_elem_of_lookup_1 [j Hj]%list_elem_of_lookup_1.
  assert (i = j) as ->; [|congruence].
  eapply (NoDup_lookup l.*2 i j b); [done|by rewrite list_lookup_fmap, Hi|by rewrite list_lookup_fmap, Hj].
Qed.

Section client.
Context `{Wire}.

(** What a call still has to do once the session exists: nothing for
    [connect], one attempt of [send], which is the first or the second. *)
Inductive goal : Type :=
| JustConnect
| Send (again : bool) (request : ControlRequest).

Inductive caller : Type :=
| Connecting (g : goal)                  (* before the lock in [connect] *)
| Opening (g : goal)                     (* holds the lock, opens a session *)
| Connected (again : bool) (request : ControlRequest)
                                         (* before the lock in [send_with_session] *)
| Sending (again : bool) (request : ControlRequest) (id : N)
                                         (* holds the lock, inside [session.send] *)
| Resetting (request : ControlRequest)   (* before the lock that clears the session *)
| Ready                                  (* [connect] returned *)
| Finished (r : IpcResult ControlResponse)
| Panicked
| Gone.                                  (* its future was dropped *)

(** [past] holds the sessions that were dropped or closed, so that the current
    one is connection number [length past]; [attempts] lists the requests that
    got an id, with their caller and connection. *)
Record client : Type := mkClient {
  cfg_codec : IpcCodec;
  cfg_limits : ControlIpcLimits;
  slot : option session;
  holder : option nat;
  callers : gmap nat caller;
  past : list session;
  attempts : list (nat * (nat * N));
}.

(** [ControlClient::new]. *)
Definition new (codec : IpcCodec) (limits : ControlIpcLimits) : client :=
  mkClient codec limits None None ∅ [] [].

(** Field updates. *)
Definition set_caller (c : nat) (p : caller) (st : client) : client :=
  mkClient (cfg_codec st) (cfg_limits st) (slot st) (holder st) (<[c := p]> (callers st))
    (past st) (attempts st).
Definition set_slot (o : option session) (st : client) : client :=
  mkClient (cfg_codec st) (cfg_limits st) o (holder st) (callers st) (past st) (attempts st).
Definition set_holder (h : option nat) (st : client) : client :=
  mkClient (cfg_codec st) (cfg_limits st) (slot st) h (callers st) (past st) (attempts st).
Definition set_past (l : list session) (st : client) : client :=
  mkClient (cfg_codec st) (cfg_limits st) (slot st) (holder st) (callers st) l (attempts st).
Definition note_attempt (c : nat) (id : N) (st : client) : client :=
  mkClient (cfg_codec st) (cfg_limits st) (slot st) (holder st) (callers st) (past st)
    ((c, (length (past st), id)) :: attempts st).

(** ** The steps of a call *)

(** What follows a [connect] that succeeded. *)
Definition after_connect (g : goal) : caller :=
  match g with JustConnect => Ready | Send again request => Connected again request end.

(** The error arm of [send]. *)
Definition reconnects (e : IpcError) : bool :=
  match e with Closed | Io _ => true | _ => false end.

Definition finish_attempt (again : bool) (request : ControlRequest)
    (r : IpcResult ControlResponse) : caller :=
  match r with
  | Err e => if reconnects e && negb again then Resetting request else Finished r
  | Ok _ => Finished r
  end.

(** [connect] failed inside [connect] or [send]. *)
Definition connect_failed (g : goal) (e : IpcError) : caller :=
  match g with
  | JustConnect => Finished (Err e)
  | Send again request => finish_attempt again request (Err e)
  end.

(** The lock in [connect]. *)
Definition lock_connect (c : nat) (g : goal) (st : client) : client :=
  match slot st with
  | None => set_holder (Some c) (set_caller c (Opening g) st)
  | Some _ => set_caller c (after_connect g) st
  end.

(** [ControlSession::connect] returns and the lock is released. *)
Definition opened (c : nat) (g : goal) (r : IpcResult (reader * writer)) (st : client) : client :=
  match r with
  | Err e => set_holder None (set_caller c (connect_failed g e) st)
  | Ok (rd, w) =>
      set_holder None (set_caller c (after_connect g)
        (set_slot (Some (from_stream (cfg_codec st) (cfg_limits st) rd w)) st))
  end.

(** The lock in [send_with_session], the [expect], and the first step of
    [session.send]. *)
Definition enter_send (c : nat) (again : bool) (request : ControlRequest) (st : client) : client :=
  match slot st with
  | None => set_caller c Panicked st
  | Some s =>
      if closed s then set_caller c (finish_attempt again request (Err Closed)) st
      else if (next_id s =? 0)%N then
        set_slot (Some (send_start request s))
          (set_caller c (finish_attempt again request (Err InvalidRequestId)) st)
      else
        note_attempt c (next_id s)
          (set_holder (Some c) (set_caller c (Sending again request (next_id s))
            (set_slot (Some (send_start request s)) st)))
  end.

(** [session.send] returned. *)
Definition leave_send (c : nat) (again : bool) (request : ControlRequest)
    (r : IpcResult ControlResponse) (st : client) : client :=
  set_holder None (set_caller c (finish_attempt again request r) st).

(** [*guard = None]: the session is dropped; its reader task is detached, so
    nothing observes it any more. *)
Definition reset (c : nat) (request : ControlRequest) (st : client) : client :=
  set_caller c (Connecting (Send true request))
    (set_slot None (set_past (past st ++ option_list (slot st)) st)).

(** [close]. *)
Definition close_client (st : client) : client :=
  match slot st with
  | None => st
  | Some s => set_slot None (set_past (past st ++ [Session.close s]) st)
  end.

(** The future of a call is dropped wherever it waits, after [k] bytes of what
    it was writing: a lock it holds is released, and the session it uses stays. *)
Definition drop_call (c : nat) (k : nat) (p : caller) (st : client) : option client :=
  match p with
  | Connecting _ | Connected _ _ | Resetting _ => Some (set_caller c Gone st)
  | Opening _ => Some (set_holder None (set_caller c Gone st))
  | Sending _ _ id =>
      s ← slot st;
      s' ← step (SendDrop id k) s;
      Some (set_holder None (set_caller c Gone (set_slot (Some s') st)))
  | Ready | Finished _ | Panicked | Gone => None
  end.

(** ** The machine *)

Inductive clabel : Type :=
| Call (c : nat) (g : goal)              (* a call of [connect] or [send] begins *)
| LockConnect (c : nat)
| Open (c : nat) (r : IpcResult (reader * writer))
| EnterSend (c : nat)
| InSession (lb : label)
| LeaveSend (c : nat)
| Reset (c : nat)
| CloseClient
| DropCall (c : nat) (k : nat).

(** The steps a session takes by itself or for the call [id]; a client never
    cancels. *)
Definition session_label (id : option N) (lb : label) : bool :=
  match lb with
  | ReaderTurn | ReaderFinish | Break _ => true
  | SendCheck i | SendInsert i | SendWrite i | SendUnwind i | SendReceive i | SendTimeout i
  | SendCancel i => bool_decide (id = Some i)
  | SendStart _ | Cancel _ | SendDrop _ _ | CancelDrop _ _ | CloseSession => false
  end.

(** The request id the holder of the lock is waiting for. *)
Definition active (st : client) : option N :=
  c ← holder st;
  match callers st !! c with Some (Sending _ _ id) => Some id | _ => None end.

Definition cstep (lb : clabel) (st : client) : option client :=
  match lb with
  | Call c g =>
      match callers st !! c, g with
      | None, (JustConnect | Send false _) => Some (set_caller c (Connecting g) st)
      | _, _ => None
      end
  | LockConnect c =>
      match callers st !! c, holder st with
      | Some (Connecting g), None => Some (lock_connect c g st) | _, _ => None end
  | Open c r =>
      match callers st !! c with
      | Some (Opening g) => Some (opened c g r st) | _ => None end
  | EnterSend c =>
      match callers st !! c, holder st with
      | Some (Connected again request), None => Some (enter_send c again request st)
      | _, _ => None
      end
  | InSession lb =>
      if session_label (active st) lb
      then s ← slot st; s' ← step lb s; Some (set_slot (Some s') st)
      else None
  | LeaveSend c =>
      match callers st !! c, slot st with
      | Some (Sending again request id), Some s =>
          match calls s !! id with
          | Some (Returned r) => Some (leave_send c again request r st) | _ => None end
      | _, _ => None
      end
  | Reset c =>
      match callers st !! c, holder st with
      | Some (Resetting request), None => Some (reset c request st) | _, _ => None end
  | CloseClient => match holder st with None => Some (close_client st) | Some _ => None end
  | DropCall c k => p ← callers st !! c; drop_call c k p st
  end.

Fixpoint crun (ls : list clabel) (st : client) : option client :=
  match ls with
  | [] => Some st
  | lb :: ls' => st' ← cstep lb st; crun ls' st'
  end.

(** How often a schedule enters [session.send]. *)
Definition entries (ls : list clabel) : N :=
  len (List.filter (λ lb, match lb with EnterSend _ => true | _ => false end) ls).

(** ** The invariant *)

(** All connections the client opened, in order. *)
Definition sessions (st : client) : list session := past st ++ option_list (slot st).

(** How many requests a caller put on a connection, and how many its phase
    accounts for. *)
Definition tries (c : nat) (st : client) : nat :=
  length (List.filter (λ a, bool_decide (a.1 = c)) (attempts st)).

Definition goal_budget (g : goal) : nat :=
  match g with JustConnect => 0 | Send again _ => if again then 1 else 0 end.

Definition budget (p : caller) : nat :=
  match p with
  | Connecting g | Opening g => goal_budget g
  | Connected again _ => if again then 1 else 0
  | Sending again _ _ => if again then 2 else 1
  | Resetting _ => 1
  | Ready => 0
  | Finished _ | Panicked | Gone => 2
  end.

Definition in_lock (p : caller) : bool :=
  match p with Opening _ | Sending _ _ _ => true | _ => false end.

(** What the phase of a caller says of the shared session. *)
Definition caller_ok (st : client) (c : nat) (p : caller) : Prop :=
  match p with
  | Opening _ => slot st = None
  | Sending _ _ id => is_Some (slot st) ∧ (c, (length (past st), id)) ∈ attempts st
  | Finished (Ok response) =>
      ∃ k id s, (c, (k, id)) ∈ attempts st ∧ sessions st !! k = Some s ∧
        (id, response) ∈ history s
  | _ => True
  end.

(** A session the client opened on a stream that satisfies [P]. *)
Definition session_ok (P : reader → Prop) (codec : IpcCodec) (l : ControlIpcLimits) (n : N)
    (s : session) : Prop :=
  inv s ∧ (0 < next_id s ≤ n + 1)%N ∧
  (codec = Binary → ∃ rd, P rd ∧ tracked l rd s).

Record client_inv (P : reader → Prop) (n : N) (st : client) : Prop := mkCinv {
  ci_holder : ∀ c, holder st = Some c ↔ ∃ p, callers st !! c = Some p ∧ in_lock p = true;
  ci_callers : ∀ c p, callers st !! c = Some p → caller_ok st c p;
  ci_tries : ∀ c, tries c st ≤ default 0 (budget <$> callers st !! c);
  ci_sessions : ∀ k s, sessions st !! k = Some s →
    session_ok P (cfg_codec st) (cfg_limits st) n s;
  ci_attempts : ∀ c k id, (c, (k, id)) ∈ attempts st →
    ∃ s, sessions st !! k = Some s ∧ (id < next_id s)%N;
  ci_nodup : NoDup (attempts st).*2;
}.

(** A call that has returned, or was dropped. *)
Definition over (cl : call) : Prop := match cl with Returned _ | Dropped => True | _ => False end.

(** Only the holder of the lock can have a call in the session. *)
Definition serialized (st : client) : Prop :=
  ∀ s id cl, slot st = Some s → calls s !! id = Some cl → over cl ∨ active st = Some id.

(** Sessions only go on: nothing they handed over is forgotten. *)
Definition goes_on (s s' : session) : Prop :=
  (∀ x, x ∈ history s → x ∈ history s') ∧ (next_id s ≤ next_id s')%N.

Definition all_go_on (ss ss' : list session) : Prop :=
  ∀ k s, ss !! k = Some s → ∃ s', ss' !! k = Some s' ∧ goes_on s s'.

#[export] Instance goes_on_refl : Reflexive goes_on.
Proof. by split. Qed.

#[export] Instance all_go_on_refl : Reflexive all_go_on.
Proof. intros ss k s Hk. by exists s. Qed.

Lemma session_label_next id lb s s' :
  session_label id lb = true → step lb s = Some s' → next_id s' = next_id s ∧ starts [lb] = 0%N.
Proof.
  intros Hl Hst. destruct lb; try done; simpl in Hst; repeat case_match; simplify_eq;
    unfold send_check, send_write, read_turn, read_binary_turn, read_jsonl_turn, deliver, cancel,
      complete; repeat case_match; done.
Qed.

Lemma step_history lb s s' x : step lb s = Some s' → x ∈ history s → x ∈ history s'.
Proof.
  intros Hst Hx. assert (lb = ReaderTurn ∨ lb ≠ ReaderTurn) as [->|Hne] by (destruct lb; auto).
  2: { destruct (step_untouched _ _ _ Hst Hne) as (_ & _ & -> & _). done. }
  simpl in Hst. destruct (task s); simplify_eq.
  unfold read_turn, read_binary_turn, read_jsonl_turn, deliver, complete.
  repeat case_match; simpl; set_solver.
Qed.

(** The calls of a session that one of its own steps changes. *)
Lemma session_label_calls act lb s s' id cl :
  session_label act lb = true → step lb s = Some s' → calls s' !! id = Some cl →
  calls s !! id = Some cl ∨ act = Some id.
Proof.
  intros Hl Hst Hc. destruct lb; try done; simpl in Hl, Hst; repeat case_match; simplify_eq;
    try (apply bool_decide_eq_true in Hl; subst act);
    unfold send_check, send_write, send_insert, send_unwind, send_timeout, read_turn,
      read_binary_turn, read_jsonl_turn, deliver, cancel, complete in Hc;
    repeat case_match; simpl in Hc; auto;
    apply lookup_insert_Some in Hc as [[-> _]|[_ Hc]]; auto.
Qed.

(** ** The invariant is kept *)

Lemma client_inv_new P codec l : client_inv P 0 (new codec l) ∧ serialized (new codec l).
Proof.
  split; [|done]. split; simpl; try done.
  - intros c. split; [done|]. intros (p & Hp & _). by rewrite lookup_empty in Hp.
  - intros c k id Hin. by apply not_elem_of_nil in Hin.
  - constructor.
Qed.

(** A caller moves on, and takes, keeps or gives up the lock with it. *)
Lemma client_inv_move P n st c p h :
  client_inv P n st → caller_ok st c p → tries c st ≤ budget p →
  (in_lock p = true → holder st = None ∨ holder st = Some c) →
  h = (if in_lock p then Some c
       else if bool_decide (holder st = Some c) then None else holder st) →
  client_inv P n (set_holder h (set_caller c p st)).
Proof.
  intros [Hh Hc Ht Hs Ha Hn] Hok Hb Hl ->. split; simpl; try done.
  - intros c'. destruct (decide (c = c')) as [<-|Hne].
    + rewrite lookup_insert_eq. destruct (in_lock p) eqn:Ep; [split; [by exists p|done]|].
      split; [by case_bool_decide|]. intros (p' & [= <-] & Ep'). congruence.
    + rewrite lookup_insert_ne by done. rewrite <-Hh.
      destruct (in_lock p); [|case_bool_decide as Hc'; [rewrite Hc'|done]; split; congruence].
      destruct (Hl eq_refl) as [-> | ->]; split; congruence.
  - intros c' p' [[<- <-]|[_ H']]%lookup_insert_Some; [done|]. by specialize (Hc _ _ H').
  - intros c'. destruct (decide (c = c')) as [<-|Hne]; [by rewrite lookup_insert_eq|].
    rewrite lookup_insert_ne by done. apply Ht.
Qed.

(** The same for a caller without the lock. *)
Lemma client_inv_move_outside P n st c p p0 :
  client_inv P n st → callers st !! c = Some p0 → in_lock p0 = false → in_lock p = false →
  caller_ok st c p → budget p0 ≤ budget p → client_inv P n (set_caller c p st).
Proof.
  intros Hi Hp0 El0 El Hok Hb.
  apply (client_inv_move P n st c p (holder st)); [done|done| |congruence|].
  - pose proof (ci_tries _ _ _ Hi c) as Ht. rewrite Hp0 in Ht. simpl in Ht. lia.
  - rewrite El. case_bool_decide as Hc; [|done].
    apply (ci_holder _ _ _ Hi) in Hc as (p' & Hp' & El'). congruence.
Qed.

Lemma session_ok_later P codec l n n' s :
  session_ok P codec l n s → (n ≤ n')%N → session_ok P codec l n' s.
Proof. intros (Hi & Hn & Ht) Hle. split_and!; [done|lia|lia|done]. Qed.

(** The sessions go on, while no caller inside the lock minds. *)
Lemma client_inv_sessions P n n' st o l :
  client_inv P n st → (n ≤ n')%N →
  (∀ s, s ∈ l ++ option_list o →
    s ∈ sessions st ∨ session_ok P (cfg_codec st) (cfg_limits st) n' s) →
  all_go_on (sessions st) (l ++ option_list o) →
  (∀ c p, callers st !! c = Some p → in_lock p = true → caller_ok (set_slot o (set_past l st)) c p) →
  client_inv P n' (set_slot o (set_past l st)).
Proof.
  intros [Hh Hc Ht Hs Ha Hn] Hle Hnew Hg Hl. split; simpl; try done.
  - intros c p Hp. specialize (Hc _ _ Hp). specialize (Hl _ _ Hp).
    destruct p as [| | | | | |[response|]| |]; simpl in *; auto.
    destruct Hc as (k & id & s & Hin & Hk & Hx). destruct (Hg _ _ Hk) as (s' & Hk' & Hx' & _).
    exists k, id, s'. auto.
  - intros k s Hk. apply list_elem_of_lookup_2 in Hk.
    destruct (Hnew _ Hk) as [Hold|]; [|done].
    apply list_elem_of_lookup_1 in Hold as [k' Hold]. eapply session_ok_later; [by apply (Hs k')|done].
  - intros c k id Hin. destruct (Ha _ _ _ Hin) as (s & Hk & Hlt).
    destruct (Hg _ _ Hk) as (s' & Hk' & _ & Hle'). exists s'. split; [done|lia].
Qed.

(** The current session goes on. *)
Lemma all_go_on_last l s s' :
  goes_on s s' → all_go_on (l ++ [s]) (l ++ [s']).
Proof.
  intros Hg k x Hk. apply lookup_app_Some in Hk as [Hk|[Hlen Hk]].
  - exists x. by rewrite lookup_app_l by (by eapply lookup_lt_Some).
  - apply list_lookup_singleton_Some in Hk as [E <-]. exists s'.
    rewrite lookup_app_r by done. rewrite E. done.
Qed.

Lemma all_go_on_app ss l : all_go_on ss (ss ++ l).
Proof.
  intros k x Hk. exists x. split; [|done]. by apply lookup_app_l_Some.
Qed.

Lemma session_ok_step P codec l n lb s s' :
  session_ok P codec l n s → (n + 1 + starts [lb] < 2 ^ 64)%N → step lb s = Some s' →
  session_ok P codec l (n + starts [lb]) s'.
Proof.
  intros (Hi & Hn & Ht) Hb Hst.
  pose proof (step_next _ _ _ Hst (proj1 Hn) ltac:(lia)) as Hn'.
  split_and!; [by apply (inv_step lb s s' Hi); [lia|lia|]|lia|lia|].
  intros Hc. destruct (Ht Hc) as (rd & HP & Hr). exists rd. eauto using tracked_step.
Qed.

Lemma nobody_locked P n st c p :
  client_inv P n st → holder st = None → callers st !! c = Some p → in_lock p = false.
Proof.
  intros Hi Hh Hp. destruct (in_lock p) eqn:E; [|done].
  assert (holder st = Some c) by (apply (ci_holder _ _ _ Hi); eauto). congruence.
Qed.

Lemma lock_is_mine P n st c p :
  client_inv P n st → callers st !! c = Some p → in_lock p = true → holder st = Some c.
Proof. intros Hi Hp El. apply (ci_holder _ _ _ Hi). eauto. Qed.

Lemma active_outside P n st c p p0 :
  client_inv P n st → callers st !! c = Some p0 → in_lock p0 = false →
  active (set_caller c p st) = active st.
Proof.
  intros Hi Hp0 El. unfold active. simpl. destruct (holder st) as [h|] eqn:Hh; [|done]. simpl.
  rewrite lookup_insert_ne; [done|]. intros <-.
  apply (ci_holder _ _ _ Hi) in Hh as (p' & Hp' & El'). congruence.
Qed.

Lemma move_outside P n st c p p0 :
  client_inv P n st → serialized st → callers st !! c = Some p0 → in_lock p0 = false →
  in_lock p = false → caller_ok st c p → budget p0 ≤ budget p →
  client_inv P n (set_caller c p st) ∧ serialized (set_caller c p st).
Proof.
  intros Hi Hs Hp0 El0 El Hok Hb. split; [by eapply client_inv_move_outside|].
  intros s id cl Hslot Hc. erewrite active_outside by done. by apply (Hs s id cl).
Qed.

(** The phases a failed or finished attempt leads to. *)
Lemma finish_attempt_err st c again request e :
  in_lock (finish_attempt again request (Err e)) = false ∧
  caller_ok st c (finish_attempt again request (Err e)) ∧
  budget (Sending again request 0) ≤ budget (finish_attempt again request (Err e)).
Proof. destruct again; simpl; rewrite ?andb_false_r; [by split_and!; simpl; lia|]. by case_match; split_and!; simpl; lia. Qed.

Lemma after_connect_ok st c g :
  in_lock (after_connect g) = false ∧ caller_ok st c (after_connect g) ∧
  budget (after_connect g) = goal_budget g.
Proof. by destruct g as [|[] ?]. Qed.

Lemma connect_failed_ok st c g e :
  in_lock (connect_failed g e) = false ∧ caller_ok st c (connect_failed g e) ∧
  goal_budget g ≤ budget (connect_failed g e).
Proof.
  destruct g as [|again request]; simpl; [split_and!; simpl; try done; lia|].
  destruct (finish_attempt_err st c again request e) as (? & ? & Hb). split_and!; [done..|].
  etrans; [|exact Hb]. destruct again; simpl; lia.
Qed.

Lemma step_call P n st c g st' :
  client_inv P n st → serialized st → cstep (Call c g) st = Some st' → client_inv P n st' ∧ serialized st'.
Proof.
  intros Hi Hs Hst. simpl in Hst. destruct (callers st !! c) eqn:Hc; [done|].
  assert (Ht : tries c st = 0).
  { pose proof (ci_tries _ _ _ Hi c) as Ht. rewrite Hc in Ht. simpl in Ht. lia. }
  assert (Hh : holder st ≠ Some c).
  { intros Hh. apply (ci_holder _ _ _ Hi) in Hh as (p & Hp & _). congruence. }
  assert (st' = set_caller c (Connecting g) st) as -> by (destruct g as [|[]]; by simplify_eq).
  split.
  - apply (client_inv_move P n st c (Connecting g) (holder st)); simpl; [done|done|lia|done|].
    by rewrite bool_decide_false.
  - intros s id cl Hslot Hcl. destruct (Hs s id cl Hslot Hcl) as [|Ha]; [by left|right].
    unfold active in *. simpl. destruct (holder st) as [h|]; [|done]. simpl in *.
    rewrite lookup_insert_ne by congruence. done.
Qed.

Lemma step_lock_connect P n st c st' :
  client_inv P n st → serialized st → cstep (LockConnect c) st = Some st' →
  client_inv P n st' ∧ serialized st'.
Proof.
  intros Hi Hs Hst. simpl in Hst.
  destruct (callers st !! c) as [[g| | | | | | | |]|] eqn:Hc; try done.
  destruct (holder st) eqn:Hh; [done|]. injection Hst as <-. unfold lock_connect.
  destruct (slot st) eqn:Hslot.
  - destruct (after_connect_ok st c g) as (? & ? & Hb). eapply move_outside; eauto. simpl. lia.
  - split; [|intros s' id cl H'; simpl in H'; congruence].
    apply client_inv_move; simpl; auto.
    pose proof (ci_tries _ _ _ Hi c) as Ht. by rewrite Hc in Ht.
Qed.

Lemma sessions_last st s : slot st = Some s → sessions st !! length (past st) = Some s.
Proof. intros E. unfold sessions. rewrite E. by apply list_lookup_middle. Qed.

Lemma step_open (P : reader → Prop) n st c r st' :
  client_inv P n st → serialized st → (∀ rd w, r = Ok (rd, w) → P rd) →
  cstep (Open c r) st = Some st' → client_inv P n st' ∧ serialized st'.
Proof.
  intros Hi Hs HP Hst. simpl in Hst.
  destruct (callers st !! c) as [[|g| | | | | | |]|] eqn:Hc; try done. injection Hst as <-.
  pose proof (lock_is_mine _ _ _ _ _ Hi Hc eq_refl) as Hh.
  pose proof (ci_callers _ _ _ Hi _ _ Hc) as Hslot. simpl in Hslot.
  pose proof (ci_tries _ _ _ Hi c) as Ht. rewrite Hc in Ht. simpl in Ht.
  assert (Hmove : ∀ p, in_lock p = false → caller_ok st c p → goal_budget g ≤ budget p →
            client_inv P n (set_holder None (set_caller c p st))).
  { intros p El Hok Hb. apply client_inv_move; [done|done|lia|congruence|].
    by rewrite El, bool_decide_true. }
  destruct r as [[rd w]|e]; simpl.
  - destruct (after_connect_ok st c g) as (El & Hok & Hb).
    specialize (Hmove _ El Hok ltac:(lia)). split; [|by intros s id cl [= <-]].
    apply (client_inv_sessions P n n _
             (Some (from_stream (cfg_codec st) (cfg_limits st) rd w)) (past st) Hmove); simpl.
    + done.
    + intros s [Hin|Hin]%elem_of_app.
      * left. unfold sessions. simpl. set_solver.
      * right. apply list_elem_of_singleton in Hin as ->.
        split_and!; [apply inv_from_stream|simpl; lia|simpl; lia|].
        intros Hcodec. exists rd. split; [by eapply HP|].
        repeat split; eauto using answered_nil.
    + unfold sessions. simpl. rewrite Hslot. simpl. rewrite app_nil_r. apply all_go_on_app.
    + intros c' p Hp El'. by rewrite (nobody_locked _ _ _ _ _ Hmove eq_refl Hp) in El'.
  - destruct (connect_failed_ok st c g e) as (El & Hok & Hb).
    split; [auto|]. intros s id cl Hsl. simpl in Hsl. congruence.
Qed.

(** A caller takes the lock and a request id of the current session. *)
Lemma client_inv_entered P n st c again request id s :
  client_inv P n st → holder st = None → session_ok P (cfg_codec st) (cfg_limits st) n s →
  all_go_on (sessions st) (past st ++ [s]) →
  (∀ c', (c', (length (past st), id)) ∉ attempts st) → (id < next_id s)%N →
  tries c st + 1 ≤ budget (Sending again request id) →
  client_inv P n (note_attempt c id
    (set_holder (Some c) (set_caller c (Sending again request id) (set_slot (Some s) st)))).
Proof.
  intros Hi Hh Hok Hgo Hfresh Hid Hb.
  assert (Hfree : ∀ c' p, callers st !! c' = Some p → in_lock p = false)
    by (intros; by eapply nobody_locked).
  destruct Hi as [H1 H2 H3 H4 H5 H6]. split; simpl.
  - intros c'. split.
    + intros [= <-]. exists (Sending again request id). by rewrite lookup_insert_eq.
    + intros (p & [[<- _]|[_ Hp]]%lookup_insert_Some & El); [done|].
      rewrite (Hfree _ _ Hp) in El. done.
  - intros c' p [[<- <-]|[_ Hp]]%lookup_insert_Some; simpl; [split; [done|apply list_elem_of_here]|].
    specialize (H2 _ _ Hp). pose proof (Hfree _ _ Hp) as El.
    destruct p as [| | | | | |[response|]| |]; simpl in *; try done.
    destruct H2 as (k & i & s0 & Hin & Hk & Hx). destruct (Hgo _ _ Hk) as (s' & Hk' & Hx' & _).
    exists k, i, s'. split_and!; [by apply list_elem_of_further|done|auto].
  - intros c'. unfold tries in *. simpl. destruct (decide (c = c')) as [<-|Hne].
    + rewrite bool_decide_true, lookup_insert_eq by done. simpl in *. lia.
    + rewrite bool_decide_false, lookup_insert_ne by done. apply H3.
  - intros k s' Hk. unfold sessions in Hk. simpl in Hk.
    apply lookup_app_Some in Hk as [Hk|[_ Hk]].
    + apply (H4 k). unfold sessions. by apply lookup_app_l_Some.
    + by apply list_lookup_singleton_Some in Hk as [_ <-].
  - intros c' k i [[= -> -> ->]|Hin]%elem_of_cons.
    + exists s. split; [|done]. by apply list_lookup_middle.
    + destruct (H5 _ _ _ Hin) as (s0 & Hk & Hlt). destruct (Hgo _ _ Hk) as (s' & Hk' & _ & Hle).
      exists s'. split; [done|lia].
  - constructor; [|done]. intros ([c' x] & E & Hin)%list_elem_of_fmap. simpl in E. subst x.
    by eapply Hfresh.
Qed.

Lemma step_enter_send P n st c st' :
  client_inv P n st → serialized st → (n + 2 < 2 ^ 64)%N →
  cstep (EnterSend c) st = Some st' → client_inv P (n + 1) st' ∧ serialized st'.
Proof.
  intros Hi Hs Hb Hst. simpl in Hst.
  destruct (callers st !! c) as [[| |again request| | | | | |]|] eqn:Hc; try done.
  destruct (holder st) eqn:Hh; [done|]. injection Hst as <-. unfold enter_send.
  assert (Hi' : client_inv P (n + 1) st).
  { destruct Hi as [H1 H2 H3 H4 H5 H6]. split; try done.
    intros k s Hk. eapply session_ok_later; [by eapply H4|lia]. }
  pose proof (ci_tries _ _ _ Hi c) as Ht. rewrite Hc in Ht. simpl in Ht.
  destruct (slot st) as [s|] eqn:Hslot.
  2: { eapply move_outside; [done..| ]. simpl. destruct again; lia. }
  destruct (closed s) eqn:Hcl.
  { destruct (finish_attempt_err st c again request Closed) as (? & ? & Hbu).
    eapply move_outside; [done..|]. etrans; [|exact Hbu]. destruct again; simpl; lia. }
  assert (Hok : session_ok P (cfg_codec st) (cfg_limits st) n s)
    by (eapply (ci_sessions _ _ _ Hi); by apply sessions_last).
  assert (Hn0 : (next_id s =? 0)%N = false) by (apply N.eqb_neq; destruct Hok as (_ & ? & _); lia).
  rewrite Hn0.
  assert (Hss : session_ok P (cfg_codec st) (cfg_limits st) (n + 1) (send_start request s)).
  { apply (session_ok_step P (cfg_codec st) (cfg_limits st) n (SendStart request) s); simpl; [done|lia|done]. }
  assert (Hnew : next_id (send_start request s) = (next_id s + 1)%N ∧
                 history (send_start request s) = history s ∧
                 calls (send_start request s) = <[next_id s := Allocated request]> (calls s)).
  { unfold send_start. rewrite Hcl. simpl. rewrite Hn0. simpl. unfold wrap.
    rewrite N.mod_small; [done|]. destruct Hok as (_ & ? & _). lia. }
  destruct Hnew as (En & Eh & Ec).
  assert (Hmine : ∀ c', (c', (length (past st), next_id s)) ∉ attempts st).
  { intros c' Hin. destruct (ci_attempts _ _ _ Hi _ _ _ Hin) as (s' & Hk & Hlt).
    rewrite (sessions_last _ _ Hslot) in Hk. simplify_eq. lia. }
  assert (Hgo : all_go_on (sessions st) (past st ++ [send_start request s])).
  { unfold sessions. rewrite Hslot. apply all_go_on_last. split; [by rewrite Eh|lia]. }
  split.
  - apply client_inv_entered; try done; [lia|]. destruct again; simpl; lia.
  - intros s' id cl [= <-] Hcall. simpl in *. rewrite Ec in Hcall.
    unfold active. simpl. rewrite lookup_insert_eq.
    apply lookup_insert_Some in Hcall as [[<- _]|[_ Hcall]]; [by right|].
    destruct (Hs s id cl Hslot Hcall) as [|Ha]; [by left|]. unfold active in Ha. by rewrite Hh in Ha.
Qed.

(** The current session is replaced by one that went on. *)
Lemma session_goes_on P n st s s' :
  client_inv P n st → slot st = Some s → session_ok P (cfg_codec st) (cfg_limits st) n s' →
  goes_on s s' → client_inv P n (set_slot (Some s') st).
Proof.
  intros Hi Hslot Hok Hg.
  apply (client_inv_sessions P n n st (Some s') (past st) Hi); [done| | |].
  - intros x [Hin|Hin]%elem_of_app; [left; apply elem_of_app; by left|right].
    by apply list_elem_of_singleton in Hin as ->.
  - unfold sessions. rewrite Hslot. by apply all_go_on_last.
  - intros c p Hp El. pose proof (ci_callers _ _ _ Hi _ _ Hp) as Hc.
    destruct p; try done; simpl in *; [congruence|]. by destruct Hc.
Qed.

Lemma step_in_session P n st lb st' :
  client_inv P n st → serialized st → (n + 1 < 2 ^ 64)%N →
  cstep (InSession lb) st = Some st' → client_inv P n st' ∧ serialized st'.
Proof.
  intros Hi Hs Hb Hst. simpl in Hst. destruct (session_label (active st) lb) eqn:Hl; [|done].
  apply bind_Some in Hst as (s & Hslot & Hst). apply bind_Some in Hst as (s' & Hst & [= <-]).
  pose proof (ci_sessions _ _ _ Hi _ _ (sessions_last _ _ Hslot)) as Hok.
  destruct (session_label_next _ _ _ _ Hl Hst) as [En E0].
  split.
  - eapply session_goes_on; [done|done| |].
    + rewrite <-(N.add_0_r n), <-E0. eapply session_ok_step; [done| |done]. rewrite E0. lia.
    + split; [intros x; by eapply step_history|lia].
  - intros s0 id cl [= <-] Hc. change (active (set_slot (Some s') st)) with (active st).
    destruct (session_label_calls _ _ _ _ _ _ Hl Hst Hc) as [Hold|Ha]; [by eapply Hs|by right].
Qed.

Lemma step_leave_send P n st c st' :
  client_inv P n st → serialized st → cstep (LeaveSend c) st = Some st' →
  client_inv P n st' ∧ serialized st'.
Proof.
  intros Hi Hs Hst. simpl in Hst.
  destruct (callers st !! c) as [[| | |again request id| | | | |]|] eqn:Hc; try done.
  destruct (slot st) as [s|] eqn:Hslot; [|done].
  destruct (calls s !! id) as [[| | | | | | |r]|] eqn:Hcall; try done. injection Hst as <-.
  pose proof (lock_is_mine _ _ _ _ _ Hi Hc eq_refl) as Hh.
  pose proof (ci_tries _ _ _ Hi c) as Ht. rewrite Hc in Ht. simpl in Ht.
  destruct (ci_callers _ _ _ Hi _ _ Hc) as [_ Hin].
  pose proof (ci_sessions _ _ _ Hi _ _ (sessions_last _ _ Hslot)) as (Hinv & _ & _).
  unfold leave_send. split.
  - apply client_inv_move; [done| | | |].
    + destruct r as [response|e]; simpl; [|by apply finish_attempt_err].
      exists (length (past st)), id, s. split_and!; [done|by apply sessions_last|].
      apply (inv_history s Hinv). by apply (inv_phase s Hinv _ _ Hcall).
    + destruct r as [response|e]; simpl; [destruct again; lia|]. by etrans; [|apply finish_attempt_err].
    + by right.
    + destruct r as [response|e]; [|rewrite (proj1 (finish_attempt_err st c again request e))];
        by rewrite bool_decide_true.
  - intros s0 id0 cl Hs0 Hcl. left. simpl in Hs0. destruct (Hs _ _ _ Hs0 Hcl) as [|Ha]; [done|].
    unfold active in Ha. rewrite Hh in Ha. simpl in Ha. rewrite Hc in Ha. injection Ha as <-.
    by simplify_eq.
Qed.

(** The lock is free and the session goes to the past. *)
Lemma session_past P n st s s' :
  client_inv P n st → holder st = None → slot st = Some s →
  session_ok P (cfg_codec st) (cfg_limits st) n s' → goes_on s s' →
  client_inv P n (set_slot None (set_past (past st ++ [s']) st)).
Proof.
  intros Hi Hh Hslot Hok Hg. apply (client_inv_sessions P n n); [done|done| | |].
  - intros x. simpl. rewrite app_nil_r. intros [Hin|Hin]%elem_of_app.
    + left. apply elem_of_app. by left.
    + right. by apply list_elem_of_singleton in Hin as ->.
  - unfold sessions. rewrite Hslot. simpl. rewrite app_nil_r. by apply all_go_on_last.
  - intros c p Hp El. by rewrite (nobody_locked _ _ _ _ _ Hi Hh Hp) in El.
Qed.

Lemma step_reset P n st c st' :
  client_inv P n st → serialized st → cstep (Reset c) st = Some st' →
  client_inv P n st' ∧ serialized st'.
Proof.
  intros Hi Hs Hst. simpl in Hst.
  destruct (callers st !! c) as [[| | | |request| | | |]|] eqn:Hc; try done.
  destruct (holder st) eqn:Hh; [done|]. injection Hst as <-. unfold reset.
  split; [|done]. apply (client_inv_move_outside P n _ c _ (Resetting request)); try done.
  destruct (slot st) as [s|] eqn:Hslot; simpl.
  - eapply session_past; [done..| |done]. eapply (ci_sessions _ _ _ Hi). by apply sessions_last.
  - rewrite app_nil_r. destruct st; simpl in *. by subst.
Qed.

Lemma step_close_client P n st st' :
  client_inv P n st → serialized st → (n + 1 < 2 ^ 64)%N → cstep CloseClient st = Some st' →
  client_inv P n st' ∧ serialized st'.
Proof.
  intros Hi Hs Hb Hst. simpl in Hst. destruct (holder st) eqn:Hh; [done|]. injection Hst as <-.
  unfold close_client. destruct (slot st) as [s|] eqn:Hslot; [|done]. split; [|done].
  eapply session_past; [done..| |done].
  rewrite <-(N.add_0_r n). eapply (session_ok_step _ _ _ _ CloseSession); [|simpl; lia|done].
  eapply (ci_sessions _ _ _ Hi). by apply sessions_last.
Qed.

Lemma step_drop_call P n st c k st' :
  client_inv P n st → serialized st → (n + 1 < 2 ^ 64)%N → cstep (DropCall c k) st = Some st' →
  client_inv P n st' ∧ serialized st'.
Proof.
  intros Hi Hs Hb Hst. simpl in Hst. apply bind_Some in Hst as (p & Hc & Hst).
  pose proof (ci_tries _ _ _ Hi c) as Ht. rewrite Hc in Ht. simpl in Ht.
  destruct p as [g|g|again request|again request id|request| | | |]; simpl in Hst; try discriminate Hst.
  - injection Hst as <-. eapply move_outside; [done..|]. by destruct g as [|[] ?]; simpl; lia.
  - injection Hst as <-. pose proof (lock_is_mine _ _ _ _ _ Hi Hc eq_refl) as Hh.
    pose proof (ci_callers _ _ _ Hi _ _ Hc) as Hslot. simpl in Hslot. split.
    + apply client_inv_move; [done|done| |done|simpl; by rewrite bool_decide_true].
      destruct g as [|[] ?]; simpl in *; lia.
    + intros s id cl Hsl. simpl in Hsl. congruence.
  - injection Hst as <-. eapply move_outside; [done..|]. destruct again; simpl; lia.
  - apply bind_Some in Hst as (s & Hslot & (cl & Hcall & Hd)%bind_Some). apply bind_Some in Hcall as (cl0 & Hcall & Hd0).
    injection Hd as <-. pose proof (lock_is_mine _ _ _ _ _ Hi Hc eq_refl) as Hh.
    pose proof (ci_sessions _ _ _ Hi _ _ (sessions_last _ _ Hslot)) as Hok.
    assert (Hstep : step (SendDrop id k) s = Some cl) by (simpl; by rewrite Hcall).
    assert (Hi1 : client_inv P n (set_slot (Some cl) st)).
    { eapply session_goes_on; [done|done| |].
      - rewrite <-(N.add_0_r n). eapply (session_ok_step _ _ _ _ (SendDrop id k)); [done|simpl; lia|done].
      - split; [intros x; by eapply step_history|]. apply send_drop_same in Hd0 as [w ->]. simpl. lia. }
    split.
    + apply (client_inv_move P n (set_slot (Some cl) st) c Gone); [done|done| |done|simpl; by rewrite bool_decide_true].
      change (tries c (set_slot (Some cl) st)) with (tries c st). destruct again; simpl in *; lia.
    + intros s0 id0 cl1 [= <-] Hcl1. left. apply send_drop_same in Hd0 as [w ->].
      simpl in Hcl1. apply lookup_insert_Some in Hcl1 as [[_ <-]|[Hne Hcl1]]; [done|].
      destruct (Hs _ _ _ Hslot Hcl1) as [|Ha]; [done|]. unfold active in Ha. rewrite Hh in Ha. simpl in Ha.
      rewrite Hc in Ha. congruence.
  - injection Hst as <-. eapply move_outside; [done..|]. simpl. lia.
Qed.

(** Every reader a schedule opens satisfies [P]. *)
Definition opens (P : reader → Prop) (lb : clabel) : Prop :=
  match lb with Open _ (Ok (rd, _)) => P rd | _ => True end.

Lemma client_inv_run P n st ls st' :
  client_inv P n st → serialized st → (n + entries ls < 2 ^ 64 - 1)%N → Forall (opens P) ls →
  crun ls st = Some st' → client_inv P (n + entries ls) st' ∧ serialized st'.
Proof.
  revert n st. induction ls as [|lb ls IH]; intros n st Hi Hs Hb HP Hr; simpl in Hr.
  { simplify_eq. unfold entries. simpl. by rewrite N.add_0_r. }
  apply bind_Some in Hr as (st1 & Hst & Hr). apply Forall_cons in HP as [HP1 HP].
  assert (Hsame : entries (lb :: ls) = entries ls →
            client_inv P n st1 ∧ serialized st1 →
            client_inv P (n + entries (lb :: ls)) st' ∧ serialized st').
  { intros E [Hi1 Hs1]. rewrite E in *. by apply (IH n st1). }
  destruct lb as [c g|c|c r|c|lb|c|c| |c k].
  - apply Hsame; [done|]. eauto using step_call.
  - apply Hsame; [done|]. eauto using step_lock_connect.
  - apply Hsame; [done|]. eapply step_open; [done..| |done]. by intros rd w ->.
  - assert (E : entries (EnterSend c :: ls) = (1 + entries ls)%N)
      by (unfold entries, len; simpl; lia).
    rewrite E in *. replace (n + (1 + entries ls))%N with ((n + 1) + entries ls)%N by lia.
    destruct (step_enter_send P n st c st1) as [Hi1 Hs1]; [done|done|lia|done|].
    apply (IH (n + 1)%N st1); [done|done|lia|done|done].
  - apply Hsame; [done|]. eapply step_in_session; [done|done|lia|done].
  - apply Hsame; [done|]. eauto using step_leave_send.
  - apply Hsame; [done|]. eauto using step_reset.
  - apply Hsame; [done|]. eapply step_close_client; [done|done|lia|done].
  - apply Hsame; [done|]. eapply step_drop_call; [done|done|lia|done].
Qed.

Lemma cstep_cfg lb st st' :
  cstep lb st = Some st' → cfg_codec st' = cfg_codec st ∧ cfg_limits st' = cfg_limits st.
Proof.
  intros Hst. destruct lb; simpl in Hst.
  9: { apply bind_Some in Hst as (p & _ & Hst). destruct p; simpl in Hst; simplify_eq; try done.
       by apply bind_Some in Hst as (s & _ & (s' & _ & [= <-])%bind_Some). }
  all: repeat case_match; simplify_eq;
    unfold lock_connect, opened, enter_send, close_client; repeat case_match; try done.
  by apply bind_Some in Hst as (s & _ & (s' & _ & [= <-])%bind_Some).
Qed.

Lemma crun_cfg ls st st' :
  crun ls st = Some st' → cfg_codec st' = cfg_codec st ∧ cfg_limits st' = cfg_limits st.
Proof.
  revert st. induction ls as [|lb ls IH]; intros st Hr; simpl in Hr; [by simplify_eq|].
  apply bind_Some in Hr as (st1 & Hst & Hr). apply cstep_cfg in Hst as [<- <-]. eauto.
Qed.

(** ** Runs inside one session *)

Lemma crun_app ls ks st : crun (ls ++ ks) st = st' ← crun ls st; crun ks st'.
Proof.
  revert st. induction ls as [|lb ls IH]; intros st; simpl; [done|].
  destruct (cstep lb st); simpl; auto.
Qed.

Lemma crun_in_session ls st s s' act :
  active st = act → slot st = Some s → forallb (session_label act) ls = true →
  run ls s = Some s' →
  crun (InSession <$> ls) st = Some (set_slot (Some s') st).
Proof.
  revert st s. induction ls as [|lb ls IH]; intros st s Ha Hslot Hl Hr.
  - simplify_eq/=. f_equal. destruct st; simpl in *. by subst.
  - simpl in Hl, Hr. apply andb_true_iff in Hl as [Hl1 Hl].
    apply bind_Some in Hr as (s1 & Hst & Hr). cbn [fmap list_fmap crun cstep].
    rewrite Ha, Hl1, Hslot. simpl. rewrite Hst. simpl.
    by rewrite (IH (set_slot (Some s1) st) s1).
Qed.

(** A caller of [send] that writes its request and waits. *)
Definition client_send (c : nat) (id : N) : list clabel :=
  EnterSend c :: (InSession <$> [SendCheck id; SendInsert id; SendWrite id]).

Lemma crun_client_send c again request bytes st s :
  callers st !! c = Some (Connected again request) → holder st = None → slot st = Some s →
  closed s = false → (0 < next_id s)%N → (next_id s + 1 < 2 ^ 64)%N → pending s = ∅ →
  (1 ≤ max_in_flight (s_limits s))%N → encode_request s (next_id s) request = Ok bytes →
  broken (outgoing s) = None →
  crun (client_send c (next_id s)) st =
  Some (note_attempt c (next_id s) (set_holder (Some c)
    (set_caller c (Sending again request (next_id s))
      (set_slot (Some (sent (next_id s) bytes s)) st)))).
Proof.
  intros Hc Hh Hslot Hcl Hpos Hb Hp Hm He Hw.
  pose proof (run_good_send request (next_id s) bytes s Hcl eq_refl Hpos Hb Hp Hm He Hw) as Hr.
  cbn [good_send run step mbind option_bind] in Hr.
  unfold client_send. cbn [crun cstep]. rewrite Hc, Hh. cbn [mbind option_bind].
  unfold enter_send. rewrite Hslot, Hcl. destruct (N.eqb_spec (next_id s) 0); [lia|].
  match goal with |- crun _ ?st' = _ => set (st1 := st') end.
  assert (Ha : active st1 = Some (next_id s)).
  { unfold active, st1. simpl. by rewrite lookup_insert_eq. }
  rewrite (crun_in_session _ st1 (send_start request s) (sent (next_id s) bytes s) _ Ha);
    [done|done| |exact Hr].
  simpl. by rewrite !bool_decide_true.
Qed.

End client.

(** ** Properties *)

Section properties.
Context `{Wire}.

(** C5: what a caller of [send] gets.  Under every schedule of callers, resets,
    closes, reader tasks and connections, a response that [send] returns was
    handed over by one of the client's own sessions under a request id that
    this caller, and no other, drew there; that session handed over at most one
    response per id, and with the binary codec they are the response frames
    read from a stream the client opened. *)
Theorem client_answered codec l ls st c response :
  crun ls (new codec l) = Some st → (entries ls < 2 ^ 64 - 1)%N →
  callers st !! c = Some (Finished (Ok response)) →
  ∃ k id s, (c, (k, id)) ∈ attempts st ∧ sessions st !! k = Some s ∧
    (id, response) ∈ history s ∧ NoDup (history s).*1 ∧
    (∀ c', (c', (k, id)) ∈ attempts st → c' = c) ∧
    (codec = Binary → ∃ c0 rd w rest, Open c0 (Ok (rd, w)) ∈ ls ∧ answered l rd (history s) rest).
Proof.
  intros Hr Hb Hc. set (P rd := ∃ c0 w, Open c0 (Ok (rd, w)) ∈ ls).
  destruct (client_inv_new P codec l) as [Hi0 Hs0].
  destruct (client_inv_run P 0 _ ls st Hi0 Hs0) as [Hi _]; [lia| |done|].
  { apply Forall_forall. intros [| |c0 [[rd w]|]| | | | | |] Hin; simpl; try done. by exists c0, w. }
  destruct (ci_callers _ _ _ Hi _ _ Hc) as (k & id & s & Hin & Hk & Hx).
  destruct (ci_sessions _ _ _ Hi _ _ Hk) as (Hinv & _ & Ht).
  destruct (crun_cfg _ _ _ Hr) as [Ec El]. rewrite Ec, El in Ht.
  exists k, id, s. split_and!; [done..|by apply inv_once| |].
  - intros c' Hin'. eapply nodup_snd_fst; [apply Hi|done|done].
  - intros ->. destruct (Ht eq_refl) as (rd & (c0 & w & Hin0) & _ & _ & (rest & Ha) & _).
    by exists c0, rd, w, rest.
Qed.

(** A client has one request in flight.  Whatever the number of concurrent
    callers, at most one call of the current session has neither returned nor
    been dropped, the one of the caller that holds the lock, and every [send] puts its request on at
    most two connections. *)
Theorem client_serialized codec l ls st :
  crun ls (new codec l) = Some st → (entries ls < 2 ^ 64 - 1)%N →
  (∀ s id cl, slot st = Some s → calls s !! id = Some cl →
     over cl ∨ active st = Some id) ∧
  (∀ c, tries c st ≤ 2) ∧ NoDup (attempts st).*2.
Proof.
  intros Hr Hb. destruct (client_inv_new (λ _, True) codec l) as [Hi0 Hs0].
  destruct (client_inv_run (λ _, True) 0 _ ls st Hi0 Hs0) as [Hi Hs]; [lia| |done|].
  { apply Forall_forall. by intros [| |c0 [[rd w]|]| | | | | |] _. }
  split; [exact Hs|]. split; [|apply Hi]. intros c. etrans; [apply (ci_tries _ _ _ Hi)|].
  destruct (callers st !! c) as [p|]; simpl; [|lia].
  destruct p as [[|[] ?]|[|[] ?]|[] ?|[] ? ?| | | | |]; simpl; lia.
Qed.

(** Between the [connect] and the second lock of a [send] nothing but another
    caller can take the session away. *)
Definition interferes (c : nat) (lb : clabel) : Prop :=
  lb = CloseClient ∨ ∃ c', c' ≠ c ∧ lb = Reset c'.

Definition steady (c : nat) (st : client) : Prop :=
  match callers st !! c with
  | Some (Connected _ _) => is_Some (slot st)
  | Some Panicked => False
  | _ => True
  end.

Lemma steady_step c lb st st' :
  steady c st → ¬ interferes c lb → cstep lb st = Some st' → steady c st'.
Proof.
  intros Hs Hn Hst. unfold steady in *.
  destruct lb as [c' g|c'|c' r|c'|lb|c'|c'| |c' k]; simpl in Hst.
  5: { case_match; [|done]. apply bind_Some in Hst as (s & _ & (s' & _ & [= <-])%bind_Some).
       simpl. destruct (callers st !! c) as [[]|]; eauto. }
  7: { destruct Hn. by left. }
  7: { apply bind_Some in Hst as (p & _ & Hst).
       assert (callers st' = <[c' := Gone]> (callers st) ∧ (is_Some (slot st) → is_Some (slot st'))) as [-> Hsl].
       { destruct p; simpl in Hst; simplify_eq; try done.
         by apply bind_Some in Hst as (s & _ & (s' & _ & [= <-])%bind_Some). }
       destruct (decide (c = c')) as [<-|Hne]; [by rewrite lookup_insert_eq|].
       rewrite lookup_insert_ne by done. destruct (callers st !! c) as [[]|]; auto. }
  all: destruct (decide (c = c')) as [<-|Hne];
    [|first
      [exfalso; apply Hn; right; exists c'; split; [congruence|done]
      |repeat case_match; simplify_eq; unfold lock_connect, opened, enter_send, leave_send in *;
       repeat case_match; simpl in *; rewrite ?lookup_insert_ne in * by done;
       simplify_eq; solve [done|eauto]]].
  - destruct (callers st !! c); [done|].
    destruct g as [|[] ?]; simplify_eq; simpl; by rewrite lookup_insert_eq.
  - destruct (callers st !! c) as [[g| | | | | | | |]|]; try done. destruct (holder st); [done|].
    simplify_eq. unfold lock_connect. destruct (slot st) eqn:E; simpl; rewrite lookup_insert_eq; [|done].
    destruct g; simpl; [done|]. by rewrite E.
  - destruct (callers st !! c) as [[|g| | | | | | |]|]; try done. simplify_eq.
    destruct r as [[rd w]|e]; simpl; rewrite lookup_insert_eq.
    + destruct g; simpl; [done|by eexists].
    + destruct g; simpl; [done|]. by repeat case_match.
  - destruct (callers st !! c) as [[| |again request| | | | | |]|]; try done.
    destruct (holder st); [done|]. simplify_eq. unfold enter_send.
    destruct Hs as [s ->].
    destruct (closed s); [|destruct (next_id s =? 0)%N]; simpl; rewrite lookup_insert_eq;
      unfold finish_attempt; repeat case_match; done.
  - destruct (callers st !! c) as [[| | |again request id| | | | |]|]; try done.
    destruct (slot st) as [s|]; [|done]. destruct (calls s !! id) as [[| | | | | | |r]|]; try done.
    simplify_eq. simpl. rewrite lookup_insert_eq. unfold finish_attempt. by repeat case_match.
  - destruct (callers st !! c) as [[]|]; try done. destruct (holder st); [done|]. simplify_eq.
    simpl. by rewrite lookup_insert_eq.
Qed.

Lemma steady_run c ls st st' :
  steady c st → Forall (λ lb, ¬ interferes c lb) ls → crun ls st = Some st' → steady c st'.
Proof.
  revert st. induction ls as [|lb ls IH]; intros st Hs Hn Hr; simpl in Hr; [by simplify_eq|].
  apply bind_Some in Hr as (st1 & Hst & Hr). apply Forall_cons in Hn as [Hn1 Hn].
  eauto using steady_step.
Qed.

(** [expect("session connected")] can only fail in a race.  A caller that
    panics shares the client with a [close], or with another caller whose
    reconnect cleared the session between the two locks of the first. *)
Theorem client_panics_in_races codec l ls st c :
  crun ls (new codec l) = Some st → callers st !! c = Some Panicked →
  ∃ lb, lb ∈ ls ∧ interferes c lb.
Proof.
  intros Hr Hc. assert (Hdec : ∀ lb, Decision (interferes c lb)).
  { intros lb. destruct lb as [| | | | | |c'| |];
      try (right; intros [|(? & _ & ?)]; discriminate); [|left; by left].
    destruct (decide (c' = c)) as [->|]; [right; intros [|(c' & Hne & [=])]; congruence|].
    left. right. by exists c'. }
  destruct (decide (Exists (interferes c) ls)) as [He|He].
  - apply Exists_exists in He as (lb & Hin & Hi). eauto.
  - apply not_Exists_Forall in He; [|done].
    assert (Hs0 : steady c (new codec l)) by (unfold steady; assert (callers (new codec l) !! c = None) as -> by apply lookup_empty; done).
    pose proof (steady_run c ls _ _ Hs0 He Hr) as Hs. unfold steady in Hs. by rewrite Hc in Hs.
Qed.

(** A connection that the peer closes without an answer, with a request
    waiting on it: the reader task ends, the caller gets [Closed]. *)
Definition disconnected (c : nat) (id : N) : list clabel :=
  (InSession <$> [ReaderTurn; ReaderFinish; SendReceive id]) ++ [LeaveSend c; Reset c].

Definition dialled (c : nat) (rd : reader) (w : writer) : list clabel :=
  [LockConnect c; Open c (Ok (rd, w))].

Lemma crun_dialled c g rd w st :
  callers st !! c = Some (Connecting g) → holder st = None → slot st = None →
  crun (dialled c rd w) st =
  Some (mkClient (cfg_codec st) (cfg_limits st)
          (Some (from_stream (cfg_codec st) (cfg_limits st) rd w)) None
          (<[c := after_connect g]> (callers st)) (past st) (attempts st)).
Proof.
  intros Hc Hh Hslot. unfold dialled. cbn [crun cstep]. rewrite Hc, Hh. unfold lock_connect.
  rewrite Hslot. simpl. rewrite lookup_insert_eq. simpl. unfold set_holder, set_caller, set_slot.
  simpl. by rewrite insert_insert_eq.
Qed.

(** The reader task finds the end of the stream. *)
Lemma read_turn_end s e :
  incoming s = mkReader [] e → is_unexpected_eof e = true →
  read_turn s = stop (Ok tt) (set_incoming (mkReader [] e) s).
Proof.
  intros Hi He. unfold read_turn, read_binary_turn, read_jsonl_turn. rewrite Hi.
  destruct (s_codec s); unfold read_binary_frame_into, read_jsonl_line; simpl.
  - unfold mbind, readm_bind, read_exact_or_eof, try_read_exact. simpl. by rewrite He.
  - by rewrite He.
Qed.

Lemma crun_disconnected c request id s e st :
  callers st !! c = Some (Sending false request id) → holder st = Some c → slot st = Some s →
  task s = Reading → incoming s = mkReader [] e → is_unexpected_eof e = true →
  calls s !! id = Some Waiting → id ∈ pending s →
  ∃ s', crun (disconnected c id) st =
    Some (mkClient (cfg_codec st) (cfg_limits st) None None
            (<[c := Connecting (Send true request)]> (callers st)) (past st ++ [s']) (attempts st)) ∧
    outgoing s' = outgoing s.
Proof.
  intros Hc Hh Hslot Ht Hi He Hcall Hp. unfold disconnected. rewrite crun_app.
  assert (Ha : active st = Some id) by (unfold active; rewrite Hh; simpl; by rewrite Hc).
  eassert (Hr : run [ReaderTurn; ReaderFinish; SendReceive id] s = Some _).
  { cbn [run step]. rewrite Ht. cbn [mbind option_bind]. rewrite (read_turn_end s e Hi He). simpl.
    rewrite Hcall. unfold drain. simpl. rewrite (lookup_union_Some_l _ _ _ (Err Closed)); [done|].
    by apply lookup_gset_to_gmap_Some. }
  assert (Hl : forallb (session_label (Some id)) [ReaderTurn; ReaderFinish; SendReceive id] = true)
    by (simpl; by rewrite !bool_decide_true).
  rewrite (crun_in_session _ _ s _ _ Ha Hslot Hl Hr).
  cbn [mbind option_bind crun cstep]. simpl. rewrite Hc, lookup_insert_eq. simpl.
  rewrite lookup_insert_eq. simpl. eexists. split.
  - unfold reset, set_caller, set_slot, set_past. simpl. by rewrite insert_insert_eq.
  - done.
Qed.

(** A request may be executed twice.  When the server closes the
    connection after it read a request and before it answered, [send] puts the
    same request, mutating or not, on a second connection, and the first server
    got all of its bytes. *)
Theorem retry_sends_twice codec l request bytes e rd2 :
  (1 ≤ max_in_flight l)%N → is_unexpected_eof e = true →
  (∀ rd w, encode_request (from_stream codec l rd w) 1 request = Ok bytes) →
  ∃ st s1 s2,
    crun (Call 1 (Send false request)
            :: dialled 1 (mkReader [] e) (mkWriter [] None) ++ client_send 1 1
            ++ disconnected 1 1 ++ dialled 1 rd2 (mkWriter [] None) ++ client_send 1 1)
         (new codec l) = Some st ∧
    past st = [s1] ∧ slot st = Some s2 ∧
    written (outgoing s1) = bytes ∧ written (outgoing s2) = bytes.
Proof.
  intros Hm He Hok. cbn [crun cstep].
  assert (Hnew : callers (new codec l) !! 1 = None) by apply lookup_empty.
  rewrite Hnew. cbn [mbind option_bind].
  rewrite crun_app, (crun_dialled _ (Send false request)); [|by simpl; rewrite lookup_insert_eq|done..].
  cbn [mbind option_bind]. rewrite crun_app.
  set (st1 := mkClient _ _ _ _ _ _ _).
  rewrite (crun_client_send 1 false request bytes st1
             (from_stream codec l (mkReader [] e) (mkWriter [] None)));
    [|by simpl; rewrite lookup_insert_eq|done..|by rewrite Hok|done].
  cbn [mbind option_bind]. rewrite crun_app.
  match goal with |- context [crun (disconnected 1 1) ?st] => set (st2 := st) end.
  destruct (crun_disconnected 1 request 1
              (sent 1 bytes (from_stream codec l (mkReader [] e) (mkWriter [] None))) e st2)
    as (s1 & Hr & Hout);
    [by simpl; rewrite lookup_insert_eq|done..|by simpl; rewrite lookup_insert_eq|set_solver|].
  rewrite Hr. cbn [mbind option_bind].
  rewrite crun_app, (crun_dialled _ (Send true request)); [|by simpl; rewrite lookup_insert_eq|done..].
  cbn [mbind option_bind].
  match goal with |- context [crun (client_send 1 1) ?st] => set (st3 := st) end.
  rewrite (crun_client_send 1 true request bytes st3 (from_stream codec l rd2 (mkWriter [] None)));
    [|by simpl; rewrite lookup_insert_eq|done..|by rewrite Hok|done].
  do 3 eexists. split; [done|]. simpl. by rewrite Hout.
Qed.

End properties.

(** One caller, one request, and its answer. *)
Definition demo_client : list clabel :=
  Call 1 (Send false sample_request) :: dialled 1 demo_stream (mkWriter [] None)
  ++ client_send 1 1 ++ [InSession ReaderTurn; InSession (SendReceive 1); LeaveSend 1].

Lemma client_answered_witness :
  ∃ st, crun demo_client (new Binary default_limits) = Some st ∧
    ∃ k id s, (1, (k, id)) ∈ attempts st ∧ sessions st !! k = Some s ∧
      (id, empty_ok) ∈ history s ∧ NoDup (history s).*1 ∧
      (∀ c', (c', (k, id)) ∈ attempts st → c' = 1) ∧
      (Binary = Binary → ∃ c0 rd w rest, Open c0 (Ok (rd, w)) ∈ demo_client ∧
         answered default_limits rd (history s) rest).
Proof.
  destruct (crun demo_client (new Binary default_limits)) as [st|] eqn:E;
    [|exfalso; vm_compute in E; discriminate].
  exists st. split; [reflexivity|].
  apply (client_answered Binary default_limits demo_client st 1 empty_ok).
  - exact E.
  - vm_compute. reflexivity.
  - assert (H : (st ← crun demo_client (new Binary default_limits); callers st !! 1) =
                Some (Finished (Ok empty_ok))) by (vm_compute; reflexivity).
    rewrite E in H. exact H.
Defined.

Lemma client_serialized_witness :
  ∃ st, crun demo_client (new Binary default_limits) = Some st ∧
    (∀ s id cl, slot st = Some s → calls s !! id = Some cl →
       over cl ∨ active st = Some id).
Proof.
  destruct (crun demo_client (new Binary default_limits)) as [st|] eqn:E;
    [|exfalso; vm_compute in E; discriminate].
  exists st. split; [reflexivity|].
  apply (client_serialized Binary default_limits demo_client st E). vm_compute. reflexivity.
Defined.

(** Two callers when the server restarts: the reconnect of the first clears the
    session between the two locks of the second. *)
Definition race : list clabel :=
  Call 1 (Send false sample_request)
    :: dialled 1 (mkReader [] (mkIo true [])) (mkWriter [] None)
  ++ [InSession ReaderTurn; InSession ReaderFinish; EnterSend 1;
      Call 2 (Send false sample_request); LockConnect 2; Reset 1; EnterSend 2].

Lemma client_panics_in_races_witness :
  ∃ st, crun race (new Binary default_limits) = Some st ∧ callers st !! 2 = Some Panicked ∧
    ∃ lb, lb ∈ race ∧ interferes 2 lb.
Proof.
  destruct (crun race (new Binary default_limits)) as [st|] eqn:E;
    [|exfalso; vm_compute in E; discriminate].
  assert (H : (st ← crun race (new Binary default_limits); callers st !! 2) = Some Panicked)
    by (vm_compute; reflexivity).
  rewrite E in H. exists st. split; [reflexivity|]. split; [exact H|].
  exact (client_panics_in_races Binary default_limits race st 2 E H).
Defined.

Lemma retry_sends_twice_witness :
  ∃ st s1 s2,
    crun (Call 1 (Send false sample_request)
            :: dialled 1 (mkReader [] (mkIo true [])) (mkWriter [] None) ++ client_send 1 1
            ++ disconnected 1 1 ++ dialled 1 demo_stream (mkWriter [] None) ++ client_send 1 1)
         (new Binary default_limits) = Some st ∧
    past st = [s1] ∧ slot st = Some s2 ∧
    written (outgoing s1) = frame_bytes 1 REQUEST 1 [xc0] ∧
    written (outgoing s2) = frame_bytes 1 REQUEST 1 [xc0].
Proof.
  apply (retry_sends_twice Binary default_limits sample_request
           (frame_bytes 1 REQUEST 1 [xc0]) (mkIo true []) demo_stream).
  - vm_compute. discriminate.
  - reflexivity.
  - intros rd w. vm_compute. reflexivity.
Defined.
