(* ===== verification/ServerConn.v ===== *)
(** * One control connection on the server

    [crates/mutsuki-service-ipc/src/server_conn.rs]: codec detection, the
    sequential JSONL loop, and the multiplexed binary loop as a state machine
    of the connection's main task and its request tasks.  A label is one step
    of one task between two points where another can run.  The handler runs at
    one point of its request's life, on a state that other connections share. *)

From S2P Require Import Prelude Text Value Control ConfigTypes Frame Stream Codec.

(** ** Codec detection *)

(** [FirstByteReader]: the peeked byte in front of the rest of the stream. *)
Record FirstByteReader : Type := mkFirstByte { first : option byte; inner : reader }.

(** [poll_read] into a buffer with room for [n] bytes: the byte alone, or what
    the inner stream gives ([k] bytes of it). *)
Definition poll_read (n k : nat) (r : FirstByteReader) : list byte * FirstByteReader :=
  match first r with
  | Some b =>
      if (0 <? n)%nat then ([b], mkFirstByte None (inner r))
      else ([], mkFirstByte (Some b) (inner r))
  | None =>
      let k := Nat.min n k in
      (take k (remaining (inner r)),
       mkFirstByte None (mkReader (drop k (remaining (inner r))) (at_end (inner r))))
  end.

(** The stream it stands for. *)
Definition whole (r : FirstByteReader) : reader :=
  mkReader (match first r with Some b => [b] | None => [] end ++ remaining (inner r))
    (at_end (inner r)).

Inductive detected : Type :=
| NoStream (r : IpcResult unit)
| ServeJsonl (r : FirstByteReader)
| ServeBinary (r : FirstByteReader).

(** [serve_stream] up to the choice of the codec. *)
Definition detect (r : reader) : detected :=
  match try_read_exact 1 r with
  | (Err e, _) => if is_unexpected_eof e then NoStream (Ok tt) else NoStream (Err (Io e))
  | (Ok peek, r') =>
      match peek with
      | b :: _ =>
          if Byte.eqb b x7b then ServeJsonl (mkFirstByte (Some b) r')
          else ServeBinary (mkFirstByte (Some b) r')
      | [] => NoStream (Ok tt)
      end
  end.

Section server.
Context `{Wire} {State : Type} `{ControlHandler State}.

(** ** The JSONL loop *)

Record jsonl_conn : Type := mkJsonl {
  j_in : reader; j_out : writer; j_state : State;
}.

(** What one turn of the loop does: the next turn, or the loop's result. *)
Inductive turn (A : Type) : Type :=
| Continue (a : A)
| Return (r : IpcResult unit).
#[global] Arguments Continue {A} a.
#[global] Arguments Return {A} r.

(** The body after a line was read; [drained] is the flag's value at the second
    check. *)
Definition serve_line (limits : ControlIpcLimits) (drained : bool) (line : text)
    (c : jsonl_conn) : turn jsonl_conn * jsonl_conn :=
  if drained then (Return (Err Draining), c)
  else
    let '(state, response) :=
      match decode_jsonl_request line limits with
      | Ok request => handle request (j_state c)
      | Err error => (j_state c, response_err (BadRequest (ipc_error_text error)))
      end in
    let c := mkJsonl (j_in c) (j_out c) state in
    match encode_jsonl_response response limits with
    | Err e => (Return (Err e), c)
    | Ok bytes =>
        let '(r, w) := write_all_flush bytes (j_out c) in
        let c := mkJsonl (j_in c) w state in
        match r with
        | Ok _ => (Continue c, c)
        | Err e => (Return (Err e), c)
        end
    end.

(** What ends the wait of [select!]. *)
Inductive wake : Type := Drained | Idle | Line (drained : bool).

(** One turn of [serve_jsonl]; [draining] is the flag's value at the top. *)
Definition jsonl_turn (limits : ControlIpcLimits) (draining : bool) (w : wake) (c : jsonl_conn)
    : turn jsonl_conn * jsonl_conn :=
  if draining then (Return (Ok tt), c)
  else
    match w with
    | Drained | Idle => (Return (Ok tt), c)
    | Line drained =>
        let '(line, r) := read_jsonl_line limits (j_in c) in
        let c := mkJsonl r (j_out c) (j_state c) in
        match line with
        | Err e => (Return (Err e), c)
        | Ok None => (Return (Ok tt), c)
        | Ok (Some line) => serve_line limits drained line c
        end
    end.

(** [n] turns that each read a line while the server is not draining. *)
Fixpoint serve_lines (limits : ControlIpcLimits) (n : nat) (c : jsonl_conn)
    : IpcResult unit + jsonl_conn :=
  match n with
  | O => inr c
  | S n' =>
      match (jsonl_turn limits false (Line false) c).1 with
      | Continue c' => serve_lines limits n' c'
      | Return r => inl r
      end
  end.

(** The specification: the requests handled one after the other. *)
Fixpoint answers (requests : list ControlRequest) (s : State) : State * list ControlResponse :=
  match requests with
  | [] => (s, [])
  | request :: rest =>
      let '(s1, response) := handle request s in
      let '(s2, responses) := answers rest s1 in
      (s2, response :: responses)
  end.

(** ** The binary loop *)

Inductive phase : Type :=
| Queued                              (* before the mutation lock *)
| Handling                            (* the handler's future is being polled *)
| Responding (response : ControlResponse)
| Written.

Record request_task : Type := mkTask {
  t_id : N; t_request : ControlRequest; t_phase : phase;
  t_signalled : bool;                 (* the abort channel changed or closed *)
  t_aborted : bool;                   (* [JoinHandle::abort] was called *)
}.

Inductive main_phase : Type :=
| Top                                 (* the drain check of the loop head *)
| Reading                             (* inside [select!] *)
| Inserting (id : N) (t : nat)        (* the task is spawned, not yet registered *)
| WaitDrain                           (* [wait_pending_drain] *)
| Finished (r : IpcResult unit).

(** [accepted] and [answered] are history: the request id of every task ever
    spawned, and the tasks that wrote a response, with the id of its frame. *)
Record conn : Type := mkConn {
  c_limits : ControlIpcLimits;
  c_in : reader;
  c_out : writer;
  c_draining : bool;
  slots : N;
  c_pending : gmap N nat;
  tasks : gmap nat request_task;
  lock : option nat;
  next_task : nat;
  state : State;
  main : main_phase;
  accepted : gmap nat N;
  answered : list (nat * N);
}.

Definition new_conn (limits : ControlIpcLimits) (r : reader) (w : writer) (s : State) : conn :=
  mkConn limits r w false (max_in_flight limits) ∅ ∅ None 0 s Top ∅ [].

Definition set_main (m : main_phase) (c : conn) : conn :=
  mkConn (c_limits c) (c_in c) (c_out c) (c_draining c) (slots c) (c_pending c) (tasks c)
    (lock c) (next_task c) (state c) m (accepted c) (answered c).
Definition set_in (r : reader) (c : conn) : conn :=
  mkConn (c_limits c) r (c_out c) (c_draining c) (slots c) (c_pending c) (tasks c)
    (lock c) (next_task c) (state c) (main c) (accepted c) (answered c).
Definition set_out (w : writer) (c : conn) : conn :=
  mkConn (c_limits c) (c_in c) w (c_draining c) (slots c) (c_pending c) (tasks c)
    (lock c) (next_task c) (state c) (main c) (accepted c) (answered c).
Definition set_pending (p : gmap N nat) (c : conn) : conn :=
  mkConn (c_limits c) (c_in c) (c_out c) (c_draining c) (slots c) p (tasks c)
    (lock c) (next_task c) (state c) (main c) (accepted c) (answered c).
Definition set_tasks (ts : gmap nat request_task) (c : conn) : conn :=
  mkConn (c_limits c) (c_in c) (c_out c) (c_draining c) (slots c) (c_pending c) ts
    (lock c) (next_task c) (state c) (main c) (accepted c) (answered c).
Definition set_lock (l : option nat) (c : conn) : conn :=
  mkConn (c_limits c) (c_in c) (c_out c) (c_draining c) (slots c) (c_pending c) (tasks c)
    l (next_task c) (state c) (main c) (accepted c) (answered c).
Definition set_state (s : State) (c : conn) : conn :=
  mkConn (c_limits c) (c_in c) (c_out c) (c_draining c) (slots c) (c_pending c) (tasks c)
    (lock c) (next_task c) s (main c) (accepted c) (answered c).

(** The abort channel of a task changes, or its sender is dropped. *)
Definition signal_task (abort : bool) (x : request_task) : request_task :=
  mkTask (t_id x) (t_request x) (t_phase x) true (abort || t_aborted x).
Definition put (t : nat) (x : request_task) (c : conn) : conn :=
  set_tasks (<[t := x]> (tasks c)) c.
Definition signal (abort : bool) (t : nat) (c : conn) : conn :=
  match tasks c !! t with Some x => put t (signal_task abort x) c | None => c end.

Definition move (t : nat) (x : request_task) (p : phase) (c : conn) : conn :=
  put t (mkTask (t_id x) (t_request x) p (t_signalled x) (t_aborted x)) c.

(** [cancel_pending]. *)
Definition cancel_pending (id : N) (c : conn) : conn :=
  match c_pending c !! id with
  | Some t => signal true t (set_pending (delete id (c_pending c)) c)
  | None => c
  end.

(** A response written by the main task. *)
Definition write_response (id : N) (method : ControlMethod) (response : ControlResponse)
    (c : conn) : conn :=
  match encode_binary_response id method response (c_limits c) with
  | Err e => set_main (Finished (Err e)) c
  | Ok bytes =>
      let '(r, w) := write_all_flush bytes (c_out c) in
      let c := set_out w c in
      match r with Ok _ => set_main Top c | Err e => set_main (Finished (Err e)) c end
  end.

(** Discarding a payload before going on with [k]. *)
Definition discarding (declared : N) (header : FrameHeader) (k : conn → conn) (c : conn) : conn :=
  let '(r, rest) := read_payload_or_discard declared header false (c_in c) in
  let c := set_in rest c in
  match r with Err e => set_main (Finished (Err e)) c | Ok _ => k c end.

Definition limit_exceeded (limits : ControlIpcLimits) : ControlResponse :=
  response_err (Failed (lit "pending request limit exceeded (" ++ show_N (max_in_flight limits)
                        ++ lit ")")).

(** [tokio::spawn] of the request task, which takes the permit along. *)
Definition spawn (id : N) (request : ControlRequest) (c : conn) : conn :=
  let t := next_task c in
  mkConn (c_limits c) (c_in c) (c_out c) (c_draining c) (slots c - 1) (c_pending c)
    (<[t := mkTask id request Queued false false]> (tasks c)) (lock c) (S t) (state c)
    (Inserting id t) (<[t := id]> (accepted c)) (answered c).

(** A request frame for which a permit was taken: the permit is dropped again
    on every path that spawns no task. *)
Definition serve_request (declared : N) (header : FrameHeader) (c : conn) : conn :=
  let '(r, rest) := read_payload_or_discard declared header true (c_in c) in
  let c := set_in rest c in
  match r with
  | Err e => set_main (Finished (Err e)) c
  | Ok None => set_main Top c
  | Ok (Some payload) =>
      match from_opcode (h_opcode header) with
      | None => set_main (Finished (Err (UnknownOpcode (h_opcode header)))) c
      | Some method =>
          match msgpack_read_request (max_msgpack_nesting_depth (c_limits c)) payload with
          | Err error =>
              write_response (h_request_id header) method (response_err (BadRequest error)) c
          | Ok (token, params) =>
              spawn (h_request_id header) (mkRequest token method params) c
          end
      end
  end.

(** The main task's turn after [select!] returned a frame. *)
Definition serve_frame (c : conn) : conn :=
  let limits := c_limits c in
  let '(prefix, rest) := read_frame_prefix limits (c_in c) in
  let c := set_in rest c in
  match prefix with
  | Err e => set_main (Finished (Err e)) c
  | Ok None => set_main WaitDrain c
  | Ok (Some (declared, header)) =>
      if contains_flag (h_flags header) CANCEL || (h_opcode header =? OPCODE_CANCEL)%N then
        discarding declared header
          (λ c, set_main Top (cancel_pending (h_request_id header) c)) c
      else if negb (contains_flag (h_flags header) REQUEST) then
        discarding declared header
          (set_main (Finished (Err (UnknownFlags (h_flags header))))) c
      else if c_draining c then
        discarding declared header (set_main (Finished (Err Draining))) c
      else if (slots c =? 0)%N then
        discarding declared header
          (write_response (h_request_id header)
             (default HealthCheck (from_opcode (h_opcode header))) (limit_exceeded limits)) c
      else serve_request declared header c
  end.

(** [pending.insert]: an entry it replaces drops its abort sender. *)
Definition insert_entry (id : N) (t : nat) (c : conn) : conn :=
  let c' := match c_pending c !! id with Some t' => signal false t' c | None => c end in
  set_main Top (set_pending (<[id := t]> (c_pending c)) c').

(** The end of [wait_pending_drain], when the map is empty or the deadline
    passed: every entry left is aborted. *)
Definition abort_all (c : conn) : conn :=
  let aborted := map_to_list (c_pending c) in
  set_main (Finished (Ok tt)) (set_pending ∅ (foldr (λ e, signal true e.2) c aborted)).

(** *** The request task *)

Definition release (t : nat) (c : conn) : conn :=
  if bool_decide (lock c = Some t) then set_lock None c else c.

Definition task_lock (t : nat) (x : request_task) (c : conn) : option conn :=
  if is_mutating (req_method (t_request x)) then
    match lock c with
    | Some _ => None
    | None => Some (move t x Handling (set_lock (Some t) c))
    end
  else Some (move t x Handling c).

Definition task_handle (t : nat) (x : request_task) (c : conn) : conn :=
  let '(s, response) := handle (t_request x) (state c) in
  move t x (Responding response) (release t (set_state s c)).

Definition request_cancelled : ControlResponse := response_err (Failed (lit "request cancelled")).

Definition task_cancelled (t : nat) (x : request_task) (c : conn) : conn :=
  move t x (Responding request_cancelled) (release t c).

(** A response that does not encode is dropped, and so is a write error. *)
Definition task_respond (t : nat) (x : request_task) (response : ControlResponse) (c : conn) : conn :=
  let c := move t x Written c in
  match encode_binary_response (t_id x) (req_method (t_request x)) response (c_limits c) with
  | Err _ => c
  | Ok bytes =>
      let c := set_out (write_all_flush bytes (c_out c)).2 c in
      mkConn (c_limits c) (c_in c) (c_out c) (c_draining c) (slots c) (c_pending c) (tasks c)
        (lock c) (next_task c) (state c) (main c) (accepted c) (answered c ++ [(t, t_id x)])
  end.

(** The task is gone: its permit comes back. *)
Definition drop_task (t : nat) (c : conn) : conn :=
  mkConn (c_limits c) (c_in c) (c_out c) (c_draining c) (slots c + 1) (c_pending c)
    (delete t (tasks c)) (lock c) (next_task c) (state c) (main c) (accepted c) (answered c).

(** A task that is aborted while it writes its response: [k] bytes of the frame
    are written by then. *)
Definition task_torn (t k : nat) (x : request_task) (response : ControlResponse) (c : conn)
    : option conn :=
  match encode_binary_response (t_id x) (req_method (t_request x)) response (c_limits c) with
  | Err _ => None
  | Ok bytes => Some (drop_task t (release t (set_out (write_part k bytes (c_out c)) c)))
  end.

(** [map.remove(&request_id)] at the end of the task, whichever entry is there
    by then. *)
Definition task_end (t : nat) (x : request_task) (c : conn) : conn :=
  let c := match c_pending c !! t_id x with
           | Some t' => signal false t' (set_pending (delete (t_id x) (c_pending c)) c)
           | None => c
           end in
  drop_task t c.

(** *** The machine *)

Inductive label : Type :=
| BeginDrain
| BreakOut (e : io_error)
| MainTop | MainDrainSeen | MainIdle | MainFrame | MainInsert | MainDrainEnd
| TaskLock (t : nat) | TaskHandle (t : nat) | TaskCancelled (t : nat)
| TaskRespond (t : nat) | TaskEnd (t : nat) | TaskDrop (t : nat) | TaskTorn (t k : nat)
| Outside (f : State → State).        (* what others do to the handler's state *)

Definition step (lb : label) (c : conn) : option conn :=
  match lb with
  | BeginDrain =>
      Some (mkConn (c_limits c) (c_in c) (c_out c) true (slots c) (c_pending c) (tasks c)
              (lock c) (next_task c) (state c) (main c) (accepted c) (answered c))
  | BreakOut e => Some (set_out (mkWriter (written (c_out c)) (Some e)) c)
  | MainTop =>
      match main c with
      | Top => Some (set_main (if c_draining c then WaitDrain else Reading) c) | _ => None end
  | MainDrainSeen =>
      match main c with
      | Reading => if c_draining c then Some (set_main WaitDrain c) else None | _ => None end
  | MainIdle => match main c with Reading => Some (set_main WaitDrain c) | _ => None end
  | MainFrame => match main c with Reading => Some (serve_frame c) | _ => None end
  | MainInsert => match main c with Inserting id t => Some (insert_entry id t c) | _ => None end
  | MainDrainEnd => match main c with WaitDrain => Some (abort_all c) | _ => None end
  | TaskLock t =>
      x ← tasks c !! t;
      match t_phase x with Queued => task_lock t x c | _ => None end
  | TaskHandle t =>
      x ← tasks c !! t;
      match t_phase x with Handling => Some (task_handle t x c) | _ => None end
  | TaskCancelled t =>
      x ← tasks c !! t;
      match t_phase x with
      | Handling => if t_signalled x then Some (task_cancelled t x c) else None | _ => None end
  | TaskRespond t =>
      x ← tasks c !! t;
      match t_phase x with Responding r => Some (task_respond t x r c) | _ => None end
  | TaskEnd t =>
      x ← tasks c !! t;
      match t_phase x with Written => Some (task_end t x c) | _ => None end
  | TaskDrop t =>
      x ← tasks c !! t;
      if t_aborted x then Some (drop_task t (release t c)) else None
  | TaskTorn t k =>
      x ← tasks c !! t;
      match t_phase x with
      | Responding r => if t_aborted x then task_torn t k x r c else None | _ => None end
  | Outside f => Some (set_state (f (state c)) c)
  end.

Fixpoint run (ls : list label) (c : conn) : option conn :=
  match ls with
  | [] => Some c
  | lb :: ls' => c' ← step lb c; run ls' c'
  end.

(** ** The invariant of the binary connection *)

(** A task inside its handler with the mutation lock. *)
Definition holding (x : request_task) : bool :=
  match t_phase x with Handling => is_mutating (req_method (t_request x)) | _ => false end.

Record cinv (c : conn) : Prop := mkCinv {
  ci_slots : (slots c + N.of_nat (size (tasks c)))%N = max_in_flight (c_limits c);
  ci_next : ∀ t, is_Some (accepted c !! t) → (t < next_task c)%nat;
  ci_task : ∀ t x, tasks c !! t = Some x → accepted c !! t = Some (t_id x);
  ci_lock : ∀ t, lock c = Some t ↔ ∃ x, tasks c !! t = Some x ∧ holding x = true;
  ci_answered : ∀ t id, (t, id) ∈ answered c →
    accepted c !! t = Some id ∧ ∀ x, tasks c !! t = Some x → t_phase x = Written;
  ci_once : NoDup (answered c).*1;
  ci_pending : ∀ id t, c_pending c !! id = Some t → accepted c !! t = Some id;
  ci_main : match main c with Inserting id t => accepted c !! t = Some id | _ => True end;
}.

Lemma cinv_new limits r w s : cinv (new_conn limits r w s).
Proof.
  split; simpl; [rewrite map_size_empty; lia|by intros t []|done| |
    by intros t id Hin%not_elem_of_nil|constructor|done|done].
  intros t. split; [done|]. intros (x & Hx & _). by rewrite lookup_empty in Hx.
Qed.

(** What the invariant does not look at. *)
Lemma cinv_set_in r c : cinv c → cinv (set_in r c).
Proof. intros []. by split. Qed.
Lemma cinv_set_out w c : cinv c → cinv (set_out w c).
Proof. intros []. by split. Qed.
Lemma cinv_set_state s c : cinv c → cinv (set_state s c).
Proof. intros []. by split. Qed.
Lemma cinv_set_main m c :
  cinv c → match m with Inserting id t => accepted c !! t = Some id | _ => True end →
  cinv (set_main m c).
Proof. intros [] ?. by split. Qed.
Lemma cinv_set_pending p c :
  cinv c → (∀ id t, p !! id = Some t → accepted c !! t = Some id) → cinv (set_pending p c).
Proof. intros [] ?. by split. Qed.

(** A task moves on, taking or giving back the lock. *)
Lemma cinv_update t x x' l c :
  cinv c → tasks c !! t = Some x → t_id x' = t_id x →
  (l = Some t ↔ holding x' = true) →
  (∀ t', t' ≠ t → l = Some t' ↔ lock c = Some t') →
  (t_phase x = Written → t_phase x' = Written) →
  cinv (set_lock l (put t x' c)).
Proof.
  intros [Hs Hn Ht Hl Ha Ho Hp Hm] Hx Hid Hlt Hlo Hw. split; simpl; try done.
  - rewrite map_size_insert_Some; eauto.
  - intros t' y [[<- <-]|[_ Hy]]%lookup_insert_Some; [rewrite Hid|]; eauto.
  - intros t'. destruct (decide (t' = t)) as [->|Hne].
    + rewrite Hlt, lookup_insert_eq. naive_solver.
    + rewrite Hlo, lookup_insert_ne by done. apply Hl.
  - intros t' id Hin. destruct (Ha _ _ Hin) as [Hacc Hph]. split; [done|].
    intros y [[<- <-]|[_ Hy]]%lookup_insert_Some; eauto.
Qed.

Lemma cinv_signal abort t c : cinv c → cinv (signal abort t c).
Proof.
  intros Hc. unfold signal. destruct (tasks c !! t) as [x|] eqn:Hx; [|done].
  change (put t (signal_task abort x) c) with (set_lock (lock c) (put t (signal_task abort x) c)).
  eapply cinv_update; try done. rewrite (ci_lock c Hc), Hx.
  unfold holding, signal_task. simpl. naive_solver.
Qed.

Lemma signal_fields abort t c :
  c_pending (signal abort t c) = c_pending c ∧ accepted (signal abort t c) = accepted c ∧
  lock (signal abort t c) = lock c ∧ dom (tasks (signal abort t c)) = dom (tasks c) ∧
  main (signal abort t c) = main c ∧ c_limits (signal abort t c) = c_limits c.
Proof.
  unfold signal. destruct (tasks c !! t) as [x|] eqn:Hx; [|done]. simpl.
  split_and!; try done. rewrite dom_insert_lookup_L; eauto.
Qed.

Lemma cinv_cancel_pending id c : cinv c → cinv (cancel_pending id c).
Proof.
  intros Hc. unfold cancel_pending. case_match; [|done].
  apply cinv_signal, cinv_set_pending; [done|].
  intros id' t' [_ Ht]%lookup_delete_Some. by apply (ci_pending c Hc).
Qed.

Lemma cinv_write_response id m r c : cinv c → cinv (write_response id m r c).
Proof.
  intros Hc. unfold write_response. repeat case_match; auto using cinv_set_main, cinv_set_out.
Qed.

Lemma cinv_discarding d h k c :
  cinv c → (∀ r, cinv (k (set_in r c))) → cinv (discarding d h k c).
Proof.
  intros Hc Hk. unfold discarding.
  destruct (read_payload_or_discard d h false (c_in c)) as [[]];
    auto using cinv_set_main, cinv_set_in.
Qed.

Lemma cinv_spawn id request c : cinv c → (0 < slots c)%N → cinv (spawn id request c).
Proof.
  intros [Hs Hn Ht Hl Ha Ho Hp Hm] Hpos.
  assert (Hf : accepted c !! next_task c = None).
  { destruct (accepted c !! next_task c) eqn:E; [|done]. pose proof (Hn _ (mk_is_Some _ _ E)). lia. }
  assert (Hft : tasks c !! next_task c = None).
  { destruct (tasks c !! next_task c) eqn:E; [|done]. apply Ht in E. congruence. }
  split; simpl; try done.
  - rewrite map_size_insert_None by done. lia.
  - intros t [v [[<- _]|[_ Hv]]%lookup_insert_Some]; [lia|]. pose proof (Hn _ (mk_is_Some _ _ Hv)). lia.
  - intros t x [[<- <-]|[Hne Hx]]%lookup_insert_Some; [by rewrite lookup_insert_eq|].
    rewrite lookup_insert_ne by done. eauto.
  - intros t. destruct (decide (t = next_task c)) as [->|Hne].
    + rewrite lookup_insert_eq, Hl, Hft. naive_solver.
    + rewrite lookup_insert_ne by done. apply Hl.
  - intros t id' Hin. destruct (Ha _ _ Hin) as [Hacc Hph].
    assert (t ≠ next_task c) by congruence. rewrite !lookup_insert_ne by done. eauto.
  - intros id' t Hid. assert (t ≠ next_task c) by (intros ->; apply Hp in Hid; congruence).
    rewrite lookup_insert_ne by done. eauto.
  - by rewrite lookup_insert_eq.
Qed.

Lemma cinv_serve_frame c : cinv c → cinv (serve_frame c).
Proof.
  intros Hc. unfold serve_frame.
  destruct (read_frame_prefix (c_limits c) (c_in c)) as [[[[d h]|]|e] rest];
    [|by apply cinv_set_main; [apply cinv_set_in|]..].
  pose proof (cinv_set_in rest c Hc) as Hc1. case_match.
  { apply cinv_discarding; [done|]. intros r.
    apply cinv_set_main; [|done]. apply cinv_cancel_pending. by apply cinv_set_in. }
  case_match; [apply cinv_discarding; auto using cinv_set_main, cinv_set_in|].
  case_match; [apply cinv_discarding; auto using cinv_set_main, cinv_set_in|].
  destruct (N.eqb_spec (slots (set_in rest c)) 0) as [|Hpos];
    [apply cinv_discarding; auto using cinv_write_response, cinv_set_in|].
  unfold serve_request. destruct (read_payload_or_discard d h true (c_in (set_in rest c))) as [[[p|]|e] r2];
    [|by apply cinv_set_main; [apply cinv_set_in|]..].
  case_match; [|by apply cinv_set_main; [apply cinv_set_in|]].
  case_match; [|by apply cinv_write_response, cinv_set_in].
  destruct a. apply cinv_spawn; [by apply cinv_set_in|]. simpl in *. lia.
Qed.

(** The lock after a task let go of it. *)
Definition released (t : nat) (c : conn) : option nat :=
  if bool_decide (lock c = Some t) then None else lock c.

Lemma release_eq t c : release t c = set_lock (released t c) c.
Proof. unfold release, released. case_bool_decide; [done|]. by destruct c. Qed.

Lemma released_iff t t' c : released t c = Some t' ↔ lock c = Some t' ∧ t' ≠ t.
Proof. unfold released. case_bool_decide; naive_solver. Qed.

(** A task that ends, or is dropped wherever it stands. *)
Lemma cinv_drop_task t x c :
  cinv c → tasks c !! t = Some x → cinv (drop_task t (release t c)).
Proof.
  intros [Hs Hn Ht Hl Ha Ho Hp Hm] Hx. rewrite release_eq. split; simpl; try done.
  - rewrite map_size_delete_Some by eauto.
    assert (size (tasks c) ≠ 0%nat) by (eapply map_size_ne_0_lookup_2; eauto). lia.
  - intros t' y [_ Hy]%lookup_delete_Some. eauto.
  - intros t'. rewrite released_iff, Hl. destruct (decide (t' = t)) as [->|Hne].
    + rewrite lookup_delete_eq. naive_solver.
    + rewrite lookup_delete_ne by done. naive_solver.
  - intros t' id Hin. destruct (Ha _ _ Hin). split; [done|].
    intros y [_ Hy]%lookup_delete_Some. eauto.
Qed.

Lemma cinv_respond t x response c :
  cinv c → tasks c !! t = Some x → t_phase x = Responding response →
  cinv (task_respond t x response c).
Proof.
  intros Hc Hx Hph.
  assert (Hm : cinv (move t x Written c)).
  { change (move t x Written c) with (set_lock (lock c) (move t x Written c)).
    eapply cinv_update; try done. rewrite (ci_lock c Hc), Hx. unfold holding. simpl.
    split; [|done]. intros (y & [= <-] & Hy). by rewrite Hph in Hy. }
  unfold task_respond. destruct (encode_binary_response _ _ _ _) as [bytes|e]; [|done].
  destruct Hm as [Hs Hn Ht Hl Ha Ho Hp Hmain]. split; try done; simpl in *.
  - intros t' id [Hin|[= -> ->]%list_elem_of_singleton]%elem_of_app; [auto|].
    split; [by apply (ci_task c Hc)|]. rewrite lookup_insert_eq. by intros y [= <-].
  - rewrite fmap_app. apply NoDup_app. split_and!; [done| |apply NoDup_singleton].
    simpl. intros t' [[t2 id] [-> Hin]]%list_elem_of_fmap Ht2%list_elem_of_singleton.
    simpl in *. subst. destruct (ci_answered c Hc _ _ Hin) as [_ Hw].
    specialize (Hw _ Hx). congruence.
Qed.

Lemma cinv_release_move t x p c :
  cinv c → tasks c !! t = Some x → t_phase x = Handling →
  p ≠ Handling → cinv (move t x p (release t c)).
Proof.
  intros Hc Hx Hph Hp. rewrite release_eq.
  change (move t x p (set_lock (released t c) c)) with (set_lock (released t c) (move t x p c)).
  eapply cinv_update; try done; try congruence.
  - rewrite released_iff. unfold holding. simpl. destruct p; naive_solver.
  - intros t' Hne. rewrite released_iff. naive_solver.
Qed.

Lemma cinv_lock t x c c' :
  cinv c → tasks c !! t = Some x → t_phase x = Queued → task_lock t x c = Some c' → cinv c'.
Proof.
  intros Hc Hx Hph Hst. unfold task_lock in Hst.
  assert (Hno : lock c ≠ Some t).
  { rewrite (ci_lock c Hc), Hx. intros (y & [= <-] & Hy). unfold holding in Hy. by rewrite Hph in Hy. }
  destruct (is_mutating (req_method (t_request x))) eqn:Hmut; [destruct (lock c) eqn:Hl|]; simplify_eq.
  - change (move t x Handling (set_lock (Some t) c)) with (set_lock (Some t) (move t x Handling c)).
    eapply cinv_update; try done; try congruence.
    intros t' Hne. rewrite Hl. naive_solver.
  - change (move t x Handling c) with (set_lock (lock c) (move t x Handling c)).
    eapply cinv_update; try done; try congruence.
    unfold holding. cbn [t_phase t_request]. rewrite Hmut. naive_solver.
Qed.

Lemma cinv_end t x c :
  cinv c → tasks c !! t = Some x → t_phase x = Written → cinv (task_end t x c).
Proof.
  intros Hc Hx Hph. unfold task_end.
  set (c1 := match c_pending c !! t_id x with Some _ => _ | None => _ end).
  assert (Hc1 : cinv c1 ∧ is_Some (tasks c1 !! t) ∧ lock c1 = lock c).
  { subst c1. destruct (c_pending c !! t_id x) as [t'|]; [|by eauto].
    set (c0 := set_pending _ c).
    destruct (signal_fields false t' c0) as (_ & _ & Hl & Hd & _ & _). split_and!; [| |exact Hl].
    - apply cinv_signal, cinv_set_pending; [done|].
      intros id' t2 [_ Ht2]%lookup_delete_Some. by apply (ci_pending c Hc).
    - apply elem_of_dom. rewrite Hd. apply elem_of_dom. eauto. }
  destruct Hc1 as (Hc1 & [y Hy] & Hl).
  assert (Hrel : release t c1 = c1).
  { unfold release. case_bool_decide as Hlt; [|done]. rewrite Hl in Hlt.
    apply (ci_lock c Hc) in Hlt as (z & Hz & Hh). rewrite Hx in Hz. simplify_eq.
    unfold holding in Hh. by rewrite Hph in Hh. }
  rewrite <-Hrel. by eapply cinv_drop_task.
Qed.

Lemma cinv_foldr_signal l c : cinv c → cinv (foldr (λ e : N * nat, signal true e.2) c l).
Proof. intros Hc. induction l; simpl; auto using cinv_signal. Qed.

Lemma cinv_step lb c c' : cinv c → step lb c = Some c' → cinv c'.
Proof.
  intros Hc Hst. destruct lb; simpl in Hst.
  - simplify_eq. destruct Hc. by split.
  - simplify_eq. by apply cinv_set_out.
  - destruct (main c); simplify_eq. apply cinv_set_main; [done|]. by destruct (c_draining c).
  - destruct (main c); simplify_eq. case_match; simplify_eq. by apply cinv_set_main.
  - destruct (main c); simplify_eq. by apply cinv_set_main.
  - destruct (main c); simplify_eq. by apply cinv_serve_frame.
  - destruct (main c) as [| |id t| |] eqn:Hm; simplify_eq. unfold insert_entry.
    pose proof (ci_main c Hc) as Hacc. rewrite Hm in Hacc.
    set (c1 := match c_pending c !! id with Some _ => _ | None => _ end).
    assert (Hc1 : cinv c1 ∧ accepted c1 = accepted c ∧ c_pending c1 = c_pending c).
    { subst c1. case_match; [|done]. split; [by apply cinv_signal|]. split; apply signal_fields. }
    destruct Hc1 as (Hc1 & Ha & Hp). apply cinv_set_main; [|done]. apply cinv_set_pending; [done|].
    intros id' t' [[<- <-]|[_ H']]%lookup_insert_Some; rewrite Ha; [done|]. by apply (ci_pending c Hc).
  - destruct (main c); simplify_eq. unfold abort_all. apply cinv_set_main; [|done].
    apply cinv_set_pending; [by apply cinv_foldr_signal|]. intros id t Hid. by rewrite lookup_empty in Hid.
  - apply bind_Some in Hst as (x & Hx & Hst). destruct (t_phase x) eqn:Hph; simplify_eq.
    by eapply cinv_lock.
  - apply bind_Some in Hst as (x & Hx & Hst). destruct (t_phase x) eqn:Hph; simplify_eq.
    unfold task_handle. destruct (handle (t_request x) (state c)).
    by apply cinv_release_move; [apply cinv_set_state|..].
  - apply bind_Some in Hst as (x & Hx & Hst). destruct (t_phase x) eqn:Hph; simplify_eq.
    case_match; simplify_eq. by apply cinv_release_move.
  - apply bind_Some in Hst as (x & Hx & Hst). destruct (t_phase x) eqn:Hph; simplify_eq.
    by apply cinv_respond.
  - apply bind_Some in Hst as (x & Hx & Hst). destruct (t_phase x) eqn:Hph; simplify_eq.
    by apply cinv_end.
  - apply bind_Some in Hst as (x & Hx & Hst). case_match; simplify_eq. by eapply cinv_drop_task.
  - apply bind_Some in Hst as (x & Hx & Hst). destruct (t_phase x); simplify_eq.
    unfold task_torn in Hst. repeat case_match; simplify_eq. by eapply cinv_drop_task; [apply cinv_set_out|].
  - simplify_eq. by apply cinv_set_state.
Qed.

Lemma conn_run_app ls ks c : run (ls ++ ks) c = c' ← run ls c; run ks c'.
Proof.
  revert c. induction ls as [|lb ls IH]; intros c; simpl; [done|].
  destruct (step lb c); simpl; auto.
Qed.

Lemma cinv_run ls c c' : cinv c → run ls c = Some c' → cinv c'.
Proof.
  revert c. induction ls as [|lb ls IH]; intros c Hc Hr; simpl in Hr; [by simplify_eq|].
  apply bind_Some in Hr as (c1 & Hst & Hr). eauto using cinv_step.
Qed.

Lemma limits_foldr_signal l c :
  c_limits (foldr (λ e : N * nat, signal true e.2) c l) = c_limits c.
Proof. induction l as [|e l IH]; simpl; [done|]. by rewrite <-IH; apply signal_fields. Qed.

Lemma step_limits lb c c' : step lb c = Some c' → c_limits c' = c_limits c.
Proof.
  intros Hst. destruct lb; simpl in Hst.
  7: { destruct (main c); simplify_eq. unfold insert_entry. simpl. case_match; [apply signal_fields|done]. }
  7: { destruct (main c); simplify_eq. unfold abort_all. simpl. apply limits_foldr_signal. }
  all: try (apply bind_Some in Hst as (x & Hx & Hst)).
  all: repeat case_match; simplify_eq;
    unfold serve_frame, discarding, serve_request, write_response, cancel_pending, task_lock,
      task_handle, task_cancelled, task_respond, task_torn, task_end, release, signal in *;
    repeat case_match; simplify_eq; done.
Qed.

Lemma run_limits ls c c' : run ls c = Some c' → c_limits c' = c_limits c.
Proof.
  revert c. induction ls as [|lb ls IH]; intros c Hr; simpl in Hr; [by simplify_eq|].
  apply bind_Some in Hr as (c1 & Hst & Hr). rewrite (IH _ Hr). by eapply step_limits.
Qed.

(** ** Every request can complete *)

Definition task_label (lb : label) : Prop :=
  match lb with
  | TaskLock _ | TaskHandle _ | TaskRespond _ | TaskEnd _ => True
  | _ => False
  end.

Definition rank (x : request_task) : nat :=
  match t_phase x with Queued => 3 | Handling => 2 | Responding _ => 1 | Written => 0 end.

(** The lock is free, or [t] has it. *)
Definition may_run (t : nat) (c : conn) : Prop := lock c = None ∨ lock c = Some t.

Lemma not_holding_free t x c :
  cinv c → tasks c !! t = Some x → holding x = false → may_run t c → lock c = None.
Proof.
  intros Hc Hx Hh [Hl|Hl]; [done|]. apply (ci_lock c Hc) in Hl as (y & Hy & Hhy). congruence.
Qed.

Lemma dom_move t x p c : tasks c !! t = Some x → dom (tasks (move t x p c)) = dom (tasks c).
Proof. intros Hx. simpl. rewrite dom_insert_lookup_L; eauto. Qed.

Lemma progress t x c :
  cinv c → tasks c !! t = Some x → may_run t c →
  ∃ lb c', step lb c = Some c' ∧ task_label lb ∧ may_run t c' ∧
    ((dom (tasks c') = dom (tasks c) ∧ ∃ x', tasks c' !! t = Some x' ∧ (rank x' < rank x)%nat) ∨
     (dom (tasks c') = dom (tasks c) ∖ {[t]} ∧ lock c' = None)).
Proof.
  intros Hc Hx Hr. destruct (t_phase x) as [| |r|] eqn:Hph.
  - assert (Hl : lock c = None) by (eapply not_holding_free; eauto; unfold holding; by rewrite Hph).
    exists (TaskLock t).
    assert (∃ l, step (TaskLock t) c = Some (set_lock l (move t x Handling c)) ∧ (l = None ∨ l = Some t))
      as (l & Hst & Hlt).
    { simpl. rewrite Hx. simpl. rewrite Hph. unfold task_lock. rewrite Hl.
      case_match; [by exists (Some t); auto|]. exists None. split; [|by left].
      f_equal. unfold move, put, set_tasks, set_lock. by rewrite <-Hl. }
    eexists. split; [exact Hst|]. split; [done|]. split; [destruct Hlt; subst; [by left|by right]|].
    left. split; [by apply dom_move|]. simpl. rewrite lookup_insert_eq. eexists. split; [done|].
    unfold rank. simpl. rewrite Hph. lia.
  - exists (TaskHandle t). simpl. rewrite Hx. simpl. rewrite Hph. unfold task_handle.
    destruct (handle (t_request x) (state c)) as [s response]. eexists. split; [done|].
    split; [done|]. rewrite release_eq.
    assert (Hrel : released t (set_state s c) = None).
    { unfold released. simpl. destruct Hr as [Hr|Hr]; rewrite Hr; by case_bool_decide. }
    rewrite Hrel. split; [by left|]. left. split; [by apply (dom_move t x _ (set_state s c))|].
    simpl. rewrite lookup_insert_eq. eexists. split; [done|]. unfold rank. simpl. rewrite Hph. lia.
  - exists (TaskRespond t). simpl. rewrite Hx. simpl. rewrite Hph. unfold task_respond.
    eexists. split; [done|]. split; [done|].
    case_match; simpl; (split; [exact Hr|]; left; split; [by rewrite dom_insert_lookup_L; eauto|];
      rewrite lookup_insert_eq; eexists; split; [done|]; unfold rank; simpl; rewrite Hph; lia).
  - assert (Hl : lock c = None) by (eapply not_holding_free; eauto; unfold holding; by rewrite Hph).
    exists (TaskEnd t). simpl. rewrite Hx. simpl. rewrite Hph. unfold task_end.
    eexists. split; [done|]. split; [done|].
    destruct (c_pending c !! t_id x) as [t'|]; simpl.
    + destruct (signal_fields false t' (set_pending (delete (t_id x) (c_pending c)) c))
        as (_ & _ & El & Ed & _ & _). simpl in *.
      split; [left; simpl; congruence|]. right. split; [|simpl; congruence]. by rewrite dom_delete_L, Ed.
    + split; [by left|]. right. split; [|done]. by rewrite dom_delete_L.
Qed.

Lemma finish_task n t x c :
  (rank x < n)%nat → cinv c → tasks c !! t = Some x → may_run t c →
  ∃ ls c', run ls c = Some c' ∧ Forall task_label ls ∧ cinv c' ∧ lock c' = None ∧
    dom (tasks c') = dom (tasks c) ∖ {[t]}.
Proof.
  revert x c. induction n as [|n IH]; intros x c Hn Hc Hx Hr; [lia|].
  destruct (progress t x c Hc Hx Hr) as (lb & c1 & Hst & Hlb & Hr1 & Hcase).
  pose proof (cinv_step _ _ _ Hc Hst) as Hc1.
  destruct Hcase as [(Hd & x1 & Hx1 & Hrk)|(Hd & Hl)].
  - destruct (IH x1 c1) as (ls & c2 & Hrun & Hls & Hc2 & Hl2 & Hd2); [lia|done..|].
    exists (lb :: ls), c2. simpl. rewrite Hst. split_and!; auto. by rewrite Hd2, Hd.
  - exists [lb], c1. simpl. rewrite Hst. split_and!; auto.
Qed.

Lemma finish_all n c :
  (size (tasks c) = n)%nat → cinv c →
  ∃ ls c', run ls c = Some c' ∧ Forall task_label ls ∧ tasks c' = ∅.
Proof.
  revert c. induction n as [|n IH]; intros c Hn Hc.
  - exists [], c. split_and!; auto. by apply map_size_empty_inv.
  - assert (∃ t x, tasks c !! t = Some x ∧ may_run t c) as (t & x & Hx & Hr).
    { destruct (lock c) as [t|] eqn:Hl.
      - pose proof Hl as Hl'. apply (ci_lock c Hc) in Hl' as (x & Hx & _). exists t, x. split; [done|by right].
      - destruct (map_choose (tasks c)) as (t & x & Hx); [intros E; by rewrite E, map_size_empty in Hn|].
        exists t, x. split; [done|by left]. }
    destruct (finish_task (S (rank x)) t x c) as (ls & c1 & Hrun & Hls & Hc1 & Hl & Hd); [lia|done..|].
    destruct (IH c1) as (ks & c2 & Hrun2 & Hks & He); [|done|].
    { assert (size (dom (tasks c1)) = n) as <-; [|by rewrite size_dom].
      rewrite Hd, size_difference, size_singleton, size_dom by
        (apply singleton_subseteq_l, elem_of_dom; eauto). lia. }
    exists (ls ++ ks), c2. rewrite conn_run_app, Hrun. split_and!; auto. by apply Forall_app.
Qed.



(** ** Lemmas on alignment *)

Lemma cancel_pending_in id c : c_in (cancel_pending id c) = c_in c.
Proof. unfold cancel_pending, signal. by repeat case_match. Qed.

Lemma write_response_in id m r c : c_in (write_response id m r c) = c_in c.
Proof. unfold write_response. by repeat case_match. Qed.

Lemma discarding_in d h k c :
  (∀ c, c_in (k c) = c_in c) →
  c_in (discarding d h k c) = (read_payload_or_discard d h false (c_in c)).2.
Proof.
  intros Hk. unfold discarding.
  destruct (read_payload_or_discard d h false (c_in c)) as [[]]; [by rewrite Hk|done].
Qed.

Definition going_on (c : conn) : Prop :=
  match main c with Top | Inserting _ _ => True | _ => False end.

Lemma serve_frame_in c :
  going_on (serve_frame c) →
  c_in (serve_frame c) = (read_binary_frame_into (c_limits c) (c_in c)).2.
Proof.
  unfold serve_frame.
  destruct (read_frame_prefix (c_limits c) (c_in c)) as [[[[d h]|]|e] r1] eqn:Hp; [|done..].
  case_match; [intros _|].
  { rewrite discarding_in; [by eapply payload_aligned|]. intros c'. simpl. apply cancel_pending_in. }
  case_match; [intros _; rewrite discarding_in; [by eapply payload_aligned|done]|].
  case_match; [intros _; rewrite discarding_in; [by eapply payload_aligned|done]|].
  case_match; [intros _; rewrite discarding_in; [by eapply payload_aligned|]; intros; apply write_response_in|].
  unfold serve_request. simpl.
  pose proof (payload_aligned _ _ _ _ _ true Hp) as Hal.
  destruct (read_payload_or_discard d h true r1) as [[[p|]|e] r2]; simpl in *; [|done..].
  repeat case_match; try done. intros _. by rewrite write_response_in.
Qed.

(** ** Lemmas on the JSONL loop *)

Lemma jsonl_turn_request `{!WireOk} limits request line rest e w s reply :
  broken w = None → encode_jsonl_request request limits = Ok line →
  encode_jsonl_response (handle request s).2 limits = Ok reply →
  (jsonl_turn limits false (Line false) (mkJsonl (mkReader (line ++ rest) e) w s)).1 =
    Continue (mkJsonl (mkReader rest e) (mkWriter (written w ++ reply) None) (handle request s).1).
Proof.
  intros Hw Hq Hr. pose proof Hq as Hq'. apply encode_jsonl_ok in Hq' as (buf & Hbuf & _).
  destruct (json_request_law _ _ Hbuf) as (t & -> & Ht & Hd).
  destruct (read_encoded_line _ _ _ _ rest e Hq Hbuf Ht) as [Hread Hlen].
  unfold jsonl_turn. simpl. rewrite Hread. unfold serve_line.
  unfold decode_jsonl_request, decode_jsonl. rewrite (proj2 (N.ltb_ge _ _)) by done. rewrite Hd.
  simpl. destruct (handle request s) as [s' response]. simpl in *. rewrite Hr. simpl.
  unfold write_all_flush. by rewrite Hw.
Qed.

End server.

(** ** Properties *)

Section properties.
Context `{Wire} {State : Type} `{ControlHandler State}.

(** C27: the in-flight limit.  Under every schedule of the connection's tasks,
    frames, cancels and drains, at most [max_in_flight] request tasks exist and
    every permit is either free or held by exactly one task: none leaks on any
    error path. *)
Theorem server_in_flight limits r w (s : State) ls c :
  run ls (new_conn limits r w s) = Some c →
  (slots c + N.of_nat (size (tasks c)))%N = max_in_flight limits ∧
  (N.of_nat (size (tasks c)) ≤ max_in_flight limits)%N.
Proof.
  intros Hr. pose proof (cinv_run _ _ _ (cinv_new limits r w s) Hr) as Hc.
  apply run_limits in Hr. pose proof (ci_slots c Hc) as Hs. rewrite Hr in Hs. simpl in Hs.
  split; [done|]. rewrite <-Hs. lia.
Qed.


(** C7: every accepted request is answered at most once, under its own request
    id, and only its own task answers it; the entry a cancel frame looks up
    belongs to a request with that id. *)
Theorem answered_once limits r w (s : State) ls c :
  run ls (new_conn limits r w s) = Some c →
  NoDup (answered c).*1 ∧
  (∀ t id, (t, id) ∈ answered c → accepted c !! t = Some id) ∧
  (∀ id t, c_pending c !! id = Some t → accepted c !! t = Some id).
Proof.
  intros Hr. pose proof (cinv_run _ _ _ (cinv_new limits r w s) Hr) as Hc.
  split; [apply Hc|]. split; [|apply Hc]. intros t id Hin. by apply (ci_answered c Hc).
Qed.

(** C40: no deadlock.  From every reachable state the request tasks alone can
    all run to their end: whatever the main task does, no request waits for a
    lock that is never released, and all permits come back. *)
Theorem requests_complete limits r w (s : State) ls c :
  run ls (new_conn limits r w s) = Some c →
  ∃ ks c', run ks c = Some c' ∧ Forall task_label ks ∧ tasks c' = ∅ ∧
    slots c' = max_in_flight limits.
Proof.
  intros Hr. pose proof (cinv_run _ _ _ (cinv_new limits r w s) Hr) as Hc.
  destruct (finish_all (size (tasks c)) c eq_refl Hc) as (ks & c' & Hks & Ht & He).
  exists ks, c'. split_and!; try done. pose proof (cinv_run _ _ _ Hc Hks) as Hc'.
  pose proof (ci_slots c' Hc') as Hs. rewrite He, map_size_empty in Hs.
  rewrite (run_limits _ _ _ Hks), (run_limits _ _ _ Hr) in Hs. simpl in Hs. lia.
Qed.

(** Frame alignment.  Whatever a frame is (cancel, request, over the limit,
    undecodable), when the main loop goes on to the next frame it has consumed
    exactly the frame it looked at. *)
Theorem frame_alignment (c c' : conn (State := State)) :
  step MainFrame c = Some c' → going_on c' →
  c_in c' = (read_binary_frame_into (c_limits c) (c_in c)).2.
Proof.
  simpl. intros Hst. destruct (main c); simplify_eq. apply serve_frame_in.
Qed.

(** JSONL requests are served in order: the loop answers one line per
    request, in the order of the requests, and threads the handler's state
    through them. *)
Theorem jsonl_serves_in_order `{!WireOk} limits requests lines replies rest e w (s : State) :
  broken w = None →
  Forall2 (λ q line, encode_jsonl_request q limits = Ok line) requests lines →
  Forall2 (λ r reply, encode_jsonl_response r limits = Ok reply) (answers requests s).2 replies →
  serve_lines limits (length requests) (mkJsonl (mkReader (concat lines ++ rest) e) w s) =
    inr (mkJsonl (mkReader rest e) (mkWriter (written w ++ concat replies) None)
           (answers requests s).1).
Proof.
  intros Hw Hl. revert w s replies Hw.
  induction Hl as [|q line requests lines Hq Hl IH]; intros w s replies Hw Hr;
    cbn [answers] in *.
  - inversion Hr. subst. simpl. rewrite app_nil_r. by destruct w; simpl in *; subst.
  - destruct (handle q s) as [s1 response] eqn:Hh. destruct (answers requests s1) as [s2 responses] eqn:Ha.
    simpl in Hr. apply Forall2_cons_inv_l in Hr as (reply & replies' & Hrep & Hrest & ->).
    cbn [List.length concat serve_lines]. rewrite <-(assoc_L (++)).
    rewrite (jsonl_turn_request limits q line _ e w s reply) by (rewrite ?Hh; done).
    rewrite Hh. simpl. rewrite (IH (mkWriter (written w ++ reply) None) s1 replies') by (rewrite ?Ha; done).
    rewrite Ha. simpl. by rewrite <-(assoc_L (++)).
Qed.

(** Codec detection.  An encoded frame is served by the binary loop as long
    as the frame limit stays below [0x7B000000], a JSONL request line by the
    JSONL loop; and putting the peeked byte back loses nothing: the loop reads
    the original stream. *)
Theorem codec_detection opcode flags id payload l bytes rest e :
  wire_limits l → (max_frame_bytes l < 0x7B000000)%N →
  encode_frame opcode flags id payload l = Ok bytes →
  (∃ fr, detect (mkReader (bytes ++ rest) e) = ServeBinary fr ∧ whole fr = mkReader (bytes ++ rest) e) ∧
  (∃ fr, detect (mkReader (x7b :: rest) e) = ServeJsonl fr ∧ whole fr = mkReader (x7b :: rest) e) ∧
  (∀ fr n k, (poll_read n k fr).1 ++ remaining (whole (poll_read n k fr).2) = remaining (whole fr)
             ∧ at_end (whole (poll_read n k fr).2) = at_end (whole fr)).
Proof.
  intros Hl Hm He. split; [|split].
  - destruct (encoded_layout _ _ _ _ _ _ Hl He) as (-> & Hv & Hb & _).
    apply validate_frame_length_ok in Hv. revert Hv Hb.
    generalize (header_bytes (mkHeader opcode flags id (len payload)) ++ payload). intros body.
    generalize (BINARY_HEADER_LEN + len payload)%N. intros n Hv Hb.
    cbn [be_bytes app]. unfold detect, try_read_exact. simpl.
    destruct (Byte.eqb (byte_of (n / 256 / 256 / 256)) x7b) eqn:E.
    + apply Byte.byte_dec_bl in E. apply (f_equal Byte.to_N) in E.
      rewrite byte_of_to_N, !N.Div0.div_div in E. change (256 * 256 * 256)%N with (2 ^ 24)%N in E.
      exfalso. change (Byte.to_N x7b) with 123%N in E.
      assert (n / 2 ^ 24 < 123)%N by (apply N.Div0.div_lt_upper_bound; lia).
      rewrite N.mod_small in E; lia.
    + eexists. split; [done|]. unfold whole. simpl. by rewrite ?drop_0.
  - eexists. split; [done|]. unfold whole. simpl. by rewrite ?drop_0.
  - intros [[b|] i] n k; unfold poll_read, whole; simpl; [by case_match|].
    by rewrite take_drop.
Qed.

End properties.

(** ** Concrete runs

    A handler that logs the methods it serves. *)
#[local] Instance log_handler : ControlHandler (list ControlMethod) :=
  λ request s, (s ++ [req_method request], empty_ok).

(** Two mutating requests, ids 1 and 2, in one stream. *)
Definition two_requests : reader :=
  mkReader (frame_bytes 0x0002 REQUEST 1 [xc0] ++ frame_bytes 0x0005 REQUEST 2 [xc0]) (mkIo true []).

Definition accept_two {State} : list (label (State := State)) :=
  [MainTop; MainFrame; MainInsert; MainTop; MainFrame; MainInsert].

Definition demo : conn (State := list ControlMethod) :=
  new_conn default_limits two_requests (mkWriter [] None) [].

(** Mutating requests exclude each other, but the tasks may take the lock in
    either order: the second request of the stream can run first. *)
Example mutating_order_not_kept :
  state <$> run (accept_two ++ [TaskLock 1; TaskHandle 1; TaskLock 0; TaskHandle 0]) demo =
  Some [PluginReload; ServiceShutdown].
Proof. vm_compute. reflexivity. Qed.

(** A task that ends before its entry is inserted leaves the entry behind. *)
Example finished_before_insert :
  (λ c, (size (tasks c), c_pending c !! 1%N)) <$>
    run [MainTop; MainFrame; TaskLock 0; TaskHandle 0; TaskRespond 0; TaskEnd 0; MainInsert] demo =
  Some (0%nat, Some 0%nat).
Proof. vm_compute. reflexivity. Qed.

(** A second request with an id still in flight replaces the first one's entry,
    whose abort channel closes: the first request can be answered with
    "request cancelled" although nobody cancelled it. *)
Example duplicate_id_cancels :
  (λ c, t_phase <$> tasks c !! 0%nat) <$>
    run (accept_two ++ [TaskLock 0; TaskCancelled 0])
      (new_conn (State := list ControlMethod) default_limits
         (mkReader (frame_bytes 0x0001 REQUEST 1 [xc0] ++ frame_bytes 0x0003 REQUEST 1 [xc0])
            (mkIo true []))
         (mkWriter [] None) []) =
  Some (Some (Responding request_cancelled)).
Proof. vm_compute. reflexivity. Qed.

Definition demo_accepted : conn :=
  default demo (run accept_two demo).

Lemma demo_accepted_run : run accept_two demo = Some demo_accepted.
Proof. vm_compute. reflexivity. Qed.

Lemma server_in_flight_witness :
  (slots demo_accepted + N.of_nat (size (tasks demo_accepted)))%N = 64%N ∧
  (N.of_nat (size (tasks demo_accepted)) ≤ 64)%N.
Proof.
  exact (server_in_flight default_limits two_requests (mkWriter [] None) [] accept_two
           demo_accepted demo_accepted_run).
Defined.


Lemma answered_once_witness : accepted demo_accepted !! 0%nat = Some 1%N.
Proof.
  apply (proj2 (proj2 (answered_once default_limits two_requests (mkWriter [] None) [] accept_two
           demo_accepted demo_accepted_run)) 1%N 0%nat).
  vm_compute. reflexivity.
Defined.

Lemma requests_complete_witness :
  ∃ ks c', run ks demo_accepted = Some c' ∧ Forall task_label ks ∧ tasks c' = ∅ ∧
    slots c' = 64%N.
Proof.
  exact (requests_complete default_limits two_requests (mkWriter [] None) [] accept_two
           demo_accepted demo_accepted_run).
Defined.

Lemma frame_alignment_witness :
  let c := set_main Reading demo in
  c_in (serve_frame c) = (read_binary_frame_into default_limits two_requests).2.
Proof.
  apply (frame_alignment (set_main Reading demo) (serve_frame (set_main Reading demo)));
    [reflexivity|vm_compute; exact I].
Defined.

Lemma jsonl_serves_in_order_witness :
  serve_lines default_limits 2
    (mkJsonl (mkReader (concat [utf8 (lit "{}") ++ [x0a]; utf8 (lit "{}") ++ [x0a]] ++ []) (mkIo true []))
       (mkWriter [] None) ([] : list ControlMethod)) =
  inr (mkJsonl (mkReader [] (mkIo true []))
         (mkWriter ([] ++ concat [utf8 (lit "{}") ++ [x0a]; utf8 (lit "{}") ++ [x0a]]) None)
         [ServiceStatus; ServiceStatus]).
Proof.
  refine (jsonl_serves_in_order (State := list ControlMethod) default_limits
            [sample_request; sample_request]
            [utf8 (lit "{}") ++ [x0a]; utf8 (lit "{}") ++ [x0a]]
            [utf8 (lit "{}") ++ [x0a]; utf8 (lit "{}") ++ [x0a]] [] (mkIo true []) (mkWriter [] None) []
            _ _ _); repeat constructor.
Defined.

Lemma codec_detection_witness :
  ∃ fr, detect (mkReader (frame_bytes 1 REQUEST 5 [xc0] ++ []) (mkIo true [])) = ServeBinary fr ∧
    whole fr = mkReader (frame_bytes 1 REQUEST 5 [xc0] ++ []) (mkIo true []).
Proof.
  refine (proj1 (codec_detection 1 REQUEST 5 [xc0] default_limits (frame_bytes 1 REQUEST 5 [xc0]) []
                   (mkIo true []) _ _ _)); vm_compute; done.
Defined.
