(* ===== verification/EndToEnd.v ===== *)
(** * A client and a server on one connection

    The session of a client ([Session]) and a connection of the server
    ([ServerConn]) with the binary codec, each under any schedule of its tasks,
    where each reads what the other wrote, up to a byte at which the connection
    ends in either direction, and others share the handler's state.  That state
    and every answer are then those of the handler serving some of the requests,
    each once, one after the other, in between what the others do.
    What goes wrong behind a frame that was given up half written is shown as
    well. *)

From S2P Require Import Prelude Text Value Control ConfigTypes Frame Stream Codec Session ServerConn.

(** ** Reads that do not depend on what comes later *)

(** A read whose result satisfies [P] gives the same result, and leaves the
    rest, when more bytes follow. *)
Definition stable {A} (P : A → Prop) (m : ReadM A) : Prop :=
  ∀ p e a r, m (mkReader p e) = (Ok a, r) → P a →
    ∃ p', r = mkReader p' e ∧ ∀ q e', m (mkReader (p ++ q) e') = (Ok a, mkReader (p' ++ q) e').

Definition any {A} (_ : A) : Prop := True.

Lemma stable_ret {A} (a : A) : stable any (mret a).
Proof. intros p e x r [= <- <-] _. by exists p. Qed.

Lemma stable_lift {A} (x : IpcResult A) : stable any (lift x).
Proof. intros p e a r [= -> <-] _. by exists p. Qed.

Lemma stable_bind {A B} (P : A → Prop) `{∀ a, Decision (P a)} (Q : B → Prop) (m : ReadM A) (f : A → ReadM B) :
  stable P m → (∀ a, P a → stable Q (f a)) → (∀ a, ¬ P a → ∀ r b r', f a r = (Ok b, r') → ¬ Q b) →
  stable Q (m ≫= f).
Proof.
  intros Hm Hf Hno p e b r Hb HQ. unfold mbind, readm_bind in *.
  destruct (m (mkReader p e)) as [[a|err] r1] eqn:E; [|done].
  destruct (decide (P a)) as [HP|HP]; [|by destruct (Hno a HP r1 b r Hb)].
  destruct (Hm _ _ _ _ E HP) as (p1 & -> & Hm').
  destruct (Hf a HP _ _ _ _ Hb HQ) as (p' & -> & Hf'). exists p'. split; [done|].
  intros q e'. by rewrite Hm', Hf'.
Qed.

Lemma stable_seq {A B} (m : ReadM A) (f : A → ReadM B) (Q : B → Prop) :
  stable any m → (∀ a, stable Q (f a)) → stable Q (m ≫= f).
Proof. intros Hm Hf. eapply (stable_bind any); [exact Hm|auto|]. by intros a []. Qed.

Lemma stable_weaken {A} (P : A → Prop) (m : ReadM A) : stable any m → stable P m.
Proof. intros Hm p e a r Ha _. by apply Hm. Qed.

Lemma try_read_exact_stable n p e a r : try_read_exact n (mkReader p e) = (Ok a, r) →
  ∃ p', r = mkReader p' e ∧ ∀ q e', try_read_exact n (mkReader (p ++ q) e') = (Ok a, mkReader (p' ++ q) e').
Proof.
  unfold try_read_exact. simpl. destruct (Nat.leb_spec n (List.length p)) as [Hn|]; [|done].
  intros [= <- <-]. exists (drop n p). split; [done|]. intros q e'.
  rewrite (proj2 (Nat.leb_le _ _)) by (rewrite length_app; lia).
  by rewrite take_app_le, drop_app_le.
Qed.

Lemma stable_read_exact n : stable any (read_exact n).
Proof.
  intros p e a r Ha _. unfold read_exact in *. destruct (try_read_exact n _) as [[b|err] r1] eqn:E; [|done].
  injection Ha as <- <-. destruct (try_read_exact_stable _ _ _ _ _ E) as (p' & -> & Hq).
  exists p'. split; [done|]. intros q e'. by rewrite Hq.
Qed.

Lemma stable_read_or_eof n : stable is_Some (read_exact_or_eof n).
Proof.
  intros p e a r Ha Hs. unfold read_exact_or_eof in *.
  destruct (try_read_exact n _) as [[b|err] r1] eqn:E.
  - injection Ha as <- <-. destruct (try_read_exact_stable _ _ _ _ _ E) as (p' & -> & Hq).
    exists p'. split; [done|]. intros q e'. by rewrite Hq.
  - destruct (is_unexpected_eof err); [|done]. injection Ha as <- <-. by destruct Hs.
Qed.

Lemma stable_payload n : stable any (read_payload n).
Proof. unfold read_payload. case_match; [apply stable_read_exact|apply stable_ret]. Qed.

Create HintDb stable.
#[local] Hint Resolve stable_ret stable_lift stable_read_exact stable_payload stable_weaken : stable.

Lemma stable_prefix l : stable is_Some (read_frame_prefix l).
Proof.
  eapply (stable_bind is_Some); [apply stable_read_or_eof| |].
  - intros [prefix|] Hp; [|by destruct Hp]. cbv zeta.
    repeat (apply stable_seq; [auto with stable|intros ?]). auto with stable.
  - intros [prefix|] Hp; [by destruct Hp|]. intros r b r' [= <- _]. by intros [].
Qed.

Lemma stable_frame l : stable is_Some (read_binary_frame_into l).
Proof.
  eapply (stable_bind is_Some); [apply stable_read_or_eof| |].
  - intros [prefix|] Hp; [|by destruct Hp]. cbv zeta.
    repeat (apply stable_seq; [auto with stable|intros ?]). auto with stable.
  - intros [prefix|] Hp; [by destruct Hp|]. intros r b r' [= <- _]. by intros [].
Qed.

Lemma stable_discard n : stable any (discard_bytes n).
Proof.
  intros p e a r Ha _. rewrite discard_bytes_spec in Ha. unfold forget in Ha.
  destruct (read_exact (N.to_nat n) _) as [[b|err] r1] eqn:E; [|done]. injection Ha as <- <-.
  destruct (stable_read_exact _ _ _ _ _ E I) as (p' & -> & Hq). exists p'. split; [done|].
  intros q e'. rewrite discard_bytes_spec. unfold forget. by rewrite Hq.
Qed.

Lemma stable_body d h allocate : stable any (read_payload_or_discard d h allocate).
Proof.
  unfold read_payload_or_discard. apply stable_seq; [auto with stable|intros _]. destruct allocate; simpl.
  - apply stable_seq; [auto with stable|intros ?]. auto with stable.
  - apply stable_seq; [apply stable_discard|intros ?]. auto with stable.
Qed.

(** ** Frames on a stream *)

Section frames.
Variable l : ControlIpcLimits.
Hypothesis Hl : wire_limits l.

(** The bytes of a frame that an encoder accepted. *)
Definition frame_encoded (f : BinaryFrame) (bytes : list byte) : Prop :=
  let h := f_header f in
  (h_opcode h ≤ u16_max ∧ h_flags h ≤ u16_max ∧ h_request_id h ≤ u64_max)%N ∧
  flags_from_bits (h_flags h) = Ok (h_flags h) ∧ h_payload_len h = len (f_payload f) ∧
  encode_frame (h_opcode h) (h_flags h) (h_request_id h) (f_payload f) l = Ok bytes.

(** The bytes of some frames, one after the other. *)
Definition carries (fs : list BinaryFrame) (bytes : list byte) : Prop :=
  ∃ bs, Forall2 frame_encoded fs bs ∧ bytes = concat bs.

(** A stream that brings these frames, or ends before it has brought them all. *)
Definition brings (fs : list BinaryFrame) (r : reader) : Prop :=
  ∃ missing, carries fs (remaining r ++ missing).

Lemma carries_nil : carries [] [].
Proof. by exists []. Qed.

Lemma carries_snoc fs bytes f b : carries fs bytes → frame_encoded f b → carries (fs ++ [f]) (bytes ++ b).
Proof.
  intros (bs & Hf & ->) Hb. exists (bs ++ [b]). split; [apply Forall2_app; auto|].
  by rewrite concat_app, concat_cons, app_nil_r.
Qed.

Lemma carries_brings fs bytes p e : carries fs bytes → p `prefix_of` bytes → brings fs (mkReader p e).
Proof. intros Hc [q ->]. by exists q. Qed.

Lemma frame_read f b rest e : frame_encoded f b →
  read_binary_frame_into l (mkReader (b ++ rest) e) = (Ok (Some (f_header f, f_payload f)), mkReader rest e).
Proof.
  destruct f as [[opcode flags id plen] payload]. unfold frame_encoded. simpl.
  intros ((Ho & Hfl & Hid) & Hbits & -> & He).
  pose proof (read_frame_of_encoded _ _ _ _ _ _ rest e Hl Ho Hfl Hid Hbits He) as Hr.
  unfold read_binary_frame, mbind, readm_bind in Hr.
  destruct (read_binary_frame_into l _) as [[[[h p]|]|err] r]; [|done..]. by injection Hr as <- <- <-.
Qed.

(** Only the length of a payload shows in front of it. *)
Lemma frame_head f b : frame_encoded f b →
  (28 ≤ List.length b)%nat ∧ b = take 28 b ++ f_payload f ∧
  ∀ payload, len payload = len (f_payload f) → frame_encoded (mkFrame (f_header f) payload) (take 28 b ++ payload).
Proof.
  intros (Hu & Hbits & Hlen & He). apply encode_frame_ok in He as (Hid & Hm & Hf & ->).
  set (head := be_bytes 4 (wrap 32 (BINARY_HEADER_LEN + len (f_payload f))) ++ be_bytes 4 CONTROL_WIRE_MAGIC
    ++ be_bytes 2 CONTROL_WIRE_MAJOR ++ be_bytes 2 CONTROL_WIRE_MINOR ++ be_bytes 2 (h_opcode (f_header f))
    ++ be_bytes 2 (h_flags (f_header f)) ++ be_bytes 8 (h_request_id (f_header f)) ++ be_bytes 4 (wrap 32 (len (f_payload f)))).
  assert (Hb : ∀ payload, len payload = len (f_payload f) →
    frame_bytes (h_opcode (f_header f)) (h_flags (f_header f)) (h_request_id (f_header f)) payload = head ++ payload).
  { intros payload E. unfold frame_bytes, head. rewrite E. by rewrite <-!(assoc_L (++)). }
  assert (Hh : List.length head = 28%nat) by (unfold head; by rewrite !length_app, !length_be_bytes).
  rewrite (Hb _ eq_refl), length_app, take_app_length' by done. split; [lia|]. split; [done|].
  intros payload E. split; [done|]. split; [done|]. simpl. split; [by rewrite E|].
  apply encode_frame_ok. rewrite E, Hb by done. by split_and!.
Qed.

(** What is read behind a torn frame: its header, with a payload that goes on
    with the bytes of the frames behind it. *)
Lemma torn_read f b k rest e : frame_encoded f b → (28 ≤ k ≤ List.length b)%nat →
  (List.length b - k ≤ List.length rest)%nat →
  read_binary_frame_into l (mkReader (take k b ++ rest) e) =
    (Ok (Some (f_header f, drop 28 (take k b) ++ take (List.length b - k) rest)),
     mkReader (drop (List.length b - k) rest) e).
Proof.
  intros Hf Hk Hr. destruct (frame_head f b Hf) as (Hlen & Hb & Hsame).
  set (payload := drop 28 (take k b) ++ take (List.length b - k) rest).
  assert (Hp : len payload = len (f_payload f)).
  { assert (Hlb : List.length b = (28 + List.length (f_payload f))%nat)
      by (rewrite Hb at 1; rewrite length_app, length_take; lia).
    unfold len, payload. f_equal. rewrite !length_app, length_drop, !length_take. lia. }
  pose proof (frame_read _ _ (drop (List.length b - k) rest) e (Hsame payload Hp)) as Hread.
  replace (take k b ++ rest) with ((take 28 b ++ payload) ++ drop (List.length b - k) rest); [exact Hread|].
  unfold payload. rewrite <-!(assoc_L (++)), take_drop, (assoc_L (++)). f_equal.
  rewrite <-(take_drop 28 (take k b)) at 2. f_equal. rewrite take_take. f_equal. lia.
Qed.

(** A frame is read from such a stream whole and in its turn. *)
Lemma brings_frame fs p e h payload r :
  brings fs (mkReader p e) → read_binary_frame_into l (mkReader p e) = (Ok (Some (h, payload)), r) →
  ∃ fs', fs = mkFrame h payload :: fs' ∧ brings fs' r.
Proof.
  intros (q & bs & Hf & Hq) Hr. simpl in Hq.
  destruct (stable_frame l _ _ _ _ Hr) as (p' & -> & Hst); [done|]. specialize (Hst q e).
  destruct Hf as [|f b fs bs Hb Hf]; simpl in Hq.
  { apply app_eq_nil in Hq as [-> ->]. simpl in Hst. unfold read_binary_frame_into, mbind, readm_bind, read_exact_or_eof in Hst.
    simpl in Hst. by destruct (is_unexpected_eof e). }
  rewrite Hq, (frame_read _ _ _ _ Hb) in Hst. injection Hst as <- <- Hrest.
  exists fs. split; [by destruct f|]. exists q. exists bs. by split.
Qed.

(** The two halves of a read: the header of the frame in its turn, then its
    payload, unless it is thrown away. *)
Lemma brings_prefix fs p e declared h r :
  brings fs (mkReader p e) → read_frame_prefix l (mkReader p e) = (Ok (Some (declared, h)), r) →
  ∃ payload fs', fs = mkFrame h payload :: fs' ∧
    ∀ allocate x r', read_payload_or_discard declared h allocate r = (Ok x, r') →
      brings fs' r' ∧ x = if allocate then Some payload else None.
Proof.
  intros (q & bs & Hf & Hq) Hr. simpl in Hq.
  destruct (stable_prefix l _ _ _ _ Hr) as (p1 & -> & Hst); [done|]. specialize (Hst q e).
  destruct Hf as [|f b fs bs Hb Hf]; simpl in Hq.
  { apply app_eq_nil in Hq as [-> ->]. simpl in Hst. unfold read_frame_prefix, mbind, readm_bind, read_exact_or_eof in Hst.
    simpl in Hst. by destruct (is_unexpected_eof e). }
  pose proof (frame_read _ _ (concat bs) e Hb) as Hframe. rewrite <-Hq in Hframe.
  destruct (two_step l (mkReader (p ++ q) e)) as [Ht _]. rewrite Hframe in Ht.
  unfold mbind, readm_bind in Ht. rewrite Hst in Ht.
  assert (h = f_header f) as ->.
  { destruct (read_payload_or_discard declared h true _) as [[[x|]|] r']; simpl in Ht; try done. by injection Ht as -> _ _. }
  exists (f_payload f), fs. split; [by destruct f|]. intros allocate x r' Hx.
  destruct (stable_body _ _ _ _ _ _ _ Hx I) as (p' & -> & Hbody). specialize (Hbody q e).
  pose proof (payload_aligned _ _ _ _ _ allocate Hst) as Hal. rewrite Hbody, Hframe in Hal. simpl in Hal.
  injection Hal as Hrest. split; [exists q, bs; by split|]. destruct allocate.
  - rewrite Hbody in Ht. unfold mret, readm_ret in Ht. by destruct x; simplify_eq/=.
  - unfold read_payload_or_discard, mbind, readm_bind, mret, readm_ret in Hx. simpl in Hx.
    destruct (expect_body _ _); [|done]. by destruct (discard_bytes _ _) as [[] ?]; simplify_eq.
Qed.

End frames.

(** ** Requests, cancels and responses on the wire *)

(** A request with its id, or a cancel. *)
Abbreviation item := (option (N * ControlRequest)).
Definition requests_of (items : list item) : list (N * ControlRequest) := omap id items.

Lemma requests_app is1 is2 : requests_of (is1 ++ is2) = requests_of is1 ++ requests_of is2.
Proof. apply omap_app. Qed.

Section wire.
Context `{WireOk}.
Variable l : ControlIpcLimits.
Hypothesis Hl : wire_limits l.

Definition client_frame (f : BinaryFrame) (i : item) : Prop :=
  match i with
  | Some (id, r) =>
      ∃ payload, f = mkFrame (mkHeader (opcode (req_method r)) REQUEST id (len payload)) payload ∧
        msgpack_read_request (max_msgpack_nesting_depth l) payload = Ok (req_token r, req_params r)
  | None => ∃ id, f = mkFrame (mkHeader OPCODE_CANCEL CANCEL id 0) []
  end.

Definition server_frame (f : BinaryFrame) (answer : N * ControlResponse) : Prop :=
  h_request_id (f_header f) = answer.1 ∧
  msgpack_read_response (max_msgpack_nesting_depth l) (f_payload f) = Ok answer.2.

Lemma request_encoded id r bytes : (id ≤ u64_max)%N → encode_binary_request id r l = Ok bytes →
  ∃ f, frame_encoded l f bytes ∧ client_frame f (Some (id, r)).
Proof.
  intros Hid (payload & Hp & He)%rbind_ok. apply encode_messagepack_ok in Hp as [Hp _].
  eexists (mkFrame (mkHeader (opcode (req_method r)) REQUEST id (len payload)) payload).
  split; [|exists payload; split; [done|by apply msgpack_request_law]].
  split_and!; try done. apply opcode_u16.
Qed.

Lemma cancel_encoded id bytes : (id ≤ u64_max)%N → encode_binary_cancel id l = Ok bytes →
  ∃ f, frame_encoded l f bytes ∧ client_frame f None.
Proof.
  intros Hid He. exists (mkFrame (mkHeader OPCODE_CANCEL CANCEL id 0) []). split; [|by eexists].
  by split_and!.
Qed.

Lemma response_encoded id m r bytes : (id ≤ u64_max)%N → encode_binary_response id m r l = Ok bytes →
  ∃ f, frame_encoded l f bytes ∧ server_frame f (id, r).
Proof.
  intros Hid (payload & Hp & He)%rbind_ok. apply encode_messagepack_ok in Hp as [Hp _].
  eexists (mkFrame (mkHeader (opcode m) (if resp_ok r then RESPONSE else N.lor RESPONSE ERROR) id (len payload)) payload).
  split; [|split; [done|by apply msgpack_response_law]].
  split_and!; try done; [apply opcode_u16|by destruct (resp_ok r); apply N.leb_le|by destruct (resp_ok r)].
Qed.

(** What a side of the connection has written, as what it stands for. *)
Definition wrote {A} (frame : BinaryFrame → A → Prop) (xs : list A) (bytes : list byte) : Prop :=
  ∃ fs, carries l fs bytes ∧ Forall2 frame fs xs.

Lemma wrote_nil {A} (frame : BinaryFrame → A → Prop) : wrote frame [] [].
Proof. exists []. split; [apply carries_nil|constructor]. Qed.

Lemma wrote_snoc {A} (frame : BinaryFrame → A → Prop) xs bytes x f b :
  wrote frame xs bytes → frame_encoded l f b → frame f x → wrote frame (xs ++ [x]) (bytes ++ b).
Proof.
  intros (fs & Hc & Hf) Hb Hx. exists (fs ++ [f]). split; [by apply carries_snoc|].
  apply Forall2_app; auto.
Qed.

(** ** What a client has sent *)

(** The requests that a schedule draws ids for. *)
Definition draws (lb : Session.label) (s : session) : list (N * ControlRequest) :=
  match lb with
  | SendStart r => if closed s || (next_id s =? 0)%N then [] else [(next_id s, r)]
  | _ => []
  end.
Fixpoint drawn (ls : list Session.label) (s : session) : list (N * ControlRequest) :=
  match ls with
  | [] => []
  | lb :: ls => draws lb s ++ match Session.step lb s with Some s => drawn ls s | None => [] end
  end.

(** The request of a call that has not written it. *)
Definition unsent (c : call) : option ControlRequest :=
  match c with Allocated r | Checked r | Inserted r => Some r | _ => None end.

Record client_ok (d : list (N * ControlRequest)) (s : session) : Prop := {
  ck_codec : s_codec s = Binary ∧ s_limits s = l;
  ck_next : (0 < next_id s)%N;
  ck_drawn : NoDup d.*1 ∧ ∀ e, e ∈ d → (e.1 < next_id s)%N;
  ck_calls : ∀ id c, calls s !! id = Some c → (id < next_id s)%N;
  ck_unsent : ∀ id c r, calls s !! id = Some c → unsent c = Some r → (id, r) ∈ d;
  ck_sent : ∃ items, wrote client_frame items (written (outgoing s)) ∧ NoDup (requests_of items).*1 ∧
    ∀ e, e ∈ requests_of items → e ∈ d ∧ ∀ c, calls s !! e.1 = Some c → unsent c = None;
}.

(** A step that writes nothing and draws no id. *)
Lemma client_keeps d s s' :
  client_ok d s → s_codec s' = s_codec s → s_limits s' = s_limits s → next_id s' = next_id s →
  written (outgoing s') = written (outgoing s) →
  (∀ id c', calls s' !! id = Some c' → ∃ c, calls s !! id = Some c ∧ (unsent c' = unsent c ∨ unsent c' = None)) →
  client_ok d s'.
Proof.
  intros [Hc Hn Hd Hcs Hu (items & Hw & Hnd & Hi)] Ec El En Ew Hcall.
  split; rewrite ?Ec, ?El, ?En, ?Ew; try done.
  - intros id c' (c & Hcc & _)%Hcall. eauto.
  - intros id c' r (c & Hcc & [E|E])%Hcall Hr; [|congruence]. rewrite E in Hr. eauto.
  - exists items. split_and!; try done. intros e He. destruct (Hi e He) as [Hin Hun]. split; [done|].
    intros c' (c & Hcc & [->| ->])%Hcall; [eauto|done].
Qed.

(** Moving one call on. *)
Lemma moves_call id0 c0 c s s' : calls s !! id0 = Some c0 → calls s' = <[id0 := c]> (calls s) →
  unsent c = unsent c0 ∨ unsent c = None →
  ∀ id c', calls s' !! id = Some c' →
    ∃ c, calls s !! id = Some c ∧ (unsent c' = unsent c ∨ unsent c' = None).
Proof. intros Hc0 -> Hu id c' [[<- <-]|[_ Hc]]%lookup_insert_Some; eauto. Qed.

Lemma same_calls s s' : calls s' = calls s →
  ∀ id c', calls s' !! id = Some c' → ∃ c, calls s !! id = Some c ∧ (unsent c' = unsent c ∨ unsent c' = None).
Proof. intros ->. eauto. Qed.

Lemma client_starts d s r s' : client_ok d s → (next_id s + 1 < 2 ^ 64)%N → s' = send_start r s →
  client_ok (d ++ draws (SendStart r) s) s'.
Proof.
  intros Hok Hb ->. unfold draws, send_start. destruct (closed s); [by rewrite app_nil_r|]. simpl orb.
  pose proof (ck_next _ _ Hok). destruct (N.eqb_spec (next_id s) 0) as [|_]; [lia|].
  assert (Hw : wrap 64 (next_id s + 1) = (next_id s + 1)%N) by by apply N.mod_small.
  destruct Hok as [Hc Hn [Hd Hlt] Hcs Hu (items & Hwr & Hnd & Hi)].
  split; simpl; rewrite ?Hw; [done|lia| | | |].
  - split.
    + rewrite fmap_app. apply NoDup_app. split_and!; [done| |apply NoDup_singleton].
      intros id (e & -> & He)%list_elem_of_fmap Heq%list_elem_of_singleton. specialize (Hlt e He). simpl in *. lia.
    + intros e [He| ->%list_elem_of_singleton]%elem_of_app; [specialize (Hlt e He)|simpl]; lia.
  - intros id c [[<- _]|[_ Hcc]]%lookup_insert_Some; [lia|]. specialize (Hcs _ _ Hcc). lia.
  - intros id c r' [[<- <-]|[_ Hcc]]%lookup_insert_Some Hr'; apply elem_of_app.
    + injection Hr' as ->. right. by left.
    + left. eauto.
  - exists items. split_and!; try done. intros e He. destruct (Hi e He) as [Hin Hun].
    split; [apply elem_of_app; by left|]. specialize (Hlt e Hin).
    intros c [[Heq _]|[_ Hcc]]%lookup_insert_Some; [lia|eauto].
Qed.

Lemma client_writes d s id r bytes :
  client_ok d s → (next_id s < 2 ^ 64)%N → calls s !! id = Some (Inserted r) →
  encode_binary_request id r l = Ok bytes → broken (outgoing s) = None →
  client_ok d (set_call id Waiting (set_outgoing (mkWriter (written (outgoing s) ++ bytes) None) s)).
Proof.
  intros Hok Hb Hid He Hw.
  assert (Hk : client_ok d (set_call id Waiting s)).
  { eapply client_keeps; [exact Hok|done..|]. eapply moves_call; [exact Hid|done|by right]. }
  destruct Hok as [_ _ _ Hcs Hu (items & Hwr & Hnd & Hi)]. specialize (Hcs _ _ Hid).
  destruct (request_encoded id r bytes) as (f & Hf & Hc); [unfold u64_max; lia|done|].
  destruct Hk as [Hc' Hn' Hd' Hcs' Hu' _]. split; try done. simpl.
  exists (items ++ [Some (id, r)]). split; [by eapply wrote_snoc|].
  rewrite requests_app. split.
  - rewrite fmap_app. apply NoDup_app. split_and!; [done| |apply NoDup_singleton].
    intros id' (e & -> & He')%list_elem_of_fmap Heq%list_elem_of_singleton. destruct (Hi e He') as [_ Hun].
    simpl in Heq. rewrite Heq in Hun. by specialize (Hun _ Hid).
  - intros e [He'| ->%list_elem_of_singleton]%elem_of_app.
    + destruct (Hi e He') as [Hin Hun]. split; [done|]. intros c [[_ <-]|[_ Hcc]]%lookup_insert_Some; eauto.
    + split; [by eapply Hu|]. simpl. rewrite lookup_insert_eq. by intros c [= <-].
Qed.

Lemma client_cancels d s id : client_ok d s → (id ≤ u64_max)%N → client_ok d (Session.cancel id s).2.
Proof.
  intros Hok Hid. unfold Session.cancel. rewrite (proj1 (ck_codec _ _ Hok)), (proj2 (ck_codec _ _ Hok)).
  destruct (encode_binary_cancel id l) as [bytes|] eqn:He; [|done].
  assert (Hcomplete : ∀ e s, client_ok d s → client_ok d (complete id (Err e) s)).
  { intros e s0 Hk. unfold complete. case_match; [|done]. by eapply client_keeps, same_calls. }
  unfold write_all_flush. destruct (broken (outgoing s)) as [e|]; simpl.
  { by eapply client_keeps, same_calls. }
  apply Hcomplete. destruct (cancel_encoded id bytes Hid He) as (f & Hf & Hc).
  destruct Hok as [Hc' Hn Hd Hcs Hu (items & Hwr & Hnd & Hi)]. split; try done. simpl.
  exists (items ++ [None]). split; [by eapply wrote_snoc|].
  rewrite requests_app. simpl. by rewrite app_nil_r.
Qed.

(** Request ids are [u64]s ([cancel] takes one from its caller), and no future
    is dropped in the middle of a frame. *)
Definition whole_label (lb : Session.label) : Prop :=
  match lb with
  | Session.Cancel id => (id ≤ u64_max)%N
  | SendDrop _ k | CancelDrop _ k => k = 0%nat
  | _ => True
  end.

Lemma written_part bytes w : written (write_part 0 bytes w) = written w.
Proof. unfold write_part. case_match; [done|]. apply app_nil_r. Qed.

Lemma cancel_drop_keeps id (s : session) : ∃ w, cancel_drop id 0 s = set_outgoing w s ∧ written w = written (outgoing s).
Proof.
  assert (Hs : s = set_outgoing (outgoing s) s) by by destruct s.
  unfold cancel_drop. destruct (s_codec s), (encode_binary_cancel id (s_limits s)) as [bytes|];
    first [by exists (outgoing s)|eexists; split; [done|]; apply written_part].
Qed.

Lemma client_drops d s id c s' :
  client_ok d s → calls s !! id = Some c → send_drop id 0 c s = Some s' → client_ok d s'.
Proof.
  intros Hok Hid Hdrop.
  assert (∃ w, s' = set_call id Dropped (set_outgoing w s) ∧ written w = written (outgoing s)) as (w & -> & Hw).
  { assert (Hs : s = set_outgoing (outgoing s) s) by by destruct s.
    unfold send_drop in Hdrop. destruct c; simplify_eq; try (exists (outgoing s); by rewrite <-Hs).
    - destruct (encode_request s id request) as [bytes|e]; [|exists (outgoing s); by rewrite <-Hs].
      eexists. split; [done|]. apply written_part.
    - destruct (cancel_drop_keeps id s) as (w & -> & Hw). by exists w. }
  eapply client_keeps; [exact Hok|done..|]. eapply moves_call; [exact Hid|done|by right].
Qed.

Lemma read_turn_keeps s : s_codec (read_turn s) = s_codec s ∧ s_limits (read_turn s) = s_limits s ∧
  next_id (read_turn s) = next_id s ∧ outgoing (read_turn s) = outgoing s ∧ calls (read_turn s) = calls s.
Proof. unfold read_turn, read_binary_turn, read_jsonl_turn, deliver, complete. by repeat case_match. Qed.

Lemma client_step d lb s s' :
  client_ok d s → whole_label lb → (next_id s + starts [lb] < 2 ^ 64)%N → Session.step lb s = Some s' →
  client_ok (d ++ draws lb s) s'.
Proof.
  intros Hok Hty Hb Hst. destruct (ck_codec _ _ Hok) as [Hcodec Hlim].
  assert (Hkeep : s_codec s' = s_codec s → s_limits s' = s_limits s → next_id s' = next_id s →
    written (outgoing s') = written (outgoing s) →
    (∀ id c', calls s' !! id = Some c' → ∃ c, calls s !! id = Some c ∧ (unsent c' = unsent c ∨ unsent c' = None)) →
    client_ok (d ++ []) s') by (rewrite app_nil_r; intros; by eapply client_keeps).
  destruct lb as [request|id|id|id|id|id|id|id|id|id k|id k| | | |]; simpl in Hst, Hb, Hty; cbn [draws].
  10: { subst k. apply bind_Some in Hst as (c & Hid & Hst). rewrite app_nil_r. by eapply client_drops. }
  10: { subst k. destruct (cancel_drop_keeps id s) as (w & E & Hw). rewrite E in Hst. injection Hst as <-.
        apply Hkeep; [done..| |by apply same_calls]. exact Hw. }
  all: try match type of Hst with context [calls ?s0 !! ?i0] =>
      destruct (calls s0 !! i0) as [[]|] eqn:Hid; try discriminate Hst end.
  - injection Hst as <-. apply client_starts; [done|lia|done].
  - injection Hst as <-. unfold send_check in *. case_match; (apply Hkeep; [done..|]).
    + eapply moves_call; [done|done|by right].
    + eapply moves_call; [done|done|by left].
  - injection Hst as <-. apply Hkeep; [done..|]. eapply moves_call; [done|done|by left].
  - injection Hst as <-. unfold send_write, encode_request in *. rewrite Hcodec, Hlim in *.
    destruct (encode_binary_request id request l) as [bytes|e] eqn:He.
    + unfold write_all_flush in *. destruct (broken (outgoing s)) as [e|] eqn:Hbr.
      * apply Hkeep; [done..|]. eapply moves_call; [done|done|by right].
      * rewrite app_nil_r. apply client_writes with (r := request); try done. lia.
    + apply Hkeep; [done..|]. eapply moves_call; [done|done|by right].
  - injection Hst as <-. apply Hkeep; [done..|]. eapply moves_call; [done|done|by right].
  - destruct (mail s !! id); [|done]. injection Hst as <-. apply Hkeep; [done..|].
    eapply moves_call; [done|done|by right].
  - injection Hst as <-. apply Hkeep; [done..|]. eapply moves_call; [done|done|by right].
  - injection Hst as <-. rewrite app_nil_r. pose proof (ck_calls _ _ Hok _ _ Hid).
    eapply client_keeps; [apply (client_cancels _ _ id Hok); unfold u64_max; lia|done..|].
    eapply moves_call; [|done|by right]. by rewrite (proj1 (cancel_calls id s)).
  - injection Hst as <-. rewrite app_nil_r. by apply client_cancels.
  - destruct (task s); simplify_eq. destruct (read_turn_keeps s) as (E1 & E2 & E3 & E4 & E5).
    apply Hkeep; [done..| |by apply same_calls]. by rewrite E4.
  - destruct (task s); simplify_eq. apply Hkeep; [done..|]. by apply same_calls.
  - injection Hst as <-. apply Hkeep; [done..|]. by apply same_calls.
  - injection Hst as <-. apply Hkeep; [done..|]. by apply same_calls.
Qed.

Lemma client_next ls s s' :
  Session.run ls s = Some s' → (0 < next_id s)%N → (next_id s + starts ls < 2 ^ 64)%N →
  (next_id s' < 2 ^ 64)%N.
Proof.
  revert s. induction ls as [|lb ls IH]; intros s Hr Hpos Hb; simpl in Hr; [simplify_eq; simpl in Hb; lia|].
  apply bind_Some in Hr as (s1 & Hst & Hr). pose proof (step_next _ _ _ Hst Hpos) as Hn.
  assert (Hsp : starts (lb :: ls) = (starts [lb] + starts ls)%N) by (destruct lb; simpl; lia).
  rewrite Hsp in Hb. generalize dependent (starts [lb]). intros k Hb Hn _.
  specialize (Hn ltac:(lia)). apply (IH s1); [done|lia..].
Qed.

Lemma client_run d ls s s' :
  client_ok d s → Forall whole_label ls → (next_id s + starts ls < 2 ^ 64)%N → Session.run ls s = Some s' →
  client_ok (d ++ drawn ls s) s'.
Proof.
  revert d s. induction ls as [|lb ls IH]; intros d s Hok Hty Hb Hr; simpl in Hr.
  { injection Hr as <-. simpl. by rewrite app_nil_r. }
  apply bind_Some in Hr as (s1 & Hst & Hr). inversion Hty as [|? ? Hlb Hls]; subst.
  assert (Hsp : starts (lb :: ls) = (starts [lb] + starts ls)%N) by (destruct lb; simpl; lia).
  rewrite Hsp in Hb. cbn [drawn]. rewrite Hst, app_assoc.
  pose proof (step_next _ _ _ Hst (ck_next _ _ Hok)) as Hn.
  pose proof (client_step d lb s s1 Hok Hlb) as Hok1.
  generalize dependent (starts [lb]). intros k Hk Hb Hn Hok1. assert (next_id s + k < 2 ^ 64)%N by lia.
  specialize (Hn ltac:(lia)). apply IH; [by apply Hok1|done|lia|done].
Qed.

Lemma client_new r : client_ok [] (from_stream Binary l r (mkWriter [] None)).
Proof.
  split; simpl; [done|done|split; [constructor|intros e []%not_elem_of_nil]|by intros *|by intros *|].
  exists []. split; [apply wrote_nil|]. split; [constructor|]. intros e []%not_elem_of_nil.
Qed.

(** What the reader hands over is what the server wrote, from the first frame on. *)
Lemma history_sent fs xs r0 hist r :
  brings l fs r0 → Forall2 server_frame fs xs → Session.answered l r0 hist r →
  ∃ xs' fs', xs = hist ++ xs' ∧ Forall2 server_frame fs' xs' ∧ brings l fs' r.
Proof.
  intros Hb Hf. induction 1 as [|hist r h payload response r' _ IH Hread _ Hdec].
  - by exists xs, fs.
  - destruct IH as (xs1 & fs1 & -> & Hf1 & Hb1). destruct r as [p e].
    destruct (brings_frame l Hl _ _ _ _ _ _ Hb1 Hread) as (fs2 & -> & Hb2).
    inversion Hf1 as [|f x fs' xs2 [Hid Hresp] Hf2]; subst. simpl in *. rewrite Hdec in Hresp.
    exists xs2, fs2. split; [|done]. rewrite <-app_assoc. destruct x. simpl in *. by simplify_eq.
Qed.

End wire.

(** What happened to the handler's state, in order: a request of the connection
    with its id, or what others did. *)
Abbreviation event State := ((N * ControlRequest) + (State → State))%type.

(** ** What a server does *)

Section server.
Context `{WireOk} {State : Type} `{!ControlHandler State}.
Variable l : ControlIpcLimits.
Hypothesis Hl : wire_limits l.
Variables (st0 : State) (items : list item).
Hypothesis Hids : NoDup (requests_of items).*1.
Hypothesis Hbound : Forall (λ e : N * ControlRequest, (e.1 <= u64_max)%N) (requests_of items).

Definition served (log : list (event State)) : list (N * ControlRequest) :=
  omap (λ ev, match ev with inl e => Some e | inr _ => None end) log.
Definition others (log : list (event State)) : list (State → State) :=
  omap (λ ev, match ev with inl _ => None | inr f => Some f end) log.

(** The state it leads to, and the answers. *)
Fixpoint replay (log : list (event State)) (s : State) : State * list (option ControlResponse) :=
  match log with
  | [] => (s, [])
  | ev :: log =>
      let '(s1, a) := match ev with
                      | inl e => let '(s1, a) := handle e.2 s in (s1, Some a)
                      | inr f => (f s, None)
                      end in
      let '(s2, rest) := replay log s1 in (s2, a :: rest)
  end.

(** A request is answered with the handler's answer, or told that it was
    cancelled or that the connection takes no more. *)
Definition reply (log : list (event State)) (e : N * ControlRequest) (response : ControlResponse) : Prop :=
  response = request_cancelled ∨ response = limit_exceeded l ∨
  ∃ i, log !! i = Some (inl e) ∧ (replay log st0).2 !! i = Some (Some response).

(** The handler is done with a task. *)
Definition handled (x : request_task) : Prop :=
  match t_phase x with Responding _ | Written => True | _ => False end.

(** The main task still reads. *)
Definition reads (c : conn (State := State)) : Prop :=
  match main c with Top | ServerConn.Reading | Inserting _ _ => True | _ => False end.

(** [seen]: the items that were read. *)
Record server_ok (seen : list item) (log : list (event State)) (c : conn) : Prop := {
  so_limits : c_limits c = l;
  so_in : ∃ rest, items = seen ++ rest ∧
    (reads c → ∃ fs, brings l fs (c_in c) ∧ Forall2 (client_frame l) fs rest);
  so_accepted t i : accepted c !! t = Some i → i ∈ (requests_of seen).*1;
  so_injective t1 t2 i : accepted c !! t1 = Some i → accepted c !! t2 = Some i → t1 = t2;
  so_fresh t : is_Some (accepted c !! t) → (t < next_task c)%nat;
  so_tasks t x : tasks c !! t = Some x → accepted c !! t = Some (t_id x) ∧ (t_id x, t_request x) ∈ requests_of seen;
  so_log : NoDup (served log).*1 ∧ ∀ e, e ∈ served log → e ∈ requests_of seen ∧
    ∃ t, accepted c !! t = Some e.1 ∧ ∀ x, tasks c !! t = Some x → handled x;
  so_state : state c = (replay log st0).1;
  so_reply t x r : tasks c !! t = Some x → t_phase x = Responding r → reply log (t_id x, t_request x) r;
  so_out : ∃ outs, wrote l (server_frame l) outs (written (c_out c)) ∧
    Forall (λ o : N * ControlResponse, ∃ request, (o.1, request) ∈ requests_of seen ∧ reply log (o.1, request) o.2) outs;
}.

Lemma served_app log1 log2 : served (log1 ++ log2) = served log1 ++ served log2.
Proof. apply omap_app. Qed.

Lemma others_app log1 log2 : others (log1 ++ log2) = others log1 ++ others log2.
Proof. apply omap_app. Qed.

Lemma replay_app log1 log2 s :
  replay (log1 ++ log2) s =
    let '(s1, a1) := replay log1 s in let '(s2, a2) := replay log2 s1 in (s2, a1 ++ a2).
Proof.
  revert s. induction log1 as [|ev log1 IH]; intros s; simpl; [by destruct (replay log2 s)|].
  destruct (match ev with inl _ => _ | inr _ => _ end) as [s1 a]. rewrite IH. destruct (replay log1 s1) as [s2 a1].
  by destruct (replay log2 s2).
Qed.

Lemma replay_length log s : List.length (replay log s).2 = List.length log.
Proof.
  revert s. induction log as [|ev log IH]; intros s; simpl; [done|].
  destruct (match ev with inl _ => _ | inr _ => _ end) as [s1 a]. specialize (IH s1).
  destruct (replay log s1). simpl in *. by rewrite IH.
Qed.

Lemma reply_grows log log' e response : reply log e response → reply (log ++ log') e response.
Proof.
  intros [->|[->|(i & Hi & Hr)]]; [by left|by right; left|]. right. right. exists i.
  split; [by apply lookup_app_l_Some|]. rewrite replay_app.
  destruct (replay log st0) as [s1 a1]. destruct (replay log' s1). by apply lookup_app_l_Some.
Qed.

(** A step that handles and writes nothing: tasks end, or move between phases,
    but for their answers. *)
Record quiet (c c' : conn (State := State)) : Prop := {
  qu_limits : c_limits c' = c_limits c; qu_accepted : accepted c' = accepted c;
  qu_next : next_task c' = next_task c; qu_state : state c' = state c;
  qu_written : written (c_out c') = written (c_out c);
  qu_tasks t x' : tasks c' !! t = Some x' → ∃ x, tasks c !! t = Some x ∧ t_id x' = t_id x ∧ t_request x' = t_request x ∧
    (handled x → handled x') ∧ ∀ r, t_phase x' = Responding r → t_phase x = Responding r ∨ r = request_cancelled;
}.

Lemma quiet_steps c1 c2 c3 : quiet c1 c2 → quiet c2 c3 → quiet c1 c3.
Proof.
  intros [] []. split; try congruence. intros t x3 Hx3.
  destruct (qu_tasks1 _ _ Hx3) as (x2 & Hx2 & E2 & F2 & H2 & P2).
  destruct (qu_tasks0 _ _ Hx2) as (x1 & Hx1 & E1 & F1 & H1 & P1).
  exists x1. split_and!; [done|congruence..|auto|]. intros r [Hr| ->]%P2; auto.
Qed.

(** The tasks are the same. *)
Lemma quiet_same c c' : c_limits c' = c_limits c → accepted c' = accepted c → next_task c' = next_task c →
  state c' = state c → written (c_out c') = written (c_out c) → tasks c' = tasks c → quiet c c'.
Proof. intros ????? Ht. split; try done. rewrite Ht. intros t x Hx. exists x. split_and!; auto. Qed.

Lemma quiet_put t x x' c :
  tasks c !! t = Some x → t_id x' = t_id x → t_request x' = t_request x → (handled x → handled x') →
  (∀ r, t_phase x' = Responding r → t_phase x = Responding r ∨ r = request_cancelled) → quiet c (put t x' c).
Proof.
  intros Hx Hi Hr Hh Hp. split; try done. simpl. intros t' y [[<- <-]|[_ Hy]]%lookup_insert_Some; eauto 10.
Qed.

Lemma quiet_signal abort t c : quiet c (signal abort t c).
Proof.
  unfold signal. destruct (tasks c !! t) as [x|] eqn:Hx; [|by apply quiet_same].
  eapply quiet_put; eauto.
Qed.

Lemma quiet_task_drop t c : quiet c (drop_task t c).
Proof. split; try done. simpl. intros t' x [_ Hx]%lookup_delete_Some. exists x. split_and!; auto. Qed.

Lemma quiet_release t c : quiet c (release t c).
Proof. unfold release. case_match; by apply quiet_same. Qed.

Lemma quiet_signals (es : list (N * nat)) c : quiet c (foldr (λ e, signal true e.2) c es).
Proof. induction es as [|e es IH]; simpl; [by apply quiet_same|]. eapply quiet_steps, quiet_signal. exact IH. Qed.

Lemma quiet_cancel id c : quiet c (cancel_pending id c).
Proof.
  unfold cancel_pending. case_match; [|by apply quiet_same]. eapply quiet_steps, quiet_signal. by apply quiet_same.
Qed.

Lemma server_keeps seen log c c' :
  server_ok seen log c → quiet c c' → (reads c' → reads c ∧ c_in c' = c_in c) → server_ok seen log c'.
Proof.
  intros [Hlim (rest & Hit & Hin) Ha Hinj Hfr Ht [Hnd Hlog] Hst Hrep Hout] [El Ea En Es Ew Htasks] Hr.
  split; rewrite ?El, ?Ea, ?En, ?Es, ?Ew; try done.
  - exists rest. split; [done|]. intros [Hc ->]%Hr. auto.
  - intros t x' (x & Hx & -> & -> & _)%Htasks. auto.
  - split; [done|]. intros e He. destruct (Hlog e He) as (Hs & t & Hacc & Hh). split; [done|].
    exists t. split; [done|]. intros x' (x & Hx & _ & _ & Hhx & _)%Htasks. auto.
  - intros t x' r (x & Hx & -> & -> & _ & Hph)%Htasks Hr'. destruct (Hph r Hr') as [Hp| ->]; [eauto|by left].
Qed.

(** Reading on: the next item was taken from the stream. *)
Lemma server_reads seen log c i rest r fs m :
  server_ok seen log c → items = seen ++ i :: rest → brings l fs r → Forall2 (client_frame l) fs rest →
  match m with Top | ServerConn.Reading => True | _ => False end →
  server_ok (seen ++ [i]) log (ServerConn.set_main m (set_in r c)).
Proof.
  intros [Hlim _ Ha Hinj Hfr Ht [Hnd Hlog] Hst Hrep (outs & Hw & Ho)] Hit Hb Hf Hm.
  assert (Hsub : ∀ e, e ∈ requests_of seen → e ∈ requests_of (seen ++ [i])).
  { intros e He. rewrite requests_app. apply elem_of_app. by left. }
  split; simpl; try done.
  - exists rest. split; [by rewrite <-app_assoc|]. intros _. by exists fs.
  - intros t j Hj. apply Ha in Hj. apply list_elem_of_fmap in Hj as (e & -> & He).
    apply list_elem_of_fmap_2. auto.
  - intros t x Hx. destruct (Ht _ _ Hx). auto.
  - split; [done|]. intros e He. destruct (Hlog e He) as [Hs Ht']. auto.
  - exists outs. split; [done|]. eapply Forall_impl; [exact Ho|]. intros o (request & Hr & Hrep').
    exists request. auto.
Qed.

(** The main task stops: what it read last does not matter any more. *)
Lemma server_stops seen log c c' :
  server_ok seen log c → quiet c c' → ¬ reads c' → server_ok seen log c'.
Proof. intros Hok Hq Hr. eapply server_keeps; [done..|]. by intros ?. Qed.

Lemma id_bounded seen rest e : items = seen ++ rest → e ∈ requests_of seen → (e.1 <= u64_max)%N.
Proof.
  intros Hit He. apply (proj1 (Forall_forall _ _) Hbound). rewrite Hit, requests_app. apply elem_of_app. by left.
Qed.

(** An answer is written, or the connection does not take it. *)
Lemma server_writes seen log c e m response bytes :
  server_ok seen log c → e ∈ requests_of seen → reply log e response →
  encode_binary_response e.1 m response l = Ok bytes →
  server_ok seen log (set_out (write_all_flush bytes (c_out c)).2 c).
Proof.
  intros Hok He Hrep Henc. unfold write_all_flush. destruct (broken (c_out c)) as [err|] eqn:Hbr; simpl.
  { eapply server_keeps; [exact Hok|by apply quiet_same|done]. }
  destruct Hok as [Hlim (rest & Hit & Hin) Ha Hinj Hfr Ht Hlog Hst Hreply (outs & Hw & Ho)].
  destruct (response_encoded l e.1 m response bytes) as (f & Hf & Hs); [by eapply id_bounded|done|].
  split; simpl; try done; [by exists rest|]. exists (outs ++ [(e.1, response)]).
  split; [by eapply wrote_snoc|]. apply Forall_app. split; [done|]. constructor; [|done].
  exists e.2. by destruct e.
Qed.

Lemma server_write_response seen log c e m response :
  server_ok seen log c → reads c → e ∈ requests_of seen → reply log e response →
  server_ok seen log (write_response e.1 m response c).
Proof.
  intros Hok Hr He Hrep. unfold write_response. rewrite (so_limits _ _ _ Hok).
  destruct (encode_binary_response e.1 m response l) as [bytes|err] eqn:Henc.
  - pose proof (server_writes _ _ _ _ _ _ _ Hok He Hrep Henc) as Hw.
    destruct (write_all_flush bytes (c_out c)) as [[[]|err] w]; simpl in Hw.
    + by eapply server_keeps; [exact Hw|apply quiet_same|].
    + eapply server_stops; [exact Hw|by apply quiet_same|by intros []].
  - eapply server_stops; [exact Hok|by apply quiet_same|by intros []].
Qed.

(** A task is spawned for the request that was just read. *)
Lemma server_spawns seen log c e rest :
  server_ok (seen ++ [Some e]) log c → items = seen ++ Some e :: rest → reads c →
  (∀ t i, accepted c !! t = Some i → i ∈ (requests_of seen).*1) →
  server_ok (seen ++ [Some e]) log (spawn e.1 e.2 c).
Proof.
  intros [Hlim (rest' & Hit' & Hin) Ha Hinj Hfr Ht [Hnd Hlog] Hst Hrep Hout] Hit Hr Hold.
  assert (Hsome : requests_of (seen ++ [Some e]) = requests_of seen ++ [e]) by apply requests_app.
  assert (Hnew : e.1 ∉ (requests_of seen).*1).
  { rewrite Hit, requests_app, fmap_app in Hids.
    apply NoDup_app in Hids as (_ & Hd & _). intros Hx. apply (Hd _ Hx). by left. }
  assert (Hnone : accepted c !! next_task c = None).
  { destruct (accepted c !! next_task c) eqn:E; [|done]. specialize (Hfr _ (mk_is_Some _ _ E)). lia. }
  split; simpl; try done.
  - exists rest'. split; [done|]. intros _. auto.
  - intros t i [[<- <-]|[_ Hi]]%lookup_insert_Some; [|eauto].
    rewrite Hsome, fmap_app. apply elem_of_app. right. by left.
  - intros t1 t2 i [[<- <-]|[Hn1 H1]]%lookup_insert_Some [[<- E]|[Hn2 H2]]%lookup_insert_Some; eauto.
    + destruct Hnew. eauto.
    + destruct Hnew. rewrite E. eauto.
  - intros t [i [[<- _]|[_ Hi]]%lookup_insert_Some]; [lia|]. specialize (Hfr _ (mk_is_Some _ _ Hi)). lia.
  - intros t x [[<- <-]|[Hne Hx]]%lookup_insert_Some.
    + simpl. rewrite lookup_insert_eq. split; [done|]. rewrite Hsome. apply elem_of_app. right. destruct e. by left.
    + rewrite lookup_insert_ne by done. auto.
  - split; [done|]. intros e' He'. destruct (Hlog e' He') as (Hs & t & Hacc & Hh). split; [done|].
    exists t. assert (t ≠ next_task c) by congruence. rewrite !lookup_insert_ne by done. auto.
  - intros t x r [[<- <-]|[_ Hx]]%lookup_insert_Some Hph; [done|]. eauto.
Qed.

(** The item of a frame that is no cancel. *)
Lemma request_item h payload i :
  client_frame l (mkFrame h payload) i →
  contains_flag (h_flags h) CANCEL || (h_opcode h =? OPCODE_CANCEL)%N = false →
  ∃ e, i = Some e ∧ h_request_id h = e.1 ∧ h_opcode h = opcode (req_method e.2) ∧
    msgpack_read_request (max_msgpack_nesting_depth l) payload = Ok (req_token e.2, req_params e.2).
Proof.
  destruct i as [[i r]|]; simpl.
  - intros (p & [= -> ->] & Hd) _. by exists (i, r).
  - by intros (j & [= -> _]).
Qed.

Lemma server_frame_step seen log c :
  server_ok seen log c → main c = ServerConn.Reading → ∃ seen', server_ok seen' log (serve_frame c).
Proof.
  intros Hok Hm. assert (Hr : reads c) by (unfold reads; by rewrite Hm).
  destruct (so_in _ _ _ Hok) as (rest & Hit & Hin). destruct (Hin Hr) as (fs & Hb & Hf). clear Hin.
  unfold serve_frame. rewrite (so_limits _ _ _ Hok).
  destruct (c_in c) as [p e] eqn:Hcin.
  destruct (read_frame_prefix l (mkReader p e)) as [[[[declared h]|]|err] r1] eqn:Hp; cycle 1.
  1,2: exists seen; eapply server_stops; [exact Hok|by apply quiet_same|by intros []].
  destruct (brings_prefix l Hl _ _ _ _ _ _ Hb Hp) as (payload & fs' & -> & Hbody).
  inversion Hf as [|f i fs2 rest' Hfi Hf']; subst.
  assert (Hstop : ∀ r m, ∃ seen', server_ok seen' log (set_main (Finished m) (set_in r c))).
  { intros r m. exists seen. eapply server_stops; [exact Hok|by apply quiet_same|by intros []]. }
  assert (Hnext : ∀ r, brings l fs' r → server_ok (seen ++ [i]) log (set_in r c)).
  { intros r Hb'. eapply server_keeps; [by eapply (server_reads _ _ _ _ _ r _ ServerConn.Reading Hok)|by apply quiet_same|].
    by intros _. }
  destruct (contains_flag (h_flags h) CANCEL || (h_opcode h =? OPCODE_CANCEL)%N) eqn:Hcancel.
  { unfold discarding. change (c_in (set_in r1 c)) with r1.
    destruct (read_payload_or_discard declared h false r1) as [[x|err] r2] eqn:Hx; [|apply Hstop].
    destruct (Hbody _ _ _ Hx) as [Hb' _]. exists (seen ++ [i]).
    eapply server_keeps; [by apply (Hnext r2)| |].
    - eapply quiet_steps; [by eapply quiet_cancel|]. by apply quiet_same.
    - intros _. split; [unfold reads; simpl; by rewrite Hm|]. apply cancel_pending_in. }
  destruct (request_item _ _ _ Hfi Hcancel) as (e' & -> & Hid & Hop & Hdec).
  case_match.
  { unfold discarding. destruct (read_payload_or_discard _ _ _ _) as [[] ?]; apply Hstop. }
  case_match.
  { unfold discarding. destruct (read_payload_or_discard _ _ _ _) as [[] ?]; apply Hstop. }
  assert (Hin : e' ∈ requests_of (seen ++ [Some e'])) by (rewrite requests_app; apply elem_of_app; right; by left).
  case_match.
  - unfold discarding. change (c_in (set_in r1 c)) with r1.
    destruct (read_payload_or_discard declared h false r1) as [[x|err] r2] eqn:Hx; [|apply Hstop].
    destruct (Hbody _ _ _ Hx) as [Hb' _]. exists (seen ++ [Some e']). rewrite Hid.
    apply (server_write_response _ _ (set_in r2 c)); [by apply Hnext|unfold reads; simpl; by rewrite Hm|done|by right; left].
  - unfold serve_request. change (c_in (set_in r1 c)) with r1.
    destruct (read_payload_or_discard declared h true r1) as [[x|err] r2] eqn:Hx; [|apply Hstop].
    destruct (Hbody _ _ _ Hx) as [Hb' ->]. rewrite Hop, from_opcode_opcode.
    change (c_limits (set_in r2 (set_in r1 c))) with (c_limits c). rewrite (so_limits _ _ _ Hok), Hdec, Hid.
    exists (seen ++ [Some e']). destruct e' as [j [token method params]].
    apply (server_spawns _ _ (set_in r2 c) (j, mkRequest token method params) rest');
      [by apply Hnext|done|unfold reads; simpl; by rewrite Hm|]. apply (so_accepted _ _ _ Hok).
Qed.

Lemma quiet_insert id t c : quiet c (insert_entry id t c).
Proof.
  unfold insert_entry. case_match; [|by apply quiet_same].
  eapply quiet_steps; [apply quiet_signal|by apply quiet_same].
Qed.

Lemma quiet_abort_all c : quiet c (abort_all c).
Proof. unfold abort_all. eapply quiet_steps; [apply quiet_signals|by apply quiet_same]. Qed.

Lemma quiet_end t x c : quiet c (task_end t x c).
Proof.
  unfold task_end. eapply quiet_steps, quiet_task_drop. case_match; [|by apply quiet_same].
  eapply quiet_steps, quiet_signal. by apply quiet_same.
Qed.

(** The tasks leave the main task and its input alone. *)
Lemma main_same (c c' : conn (State := State)) :
  main c' = main c → c_in c' = c_in c → reads c' → reads c ∧ c_in c' = c_in c.
Proof. unfold reads. by intros -> ->. Qed.

Lemma release_main t (c : conn (State := State)) : main (release t c) = main c ∧ c_in (release t c) = c_in c.
Proof. unfold release. by case_match. Qed.

Lemma task_end_main t x (c : conn (State := State)) :
  main (task_end t x c) = main c ∧ c_in (task_end t x c) = c_in c.
Proof. unfold task_end, signal, drop_task. by repeat case_match. Qed.

(** The handler serves a request. *)
Lemma server_handles seen log c t x :
  server_ok seen log c → tasks c !! t = Some x → t_phase x = Handling →
  server_ok seen (log ++ [inl (t_id x, t_request x)]) (task_handle t x c).
Proof.
  intros [Hlim Hin Ha Hinj Hfr Ht [Hnd Hlog] Hst Hrep (outs & Hw & Ho)] Hx Hph.
  destruct (Ht _ _ Hx) as [Hacc Hseen].
  assert (Hnot : t_id x ∉ (served log).*1).
  { intros (e & He & Hel)%list_elem_of_fmap. destruct (Hlog _ Hel) as (_ & t' & Hacc' & Hh).
    rewrite <-He in Hacc'. assert (t' = t) as -> by eauto. specialize (Hh _ Hx). unfold handled in Hh. by rewrite Hph in Hh. }
  unfold task_handle. rewrite Hst.
  destruct (handle (t_request x) (replay log st0).1) as [s' response] eqn:Hh.
  assert (Han : replay (log ++ [inl (t_id x, t_request x)]) st0 = (s', (replay log st0).2 ++ [Some response])).
  { rewrite replay_app. destruct (replay log st0) as [s1 a1]. simpl in *. by rewrite Hh. }
  destruct (quiet_release t (set_state s' c)) as [El Ea En Es Ew _].
  destruct (release_main t (set_state s' c)) as [Em Ei].
  assert (Et : tasks (release t (set_state s' c)) = tasks c) by (unfold release; by case_match).
  split; unfold move, put; simpl in *; rewrite ?El, ?Ea, ?En, ?Es, ?Ew, ?Et; try done.
  - destruct Hin as (rest & Hit & Hin). exists rest. split; [done|]. unfold reads. simpl. by rewrite Em, Ei.
  - intros t' y [[<- <-]|[_ Hy]]%lookup_insert_Some; [done|eauto].
  - split.
    + rewrite served_app, fmap_app. apply NoDup_app. split_and!; [done| |apply NoDup_singleton].
      by intros i Hi ->%list_elem_of_singleton.
    + rewrite served_app. intros e [He| ->%list_elem_of_singleton]%elem_of_app.
      * destruct (Hlog _ He) as (Hs & t' & Hacc' & Hh'). split; [done|]. exists t'. split; [done|].
        intros y [[<- <-]|[_ Hy]]%lookup_insert_Some; [done|eauto].
      * split; [done|]. exists t. split; [done|]. rewrite lookup_insert_eq. by intros y [= <-].
  - by rewrite Han.
  - intros t' y r [[<- <-]|[_ Hy]]%lookup_insert_Some Hr; simpl in *.
    + simplify_eq. right. right. exists (List.length log). split; [by rewrite list_lookup_middle|].
      rewrite Han. simpl. apply list_lookup_middle. by rewrite replay_length.
    + apply reply_grows. eauto.
  - exists outs. split; [done|]. eapply Forall_impl; [exact Ho|]. intros o (request & Hr & Hrep').
    exists request. split; [done|]. by apply reply_grows.
Qed.

(** A request task writes its answer. *)
Lemma server_responds seen log c t x r :
  server_ok seen log c → tasks c !! t = Some x → t_phase x = Responding r →
  server_ok seen log (task_respond t x r c).
Proof.
  intros Hok Hx Hph. destruct (so_tasks _ _ _ Hok _ _ Hx) as [_ Hseen].
  pose proof (so_reply _ _ _ Hok _ _ _ Hx Hph) as Hrep.
  assert (Hmove : server_ok seen log (move t x Written c)).
  { eapply server_keeps; [exact Hok|by eapply quiet_put|by apply main_same]. }
  unfold task_respond. rewrite (so_limits _ _ _ Hmove).
  destruct (encode_binary_response (t_id x) _ r l) as [bytes|e] eqn:He; [|done].
  pose proof (server_writes _ _ _ (t_id x, t_request x) _ _ _ Hmove Hseen Hrep He) as Hw.
  eapply server_keeps; [exact Hw|by apply quiet_same|by apply main_same].
Qed.

(** No task is aborted in the middle of a frame. *)
Definition whole_turn (lb : ServerConn.label (State := State)) : Prop := match lb with TaskTorn _ k => k = 0%nat | _ => True end.

Lemma server_outside seen log c f :
  server_ok seen log c → server_ok seen (log ++ [inr f]) (set_state (f (state c)) c).
Proof.
  intros [Hlim Hin Ha Hinj Hfr Ht Hlog Hst Hrep (outs & Hw & Ho)]. split; try done.
  - by rewrite served_app, app_nil_r.
  - simpl. rewrite Hst, replay_app. destruct (replay log st0). done.
  - intros t x r Hx Hr. apply reply_grows. eauto.
  - exists outs. split; [done|]. eapply Forall_impl; [exact Ho|]. intros o (request & Hr & Hrep').
    exists request. split; [done|]. by apply reply_grows.
Qed.

(** What others do in a schedule. *)
Definition outside (lb : ServerConn.label (State := State)) : option (State → State) :=
  match lb with Outside f => Some f | _ => None end.

Lemma server_step seen log c lb c' :
  server_ok seen log c → whole_turn lb → ServerConn.step lb c = Some c' →
  ∃ seen' log', server_ok seen' log' c' ∧ others log' = others log ++ others (option_list (inr <$> outside lb)).
Proof.
  intros Hok Hty Hst.
  assert (Hsame : outside lb = None → ∀ seen', server_ok seen' log c' →
    ∃ seen' log', server_ok seen' log' c' ∧ others log' = others log ++ others (option_list (inr <$> outside lb))).
  { intros -> seen' Hok'. exists seen', log. split; [done|]. by rewrite app_nil_r. }
  assert (Hkeep : outside lb = None → quiet c c' → (reads c' → reads c ∧ c_in c' = c_in c) →
    ∃ seen' log', server_ok seen' log' c' ∧ others log' = others log ++ others (option_list (inr <$> outside lb))).
  { intros Hno Hq Hr. apply (Hsame Hno seen). by eapply server_keeps. }
  destruct lb as [|e| | | | | | |t|t|t|t|t|t|t k|f]; simpl in Hst;
    try specialize (Hsame eq_refl); try specialize (Hkeep eq_refl);
    try (destruct (tasks c !! t) as [x|] eqn:Hx; [|discriminate Hst]; simpl in Hst);
    try match type of Hst with context [match t_phase ?y with _ => _ end] => destruct (t_phase y) as [| |r|] eqn:Hph; try discriminate Hst end;
    try match type of Hst with context [match main c with _ => _ end] => destruct (main c) as [| |i t| |r] eqn:Hm; try discriminate Hst end.
  - injection Hst as <-. apply Hkeep; [by apply quiet_same|by apply main_same].
  - injection Hst as <-. apply Hkeep; [by apply quiet_same|by apply main_same].
  - injection Hst as <-. apply Hkeep; [by apply quiet_same|]. unfold reads. by rewrite Hm.
  - destruct (c_draining c); simplify_eq. apply Hkeep; [by apply quiet_same|by intros []].
  - injection Hst as <-. apply Hkeep; [by apply quiet_same|by intros []].
  - injection Hst as <-. destruct (server_frame_step seen log c Hok Hm) as [seen' Hok']. eauto.
  - injection Hst as <-. apply Hkeep; [apply quiet_insert|]. unfold reads. rewrite Hm. intros _. split; [done|].
    unfold insert_entry, signal. by repeat case_match.
  - injection Hst as <-. apply Hkeep; [apply quiet_abort_all|by intros []].
  - apply Hkeep; unfold task_lock in Hst; repeat case_match; simplify_eq; try by apply main_same.
    + eapply quiet_steps; [by apply (quiet_same c (set_lock (Some t) c))|].
      eapply quiet_put; [exact Hx|done..| |done]. unfold handled. by rewrite Hph.
    + eapply quiet_put; [exact Hx|done..| |done]. unfold handled. by rewrite Hph.
  - injection Hst as <-. exists seen. eexists. split; [by apply server_handles|]. by rewrite others_app.
  - destruct (t_signalled x); simplify_eq. destruct (release_main t c) as [Em Ei].
    apply Hkeep; [|by apply main_same]. eapply quiet_steps; [apply (quiet_release t)|].
    eapply (quiet_put t x); [unfold release; case_match; exact Hx|done..| |].
    + unfold handled. by rewrite Hph.
    + intros r [= <-]. by right.
  - injection Hst as <-. by apply (Hsame seen), server_responds.
  - injection Hst as <-. destruct (task_end_main t x c) as [Em Ei].
    apply Hkeep; [apply quiet_end|by apply main_same].
  - destruct (t_aborted x); simplify_eq. destruct (release_main t c) as [Em Ei].
    apply Hkeep; [|by apply main_same]. eapply quiet_steps; [apply quiet_release|apply quiet_task_drop].
  - destruct (t_aborted x); simplify_eq. unfold task_torn in Hst. simpl in Hty. subst k.
    destruct (encode_binary_response _ _ _ _) as [bytes|e]; simplify_eq.
    set (c1 := set_out _ c). destruct (release_main t c1) as [Em Ei].
    apply Hkeep; [|by apply main_same]. eapply quiet_steps; [apply (quiet_same c c1); try done; apply written_part|].
    eapply quiet_steps; [apply quiet_release|apply quiet_task_drop].
  - injection Hst as <-. exists seen. eexists. split; [by apply server_outside|]. by rewrite others_app.
Qed.

Definition outsides (ls : list (ServerConn.label (State := State))) : list (State → State) := omap outside ls.

Lemma server_run seen log c ls c' :
  server_ok seen log c → Forall whole_turn ls → ServerConn.run ls c = Some c' →
  ∃ seen' log', server_ok seen' log' c' ∧ others log' = others log ++ outsides ls.
Proof.
  intros Hok Hty. revert seen log c Hok. induction Hty as [|lb ls Hlb _ IH]; intros seen log c Hok Hr; simpl in Hr.
  { injection Hr as <-. exists seen, log. by rewrite app_nil_r. }
  apply bind_Some in Hr as (c1 & Hst & Hr).
  destruct (server_step _ _ _ _ _ Hok Hlb Hst) as (seen1 & log1 & Hok1 & E1).
  destruct (IH _ _ _ Hok1 Hr) as (seen2 & log2 & Hok2 & E2). exists seen2, log2. split; [done|].
  rewrite E2, E1, <-(assoc_L (++)). f_equal. unfold outsides. simpl. by destruct (outside lb).
Qed.

Lemma server_new r fs : brings l fs r → Forall2 (client_frame l) fs items →
  server_ok [] [] (new_conn l r (mkWriter [] None) st0).
Proof.
  intros Hb Hf. split; simpl; try done.
  - exists items. split; [done|]. intros _. by exists fs.
  - by intros t [].
  - split; [constructor|]. intros e []%not_elem_of_nil.
  - exists []. split; [apply wrote_nil|constructor].
Qed.

End server.

(** ** The two together *)

(** A client [s] and a server [c] that were connected, and what they did since:
    the client runs any schedule of its calls and its reader, the server any
    schedule of its loop and its request tasks, and either may be overtaken,
    cancelled, drained or broken off at any point, though not in the middle of a
    frame; each reads some first part of what the other has written. *)
Record connected `{Wire} {State : Type} `{!ControlHandler State} (l : ControlIpcLimits)
    (ls_c : list Session.label) (ls_s : list (ServerConn.label (State := State))) (st0 : State) (s0 s : session) (c : conn) : Prop := {
  cn_limits : wire_limits l;
  cn_starts : (1 + starts ls_c < 2 ^ 64)%N;
  cn_whole_client : Forall whole_label ls_c;
  cn_whole_server : Forall whole_turn ls_s;
  cn_client : ∃ p e, s0 = from_stream Binary l (mkReader p e) (mkWriter [] None) ∧
    p `prefix_of` written (c_out c) ∧ Session.run ls_c s0 = Some s;
  cn_server : ∃ p e, ServerConn.run ls_s (new_conn l (mkReader p e) (mkWriter [] None) st0) = Some c ∧
    p `prefix_of` written (outgoing s);
}.

Lemma connection_serves `{WireOk} {State : Type} `{!ControlHandler State} l ls_c ls_s (st0 : State) s0 s c :
  connected l ls_c ls_s st0 s0 s c →
  NoDup (drawn ls_c s0).*1 ∧
  ∃ log, NoDup (served log).*1 ∧ served log ⊆ drawn ls_c s0 ∧ others log = outsides ls_s ∧
    state c = (replay log st0).1 ∧
    ∀ id response, calls s !! id = Some (Returned (Ok response)) →
      ∃ request, (id, request) ∈ drawn ls_c s0 ∧ reply l st0 log (id, request) response.
Proof.
  intros [Hl Hb Hty Hty_s (p_c & e_c & -> & Hpc & Hc) (p_s & e_s & Hs & Hps)]. set (s0 := from_stream _ _ _ _) in *.
  pose proof (client_run l [] ls_c s0 s (client_new l _) Hty Hb Hc) as Hok. simpl in Hok.
  destruct (ck_sent _ _ _ Hok) as (items & (fs & Hcar & Hfs) & Hids & Hin).
  assert (Hsub : ∀ e, e ∈ requests_of items → e ∈ drawn ls_c s0) by (intros e He; by apply Hin).
  split; [apply (ck_drawn _ _ _ Hok)|].
  assert (Hbound : Forall (λ e : N * ControlRequest, (e.1 <= u64_max)%N) (requests_of items)).
  { apply Forall_forall. intros e He. pose proof (proj2 (ck_drawn _ _ _ Hok) e (Hsub e He)).
    pose proof (client_next _ _ _ Hc ltac:(simpl; lia) Hb). unfold u64_max. simpl in *. lia. }
  destruct (server_run l Hl st0 items Hids Hbound [] [] _ ls_s c
    (server_new l st0 items _ fs (carries_brings _ _ _ _ e_s Hcar Hps) Hfs) Hty_s Hs) as (seen & log & Hsrv & Hothers).
  destruct (so_in _ _ _ _ _ _ Hsrv) as (rest & Hit & _).
  assert (Hseen : ∀ e, e ∈ requests_of seen → e ∈ drawn ls_c s0).
  { intros e He. apply Hsub. rewrite Hit, requests_app. apply elem_of_app. by left. }
  destruct (so_log _ _ _ _ _ _ Hsrv) as [Hnd Hlog].
  exists log. split_and!; [done|intros e He; by apply Hseen, Hlog|exact Hothers|by eapply so_state|].
  intros id response Hret. destruct (so_out _ _ _ _ _ _ Hsrv) as (outs & (gs & Hcar' & Hgs) & Houts).
  assert (Hi : inv s) by (eapply inv_run; [apply inv_from_stream| | |exact Hc]; simpl; lia).
  assert (Ht : tracked l (mkReader p_c e_c) s).
  { eapply tracked_run; [|exact Hc]. repeat split; eauto using answered_nil. }
  destruct Ht as (_ & _ & [r Ha] & _).
  destruct (history_sent l Hl gs outs _ _ _ (carries_brings _ _ _ _ e_c Hcar' Hpc) Hgs Ha) as (xs & _ & -> & _).
  apply Forall_app in Houts as [Houts _].
  assert (Hh : (id, response) ∈ history s) by (apply (inv_history s Hi), (inv_phase s Hi _ _ Hret)).
  apply (proj1 (Forall_forall _ _) Houts) in Hh as (request & Hr & Hrep). exists request. split; [by apply Hseen|done].
Qed.


(** The two sends, from any session with room for both. *)
Lemma run_insert `{Wire} request id s :
  closed s = false → next_id s = id → (0 < id)%N → (id + 1 < 2 ^ 64)%N →
  (N.of_nat (size (pending s)) < max_in_flight (s_limits s))%N →
  ∃ s', Session.run [SendStart request; SendCheck id; SendInsert id] s = Some s' ∧
    calls s' !! id = Some (Inserted request) ∧ pending s' = pending s ∪ {[id]} ∧ next_id s' = (id + 1)%N ∧
    closed s' = false ∧ s_codec s' = s_codec s ∧ s_limits s' = s_limits s ∧ outgoing s' = outgoing s.
Proof.
  intros Ho Hn Hpos Hb Hp. simpl. unfold send_start. rewrite Ho, Hn.
  destruct (N.eqb_spec id 0); [lia|]. simpl. rewrite lookup_insert_eq. simpl. unfold send_check. simpl.
  destruct (N.leb_spec (max_in_flight (s_limits s)) (N.of_nat (size (pending s)))); [lia|].
  simpl. rewrite lookup_insert_eq. simpl. eexists. split; [done|]. simpl. rewrite lookup_insert_eq.
  split_and!; try done. by apply N.mod_small.
Qed.

Lemma run_sent `{Wire} request id bytes s :
  calls s !! id = Some (Inserted request) → encode_request s id request = Ok bytes → broken (outgoing s) = None →
  ∃ s', Session.run [SendWrite id] s = Some s' ∧ calls s' !! id = Some Waiting ∧ pending s' = pending s ∧
    written (outgoing s') = written (outgoing s) ++ bytes.
Proof.
  intros Hc He Hw. simpl. rewrite Hc. simpl. unfold send_write. rewrite He. unfold write_all_flush. rewrite Hw.
  eexists. split; [done|]. simpl. by rewrite lookup_insert_eq.
Qed.

Lemma run_dropped `{Wire} request id bytes k s :
  calls s !! id = Some (Inserted request) → encode_request s id request = Ok bytes → broken (outgoing s) = None →
  ∃ s', Session.run [SendDrop id k] s = Some s' ∧ pending s' = pending s ∧ next_id s' = next_id s ∧
    closed s' = closed s ∧ s_codec s' = s_codec s ∧ s_limits s' = s_limits s ∧
    outgoing s' = mkWriter (written (outgoing s) ++ take k bytes) None.
Proof.
  intros Hc He Hw. simpl. rewrite Hc. simpl. rewrite He. simpl. unfold write_part. rewrite Hw.
  eexists. split; [done|]. by split_and!.
Qed.

Lemma dropped_send_run `{Wire} l r1 r2 b1 b2 k rd :
  (2 ≤ max_in_flight l)%N →
  encode_binary_request 1 r1 l = Ok b1 → encode_binary_request 2 r2 l = Ok b2 →
  ∃ s', Session.run ([SendStart r1; SendCheck 1; SendInsert 1] ++ [SendDrop 1 k] ++
                     [SendStart r2; SendCheck 2; SendInsert 2] ++ [SendWrite 2])
          (from_stream Binary l rd (mkWriter [] None)) = Some s' ∧
    calls s' !! 2%N = Some Waiting ∧ 1%N ∈ pending s' ∧ written (outgoing s') = take k b1 ++ b2.
Proof.
  intros Hmax H1 H2. set (s0 := from_stream _ _ _ _).
  assert (P0 : pending s0 = ∅) by done. assert (L0 : s_limits s0 = l) by done.
  destruct (run_insert r1 1 s0) as (s1 & E1 & C1 & P1 & N1 & O1 & D1 & L1 & W1);
    [done..|rewrite P0, L0, size_empty; lia|].
  destruct (run_dropped r1 1 b1 k s1) as (s2 & E2 & P2 & N2 & O2 & D2 & L2 & W2); [done| |by rewrite W1|].
  { unfold encode_request. by rewrite D1, L1. }
  destruct (run_insert r2 2 s2) as (s3 & E3 & C3 & P3 & _ & _ & D3 & L3 & W3);
    [by rewrite O2|by rewrite N2, N1|done|done| |].
  { rewrite P2, P1, P0, L2, L1, L0, (left_id_L ∅ union), size_singleton. lia. }
  destruct (run_sent r2 2 b2 s3) as (s4 & E4 & C4 & P4 & W4); [done| |by rewrite W3, W2|].
  { unfold encode_request. by rewrite D3, D2, D1, L3, L2, L1. }
  exists s4. rewrite session_run_app, E1. cbn [mbind option_bind]. rewrite session_run_app, E2. cbn [mbind option_bind].
  rewrite session_run_app, E3. split; [exact E4|]. split; [done|]. rewrite P4, P3, P2, P1, W4, W3, W2, W1.
  split; [set_solver|done].
Qed.

(** A caller that drops [send] in the middle of its frame loses the next request:
    the server takes the first bytes of that for the rest of the payload, answers
    under the id of the dropped call, and reads on in the middle of a frame.  The
    dropped call also keeps its place among the pending ones. *)
Theorem dropped_send_swallows_next `{WireOk} l r1 r2 b1 b2 k rd e :
  wire_limits l → (2 ≤ max_in_flight l)%N →
  encode_binary_request 1 r1 l = Ok b1 → encode_binary_request 2 r2 l = Ok b2 →
  (28 ≤ k ≤ List.length b1)%nat → (List.length b1 - k ≤ List.length b2)%nat →
  ∃ s, Session.run ([SendStart r1; SendCheck 1; SendInsert 1; SendDrop 1 k] ++ good_send r2 2)
         (from_stream Binary l rd (mkWriter [] None)) = Some s ∧
    calls s !! 2%N = Some Waiting ∧ 1%N ∈ pending s ∧
    ∃ header payload,
      read_binary_frame_into l (mkReader (written (outgoing s)) e) =
        (Ok (Some (header, payload)), mkReader (drop (List.length b1 - k) b2) e) ∧
      h_request_id header = 1%N ∧ h_opcode header = opcode (req_method r1).
Proof.
  intros Hl Hmax H1 H2 Hk Hr.
  destruct (request_encoded l 1 r1 b1) as (f & Hf & payload & Hc & _); [done|done|].
  destruct (dropped_send_run l r1 r2 b1 b2 k rd Hmax H1 H2) as (s & Hrun & Hcall & Hp & Hw).
  exists s. split; [exact Hrun|]. split; [done|]. split; [done|]. rewrite Hw.
  rewrite (torn_read l Hl f b1 k b2 e Hf Hk Hr), Hc. by do 2 eexists.
Qed.

(** ** A concrete connection

    Two requests, the second served first, and another connection in between. *)
#[local] Instance counting_handler : ControlHandler (list ControlMethod) :=
  λ request s, (s ++ [req_method request], empty_ok).

Definition reload_request : ControlRequest := mkRequest [] PluginReload JNull.

Definition two_calls : list Session.label :=
  good_send sample_request 1 ++ good_send reload_request 2 ++
  [ReaderTurn; SendReceive 2; ReaderTurn; SendReceive 1].

Definition second_first : list (ServerConn.label (State := list ControlMethod)) :=
  [MainTop; MainFrame; MainInsert; MainTop; MainFrame; MainInsert;
   TaskLock 1; TaskHandle 1; TaskRespond 1; Outside (λ served, served ++ [HealthCheck]); TaskLock 0; TaskHandle 0; TaskRespond 0; TaskEnd 1; TaskEnd 0].

Definition calls_bytes : list byte :=
  frame_bytes (opcode ServiceStatus) REQUEST 1 [xc0] ++ frame_bytes (opcode PluginReload) REQUEST 2 [xc0].
Definition answers_bytes : list byte :=
  frame_bytes (opcode PluginReload) RESPONSE 2 [xc0] ++ frame_bytes (opcode ServiceStatus) RESPONSE 1 [xc0].

Definition caller : session := from_stream Binary default_limits (mkReader answers_bytes (mkIo true [])) (mkWriter [] None).
Definition server : conn (State := list ControlMethod) :=
  new_conn default_limits (mkReader calls_bytes (mkIo true [])) (mkWriter [] None) [].

Example second_served_first :
  (λ s, (calls s !! 1%N, calls s !! 2%N)) <$> Session.run two_calls caller =
    Some (Some (Returned (Ok empty_ok)), Some (Returned (Ok empty_ok))) ∧
  state <$> ServerConn.run second_first server = Some [PluginReload; HealthCheck; ServiceStatus].
Proof. split; vm_compute; reflexivity. Qed.


Lemma dropped_send_swallows_next_witness :
  ∃ s, Session.run ([SendStart sample_request; SendCheck 1; SendInsert 1; SendDrop 1 28] ++ good_send reload_request 2)
         (from_stream Binary default_limits (mkReader [] (mkIo true [])) (mkWriter [] None)) = Some s ∧
    calls s !! 2%N = Some Waiting ∧ 1%N ∈ pending s ∧
    ∃ header payload,
      read_binary_frame_into default_limits (mkReader (written (outgoing s)) (mkIo true [])) =
        (Ok (Some (header, payload)), mkReader (drop 1 (frame_bytes 5 REQUEST 2 [xc0])) (mkIo true [])) ∧
      h_request_id header = 1%N ∧ h_opcode header = opcode ServiceStatus.
Proof.
  apply (dropped_send_swallows_next default_limits sample_request reload_request
    (frame_bytes 1 REQUEST 1 [xc0]) (frame_bytes 5 REQUEST 2 [xc0]) 28).
  - vm_compute. split; discriminate.
  - vm_compute. discriminate.
  - vm_compute. reflexivity.
  - vm_compute. reflexivity.
  - vm_compute. lia.
  - vm_compute. lia.
Defined.
