(* ===== verification/Fs.v ===== *)
(** * Files, environment and clock

    What the host uses of [std::fs], [std::env] and [std::time]: a world with a
    flat set of files (Unix path text to bytes), directories, environment
    variables, and a fault table that says which operation fails and how.  A
    failing write may leave any content behind.  [atomic_write] and
    [filtered_environment] of [crates/mutsuki-service-config/src/lib.rs] are
    here because every component that persists or spawns uses them. *)

From S2P Require Import Prelude Text BTreeMap ConfigTypes Frame.

#[export] Instance byte_eq_dec : EqDecision byte := Byte.byte_eq_dec.

(** ** Paths *)

(** The last component and what precedes it, separator included. *)
Fixpoint split_name (p : text) : text * text :=
  match p with
  | [] => ([], [])
  | c :: p' =>
      let '(dir, name) := split_name p' in
      if is_empty dir && negb (c =? 47)%N then ([], c :: name) else (c :: dir, name)
  end.

Definition file_name (p : text) : text := (split_name p).2.

(** [Path::parent] of a path with a file name. *)
Definition parent (p : text) : text :=
  let dir := (split_name p).1 in
  if text_eqb dir (lit "/") then dir else take (List.length dir - 1) dir.

(** The part before the last dot, unless that dot is the first character. *)
Fixpoint before_last_dot (t : text) : option text :=
  match t with
  | [] => None
  | c :: t' =>
      match before_last_dot t' with
      | Some s => Some (c :: s)
      | None => if (c =? 46)%N then Some [] else None
      end
  end.

Definition file_stem (name : text) : text :=
  match before_last_dot name with Some (c :: s) => c :: s | _ => name end.

(** [Path::with_extension]; a path without a file name is returned as it is. *)
Definition with_extension (p ext : text) : text :=
  let '(dir, name) := split_name p in
  if is_empty name || text_eqb name (lit "..") then p
  else dir ++ file_stem name ++ lit "." ++ ext.

(** ** The world *)

Inductive fs_op : Type :=
| OpRead (p : text) | OpWrite (p : text) | OpChmod (p : text) | OpRename (a b : text)
| OpRemove (p : text) | OpCreateDir (p : text) | OpReadDir (p : text).

Record world : Type := mkWorld {
  files : gmap text (list byte);
  dirs : gset text;
  private : gset text;                         (* files with mode 0600 *)
  env : gmap text (option text);               (* None: set, but not Unicode *)
  faults : fs_op → option (io_error * option (list byte));
  nanos : N;                                   (* SystemTime::now *)
  pid : N;
}.

Definition no_such_file : io_error := mkIo false (lit "No such file or directory (os error 2)").
Definition not_utf8 : io_error := mkIo false (lit "stream did not contain valid UTF-8").

Definition set_files (f : gmap text (list byte)) (w : world) : world :=
  mkWorld f (dirs w) (private w) (env w) (faults w) (nanos w) (pid w).

Definition exists_ (w : world) (p : text) : bool :=
  bool_decide (is_Some (files w !! p)) || bool_decide (p ∈ dirs w).
Definition is_file (w : world) (p : text) : bool := bool_decide (is_Some (files w !! p)).

(** [fs::read_to_string]. *)
Definition read_to_string (w : world) (p : text) : result text io_error :=
  match faults w (OpRead p) with
  | Some (e, _) => Err e
  | None =>
      match files w !! p with
      | None => Err no_such_file
      | Some bytes => ok_or (from_utf8 bytes) not_utf8
      end
  end.

Definition fs_write (p : text) (bytes : list byte) (w : world) : result unit io_error * world :=
  match faults w (OpWrite p) with
  | Some (e, None) => (Err e, w)
  | Some (e, Some partial) => (Err e, set_files (<[p := partial]> (files w)) w)
  | None => (Ok tt, set_files (<[p := bytes]> (files w)) w)
  end.

(** [fs::copy]: a copy that fails may leave a part of the target. *)
Definition fs_copy (source target : text) (w : world) : result unit io_error * world :=
  match faults w (OpRead source), files w !! source with
  | Some (e, _), _ => (Err e, w)
  | None, None => (Err no_such_file, w)
  | None, Some bytes => fs_write target bytes w
  end.

Definition set_permissions (p : text) (w : world) : result unit io_error * world :=
  match faults w (OpChmod p) with
  | Some (e, _) => (Err e, w)
  | None =>
      (Ok tt, mkWorld (files w) (dirs w) (private w ∪ {[p]}) (env w) (faults w) (nanos w) (pid w))
  end.

Definition rename (a b : text) (w : world) : result unit io_error * world :=
  match faults w (OpRename a b), files w !! a with
  | Some (e, _), _ => (Err e, w)
  | None, None => (Err no_such_file, w)
  | None, Some bytes =>
      (Ok tt, mkWorld (<[b := bytes]> (delete a (files w))) (dirs w)
                (if bool_decide (a ∈ private w) then private w ∖ {[a]} ∪ {[b]}
                 else private w ∖ {[b]})
                (env w) (faults w) (nanos w) (pid w))
  end.

Definition remove_file (p : text) (w : world) : result unit io_error * world :=
  match faults w (OpRemove p), files w !! p with
  | Some (e, _), _ => (Err e, w)
  | None, None => (Err no_such_file, w)
  | None, Some _ => (Ok tt, set_files (delete p (files w)) w)
  end.

Definition create_dir_all (p : text) (w : world) : result unit io_error * world :=
  match faults w (OpCreateDir p) with
  | Some (e, _) => (Err e, w)
  | None =>
      (Ok tt, mkWorld (files w) (dirs w ∪ {[p]}) (private w) (env w) (faults w) (nanos w) (pid w))
  end.

Definition read_dir (w : world) (p : text) : result unit io_error :=
  match faults w (OpReadDir p) with
  | Some (e, _) => Err e
  | None => if bool_decide (p ∈ dirs w) then Ok tt else Err no_such_file
  end.

(** [env::var] fails on a value that is not Unicode; [env::var_os] does not. *)
Definition env_var (w : world) (k : text) : option text := env w !! k ≫= id.
Definition env_set (w : world) (k : text) : bool := bool_decide (is_Some (env w !! k)).

(** ** Configuration errors *)

(** [source] fields are kept as their message. *)
Inductive ConfigError : Type :=
| MissingConfigFile (path : text)
| ReadFile (path : text) (source : io_error)
| ParseFile (path source : text)
| ReadSecretFile (path : text) (source : io_error)
| ParseSecretFile (path source : text)
| InvalidSecretFile (path detail : text)
| CreateDir (path : text) (source : io_error)
| DirectoryAccess (path : text) (source : io_error)
| MissingControlToken
| SecretRotationUnavailable
| SecretEnvironmentOverride (key variable : text)
| InvalidSecretValue (key : text)
| ConfigMutationUnavailable
| ConfiguredPluginNotFound (plugin_id path : text)
| InvalidConfiguredPluginValue (plugin_id detail : text)
| ProductSurfaceReadOnly (field : text)
| UnknownProductSurfaceField (field : text)
| InvalidProductSurfaceValue (field detail : text)
| WriteManagedFile (path : text) (source : io_error).

Abbreviation ConfigResult A := (result A ConfigError).

(** ** Atomic writes *)

Definition temp_path (w : world) (path : text) : text :=
  with_extension path (lit "mutsuki-" ++ show_hex (nanos w) ++ lit ".tmp").

(** Unix: the temporary file of a secret is made private before it is moved
    over the target. *)
Definition atomic_write (path : text) (bytes : list byte) (secret : bool) (w : world)
    : ConfigResult unit * world :=
  let temp := temp_path w path in
  match fs_write temp bytes w with
  | (Err e, w) => (Err (WriteManagedFile temp e), w)
  | (Ok _, w) =>
      let '(r, w) := if secret then set_permissions temp w else (Ok tt, w) in
      match r with
      | Err e => (Err (WriteManagedFile temp e), w)
      | Ok _ =>
          let '(r, w) := rename temp path w in
          (map_err (WriteManagedFile path) r, w)
      end
  end.

(** ** Environments of child processes *)

Definition filtered_environment (w : world) (allowlist : list text) (extra : btree text)
    : btree text :=
  let envs := fold_left (λ envs key,
                match env_var w key with Some value => bset key value envs | None => envs end)
                allowlist [] in
  bextend envs extra.

(** ** Lemmas on paths *)

Lemma split_name_app p : (split_name p).1 ++ (split_name p).2 = p.
Proof.
  induction p as [|c p IH]; simpl; [done|]. destruct (split_name p) as [dir name]. simpl in *.
  destruct (is_empty dir && negb (c =? 47)%N) eqn:E; simpl; [|by rewrite IH].
  apply andb_true_iff in E as [E _]. destruct dir; [|done]. simpl in *. by rewrite IH.
Qed.

(** The replaced extension makes another path, unless there is no file name. *)
Lemma before_last_dot_len t s : before_last_dot t = Some s → t = s ++ lit "." ++ drop (S (List.length s)) t.
Proof.
  revert s. induction t as [|c t IH]; intros s; simpl; [done|].
  destruct (before_last_dot t) as [s'|].
  - intros [= <-]. simpl. f_equal. by apply IH.
  - destruct (N.eqb_spec c 46); [|done]. intros [= <-]. by subst.
Qed.

Lemma before_last_dot_none t : 46%N ∉ t → before_last_dot t = None.
Proof.
  induction t as [|c t IH]; intros H; simpl; [done|].
  apply not_elem_of_cons in H as [Hc Ht]. rewrite IH by done.
  destruct (N.eqb_spec c 46); [congruence|done].
Qed.

Lemma before_last_dot_app a b : 46%N ∉ b → before_last_dot (a ++ 46%N :: b) = Some a.
Proof.
  intros Hb. induction a as [|c a IH]; simpl; [by rewrite before_last_dot_none|by rewrite IH].
Qed.

Lemma file_stem_app a b : a ≠ [] → 46%N ∉ b → file_stem (a ++ 46%N :: b) = a.
Proof. intros Ha Hb. unfold file_stem. rewrite before_last_dot_app by done. by destruct a. Qed.

(** Whether a path names a file. *)
Definition named (p : text) : Prop := file_name p ≠ [] ∧ file_name p ≠ lit "..".

Lemma temp_ne_path w p : named p → temp_path w p ≠ p.
Proof.
  intros [Hne Hdd] Heq. unfold temp_path, with_extension, file_name in *.
  pose proof (split_name_app p) as Hp. destruct (split_name p) as [dir name]. cbn [fst snd] in *.
  destruct name as [|c name]; [done|].
  unfold text_eqb in Heq. rewrite bool_decide_false in Heq by done. cbn [is_empty orb] in Heq.
  rewrite <-Hp in Heq at 1. apply app_inv_head in Heq.
  set (stem := file_stem (c :: name)) in Heq.
  assert (Hs : stem = stem ++ lit ".mutsuki-" ++ show_hex (nanos w)).
  { transitivity (file_stem (c :: name)); [done|]. rewrite <-Heq.
    replace (stem ++ lit "." ++ lit "mutsuki-" ++ show_hex (nanos w) ++ lit ".tmp")
      with ((stem ++ lit ".mutsuki-" ++ show_hex (nanos w)) ++ 46%N :: lit "tmp")
      by (rewrite <-!(assoc_L (++)); reflexivity).
    apply file_stem_app; [by destruct stem|].
    vm_compute. intros H. repeat (apply elem_of_cons in H as [H|H]; [discriminate|]).
    by apply not_elem_of_nil in H. }
  apply (f_equal List.length) in Hs. rewrite !length_app in Hs. simpl in Hs. lia.
Qed.

Lemma split_name_plain n : 47%N ∉ n → split_name n = ([], n).
Proof.
  induction n as [|c n IH]; simpl; [done|]. intros [Hc Hn]%not_elem_of_cons. rewrite IH by done.
  destruct (N.eqb_spec c 47); [congruence|done].
Qed.

Lemma split_name_dir d n : 47%N ∉ n → split_name (d ++ 47%N :: n) = (d ++ [47%N], n).
Proof.
  intros Hn. induction d as [|c d IH]; simpl; [by rewrite split_name_plain|rewrite IH; by destruct d].
Qed.

(** A file in a directory: its name is the last component. *)
Lemma path_join_name d n : 47%N ∉ n → ∃ x, path_join d n = x ++ n ∧ split_name (path_join d n) = (x, n).
Proof.
  intros Hn. unfold path_join. assert (is_absolute n = false) as ->.
  { unfold is_absolute, starts_with. change (lit "/") with [47%N].
    destruct n as [|c n]; [done|]. cbn [strip_prefix].
    apply not_elem_of_cons in Hn as [Hc _]. destruct (N.eqb_spec 47 c); [congruence|done]. }
  destruct (is_empty d) eqn:Ed; simpl.
  { exists []. destruct d; [|done]. simpl. split; [done|by apply split_name_plain]. }
  destruct (ends_with (lit "/") d) eqn:Es.
  - exists d. split; [done|]. unfold ends_with, starts_with in Es.
    change (reverse (lit "/")) with [47%N] in Es.
    destruct (reverse d) as [|c r] eqn:Er; [done|]. cbn [strip_prefix] in Es.
    destruct (N.eqb_spec 47 c) as [<-|]; [|done].
    assert (d = reverse r ++ [47%N]) as ->.
    { rewrite <-(reverse_involutive d), Er, reverse_cons. done. }
    rewrite <-(assoc_L (++)). simpl. by apply split_name_dir.
  - exists (d ++ [47%N]). split; [by rewrite <-(assoc_L (++))|]. by apply split_name_dir.
Qed.

(** ** Lemmas on atomic writes *)

(** The target and every other file, whatever happens. *)
Lemma atomic_write_spec path bytes secret w r w' :
  named path → atomic_write path bytes secret w = (r, w') →
  (∀ q, q ≠ path → q ≠ temp_path w path → files w' !! q = files w !! q) ∧
  env w' = env w ∧
  match r with
  | Ok _ => files w' = <[path := bytes]> (delete (temp_path w path) (files w)) ∧
            (secret = true → path ∈ private w')
  | Err e => files w' !! path = files w !! path ∧ ∃ q er, e = WriteManagedFile q er
  end.
Proof.
  intros Hn. pose proof (temp_ne_path w path Hn) as Ht. unfold atomic_write.
  set (temp := temp_path w path) in *. unfold fs_write.
  destruct (faults w (OpWrite temp)) as [[e [partial|]]|].
  - intros [= <- <-]. simpl. split; [|split; [done|]].
    + intros q Hq Hqt. by rewrite lookup_insert_ne.
    + rewrite lookup_insert_ne by done. eauto.
  - intros [= <- <-]. simpl. split_and!; eauto.
  - assert (Hfin : ∀ w1 (Hf : files w1 = <[temp := bytes]> (files w)) (He : env w1 = env w),
      (let '(r0, w0) := rename temp path w1 in (map_err (WriteManagedFile path) r0, w0)) = (r, w') →
      (secret = true → temp ∈ private w1) →
      (∀ q, q ≠ path → q ≠ temp → files w' !! q = files w !! q) ∧ env w' = env w ∧
      match r with
      | Ok _ => files w' = <[path := bytes]> (delete temp (files w)) ∧ (secret = true → path ∈ private w')
      | Err e => files w' !! path = files w !! path ∧ ∃ q er, e = WriteManagedFile q er
      end).
    { intros w1 Hf He Hr Hp. unfold rename in Hr. rewrite Hf, lookup_insert_eq in Hr.
      destruct (faults w1 (OpRename temp path)) as [[e o]|]; simpl in Hr; injection Hr as <- <-.
      - rewrite Hf. split; [|split; [done|]].
        + intros q Hq Hqt. by rewrite lookup_insert_ne.
        + rewrite lookup_insert_ne by done. eauto.
      - simpl. split; [|split; [done|]].
        + intros q Hq Hqt. by rewrite lookup_insert_ne, delete_insert_eq, lookup_delete_ne by done.
        + split; [by rewrite delete_insert_eq|]. intros Hs. rewrite bool_decide_true by auto. set_solver. }
    destruct secret.
    + unfold set_permissions at 1. simpl.
      destruct (faults w (OpChmod temp)) as [[e o]|].
      * intros [= <- <-]. simpl. split; [|split; [done|]].
        -- intros q Hq Hqt. by rewrite lookup_insert_ne.
        -- rewrite lookup_insert_ne by done. eauto.
      * intros Hr. eapply Hfin; [| |exact Hr|]; simpl; try done. set_solver.
    + intros Hr. eapply Hfin; [| |exact Hr|]; simpl; done.
Qed.

Lemma atomic_write_faults path bytes secret w :
  faults (atomic_write path bytes secret w).2 = faults w.
Proof.
  unfold atomic_write, fs_write, set_permissions, rename.
  repeat case_match; simplify_eq; done.
Qed.

(** ** Properties *)

(** C36: managed files are replaced atomically.  Whatever operation fails, the
    target keeps its old content; on success it has the new content, no
    temporary file is left, a secret file is private, and in every case no
    other file changes. *)
Theorem atomic_write_all_or_nothing path bytes secret w :
  named path →
  let '(r, w') := atomic_write path bytes secret w in
  (∀ q, q ≠ path → q ≠ temp_path w path → files w' !! q = files w !! q) ∧
  match r with
  | Ok _ => files w' !! path = Some bytes ∧ files w' !! temp_path w path = None ∧
            (secret = true → path ∈ private w')
  | Err _ => files w' !! path = files w !! path
  end.
Proof.
  intros Hn. destruct (atomic_write path bytes secret w) as [r w'] eqn:E.
  destruct (atomic_write_spec _ _ _ _ _ _ Hn E) as (Hq & _ & Hr). split; [done|].
  destruct r as [[]|e]; [|by apply Hr]. destruct Hr as [-> Hp].
  split; [by rewrite lookup_insert_eq|]. split; [|done].
  rewrite lookup_insert_ne by (by apply not_eq_sym, temp_ne_path). by rewrite lookup_delete_eq.
Qed.

(** A world with one file and no faults. *)
Definition sample_world (path content : text) : world :=
  mkWorld {[path := utf8 content]} ∅ ∅ ∅ (λ _, None) 255 7.

Lemma atomic_write_all_or_nothing_witness :
  let path := lit "/h/s.toml" in
  let '(r, w') := atomic_write path [x01] true (sample_world path (lit "old")) in
  (∀ q, q ≠ path → q ≠ temp_path (sample_world path (lit "old")) path →
     files w' !! q = files (sample_world path (lit "old")) !! q) ∧
  match r with
  | Ok _ => files w' !! path = Some [x01] ∧
            files w' !! temp_path (sample_world path (lit "old")) path = None ∧
            (true = true → path ∈ private w')
  | Err _ => files w' !! path = files (sample_world path (lit "old")) !! path
  end.
Proof.
  apply (atomic_write_all_or_nothing (lit "/h/s.toml") [x01] true).
  split; vm_compute; discriminate.
Defined.

Lemma bget_filtered_environment w allowlist extra k :
  bsorted extra →
  bget (filtered_environment w allowlist extra) k =
    match bget extra k with
    | Some v => Some v
    | None => if bool_decide (k ∈ allowlist) then env_var w k else None
    end.
Proof.
  intros Hs. unfold filtered_environment. rewrite bget_extend.
  assert (Hrev : bget (reverse extra) k = bget extra k).
  { destruct (bget extra k) as [v|] eqn:E.
    - apply bget_elem in E. apply bget_nodup_elem; [|by apply elem_of_reverse].
      unfold bkeys. rewrite fmap_reverse, reverse_Permutation. by apply bsorted_nodup.
    - apply bget_None. apply bget_None in E. unfold bkeys in *. rewrite fmap_reverse.
      by rewrite elem_of_reverse. }
  rewrite Hrev. destruct (bget extra k); [done|]. clear.
  assert (H : ∀ m, bget (fold_left (λ envs key,
                match env_var w key with Some value => bset key value envs | None => envs end)
                allowlist m) k =
              match (if bool_decide (k ∈ allowlist) then env_var w k else None) with
              | Some v => Some v | None => bget m k end).
  { induction allowlist as [|a l IH]; intros m; simpl; [done|]. rewrite IH.
    destruct (decide (k = a)) as [->|Hne].
    - rewrite (bool_decide_true (a ∈ a :: l)) by set_solver.
      destruct (env_var w a) as [v|] eqn:E; rewrite ?bget_set_eq; by case_bool_decide.
    - assert (Heq : bool_decide (k ∈ a :: l) = bool_decide (k ∈ l))
        by (apply bool_decide_ext; set_solver).
      rewrite Heq. destruct (env_var w a); [|done]. by rewrite bget_set_ne by done. }
  rewrite H. simpl. by case_match.
Qed.

(** The environment of a child process holds exactly the allowlisted
    variables of the host that are set, overridden by the extra ones; nothing
    else of the host's environment reaches a runner. *)
Theorem filtered_environment_exact w allowlist extra k :
  bsorted extra →
  bget (filtered_environment w allowlist extra) k =
    match bget extra k with
    | Some v => Some v
    | None => if bool_decide (k ∈ allowlist) then env_var w k else None
    end.
Proof. apply bget_filtered_environment. Qed.

Lemma filtered_environment_exact_witness :
  bget (filtered_environment (sample_world (lit "f") []) [lit "PATH"] [(lit "A", lit "1")]) (lit "A")
  = Some (lit "1").
Proof.
  exact (filtered_environment_exact (sample_world (lit "f") []) [lit "PATH"] [(lit "A", lit "1")]
           (lit "A") (conj (Forall_nil_2 _) I)).
Defined.
