(* ===== verification/Transport.v ===== *)
(** * Listeners and endpoints

    [crates/mutsuki-service-ipc/src/transport.rs] and the client configuration
    of session.rs, on a Unix host: how a server binds its endpoint, the accept
    loop as a state machine, the end of a server, and the endpoint a client
    connects to.  What is accepted is handed to [serve_stream] ([ServerConn]). *)

From S2P Require Import Prelude Text ConfigTypes Frame Fs.

(** ** Sockets of the host *)

(** Unix sockets are names in the file system; the generation of a socket tells
    apart listeners that were bound to one name after another. *)
Record net : Type := mkNet {
  sockets : gmap text N;
  next_socket : N;
  bind_faults : text → option io_error;        (* Unix sockets *)
  tcp_faults : text → option io_error;
}.

Definition address_in_use : io_error := mkIo false (lit "Address already in use (os error 98)").

Definition set_sockets (m : gmap text N) (n : net) : net :=
  mkNet m (next_socket n) (bind_faults n) (tcp_faults n).

(** [std::fs::remove_file] on a name that may be a socket. *)
Definition remove_endpoint (p : text) (w : world) (n : net) : result unit io_error * world * net :=
  match faults w (OpRemove p), sockets n !! p with
  | None, Some _ => (Ok tt, w, set_sockets (delete p (sockets n)) n)
  | _, _ => let '(r, w) := remove_file p w in (r, w, n)
  end.

(** [UnixListener::bind]. *)
Definition unix_bind (p : text) (w : world) (n : net) : result N io_error * net :=
  match bind_faults n p with
  | Some e => (Err e, n)
  | None =>
      if exists_ w p || bool_decide (is_Some (sockets n !! p)) then (Err address_in_use, n)
      else
        let id := next_socket n in
        (Ok id, mkNet (<[p := id]> (sockets n)) (id + 1) (bind_faults n) (tcp_faults n))
  end.

Definition tcp_bind (addr : text) (n : net) : result unit io_error :=
  match tcp_faults n addr with Some e => Err e | None => Ok tt end.

(** ** The accept loop *)

(** A peer, as far as the loops look at it. *)
Record peer : Type := mkPeer { is_loopback : bool; connection : N }.

Inductive accept_phase : Type := Accepting | LoopEnded.

#[export] Instance accept_phase_eq_dec : EqDecision accept_phase.
Proof. solve_decision. Defined.

Record listener : Type := mkListener {
  tcp_debug : bool;
  draining : bool;                             (* the value of the watch channel *)
  sender : bool;                               (* the server still holds [drain_tx] *)
  accept_task : accept_phase;
  spawned : list peer;                         (* handed to [serve_stream] *)
}.

Definition new_listener (tcp : bool) : listener := mkListener tcp false true Accepting [].

Definition set_accept (p : accept_phase) (l : listener) : listener :=
  mkListener (tcp_debug l) (draining l) (sender l) p (spawned l).

Definition spawn_connection (x : peer) (l : listener) : listener :=
  mkListener (tcp_debug l) (draining l) (sender l) (accept_task l) (spawned l ++ [x]).

(** The loops of [start_unix_socket_server] and [start_tcp_debug_server]: the
    drain branch is biased. *)
Definition accepted (r : result peer io_error) (l : listener) : listener :=
  match r with
  | Err _ => set_accept LoopEnded l
  | Ok x =>
      if tcp_debug l && negb (is_loopback x) then l         (* rejected *)
      else spawn_connection x l
  end.

Inductive accept_label : Type :=
| BeginDrain                              (* [drain_tx.send(true)] *)
| DropSender                              (* the [IpcServer] is dropped *)
| AbortLoop                               (* [handle.abort()] *)
| Accept (r : result peer io_error).      (* the loop runs and a connection is there *)

Definition accept_step (lb : accept_label) (l : listener) : listener :=
  match lb with
  | BeginDrain => mkListener (tcp_debug l) true (sender l) (accept_task l) (spawned l)
  | DropSender => mkListener (tcp_debug l) (draining l) false (accept_task l) (spawned l)
  | AbortLoop => set_accept LoopEnded l
  | Accept r =>
      match accept_task l with
      | LoopEnded => l
      | Accepting =>
          if draining l || negb (sender l) then set_accept LoopEnded l else accepted r l
      end
  end.

Definition accept_run (ls : list accept_label) (l : listener) : listener :=
  fold_left (λ l lb, accept_step lb l) ls l.

(** ** The server *)

Record IpcServer : Type := mkIpcServer {
  loop_ : listener;
  cleanup_path : option text;
  socket : option N;                           (* the Unix socket it listens on *)
}.

Definition start_server (c : ServiceConfig) (w : world) (n : net)
    : IpcResult (option IpcServer) * world * net :=
  if negb (ipc_enabled (ipc c)) then (Ok None, w, n)
  else
    let endpoint := ipc_endpoint c in
    match ipc_transport (ipc c) with
    | NamedPipe => (Err (UnsupportedTransport NamedPipe), w, n)
    | UnixSocket =>
        let '(_, w, n) := remove_endpoint endpoint w n in
        match unix_bind endpoint w n with
        | (Err e, n) => (Err (Io e), w, n)
        | (Ok id, n) => (Ok (Some (mkIpcServer (new_listener false) (Some endpoint) (Some id))), w, n)
        end
    | TcpDebug =>
        match tcp_bind endpoint n with
        | Err e => (Err (Io e), w, n)
        | Ok _ => (Ok (Some (mkIpcServer (new_listener true) None None)), w, n)
        end
    end.

Definition remove_cleanup_path (p : option text) (w : world) (n : net) : world * net :=
  match p with
  | None => (w, n)
  | Some p => let '(_, w, n) := remove_endpoint p w n in (w, n)
  end.

(** [abort] and [shutdown]: they differ in waiting for the aborted loop. *)
Definition shutdown_server (s : IpcServer) (w : world) (n : net) : listener * world * net :=
  let l := accept_run [BeginDrain; AbortLoop; DropSender] (loop_ s) in
  let '(w, n) := remove_cleanup_path (cleanup_path s) w n in (l, w, n).

Definition begin_drain (s : IpcServer) : IpcServer :=
  mkIpcServer (accept_step BeginDrain (loop_ s)) (cleanup_path s) (socket s).

(** ** Clients *)

Record ControlClientConfig : Type := mkClientConfig {
  cc_transport : IpcTransport; cc_endpoint : text; cc_token : text;
  cc_codec : IpcCodec; cc_limits : ControlIpcLimits;
}.

Definition new_client_config (t : IpcTransport) (endpoint token : text) : ControlClientConfig :=
  mkClientConfig t endpoint token Binary default_limits.

Definition with_profile (p : ControlIpcProfile) (c : ControlClientConfig) : ControlClientConfig :=
  mkClientConfig (cc_transport c) (cc_endpoint c) (cc_token c) (codec p) (limits p).

(** [ServiceConfig::control_token]; loading a configuration sets the token. *)
Definition config_token (c : ServiceConfig) : text := default [] (ipc_token (ipc c)).

Definition client_config (c : ServiceConfig) : ControlClientConfig :=
  with_profile (profile_from_config c)
    (new_client_config (ipc_transport (ipc c)) (ipc_endpoint c) (config_token c)).

(** [connect_transport]: the socket a client ends up on. *)
Definition connect_transport (t : IpcTransport) (endpoint : text) (n : net) : IpcResult (option N) :=
  match t with
  | NamedPipe => Err (UnsupportedTransport NamedPipe)
  | UnixSocket =>
      match sockets n !! endpoint with
      | Some id => Ok (Some id)
      | None => Err (Io no_such_file)
      end
  | TcpDebug => Ok None
  end.

(** ** The specification of a listener *)

(** The connections a listener serves: those accepted before the first event
    that ends it, and with the TCP transport only those from the host itself. *)
Fixpoint served (tcp : bool) (ls : list accept_label) : list peer :=
  match ls with
  | Accept (Ok x) :: ls => (if tcp && negb (is_loopback x) then [] else [x]) ++ served tcp ls
  | _ => []
  end.

(** A loop that ended, or will when it runs. *)
Definition over (l : listener) : bool :=
  bool_decide (accept_task l = LoopEnded) || draining l || negb (sender l).

Lemma over_run ls l :
  over l = true → over (accept_run ls l) = true ∧ spawned (accept_run ls l) = spawned l.
Proof.
  revert l. induction ls as [|lb ls IH]; intros l Ho; [done|].
  assert (Hs : over (accept_step lb l) = true ∧ spawned (accept_step lb l) = spawned l).
  { unfold over in *. destruct l as [tcp d s p x]; simpl in *.
    destruct lb, p; simpl in *; rewrite ?orb_true_r; simpl; try done; by rewrite Ho. }
  destruct Hs as [H1 H2]. destruct (IH _ H1) as [H3 H4]. split; [exact H3|]. simpl. by rewrite H4.
Qed.

Lemma accept_run_served ls l :
  over l = false → spawned (accept_run ls l) = spawned l ++ served (tcp_debug l) ls.
Proof.
  revert l. induction ls as [|lb ls IH]; intros l Ho; [by rewrite app_nil_r|].
  assert (Hend : ∀ l', accept_step lb l = l' → over l' = true → spawned l' = spawned l →
            served (tcp_debug l) (lb :: ls) = [] →
            spawned (accept_run (lb :: ls) l) = spawned l ++ served (tcp_debug l) (lb :: ls)).
  { intros l' El Hl' Hs ->. rewrite app_nil_r. simpl. rewrite El. rewrite <-Hs. by apply over_run. }
  destruct lb as [| | |r]; [eapply Hend; [done| |done|done]; unfold over; simpl; by rewrite ?orb_true_r..|].
  unfold over in Ho. apply orb_false_elim in Ho as [[Hp Hd]%orb_false_elim Hs].
  apply bool_decide_eq_false in Hp. destruct (accept_task l) eqn:Et; [|done].
  assert (Hst : accept_step (Accept r) l = accepted r l) by (simpl; by rewrite Et, Hd, Hs).
  destruct r as [x|e].
  - change (accept_run (Accept (Ok x) :: ls) l) with (accept_run ls (accept_step (Accept (Ok x)) l)).
    rewrite Hst. simpl. rewrite IH.
    + destruct (tcp_debug l && negb (is_loopback x)); simpl; [done|]. by rewrite <-(assoc_L (++)).
    + unfold over. destruct (tcp_debug l && negb (is_loopback x)); simpl; by rewrite Et, Hd, Hs.
  - eapply Hend; [exact Hst|done|done|done].
Qed.

Lemma remove_endpoint_spec p w n r w' n' :
  remove_endpoint p w n = (r, w', n') →
  (∀ q, q ≠ p → sockets n' !! q = sockets n !! q) ∧
  (∀ q, q ≠ p → files w' !! q = files w !! q) ∧
  (faults w (OpRemove p) = None → sockets n' !! p = None) ∧
  faults w' = faults w ∧ bind_faults n' = bind_faults n ∧ next_socket n' = next_socket n ∧
  tcp_faults n' = tcp_faults n ∧ dirs w' = dirs w.
Proof.
  unfold remove_endpoint, remove_file. intros Hs.
  destruct (faults w (OpRemove p)) as [[e x]|] eqn:Ef;
    [simplify_eq; by split_and!|].
  destruct (sockets n !! p) eqn:Es; simplify_eq.
  - split_and!; try done; simpl; [intros; by rewrite lookup_delete_ne|]. intros _. by rewrite lookup_delete_eq.
  - destruct (files w !! p); simplify_eq; split_and!; try done. simpl.
    intros. by rewrite lookup_delete_ne.
Qed.

Ltac case_remove r w n E :=
  match goal with
  | H : context [remove_endpoint ?p ?v ?m] |- _ => destruct (remove_endpoint p v m) as [[r w] n] eqn:E
  | |- context [remove_endpoint ?p ?v ?m] => destruct (remove_endpoint p v m) as [[r w] n] eqn:E
  end.

(** ** Properties *)

(** A listener hands over exactly the connections it accepted before it
    was told to drain, was dropped or aborted, or an accept failed; with the
    TCP debug transport only those of peers on the host itself.  In particular
    one failed accept ends the service of further clients for good. *)
Theorem accepted_connections tcp ls :
  spawned (accept_run ls (new_listener tcp)) = served tcp ls ∧
  (tcp = true → Forall (λ x, is_loopback x = true) (spawned (accept_run ls (new_listener tcp)))).
Proof.
  assert (Hs : spawned (accept_run ls (new_listener tcp)) = served tcp ls) by by rewrite accept_run_served.
  split; [exact Hs|]. intros ->. rewrite Hs. clear Hs.
  induction ls as [|[| | |[x|]] ls IH]; simpl; try constructor. destruct (is_loopback x) eqn:E; simpl; [by constructor|done].
Qed.

(** A server and a client with the same configuration meet.  A Unix socket
    server that started, over a stale socket or not, listens on a new socket,
    which is the one a client that loads the same configuration connects to;
    no other socket or file is touched; and its shutdown ends the loop and,
    unless removing fails, removes the endpoint. *)
Theorem server_endpoint c w n s w' n' :
  ipc_transport (ipc c) = UnixSocket → start_server c w n = (Ok (Some s), w', n') →
  let cc := client_config c in
  connect_transport (cc_transport cc) (cc_endpoint cc) n' = Ok (socket s) ∧
  socket s = Some (next_socket n) ∧ next_socket n' = (next_socket n + 1)%N ∧
  (∀ p, p ≠ ipc_endpoint c → sockets n' !! p = sockets n !! p ∧ files w' !! p = files w !! p) ∧
  cc_codec cc = ipc_codec (ipc c) ∧ cc_limits cc = from_config c ∧
  let '(l, w2, n2) := shutdown_server s w' n' in
  accept_task l = LoopEnded ∧
  (faults w (OpRemove (ipc_endpoint c)) = None →
   connect_transport (cc_transport cc) (cc_endpoint cc) n2 = Err (Io no_such_file)).
Proof.
  intros Ht. unfold start_server. rewrite Ht. destruct (ipc_enabled (ipc c)); [|done]. simpl.
  destruct (remove_endpoint (ipc_endpoint c) w n) as [[r w1] n1] eqn:E1.
  apply remove_endpoint_spec in E1 as (Hso & Hf & _ & Hfa & _ & Hn & _).
  unfold unix_bind. destruct (bind_faults n1 _); [done|]. destruct (_ || _); [done|].
  intros [= <- <- <-]. unfold shutdown_server, remove_cleanup_path. simpl. rewrite Ht. simpl.
  rewrite lookup_insert_eq.
  case_remove r2 w2 n2 E2.
  apply remove_endpoint_spec in E2 as (_ & _ & Hgone & _).
  split_and!; [done|by rewrite Hn|by rewrite Hn| |done..|].
  - intros p Hp. rewrite lookup_insert_ne by done. split; auto.
  - intros Hw. rewrite Hgone; [done|]. by rewrite Hfa.
Qed.

(** A server that shuts down after its successor has started takes the
    successor's endpoint away: the socket is removed by name.  The successor
    keeps accepting on a socket no client can reach. *)
Theorem shutdown_unlinks_successor c w0 n0 a w1 n1 b w2 n2 :
  ipc_transport (ipc c) = UnixSocket →
  start_server c w0 n0 = (Ok (Some a), w1, n1) → start_server c w1 n1 = (Ok (Some b), w2, n2) →
  faults w0 (OpRemove (ipc_endpoint c)) = None →
  let '(_, _, n3) := shutdown_server a w2 n2 in
  accept_task (loop_ b) = Accepting ∧ socket b ≠ socket a ∧
  connect_transport UnixSocket (ipc_endpoint c) n3 = Err (Io no_such_file).
Proof.
  intros Ht Ha Hb Hw. unfold start_server in Ha, Hb. rewrite Ht in Ha, Hb.
  destruct (ipc_enabled (ipc c)); [|done]. simpl in Ha, Hb.
  destruct (remove_endpoint _ w0 n0) as [[r1 x1] m1] eqn:E1.
  apply remove_endpoint_spec in E1 as (_ & _ & _ & Hf1 & _ & Hn1 & _).
  unfold unix_bind in Ha. destruct (bind_faults m1 _); [done|]. destruct (_ || _); [done|]. simplify_eq.
  case_remove r2 x2 m2 E2.
  apply remove_endpoint_spec in E2 as (_ & _ & _ & Hf2 & _ & Hn2 & _).
  unfold unix_bind in Hb. destruct (bind_faults m2 _); [done|]. destruct (_ || _); [done|]. simplify_eq.
  unfold shutdown_server, remove_cleanup_path. simpl.
  case_remove r3 x3 m3 E3.
  apply remove_endpoint_spec in E3 as (_ & _ & Hgone & _).
  split_and!; [done| |].
  - simpl in Hn2. intros [=]. rewrite Hn2 in *. lia.
  - rewrite Hgone; [done|]. by rewrite Hf2, Hf1.
Qed.

(** A host with a stale socket at the endpoint. *)
Definition demo_config : ServiceConfig := default_config false None.
Definition demo_net : net := mkNet {[ipc_endpoint demo_config := 0%N]} 1 (λ _, None) (λ _, None).
Definition demo_host : world := sample_world (lit "f") [].

Lemma server_endpoint_witness :
  ∃ s w' n', start_server demo_config demo_host demo_net = (Ok (Some s), w', n') ∧
    connect_transport UnixSocket (ipc_endpoint demo_config) n' = Ok (socket s).
Proof.
  destruct (start_server demo_config demo_host demo_net) as [[[[s|]|] w'] n'] eqn:E;
    [|exfalso; vm_compute in E; discriminate..].
  exists s, w', n'. split; [reflexivity|].
  exact (proj1 (server_endpoint demo_config demo_host demo_net s w' n' eq_refl E)).
Defined.

Lemma shutdown_unlinks_successor_witness :
  ∃ a w1 n1 b w2 n2,
    start_server demo_config demo_host demo_net = (Ok (Some a), w1, n1) ∧
    start_server demo_config w1 n1 = (Ok (Some b), w2, n2) ∧
    let '(_, _, n3) := shutdown_server a w2 n2 in
    accept_task (loop_ b) = Accepting ∧ socket b ≠ socket a ∧
    connect_transport UnixSocket (ipc_endpoint demo_config) n3 = Err (Io no_such_file).
Proof.
  destruct (start_server demo_config demo_host demo_net) as [[[[a|]|] w1] n1] eqn:Ea;
    [|exfalso; vm_compute in Ea; discriminate..].
  assert (H : (let '(_, w1, n1) := start_server demo_config demo_host demo_net in
               match (start_server demo_config w1 n1).1.1 with Ok (Some _) => true | _ => false end) = true)
    by (vm_compute; reflexivity).
  rewrite Ea in H.
  destruct (start_server demo_config w1 n1) as [[[[b|]|] w2] n2] eqn:Eb;
    [|exfalso; discriminate H..].
  exists a, w1, n1, b, w2, n2. split; [reflexivity|]. split; [exact Eb|].
  exact (shutdown_unlinks_successor demo_config demo_host demo_net a w1 n1 b w2 n2 eq_refl Ea Eb eq_refl).
Defined.
