(* ===== verification/NamedPipe.v ===== *)
(** * The named pipe listener

    [start_named_pipe_server] of [crates/mutsuki-service-ipc/src/transport.rs],
    on Windows: a loop that waits on one instance of the pipe and creates the
    next one when a client connects.  A label says what the loop's environment
    does next, as for the other listeners ([Transport]). *)

From S2P Require Import Prelude Text ConfigTypes Frame Fs Transport.

(** [named_pipe_path]. *)
Definition pipe_prefix : text := lit "\\.\pipe\".
Definition named_pipe_path (name : text) : text :=
  if starts_with pipe_prefix name then name else pipe_prefix ++ name.

Record pipe_listener : Type := mkPipe {
  pipe_path : text;
  instance : option N;                         (* the one the loop waits on *)
  instances : N;                               (* how many were created *)
  pipe_draining : bool; pipe_sender : bool;
  pipe_task : accept_phase;
  connected : list N;                          (* instances handed to [serve_stream] *)
}.

(** The first instance is created before the loop is spawned. *)
Definition start_named_pipe_server (name : text) (create : text → result unit io_error) : IpcResult pipe_listener :=
  let path := named_pipe_path name in
  match create path with
  | Err e => Err (Io e)
  | Ok _ => Ok (mkPipe path (Some 0%N) 1 false true Accepting [])
  end.

Inductive pipe_label : Type :=
| PipeDrain | PipeDropSender | PipeAbort
(* [server.connect()] returns, and what creating the next instance answers *)
| PipeConnect (r : result unit io_error) (next : result unit io_error).

Definition end_loop (p : pipe_listener) : pipe_listener :=
  mkPipe (pipe_path p) None (instances p) (pipe_draining p) (pipe_sender p) LoopEnded (connected p).

Definition pipe_step (lb : pipe_label) (p : pipe_listener) : pipe_listener :=
  match lb with
  | PipeDrain =>
      mkPipe (pipe_path p) (instance p) (instances p) true (pipe_sender p) (pipe_task p) (connected p)
  | PipeDropSender =>
      mkPipe (pipe_path p) (instance p) (instances p) (pipe_draining p) false (pipe_task p) (connected p)
  | PipeAbort => end_loop p
  | PipeConnect r next =>
      match pipe_task p, instance p with
      | Accepting, Some i =>
          if pipe_draining p || negb (pipe_sender p) then end_loop p       (* biased *)
          else
            match r with
            | Err _ => p
            | Ok _ =>
                let p := mkPipe (pipe_path p) None (instances p) (pipe_draining p) (pipe_sender p)
                           (pipe_task p) (connected p ++ [i]) in
                match next with
                | Err _ => end_loop p
                | Ok _ => mkPipe (pipe_path p) (Some (instances p)) (instances p + 1) (pipe_draining p)
                            (pipe_sender p) (pipe_task p) (connected p)
                end
            end
      | _, _ => p
      end
  end.

Definition pipe_run (ls : list pipe_label) (p : pipe_listener) : pipe_listener :=
  fold_left (λ p lb, pipe_step lb p) ls p.

(** ** The specification *)

(** How many clients the loop takes: those that connect before it ends. *)
Fixpoint taken (ls : list pipe_label) : nat :=
  match ls with
  | PipeConnect (Err _) _ :: ls => taken ls
  | PipeConnect (Ok _) (Ok _) :: ls => S (taken ls)
  | PipeConnect (Ok _) (Err _) :: _ => 1
  | _ => 0
  end.

(** ** Lemmas *)

(** While the loop accepts it waits on the newest instance, and the others were
    handed over in order. *)
Record pipe_ok (p : pipe_listener) : Prop := mkPipeOk {
  ok_waiting : pipe_task p = Accepting → ∃ n, instance p = Some n ∧ instances p = (n + 1)%N ∧
    connected p = N.of_nat <$> seq 0 (N.to_nat n);
  ok_ended : pipe_task p = LoopEnded → instance p = None ∧
    ∃ n, connected p = N.of_nat <$> seq 0 n ∧ (n ≤ N.to_nat (instances p))%nat;
}.

Lemma pipe_step_ok lb p : pipe_ok p → pipe_ok (pipe_step lb p).
Proof.
  intros Hp. pose proof Hp as [Hw He]. destruct lb as [| | |r next]; simpl.
  - by split.
  - by split.
  - split; [done|]. intros _. simpl. split; [done|]. destruct (pipe_task p) eqn:Et.
    + destruct (Hw eq_refl) as (n & _ & Hi & ->). exists (N.to_nat n). split; [done|lia].
    + exact (proj2 (He eq_refl)).
  - destruct (pipe_task p) eqn:Et; [|exact Hp].
    destruct (Hw eq_refl) as (n & Hn & Hi & Hc). rewrite Hn.
    assert (Hend : ∀ m, (m = N.to_nat n ∨ m = S (N.to_nat n)) →
      ∀ p', pipe_task p' = LoopEnded → instance p' = None → instances p' = instances p →
        connected p' = N.of_nat <$> seq 0 m → pipe_ok p').
    { intros m Hm p' Ht Hi' Hn' Hc'. split; [by rewrite Ht|]. intros _. split; [done|].
      exists m. split; [done|]. rewrite Hn', Hi. lia. }
    assert (Hsnoc : connected p ++ [n] = N.of_nat <$> seq 0 (S (N.to_nat n))).
    { rewrite Hc, seq_S, fmap_app. simpl. by rewrite N2Nat.id. }
    destruct (pipe_draining p || negb (pipe_sender p)); [by eapply (Hend (N.to_nat n)); auto|].
    destruct r; [|exact Hp].
    destruct next; simpl.
    + split; [|done]. intros _. exists (instances p). split_and!; [done|done|].
      simpl. rewrite Hsnoc. do 2 f_equal. lia.
    + by eapply (Hend (S (N.to_nat n))); auto.
Qed.

Lemma pipe_run_ok ls p : pipe_ok p → pipe_ok (pipe_run ls p).
Proof. revert p. induction ls as [|lb ls IH]; intros p Hp; [done|]. apply IH. by apply pipe_step_ok. Qed.

(** A loop that ended, or will when it runs. *)
Definition pipe_over (p : pipe_listener) : bool :=
  bool_decide (pipe_task p = LoopEnded) || pipe_draining p || negb (pipe_sender p).

Lemma pipe_over_run ls p : pipe_over p = true → connected (pipe_run ls p) = connected p.
Proof.
  revert p. induction ls as [|lb ls IH]; intros p Ho; [done|].
  assert (Hs : pipe_over (pipe_step lb p) = true ∧ connected (pipe_step lb p) = connected p).
  { unfold pipe_over in *. destruct p as [pp i n d s [] c]; destruct lb as [| | |r next]; simpl in *;
      rewrite ?orb_true_r; try done. destruct i; [by rewrite Ho|done]. }
  destruct Hs as [H1 H2]. simpl. by rewrite IH.
Qed.

Lemma pipe_run_taken ls p :
  pipe_ok p → pipe_over p = false →
  List.length (connected (pipe_run ls p)) = (List.length (connected p) + taken ls)%nat.
Proof.
  revert p. induction ls as [|lb ls IH]; intros p Hp Ho; [simpl; lia|].
  assert (Hend : ∀ p', pipe_step lb p = p' → pipe_over p' = true →
    List.length (connected (pipe_run (lb :: ls) p)) = List.length (connected p')).
  { intros p' El Hl. simpl. rewrite El. by rewrite pipe_over_run. }
  pose proof (pipe_step_ok lb p Hp) as Hp'.
  destruct lb as [| | |r next]; [rewrite (Hend _ eq_refl); [simpl; lia|]; unfold pipe_over; simpl; by rewrite ?orb_true_r..|].
  unfold pipe_over in Ho. apply orb_false_elim in Ho as [[Ht Hd]%orb_false_elim Hs].
  apply bool_decide_eq_false in Ht. destruct (pipe_task p) eqn:Et; [|done].
  destruct (ok_waiting _ Hp Et) as (n & Hn & _ & _).
  change (pipe_run (PipeConnect r next :: ls) p) with (pipe_run ls (pipe_step (PipeConnect r next) p)) in *.
  assert (Hst : pipe_step (PipeConnect r next) p =
    match r with
    | Err _ => p
    | Ok _ =>
        let p := mkPipe (pipe_path p) None (instances p) (pipe_draining p) (pipe_sender p) (pipe_task p) (connected p ++ [n]) in
        match next with
        | Err _ => end_loop p
        | Ok _ => mkPipe (pipe_path p) (Some (instances p)) (instances p + 1) (pipe_draining p) (pipe_sender p)
                    (pipe_task p) (connected p)
        end
    end) by (simpl; by rewrite Et, Hn, Hd, Hs).
  rewrite Hst in Hp' |- *. destruct r as [x|e]; [destruct next as [y|e]|].
  - rewrite IH; [simpl; rewrite length_app; simpl; lia|done|]. unfold pipe_over. simpl. by rewrite Et, Hd, Hs.
  - rewrite pipe_over_run by done. simpl. rewrite length_app. simpl. lia.
  - rewrite IH; [done|done|]. unfold pipe_over. by rewrite Et, Hd, Hs.
Qed.

(** ** Properties *)

(** A named pipe server is there for the next client as long as it runs:
    under every schedule it waits on an instance that no client has, every
    instance is handed over once and in the order they were created, and it
    hands over exactly the clients that connect before it is told to drain, is
    dropped or aborted, or cannot create the next instance; a connect that
    fails does not end it. *)
Theorem pipe_serves_each name create p ls :
  start_named_pipe_server name create = Ok p →
  let p' := pipe_run ls p in
  connected p' = N.of_nat <$> seq 0 (taken ls) ∧
  (pipe_task p' = Accepting → instance p' = Some (N.of_nat (taken ls)) ∧ N.of_nat (taken ls) ∉ connected p') ∧
  (pipe_task p' = LoopEnded → instance p' = None) ∧
  starts_with pipe_prefix (pipe_path p) = true.
Proof.
  unfold start_named_pipe_server. destruct (create _); [|done]. intros [= <-]. cbv zeta.
  set (p := mkPipe _ _ _ _ _ _ _).
  assert (Hp : pipe_ok p) by (split; [intros _; by exists 0%N|done]).
  pose proof (pipe_run_ok ls p Hp) as [Hw He]. pose proof (pipe_run_taken ls p Hp eq_refl) as Hl. simpl in Hl.
  assert (Hc : connected (pipe_run ls p) = N.of_nat <$> seq 0 (taken ls)).
  { destruct (pipe_task (pipe_run ls p)).
    - destruct (Hw eq_refl) as (n & _ & _ & Hc). rewrite Hc in Hl |- *.
      rewrite length_fmap, length_seq in Hl. by rewrite Hl.
    - destruct (He eq_refl) as (_ & n & Hc & _). rewrite Hc in Hl |- *.
      rewrite length_fmap, length_seq in Hl. by rewrite Hl. }
  split_and!; [done| |intros Ht; apply (He Ht)|].
  - intros Ht. destruct (Hw Ht) as (n & -> & _ & Hc'). rewrite Hc' in Hl.
    rewrite length_fmap, length_seq in Hl. split; [f_equal; lia|]. rewrite Hc.
    intros (k & Hk & Hin)%list_elem_of_fmap. apply elem_of_seq in Hin. lia.
  - simpl. unfold named_pipe_path. destruct (starts_with pipe_prefix name) eqn:E; [done|].
    apply starts_with_spec. by eexists.
Qed.

(** Two clients, a failed connect, and a third client after which no instance
    could be created. *)
Lemma pipe_serves_each_witness :
  ∃ p, start_named_pipe_server (lit "mutsuki") (λ _, Ok tt) = Ok p ∧
    connected (pipe_run [PipeConnect (Ok tt) (Ok tt); PipeConnect (Err no_such_file) (Ok tt);
      PipeConnect (Ok tt) (Err no_such_file); PipeConnect (Ok tt) (Ok tt)] p) = [0%N; 1%N].
Proof.
  eexists. split; [reflexivity|].
  exact (proj1 (pipe_serves_each (lit "mutsuki") (λ _, Ok tt) _
    [PipeConnect (Ok tt) (Ok tt); PipeConnect (Err no_such_file) (Ok tt);
      PipeConnect (Ok tt) (Err no_such_file); PipeConnect (Ok tt) (Ok tt)] eq_refl)).
Defined.
