(* ===== verification/Link.v ===== *)
(** * The link control bridge

    [crates/mutsuki-service-link/src]: control requests over MutsukiLink, one
    request per connection.  A connection answers each poll at a time with
    something, nothing yet, or a failure; [send_json] and [recv_json] poll it
    until their deadline.  The local server serves its connections one after
    the other, the QUIC server each in a task of its own; the clients are
    control handlers that relay.  TLS identities come from PEM texts. *)

From S2P Require Import Prelude Text Value Control ConfigTypes Frame Fs.

(** ** Polling a connection *)

Inductive poll {A : Type} : Type := Ready (a : A) | WouldBlock | Broken (e : text).
Arguments poll : clear implicits.

(** The polls of one wait, with the time in milliseconds at which each ended. *)
Abbreviation timeline A := (list (N * poll A)).

Definition LINK_DEADLINE : N := 5000.

(** The loops of [send_json] and [recv_json]; [None]: they still wait. *)
Fixpoint poll_until {A} (deadline : N) (timed_out : text) (l : timeline A) : option (result A text) :=
  match l with
  | [] => None
  | (_, Ready a) :: _ => Some (Ok a)
  | (_, Broken e) :: _ => Some (Err e)
  | (t, WouldBlock) :: l => if (deadline <=? t)%N then Some (Err timed_out) else poll_until deadline timed_out l
  end.

(** What was sent. *)
Definition send_json (encoded : result (list byte) text) (now : N) (l : timeline unit)
    : option (result (list byte) text) :=
  match encoded with
  | Err e => Some (Err e)
  | Ok bytes =>
      r ← poll_until (now + LINK_DEADLINE) (lit "send timed out") l;
      Some (let? _ := r in Ok bytes)
  end.

(** A poll gives a frame or the end of the connection. *)
Definition recv_json {A} (decode : list byte → result A text) (now : N) (l : timeline (option (list byte)))
    : option (result A text) :=
  r ← poll_until (now + LINK_DEADLINE) (lit "receive timed out") l;
  Some (let? o := r in
        match o with
        | Some bytes => decode bytes
        | None => Err (lit "connection closed before frame")
        end).

(** ** Frames *)

Definition SERVICE_LINK_APP_ID : text := lit "mutsuki.servicehost".

Inductive LinkControlRejectCode : Type := ProtocolIncompatible | InvalidRequest | Internal.

Definition reject_code_debug (c : LinkControlRejectCode) : text :=
  match c with
  | ProtocolIncompatible => lit "ProtocolIncompatible"
  | InvalidRequest => lit "InvalidRequest"
  | Internal => lit "Internal"
  end.

Inductive LinkControlClientFrame : Type := ClientRequest (r : ControlRequest).
Inductive LinkControlServerFrame : Type :=
| ServerResponse (r : ControlResponse)
| Rejected (code : LinkControlRejectCode) (message : text).

(** [serde_json] on frames. *)
Class LinkWire : Type := {
  client_to_vec : LinkControlClientFrame → result (list byte) text;
  client_from_slice : list byte → result LinkControlClientFrame text;
  server_to_vec : LinkControlServerFrame → result (list byte) text;
  server_from_slice : list byte → result LinkControlServerFrame text;
}.

(** The parser reads what the serializer wrote. *)
Class LinkWireOk `{LinkWire} : Prop := {
  client_roundtrip f bytes : client_to_vec f = Ok bytes → client_from_slice bytes = Ok f;
  server_roundtrip f bytes : server_to_vec f = Ok bytes → server_from_slice bytes = Ok f;
}.

Section link.
Context `{LinkWire} {S : Type} `{!ControlHandler S}.

(** ** Servers *)

(** The server's end of a connection: when it starts to wait and what it polls,
    then when its answer is ready and what sending polls. *)
Record server_end : Type := mkServerEnd {
  se_now : N; se_recv : timeline (option (list byte)); se_ready : N; se_send : timeline unit;
}.

(** [serve_connection]: what was sent, if the send succeeded. *)
Definition serve_connection (c : server_end) (st : S) : option (S * option (list byte)) :=
  let answer frame st :=
    r ← send_json (server_to_vec frame) (se_ready c) (se_send c);
    Some (st, match r with Ok bytes => Some bytes | Err _ => None end) in
  match recv_json client_from_slice (se_now c) (se_recv c) with
  | None => None
  | Some (Err message) => answer (Rejected InvalidRequest message) st
  | Some (Ok (ClientRequest request)) =>
      let '(st, response) := handle request st in
      answer (ServerResponse response) st
  end.

(** The accept loop of [LinkControlServer]: a failed accept is retried, and a
    connection is served to its end before the next is accepted. *)
Fixpoint link_accept_loop (l : list (option server_end)) (st : S) : S * list (option (list byte)) :=
  match l with
  | [] => (st, [])
  | None :: l => link_accept_loop l st
  | Some c :: l =>
      match serve_connection c st with
      | None => (match recv_json client_from_slice (se_now c) (se_recv c) with
                 | Some (Ok (ClientRequest request)) => (handle request st).1
                 | _ => st
                 end, [])
      | Some (st, sent) => let '(st, rest) := link_accept_loop l st in (st, sent :: rest)
      end
  end.

(** The tasks of [QuicLinkControlServer] run in any order. *)
Definition quic_serve_connection (c : server_end) (st : S) : option (S * option (list byte)) :=
  serve_connection c st.

(** [LinkControlServer::start], given what the local transport answers. *)
Inductive LinkControlServerError : Type := InvalidAppId | BindFailed (e : text) | LeaseFailed (e : text).

Definition link_server_start {Lease Listener : Type} (app : option text) (lease : result Lease text)
    (listener : result Listener text) : result (Lease * Listener) LinkControlServerError :=
  match app with
  | None => Err InvalidAppId
  | Some _ =>
      let? lease := map_err LeaseFailed lease in
      let? listener := map_err BindFailed listener in
      Ok (lease, listener)
  end.

(** ** Clients *)

Definition STANDALONE_LINK_CONNECT_FAILED : text := lit "standalone.link_connect_failed".
Definition STANDALONE_LINK_PROTOCOL_ERROR : text := lit "standalone.link_protocol_error".
Definition STANDALONE_LINK_REJECTED : text := lit "standalone.link_rejected".
Definition STANDALONE_LINK_QUIC_UNAVAILABLE : text := lit "standalone.link_quic_unavailable".

(** The client's end: whether the app id is valid, whether it connected, and
    its polls. *)
Record client_end : Type := mkClientEnd {
  ce_app : bool; ce_connect : result unit text;
  ce_now : N; ce_send : timeline unit; ce_wait : N; ce_recv : timeline (option (list byte));
}.

Definition server_answer (f : LinkControlServerFrame) : result ControlResponse text :=
  match f with
  | ServerResponse r => Ok r
  | Rejected code message =>
      Err (STANDALONE_LINK_REJECTED ++ lit ": " ++ reject_code_debug code ++ lit ": " ++ message)
  end.

(** Sending the request and waiting for the answer; [sent] and [received] prefix
    the errors. *)
Definition exchange (sent received : text) (request : ControlRequest) (c : client_end)
    : option (result ControlResponse text) :=
  s ← send_json (client_to_vec (ClientRequest request)) (ce_now c) (ce_send c);
  match s with
  | Err e => Some (Err (STANDALONE_LINK_PROTOCOL_ERROR ++ lit ": " ++ sent ++ e))
  | Ok _ =>
      r ← recv_json server_from_slice (ce_wait c) (ce_recv c);
      Some (let? f := map_err (λ e, STANDALONE_LINK_PROTOCOL_ERROR ++ lit ": " ++ received ++ e) r in
            server_answer f)
  end.

Definition relay_request (app_id : text) (request : ControlRequest) (c : client_end)
    : option (result ControlResponse text) :=
  if negb (ce_app c) then
    Some (Err (STANDALONE_LINK_CONNECT_FAILED ++ lit ": invalid link app id `" ++ app_id ++ lit "`"))
  else
    match ce_connect c with
    | Err e => Some (Err (STANDALONE_LINK_CONNECT_FAILED ++ lit ": could not reach ServiceHost link endpoint `"
                          ++ app_id ++ lit "` (" ++ e ++ lit ")"))
    | Ok _ => exchange [] [] request c
    end.

(** [connector] is the result of creating the QUIC connector. *)
Definition relay_quic (addr : text) (connector : result unit text) (request : ControlRequest) (c : client_end)
    : option (result ControlResponse text) :=
  match connector with
  | Err e => Some (Err (STANDALONE_LINK_QUIC_UNAVAILABLE ++ lit ": failed to create QUIC connector (" ++ e ++ lit ")"))
  | Ok _ =>
      match ce_connect c with
      | Err e => Some (Err (STANDALONE_LINK_CONNECT_FAILED ++ lit ": could not reach QUIC link endpoint `"
                            ++ addr ++ lit "` (" ++ e ++ lit ")"))
      | Ok _ => exchange (lit "send: ") (lit "recv: ") request c
      end
  end.

(** A relayed error is a failed operation. *)
Definition relayed (r : result ControlResponse text) : ControlResponse :=
  match r with Ok response => response | Err e => response_err (Failed e) end.

Definition forward_request (app_id : text) (request : ControlRequest) (c : client_end) : option ControlResponse :=
  relayed <$> relay_request app_id request c.
Definition quic_handle (addr : text) (connector : result unit text) (request : ControlRequest) (c : client_end)
    : option ControlResponse :=
  relayed <$> relay_quic addr connector request c.

End link.

(** ** TLS identities *)

Inductive TlsIdentityError : Type :=
| EmptyCertPem | EmptyKeyPem | EmptyCaPem
| InvalidCertPem (e : text) | InvalidKeyPem (e : text) | InvalidCaPem (e : text)
| MissingCertificate | ServerConfigError (e : text) | ClientConfigError (e : text).

(** rustls and quinn. *)
Class Tls : Type := {
  Certificate : Type; PrivateKey : Type; RootStore : Type; ServerTls : Type; ClientTls : Type;
  pem_certificates : text → list (result Certificate text);
  pem_key : text → result PrivateKey text;
  with_single_cert : list Certificate → PrivateKey → result ServerTls text;
  empty_store : RootStore;
  add_root : Certificate → RootStore → result RootStore text;
  with_root_certificates : RootStore → result ClientTls text;
}.

Section tls.
Context `{Tls}.

Definition server_config_from_pem (cert_pem key_pem : text) : result ServerTls TlsIdentityError :=
  if is_empty (trim cert_pem) then Err EmptyCertPem
  else if is_empty (trim key_pem) then Err EmptyKeyPem
  else
    let? certs := map_err InvalidCertPem (collect_results (pem_certificates cert_pem)) in
    match certs with
    | [] => Err MissingCertificate
    | _ =>
        let? key := map_err InvalidKeyPem (pem_key key_pem) in
        map_err ServerConfigError (with_single_cert certs key)
    end.

Fixpoint add_roots (certs : list Certificate) (roots : RootStore) : result RootStore TlsIdentityError :=
  match certs with
  | [] => Ok roots
  | cert :: certs =>
      let? roots := map_err InvalidCaPem (add_root cert roots) in
      add_roots certs roots
  end.

Definition client_config_from_ca_pem (ca_pem : text) : result ClientTls TlsIdentityError :=
  if is_empty (trim ca_pem) then Err EmptyCaPem
  else
    let? certs := map_err InvalidCaPem (collect_results (pem_certificates ca_pem)) in
    match certs with
    | [] => Err MissingCertificate
    | _ =>
        let? roots := add_roots certs empty_store in
        map_err ClientConfigError (with_root_certificates roots)
    end.

End tls.

(** ** Lemmas *)

(** A poll that ends a wait. *)
Definition decides {A} (deadline : N) (p : N * poll A) : Prop :=
  match p.2 with WouldBlock => (deadline ≤ p.1)%N | _ => True end.

Lemma poll_until_first {A} deadline timed_out (l : timeline A) r :
  poll_until deadline timed_out l = Some r ↔
  ∃ before p after, l = before ++ p :: after ∧ Forall (λ q, q.2 = WouldBlock ∧ (q.1 < deadline)%N) before ∧
    decides deadline p ∧
    r = match p.2 with Ready a => Ok a | WouldBlock => Err timed_out | Broken e => Err e end.
Proof.
  split.
  - induction l as [|[t p] l IH]; simpl; [done|]. destruct p as [a| |e].
    + intros [= <-]. by exists [], (t, Ready a), l.
    + destruct (N.leb_spec deadline t) as [Hd|Hd]; [intros [= <-]; by exists [], (t, WouldBlock), l|].
      intros Hr. destruct (IH Hr) as (b & p & a & -> & Hb & Hp & ->).
      exists ((t, WouldBlock) :: b), p, a. split_and!; [done|by constructor|done|done].
    + intros [= <-]. by exists [], (t, Broken e), l.
  - intros (b & p & a & -> & Hb & Hp & ->). induction Hb as [|[t q] b [Hq Ht] Hb IH]; simpl in *.
    + destruct p as [t [x| |e]]; simpl in *; [done| |done]. unfold decides in Hp. simpl in Hp.
      by rewrite (proj2 (N.leb_le _ _) Hp).
    + subst q. by rewrite (proj2 (N.leb_gt _ _) Ht).
Qed.

Lemma poll_until_ends {A} deadline timed_out (l : timeline A) :
  Exists (decides deadline) l → is_Some (poll_until deadline timed_out l).
Proof.
  induction 1 as [[t p] l Hp|[t p] l Hl IH]; simpl.
  - destruct p; [done| |done]. unfold decides in Hp. simpl in Hp. by rewrite (proj2 (N.leb_le _ _) Hp).
  - destruct p; [done| |done]. by destruct (deadline <=? t)%N.
Qed.

Section lemmas.
Context `{LinkWire} {S : Type} `{!ControlHandler S}.

(** The request that a connection brings, if it brings one. *)
Definition connection_request (c : server_end) : option ControlRequest :=
  match recv_json client_from_slice (se_now c) (se_recv c) with
  | Some (Ok (ClientRequest r)) => Some r
  | _ => None
  end.

Lemma serve_connection_state c st st' sent :
  serve_connection c st = Some (st', sent) →
  st' = match connection_request c with Some r => (handle r st).1 | None => st end.
Proof.
  unfold serve_connection, connection_request.
  destruct (recv_json _ _ _) as [[[r]|e]|]; [| |done].
  - destruct (handle r st) as [s response]. destruct (send_json _ _ _); [|done]. simpl. by intros [= <- _].
  - destruct (send_json _ _ _); [|done]. simpl. by intros [= <- _].
Qed.

(** ** Properties *)

(** A wait of the bridge ends by its deadline, with the first answer the
    connection gave before it: a frame or a failure counts, and "nothing yet"
    only at or after the deadline, where the wait reports a timeout. *)
Theorem link_wait_bounded {A} (decode : list byte → result A text) now l :
  Exists (λ p, (now + LINK_DEADLINE ≤ p.1)%N) l →
  ∃ r before p after, recv_json decode now l = Some r ∧ l = before ++ p :: after ∧
    Forall (λ q, q.2 = WouldBlock ∧ (q.1 < now + LINK_DEADLINE)%N) before ∧
    r = match p.2 with
        | Ready (Some bytes) => decode bytes
        | Ready None => Err (lit "connection closed before frame")
        | WouldBlock => Err (lit "receive timed out")
        | Broken e => Err e
        end.
Proof.
  intros He. assert (Hd : Exists (decides (now + LINK_DEADLINE)) l).
  { eapply Exists_impl; [exact He|]. intros [t p] Ht. unfold decides. simpl in *. by destruct p. }
  destruct (poll_until_ends (now + LINK_DEADLINE) (lit "receive timed out") l Hd) as [r Hr].
  pose proof Hr as Hf. apply poll_until_first in Hf as (b & p & a & -> & Hb & _ & ->).
  unfold recv_json. rewrite Hr. do 4 eexists. split_and!; [done|done|exact Hb|].
  by destruct p as [t [[x|]| |e]].
Qed.


(** The local bridge serves one connection after the other: the handler sees
    the requests of the connections in the order they were accepted, one at most
    of each and none of a malformed frame, and a connection that does not come
    to its end keeps all later ones from being served. *)
Theorem link_serves_in_order (l : list (option server_end)) (st : S) :
  let '(st', sent) := link_accept_loop l st in
  let connections := omap id l in
  st' = fold_left (λ st r, (handle r st).1)
          (omap connection_request (take (Datatypes.S (List.length sent)) connections)) st ∧
  (List.length sent ≤ List.length connections)%nat.
Proof.
  revert st. induction l as [|[c|] l IH]; intros st; [done| |apply IH].
  cbn [link_accept_loop]. destruct (serve_connection c st) as [[st1 sent]|] eqn:E.
  - pose proof (serve_connection_state _ _ _ _ E) as Hst. specialize (IH st1).
    destruct (link_accept_loop l st1) as [st' rest]. destruct IH as [-> Hlen].
    change (omap id (Some c :: l)) with (c :: omap id l). cbn [List.length]. split; [|lia].
    subst st1. cbn [take omap list_omap]. by destruct (connection_request c).
  - simpl. split; [|lia]. unfold connection_request.
    destruct (recv_json _ _ _) as [[[r]|e]|]; done.
Qed.

End lemmas.

(** ** Witnesses *)

Module Sample.

(** A handler that counts its requests. *)
#[export] Instance counter : ControlHandler N := λ _ n, ((n + 1)%N, empty_ok).

Definition request : ControlRequest := mkRequest (lit "local-dev") HealthCheck JNull.

(** One request and one response can be written. *)
#[export] Instance wire : LinkWire := {|
  client_to_vec f :=
    match f with
    | ClientRequest (mkRequest t HealthCheck JNull) =>
        if text_eqb t (lit "local-dev") then Ok [x01] else Err (lit "unsupported")
    | _ => Err (lit "unsupported")
    end;
  client_from_slice b := if bool_decide (b = [x01]) then Ok (ClientRequest request) else Err (lit "expected value");
  server_to_vec f :=
    match f with
    | ServerResponse (mkResponse true (Some JNull) None) => Ok [x02]
    | _ => Err (lit "unsupported")
    end;
  server_from_slice b := if bool_decide (b = [x02]) then Ok (ServerResponse empty_ok) else Err (lit "expected value");
|}.

#[export] Instance wire_ok : LinkWireOk.
Proof.
  split.
  - intros [[t m p]] bytes. cbn. destruct m; try done. destruct p; try done.
    destruct (text_eqb t _) eqn:E; [|done]. apply text_eqb_eq in E as ->. by intros [= <-].
  - intros [[ok r e]|code m] bytes; cbn; [|done]. destruct ok; [|done]. destruct r as [[]|]; try done.
    destruct e; [done|]. by intros [= <-].
Qed.

Definition client (answer : timeline (option (list byte))) : client_end :=
  mkClientEnd true (Ok tt) 0 [(0%N, Ready tt)] 5 answer.
Definition server : server_end := mkServerEnd 0 [(1%N, WouldBlock); (2%N, Ready (Some [x01]))] 7000 [(7000%N, Ready tt)].

End Sample.

Section witnesses.
Import Sample.

Lemma link_wait_bounded_witness :
  ∃ r before p after, recv_json client_from_slice 0 [(1%N, WouldBlock); (5000%N, WouldBlock)] = Some r ∧
    [(1%N, WouldBlock); (5000%N, WouldBlock)] = before ++ p :: after ∧
    Forall (λ q, q.2 = WouldBlock ∧ (q.1 < 0 + LINK_DEADLINE)%N) before ∧
    r = match p.2 with
        | Ready (Some bytes) => client_from_slice bytes
        | Ready None => Err (lit "connection closed before frame")
        | WouldBlock => Err (lit "receive timed out")
        | Broken e => Err e
        end.
Proof.
  apply (link_wait_bounded client_from_slice 0 [(1%N, WouldBlock); (5000%N, WouldBlock)]).
  apply Exists_cons_tl, Exists_cons_hd. by vm_compute.
Defined.

End witnesses.
