(* ===== verification/QuicServer.v ===== *)
(** * The QUIC control server

    [QuicLinkControlServer] of [crates/mutsuki-service-link/src/quic.rs]: the
    accept loop and the task of each connection, which run in any order.  A task
    receives its request, calls the handler and sends the answer the way
    [serve_connection] ([Link]) does. *)

From S2P Require Import Prelude Text Value Control ConfigTypes Frame Link.

Section server.
Context `{LinkWire} {S : Type} `{!ControlHandler S}.

(** [QuicLinkControlServer::start], up to the task it spawns. *)
Definition quic_server_start {Listener Address : Type} (listener : result Listener text)
    (local_addr : Listener → result Address text) : result (Listener * Address) text :=
  let? listener := map_err (app (lit "failed to bind QUIC link control endpoint: ")) listener in
  let? addr := map_err (app (lit "failed to resolve QUIC local addr: ")) (local_addr listener) in
  Ok (listener, addr).

(** Where the task of a connection is: it waits for its request, sends its
    answer, or closes its side. *)
Inductive quic_phase : Type :=
| QReceiving | QAnswering (frame : LinkControlServerFrame) | QClosing (sent : option (list byte)).

Record quic_server : Type := mkQuicServer {
  q_accepting : bool; q_tasks : list (server_end * quic_phase); q_state : S;
}.

Definition quic_start (st : S) : quic_server := mkQuicServer true [] st.

Inductive quic_label : Type :=
| QAccept (r : option server_end)     (* a failed accept sleeps and is retried *)
| QHandle (i : nat)
| QSend (i : nat)
| QDrop.                              (* the server is dropped: only the loop is aborted *)

Definition quic_accept (r : option server_end) (q : quic_server) : option quic_server :=
  if q_accepting q then
    Some (match r with
          | Some c => mkQuicServer true (q_tasks q ++ [(c, QReceiving)]) (q_state q)
          | None => q
          end)
  else None.

Definition quic_receive (i : nat) (q : quic_server) : option quic_server :=
  match q_tasks q !! i with
  | Some (c, QReceiving) =>
      let answers frame st := Some (mkQuicServer (q_accepting q) (<[i := (c, QAnswering frame)]> (q_tasks q)) st) in
      match recv_json client_from_slice (se_now c) (se_recv c) with
      | None => None
      | Some (Err message) => answers (Rejected InvalidRequest message) (q_state q)
      | Some (Ok (ClientRequest request)) =>
          let '(st, response) := handle request (q_state q) in answers (ServerResponse response) st
      end
  | _ => None
  end.

Definition quic_send (i : nat) (q : quic_server) : option quic_server :=
  match q_tasks q !! i with
  | Some (c, QAnswering frame) =>
      r ← send_json (server_to_vec frame) (se_ready c) (se_send c);
      Some (mkQuicServer (q_accepting q)
              (<[i := (c, QClosing (match r with Ok bytes => Some bytes | Err _ => None end))]> (q_tasks q)) (q_state q))
  | _ => None
  end.

Definition quic_step (lb : quic_label) (q : quic_server) : option quic_server :=
  match lb with
  | QAccept r => quic_accept r q
  | QHandle i => quic_receive i q
  | QSend i => quic_send i q
  | QDrop => Some (mkQuicServer false (q_tasks q) (q_state q))
  end.

Fixpoint quic_run (ls : list quic_label) (q : quic_server) : option quic_server :=
  match ls with
  | [] => Some q
  | lb :: ls => q' ← quic_step lb q; quic_run ls q'
  end.

(** ** The specification *)

(** The connections a schedule accepts, and those that got to the handler, in
    their order. *)
Definition quic_accepted (ls : list quic_label) : list server_end :=
  omap (λ lb, match lb with QAccept r => r | _ => None end) ls.
Definition quic_handled (ls : list quic_label) : list nat :=
  omap (λ lb, match lb with QHandle i => Some i | _ => None end) ls.

(** What the requests of some connections do, one after the other. *)
Definition serve_all (cs : list server_end) (st : S) : S :=
  fold_left (λ st c, match connection_request c with Some r => (handle r st).1 | None => st end) cs st.

(** A finished connection sent what [serve_connection] sends in some state. *)
Definition task_ok (t : server_end * quic_phase) : Prop :=
  match t.2 with
  | QReceiving => True
  | QAnswering frame =>
      ∃ st, match recv_json client_from_slice (se_now t.1) (se_recv t.1) with
            | None => False
            | Some (Err message) => frame = Rejected InvalidRequest message
            | Some (Ok (ClientRequest request)) => frame = ServerResponse (handle request st).2
            end
  | QClosing sent => ∃ st st', serve_connection t.1 st = Some (st', sent)
  end.

Definition received (t : server_end * quic_phase) : bool := match t.2 with QReceiving => false | _ => true end.

Record quic_inv (st0 : S) (past : list quic_label) (q : quic_server) : Prop := {
  qi_tasks : (q_tasks q).*1 = quic_accepted past;
  qi_handled : NoDup (quic_handled past);
  qi_received i : i ∈ quic_handled past ↔ ∃ t, q_tasks q !! i = Some t ∧ received t = true;
  qi_state : ∃ cs, mapM (λ i, quic_accepted past !! i) (quic_handled past) = Some cs ∧ q_state q = serve_all cs st0;
  qi_ok : Forall task_ok (q_tasks q);
}.

(** ** Lemmas *)

Lemma accepted_app ls lb : quic_accepted (ls ++ [lb]) = quic_accepted ls ++ quic_accepted [lb].
Proof. apply omap_app. Qed.
Lemma handled_app ls lb : quic_handled (ls ++ [lb]) = quic_handled ls ++ quic_handled [lb].
Proof. apply omap_app. Qed.

Lemma mapM_prefix {A} (l l' : list A) js cs :
  mapM (λ i, l !! i) js = Some cs → mapM (λ i, (l ++ l') !! i) js = Some cs.
Proof.
  rewrite !mapM_Some. intros Hf. eapply Forall2_impl; [exact Hf|]. intros i c Hi. simpl in *.
  by apply lookup_app_l_Some.
Qed.

Lemma quic_accept_inv st0 past q r q' :
  quic_inv st0 past q → quic_accept r q = Some q' → quic_inv st0 (past ++ [QAccept r]) q'.
Proof.
  intros [Ht Hn Hr (cs & Hcs & Hs) Ho]. unfold quic_accept. destruct (q_accepting q); [|done]. intros [= <-].
  split; rewrite ?handled_app, ?accepted_app; simpl; rewrite ?app_nil_r.
  - destruct r as [c|]; simpl; [by rewrite fmap_app, Ht|by rewrite app_nil_r].
  - done.
  - intros i. rewrite Hr. destruct r as [c|]; [|done]. simpl. split.
    + intros (t & Hi & Hrec). exists t. split; [by apply lookup_app_l_Some|done].
    + intros (t & [Hi|[_ Hi]]%lookup_app_Some & Hrec); [by exists t|].
      apply list_lookup_singleton_Some in Hi as [_ <-]. done.
  - exists cs. split; [by apply mapM_prefix|]. by destruct r.
  - destruct r as [c|]; [|done]. simpl. apply Forall_app. split; [done|]. by repeat constructor.
Qed.

Lemma quic_receive_inv st0 past q i q' :
  quic_inv st0 past q → quic_receive i q = Some q' → quic_inv st0 (past ++ [QHandle i]) q'.
Proof.
  intros [Ht Hn Hr (cs & Hcs & Hs) Ho]. unfold quic_receive. intros Hq.
  destruct (q_tasks q !! i) as [[c []]|] eqn:Ei; [|done..].
  assert (Hnew : i ∉ quic_handled past).
  { intros Hin. apply Hr in Hin as (t & Hi & Hrec). rewrite Ei in Hi. by injection Hi as <-. }
  assert (Hc : quic_accepted past !! i = Some c) by (by rewrite <-Ht, list_lookup_fmap, Ei).
  assert (Hlt := lookup_lt_Some _ _ _ Ei).
  assert (∃ frame st, q' = mkQuicServer (q_accepting q) (<[i:=(c, QAnswering frame)]> (q_tasks q)) st ∧
    task_ok (c, QAnswering frame) ∧ st = serve_all [c] (q_state q)) as (frame & st & -> & Hf & ->).
  { unfold task_ok, serve_all, connection_request. simpl.
    destruct (recv_json _ _ _) as [[[request]|message]|]; [| |done].
    - destruct (handle request (q_state q)) as [st response] eqn:Eh. injection Hq as <-.
      eexists _, _. split; [done|]. split; [exists (q_state q); by rewrite Eh|done].
    - injection Hq as <-. eexists _, _. split; [done|]. split; [by exists (q_state q)|done]. }
  split; rewrite ?handled_app, ?accepted_app; simpl; rewrite ?app_nil_r.
  - by rewrite list_fmap_insert, list_insert_id by by rewrite Ht.
  - apply NoDup_app. split_and!; [done| |apply NoDup_singleton]. by intros j Hj ->%list_elem_of_singleton.
  - intros j. rewrite elem_of_app, list_elem_of_singleton, Hr. destruct (decide (i = j)) as [<-|Hij].
    + rewrite list_lookup_insert_eq by done. split; [|by right]. intros _. by eexists.
    + rewrite list_lookup_insert_ne by done. naive_solver.
  - exists (cs ++ [c]). split; [|unfold serve_all; by rewrite fold_left_app, Hs].
    apply mapM_Some, Forall2_app; [by apply mapM_Some|]. by repeat constructor.
  - by apply Forall_insert.
Qed.

Lemma quic_send_inv st0 past q i q' :
  quic_inv st0 past q → quic_send i q = Some q' → quic_inv st0 (past ++ [QSend i]) q'.
Proof.
  intros [Ht Hn Hr Hs Ho]. unfold quic_send. intros Hq.
  destruct (q_tasks q !! i) as [[c [|frame|]]|] eqn:Ei; [done| |done..].
  apply bind_Some in Hq as (r & Hsend & [= <-]). assert (Hlt := lookup_lt_Some _ _ _ Ei).
  split; rewrite ?handled_app, ?accepted_app; simpl; rewrite ?app_nil_r; [|done| |done|].
  - rewrite list_fmap_insert, list_insert_id; [done|]. simpl. by rewrite list_lookup_fmap, Ei.
  - intros j. rewrite Hr. destruct (decide (i = j)) as [<-|Hij]; [|by rewrite list_lookup_insert_ne].
    rewrite list_lookup_insert_eq, Ei by done. split; intros (t & [= <-] & _); by eexists.
  - apply Forall_insert; [done|]. assert (Hf := proj1 (Forall_lookup _ _) Ho i _ Ei).
    unfold task_ok in *. simpl in *. unfold serve_connection. destruct Hf as [st Hf]. exists st.
    destruct (recv_json _ _ _) as [[[request]|message]|]; [| |done]; subst frame.
    + destruct (handle request st) as [st' response]. simpl in Hsend. rewrite Hsend. simpl. by eexists.
    + rewrite Hsend. simpl. by eexists.
Qed.

Lemma quic_run_inv st0 past ls q q' :
  quic_inv st0 past q → quic_run ls q = Some q' → quic_inv st0 (past ++ ls) q'.
Proof.
  revert past q. induction ls as [|lb ls IH]; intros past q Hi; simpl; [intros [= <-]; by rewrite app_nil_r|].
  intros (q1 & H1 & H2)%bind_Some. rewrite cons_middle, app_assoc. eapply IH; [|exact H2].
  destruct lb; simpl in H1; [by eapply quic_accept_inv|by eapply quic_receive_inv|by eapply quic_send_inv|].
  injection H1 as <-. destruct Hi as [Ht Hn Hr Hs Ho].
  split; rewrite ?handled_app, ?accepted_app; simpl; by rewrite ?app_nil_r.
Qed.

End server.

(** ** Properties *)

Section properties.
Context `{LinkWire} {S : Type} `{!ControlHandler S}.

(** The QUIC server under every schedule of its tasks: it serves the connections
    that were accepted before it was dropped, whatever accepts failed in between;
    the handler gets the request of each at most once, and the state is what
    these requests make of it in that order; a connection that is closed was sent
    what [serve_connection] sends; and no task holds up another: one that has its
    request, or whose wait is over, can go on, also when the server is gone. *)
Theorem quic_serves_each (st : S) ls q :
  quic_run ls (quic_start st) = Some q →
  (q_tasks q).*1 = quic_accepted ls ∧ NoDup (quic_handled ls) ∧
  (∃ cs, mapM (λ i, quic_accepted ls !! i) (quic_handled ls) = Some cs ∧ q_state q = serve_all cs st) ∧
  (∀ i c sent, q_tasks q !! i = Some (c, QClosing sent) →
     i ∈ quic_handled ls ∧ ∃ st1 st2, serve_connection c st1 = Some (st2, sent)) ∧
  (∀ i c, q_tasks q !! i = Some (c, QReceiving) →
     Exists (decides (se_now c + LINK_DEADLINE)) (se_recv c) → is_Some (quic_step (QHandle i) q)) ∧
  (∀ i c frame, q_tasks q !! i = Some (c, QAnswering frame) →
     Exists (decides (se_ready c + LINK_DEADLINE)) (se_send c) → is_Some (quic_step (QSend i) q)).
Proof.
  intros Hrun. assert (Hi : quic_inv st [] (quic_start st)).
  { split; simpl; [done|constructor| |by exists []|constructor]. intros i. rewrite elem_of_nil. naive_solver. }
  destruct (quic_run_inv st [] ls _ q Hi Hrun) as [Ht Hn Hr Hs Ho]. clear Hi Hrun.
  split_and!; [done..| | |].
  - intros i c sent Hq. split; [apply Hr; by eexists|]. exact (proj1 (Forall_lookup _ _) Ho i _ Hq).
  - intros i c Hq Hd. cbn [quic_step]. unfold quic_receive. rewrite Hq. unfold recv_json.
    apply (poll_until_ends _ (lit "receive timed out")) in Hd as [r ->]. simpl.
    destruct (let? o := r in _) as [[request]|message]; [|by eexists].
    destruct (handle request (q_state q)). by eexists.
  - intros i c frame Hq Hd. cbn [quic_step]. unfold quic_send. rewrite Hq. unfold send_json.
    destruct (server_to_vec frame) as [bytes|e]; [|by eexists].
    apply (poll_until_ends _ (lit "send timed out")) in Hd as [r ->]. simpl. by eexists.
Qed.
End properties.

Section witnesses.
Import Link.Sample.

(** Two connections that are answered after the server was dropped. *)
Lemma quic_serves_each_witness :
  let ls := [QAccept (Some server); QAccept None; QAccept (Some server); QDrop; QHandle 1; QHandle 0; QSend 0; QSend 1] in
  ∃ q, quic_run ls (quic_start 0%N) = Some q ∧ (q_tasks q).*1 = [server; server] ∧ NoDup (quic_handled ls) ∧
    q_state q = 2%N.
Proof.
  intros ls. destruct (quic_run ls (quic_start 0%N)) as [q|] eqn:E; [|vm_compute in E; discriminate E].
  destruct (quic_serves_each 0%N ls q E) as (Ht & Hn & _).
  exists q. split; [reflexivity|]. split; [exact Ht|]. split; [exact Hn|].
  vm_compute in E. injection E as <-. reflexivity.
Defined.
End witnesses.
