(* ===== verification/Secrets.v ===== *)
(** * Secrets

    [SecretStore], [HostSecretStore] and the secret file of
    [crates/mutsuki-service-config/src/lib.rs]: key normalization, validation,
    resolution and rotation.  The TOML parser and printer are an interface. *)

From S2P Require Import Prelude Text BTreeMap Value ConfigTypes Frame Fs.

(** ** TOML

    [toml::from_str] and [toml::to_string_pretty] at the types the host uses
    them with; an error is the library's message. *)
Class Toml : Type := {
  parse_config : text → result ServiceConfig text;
  parse_secret_file : text → result (btree text) text;
  print_secret_file : btree text → result text text;
  parse_document : text → result toml text;
  print_document : toml → result text text;
}.

(** Parsing gives ordered maps, and reads back what was printed. *)
Class TomlOk `{Toml} : Prop := {
  parse_secret_file_sorted t m : parse_secret_file t = Ok m → bsorted m;
  secret_file_law m t : print_secret_file m = Ok t → wf_text t ∧ parse_secret_file t = Ok m;
  document_law d t : print_document d = Ok t → wf_text t ∧ parse_document t = Ok d;
}.

(** ** Keys *)

Definition normalize_secret_key (key : text) : text :=
  (λ c, if is_ascii_alphanumeric c then ascii_upper c else 95%N) <$> trim key.

(** ** Validation *)

Fixpoint validate_loop (path : text) (entries : list (text * text)) (secrets : btree text)
    : ConfigResult (btree text) :=
  match entries with
  | [] => Ok secrets
  | (raw_key, value) :: rest =>
      let key := normalize_secret_key raw_key in
      if is_empty key then
        Err (InvalidSecretFile path (lit "secret key must not be empty"))
      else if is_empty (trim value) then
        Err (InvalidSecretFile path (lit "secret " ++ raw_key ++ lit " must not be empty"))
      else if bhas secrets key then
        Err (InvalidSecretFile path (lit "duplicate normalized secret key " ++ key))
      else validate_loop path rest (bset key value secrets)
  end.

Definition validate_secret_entries (path : text) (entries : btree text)
    : ConfigResult (btree text) := validate_loop path entries [].

(** ** The store

    The entries are shared by all clones of the handle: one state. *)
Record SecretStore : Type := mkSecretStore {
  entries : btree text;
  store_path : option text;
}.

Definition empty_store : SecretStore := mkSecretStore [] None.

Definition resolve (s : SecretStore) (key : text) : option text :=
  bget (entries s) (normalize_secret_key key).

Section toml.
Context `{Toml}.

Definition rotate (s : SecretStore) (key value : text) (w : world)
    : ConfigResult unit * SecretStore * world :=
  let key := normalize_secret_key key in
  if is_empty key || is_empty (trim value) then (Err (InvalidSecretValue key), s, w)
  else
    match store_path s with
    | None => (Err SecretRotationUnavailable, s, w)
    | Some path =>
        match map_err (ReadSecretFile path) (read_to_string w path) with
        | Err e => (Err e, s, w)
        | Ok content =>
            match map_err (ParseSecretFile path) (parse_secret_file content) with
            | Err e => (Err e, s, w)
            | Ok file =>
                let file := bset key value
                  (bretain (λ candidate _, negb (text_eqb (normalize_secret_key candidate) key)) file) in
                match map_err (InvalidSecretFile path) (print_secret_file file) with
                | Err e => (Err e, s, w)
                | Ok content =>
                    match atomic_write path (utf8 content) true w with
                    | (Err e, w) => (Err e, s, w)
                    | (Ok _, w) =>
                        match validate_secret_entries path file with
                        | Err e => (Err e, s, w)
                        | Ok entries => (Ok tt, mkSecretStore entries (store_path s), w)
                        end
                    end
                end
            end
        end
    end.

(** [HostSecretStore]: the shared store with the environment in front. *)
Definition host_resolve (env_prefix : text) (s : SecretStore) (w : world) (key : text) : option text :=
  let key := normalize_secret_key key in
  match env_var w (env_prefix ++ key) with
  | Some v => Some v
  | None => resolve s key
  end.

Definition host_rotate (env_prefix : text) (s : SecretStore) (key value : text) (w : world)
    : ConfigResult unit * SecretStore * world :=
  let key := normalize_secret_key key in
  let variable := env_prefix ++ key in
  if env_set w variable then (Err (SecretEnvironmentOverride key variable), s, w)
  else rotate s key value w.

Definition rotation_available (s : SecretStore) : bool := bool_decide (is_Some (store_path s)).

(** [ServiceConfig::load_secret_file]: the loaded store, and the absolute path
    that replaces the configured one. *)
Definition load_secret_file (secret_file : option text) (local_file : text) (w : world)
    : ConfigResult (SecretStore * option text) :=
  match secret_file with
  | None => Ok (empty_store, None)
  | Some configured_path =>
      let path := if is_absolute configured_path then configured_path
                  else path_join (parent local_file) configured_path in
      let? content := map_err (ReadSecretFile path) (read_to_string w path) in
      let? file := map_err (ParseSecretFile path) (parse_secret_file content) in
      let? secrets := validate_secret_entries path file in
      Ok (mkSecretStore secrets (Some path), Some path)
  end.

End toml.

(** ** Lemmas on keys *)

Definition key_char (c : N) : Prop := (c = 95 ∨ 48 ≤ c ≤ 57 ∨ 65 ≤ c ≤ 90)%N.

Ltac char_cases := unfold is_ascii_alphanumeric, ascii_upper, is_ascii_lower, is_ascii_upper,
  is_ascii_digit, is_whitespace in *.

Lemma key_char_fixed c :
  key_char c → (if is_ascii_alphanumeric c then ascii_upper c else 95%N) = c.
Proof.
  unfold key_char. intros H. char_cases. repeat case_match; bool_props; lia.
Qed.

Lemma key_char_not_space c : key_char c → is_whitespace c = false.
Proof.
  unfold key_char. intros H. destruct (is_whitespace c) eqn:E; [|done].
  char_cases. bool_props; lia.
Qed.

Lemma normalize_chars key : Forall key_char (normalize_secret_key key).
Proof.
  unfold normalize_secret_key. apply Forall_fmap, Forall_true. intros c. unfold key_char. simpl.
  char_cases. repeat case_match; bool_props; lia.
Qed.

Lemma trim_id t : (∀ c, c ∈ t → is_whitespace c = false) → trim t = t.
Proof. apply trim_by_id. Qed.

(** Normalizing is idempotent: a normalized key names itself. *)
Lemma normalize_idem key : normalize_secret_key (normalize_secret_key key) = normalize_secret_key key.
Proof.
  pose proof (normalize_chars key) as Hk. rewrite Forall_forall in Hk.
  unfold normalize_secret_key at 1. rewrite trim_id by (intros c Hc; by apply key_char_not_space, Hk).
  rewrite <-(list_fmap_id (normalize_secret_key key)) at 2.
  apply list_fmap_ext. intros i c Hc. apply key_char_fixed, Hk. by eapply list_elem_of_lookup_2.
Qed.

(** ** Lemmas on validation *)

(** An entry the loop accepts. *)
Definition good_entry (e : text * text) : Prop :=
  normalize_secret_key e.1 ≠ [] ∧ trim e.2 ≠ [].

Lemma validate_loop_ok path l acc m :
  validate_loop path l acc = Ok m ↔
  Forall good_entry l ∧ NoDup (normalize_secret_key <$> l.*1) ∧
  (∀ e, e ∈ l → bget acc (normalize_secret_key e.1) = None) ∧
  m = bextend acc ((λ e, (normalize_secret_key e.1, e.2)) <$> l).
Proof.
  revert acc. induction l as [|[raw v] l IH]; intros acc; simpl.
  - split; [intros [= ->]; split_and!; try done; [constructor|set_solver]|by intros (_ & _ & _ & ->)].
  - unfold good_entry at 1. destruct (normalize_secret_key raw) as [|c k] eqn:Hk; simpl.
    { split; [done|]. intros (H & _). apply Forall_cons in H as [[H _] _]. simpl in H. congruence. }
    rewrite <-Hk. destruct (trim v) as [|c' v'] eqn:Hv; simpl.
    { split; [done|]. intros (H & _). apply Forall_cons in H as [[_ H] _]. simpl in H. congruence. }
    unfold bhas. destruct (bget acc (normalize_secret_key raw)) as [x|] eqn:Hg.
    { split; [done|]. intros (_ & _ & H & _). specialize (H (raw, v)). simpl in H.
      rewrite H in Hg by set_solver. done. }
    rewrite IH. split.
    + intros (Hf & Hn & Ha & ->). split_and!.
      * constructor; [|done]. unfold good_entry. simpl. rewrite Hk, Hv. done.
      * simpl. constructor; [|done]. intros Hin. apply list_elem_of_fmap in Hin as (r2 & Heq & Hr2).
        apply list_elem_of_fmap in Hr2 as (e & -> & He). specialize (Ha e He).
        rewrite <-Heq, bget_set_eq in Ha. done.
      * intros e [->|He]%elem_of_cons; [done|]. specialize (Ha e He).
        rewrite bget_set in Ha. by case_match.
      * done.
    + intros (Hf & Hn & Ha & ->). apply Forall_cons in Hf as [_ Hf].
      simpl in Hn. apply NoDup_cons in Hn as [Hn Hn']. split_and!; try done.
      intros e He. rewrite bget_set_ne; [apply Ha; set_solver|]. intros Heq. apply Hn. rewrite Heq.
      apply list_elem_of_fmap. exists e.1. split; [done|]. apply list_elem_of_fmap. eauto.
Qed.

Lemma validate_loop_err path l acc e :
  validate_loop path l acc = Err e → ∃ p detail, e = InvalidSecretFile p detail.
Proof.
  revert acc. induction l as [|[raw v] l IH]; intros acc; simpl; [done|].
  repeat case_match; naive_solver.
Qed.

(** What the validated map holds. *)
Lemma validated_get path l m k v :
  validate_secret_entries path l = Ok m →
  bget m k = Some v ↔ ∃ raw, (raw, v) ∈ l ∧ normalize_secret_key raw = k.
Proof.
  intros (Hf & Hn & _ & ->)%validate_loop_ok. change (bextend []) with (bcollect (V := text)).
  rewrite bget_collect.
  - rewrite list_elem_of_fmap. split.
    + intros ([raw v'] & [= -> ->] & Hin). eauto.
    + intros (raw & Hin & <-). exists (raw, v). done.
  - rewrite <-list_fmap_compose. rewrite <-list_fmap_compose in Hn. done.
Qed.

Lemma retain_elem {V} (p : text → V → bool) (m : btree V) k v :
  (k, v) ∈ bretain p m ↔ p k v = true ∧ (k, v) ∈ m.
Proof.
  unfold bretain. rewrite !list_elem_of_In, filter_In. naive_solver.
Qed.

Section rotation.
Context `{TomlOk}.

(** What a successful rotation went through. *)
Lemma rotate_ok s key value w s' w' :
  rotate s key value w = (Ok tt, s', w') →
  let k := normalize_secret_key key in
  ∃ path content old printed,
    k ≠ [] ∧ store_path s = Some path ∧ read_to_string w path = Ok content ∧
    parse_secret_file content = Ok old ∧
    let new := bset k value
      (bretain (λ c _, negb (text_eqb (normalize_secret_key c) k)) old) in
    print_secret_file new = Ok printed ∧
    atomic_write path (utf8 printed) true w = (Ok tt, w') ∧
    validate_secret_entries path new = Ok (entries s') ∧ store_path s' = Some path.
Proof.
  unfold rotate. intros Hr. cbv zeta in Hr |- *. case_match; [done|]. bool_props.
  destruct (store_path s) as [path|] eqn:Hp; [|done].
  destruct (read_to_string w path) as [content|] eqn:Hc; simpl in Hr; [|done].
  destruct (parse_secret_file content) as [old|] eqn:Ho; simpl in Hr; [|done].
  destruct (print_secret_file _) as [printed|] eqn:Hpr; simpl in Hr; [|done].
  destruct (atomic_write path (utf8 printed) true w) as [[[]|] w1] eqn:Hw; [|done].
  destruct (validate_secret_entries path _) as [m|] eqn:Hv; [|done]. injection Hr as <- <-.
  exists path, content, old, printed. split_and!; try done. by destruct (normalize_secret_key key).
Qed.

(** An entry of the rewritten file. *)
Lemma rotated_entry (old : btree text) (k value raw v : text) :
  bsorted old → normalize_secret_key k = k →
  (raw, v) ∈ bset k value (bretain (λ c _, negb (text_eqb (normalize_secret_key c) k)) old) ↔
  (raw = k ∧ v = value) ∨ (normalize_secret_key raw ≠ k ∧ (raw, v) ∈ old).
Proof.
  intros Hs Hk. set (kept := bretain _ old).
  assert (Hkept : bsorted kept) by (by apply bretain_sorted).
  assert (Hset : bsorted (bset k value kept)) by (by apply bset_sorted).
  assert (Hiff : (raw, v) ∈ bset k value kept ↔ bget (bset k value kept) raw = Some v).
  { split; [by apply elem_bget|apply bget_elem]. }
  rewrite Hiff, bget_set. destruct (text_eqb k raw) eqn:E.
  - apply text_eqb_eq in E as <-. naive_solver.
  - apply bool_decide_eq_false in E.
    assert (Hk2 : bget kept raw = Some v ↔ (raw, v) ∈ kept)
      by (split; [apply bget_elem|by apply elem_bget]).
    rewrite Hk2. unfold kept. rewrite retain_elem. rewrite negb_true_iff.
    unfold text_eqb. rewrite bool_decide_eq_false. naive_solver.
Qed.

End rotation.

(** ** Properties *)

Section properties.
Context `{TomlOk}.

(** A validated secret file gives a store in which every entry is found
    under every spelling of its key and nothing else is; it is refused exactly
    when a key or a value is blank or two keys normalize alike. *)
Theorem secrets_validated path l :
  (is_ok (validate_secret_entries path l) = true ↔
     Forall good_entry l ∧ NoDup (normalize_secret_key <$> l.*1)) ∧
  ∀ m p key v, validate_secret_entries path l = Ok m →
    resolve (mkSecretStore m p) key = Some v ↔
    ∃ raw, (raw, v) ∈ l ∧ normalize_secret_key raw = normalize_secret_key key.
Proof.
  split.
  - split.
    + destruct (validate_secret_entries path l) as [m|] eqn:E; [|done]. intros _.
      apply validate_loop_ok in E. naive_solver.
    + intros [Hf Hn].
      assert (E : validate_secret_entries path l =
                  Ok (bextend [] ((λ e, (normalize_secret_key e.1, e.2)) <$> l)))
        by (by apply validate_loop_ok).
      by rewrite E.
  - intros m p key v Hv. unfold resolve. simpl. by apply (validated_get path l).
Qed.

(** A successful rotation changes exactly the rotated secret.  Every
    spelling of its key resolves to the new value (the environment does not
    hold it), every other secret is what the file held, and the store in memory
    is the validated content of the file on disk, which is private. *)
Theorem rotation_effect env_prefix s key value w s' w' path :
  store_path s = Some path → named path →
  host_rotate env_prefix s key value w = (Ok tt, s', w') →
  (∀ k, normalize_secret_key k = normalize_secret_key key →
     host_resolve env_prefix s' w' k = Some value) ∧
  (∃ old, (content ← (match read_to_string w path with Ok t => Some t | Err _ => None end);
           match parse_secret_file content with Ok m => Some m | Err _ => None end) = Some old ∧
     ∀ k v, normalize_secret_key k ≠ normalize_secret_key key →
       resolve s' k = Some v ↔
       ∃ raw, (raw, v) ∈ old ∧ normalize_secret_key raw = normalize_secret_key k) ∧
  (∃ content new, files w' !! path = Some (utf8 content) ∧ parse_secret_file content = Ok new ∧
     validate_secret_entries path new = Ok (entries s') ∧ path ∈ private w').
Proof.
  intros Hp Hn Hr. unfold host_rotate in Hr.
  destruct (env_set w _) eqn:Henv; [done|]. apply rotate_ok in Hr. rewrite normalize_idem in Hr.
  set (k := normalize_secret_key key) in *. cbv zeta in Hr.
  destruct Hr as (path' & content & old & printed & Hk & Hp' & Hc & Ho & Hpr & Hw & Hv & Hs').
  rewrite Hp in Hp'. injection Hp' as <-.
  pose proof (parse_secret_file_sorted _ _ Ho) as Hold.
  destruct (atomic_write_spec _ _ _ _ _ _ Hn Hw) as (_ & Ew & Hf & Hpriv).
  destruct (secret_file_law _ _ Hpr) as [_ Hparse].
  assert (Hres : ∀ k' v, resolve s' k' = Some v ↔ ∃ raw,
            ((raw = k ∧ v = value) ∨ (normalize_secret_key raw ≠ k ∧ (raw, v) ∈ old)) ∧
            normalize_secret_key raw = normalize_secret_key k').
  { intros k' v. unfold resolve. rewrite (validated_get _ _ _ _ _ Hv).
    f_equiv. intros raw. by rewrite rotated_entry by (done || apply normalize_idem). }
  split_and!.
  - intros k' Hk'. unfold host_resolve. rewrite Hk'. unfold env_var.
    rewrite Ew. unfold env_set in Henv. apply bool_decide_eq_false in Henv.
    apply eq_None_not_Some in Henv. rewrite Henv. simpl. apply Hres.
    exists k. split; [by left|]. unfold k. by rewrite !normalize_idem.
  - exists old. rewrite Hc. simpl. rewrite Ho. split; [done|]. intros k' v Hne. rewrite Hres.
    f_equiv. intros raw.
    split; [|by intros [Hin Hraw]; split; [right; split; [congruence|]|]].
    intros [[[-> ->]|[_ Hin]] Hraw]; [|done]. unfold k in Hraw. rewrite normalize_idem in Hraw.
    by destruct Hne.
  - exists printed. eexists. rewrite Hf, lookup_insert_eq. split_and!; [done|exact Hparse|done|auto].
Qed.

(** A failed rotation never changes the secrets in memory, and leaves the
    secret file as it was unless the rewritten file does not validate. *)
Theorem rotation_failure env_prefix s key value w e s' w' :
  (∀ path, store_path s = Some path → named path) →
  host_rotate env_prefix s key value w = (Err e, s', w') →
  s' = s ∧
  ((∃ path detail, e = InvalidSecretFile path detail) ∨
   ∀ path, store_path s = Some path → files w' !! path = files w !! path).
Proof.
  intros Hn Hr. unfold host_rotate in Hr. case_match; [simplify_eq; auto|].
  unfold rotate in Hr. case_match; [simplify_eq; auto|].
  destruct (store_path s) as [path|] eqn:Hp; [|simplify_eq; auto].
  destruct (map_err (ReadSecretFile path) _); [|simplify_eq; auto].
  destruct (map_err (ParseSecretFile path) _); [|simplify_eq; auto].
  destruct (print_secret_file _) as [printed|]; simpl in Hr; [|simplify_eq; eauto].
  destruct (atomic_write path (utf8 printed) true w) as [[[]|e'] w1] eqn:Hw.
  - destruct (validate_secret_entries path _) as [m|e'] eqn:Hv; [done|]. simplify_eq.
    split; [done|]. left. by eapply validate_loop_err.
  - simplify_eq. split; [done|]. right. intros p [= <-].
    destruct (atomic_write_spec _ _ _ _ _ _ (Hn _ eq_refl) Hw) as (_ & _ & Hf & _). done.
Qed.

End properties.

(** ** A concrete TOML

    A parser and printer that know one secret file, for the examples. *)
Definition sample_secrets : btree text := [(lit "TOKEN", lit "new")].
Definition sample_printed : text := lit "s".

#[export] Instance sample_toml : Toml := {|
  parse_config _ := Ok (default_config false None);
  parse_secret_file t :=
    if text_eqb t sample_printed then Ok sample_secrets
    else if text_eqb t [] then Ok [(lit "token", lit "old")] else Err (lit "unsupported");
  print_secret_file m :=
    if bool_decide (m = sample_secrets) then Ok sample_printed else Err (lit "unsupported");
  parse_document t := if text_eqb t [] then Ok (TTable []) else Err (lit "unsupported");
  print_document d := match d with TTable [] => Ok [] | _ => Err (lit "unsupported") end;
|}.

#[export] Instance sample_toml_ok : TomlOk.
Proof.
  split; simpl.
  - intros t m. repeat case_match; intros [= <-]; repeat constructor.
  - intros m t. case_bool_decide; intros [= <-]. subst. split; [repeat constructor|done].
  - intros [] t; try done. destruct m; intros [= <-]. split; [constructor|done].
Qed.

Lemma secrets_validated_witness :
  resolve (mkSecretStore [(lit "API_TOKEN", lit "x")] None) (lit " api-token ") = Some (lit "x") ↔
  ∃ raw, (raw, lit "x") ∈ [(lit "api.token", lit "x")] ∧
    normalize_secret_key raw = normalize_secret_key (lit " api-token ").
Proof.
  apply (proj2 (secrets_validated (lit "f") [(lit "api.token", lit "x")])
           [(lit "API_TOKEN", lit "x")] None (lit " api-token ") (lit "x")).
  vm_compute. reflexivity.
Defined.

Definition sample_store : SecretStore := mkSecretStore [(lit "TOKEN", lit "old")] (Some (lit "/h/s.toml")).

Lemma sample_store_named path : store_path sample_store = Some path → named path.
Proof. intros [= <-]. split; vm_compute; discriminate. Qed.

Lemma rotation_effect_witness :
  ∃ s' w', host_rotate (lit "M_") sample_store (lit "token") (lit "new")
             (sample_world (lit "/h/s.toml") []) = (Ok tt, s', w') ∧
    host_resolve (lit "M_") s' w' (lit "Token") = Some (lit "new").
Proof.
  destruct (host_rotate (lit "M_") sample_store (lit "token") (lit "new")
              (sample_world (lit "/h/s.toml") [])) as [[[[]|e] s'] w'] eqn:E;
    [|exfalso; vm_compute in E; discriminate].
  exists s', w'. split; [reflexivity|].
  refine (proj1 (rotation_effect (lit "M_") sample_store (lit "token") (lit "new")
           (sample_world (lit "/h/s.toml") []) s' w' (lit "/h/s.toml") eq_refl
           (sample_store_named _ eq_refl) E) (lit "Token") _).
  vm_compute. reflexivity.
Defined.

Lemma rotation_failure_witness :
  ∃ e s' w', host_rotate (lit "M_") sample_store (lit "token") (lit " ")
               (sample_world (lit "/h/s.toml") []) = (Err e, s', w') ∧ s' = sample_store.
Proof.
  destruct (host_rotate (lit "M_") sample_store (lit "token") (lit " ")
              (sample_world (lit "/h/s.toml") [])) as [[[[]|e] s'] w'] eqn:E;
    [exfalso; vm_compute in E; discriminate|].
  exists e, s', w'. split; [reflexivity|].
  exact (proj1 (rotation_failure (lit "M_") sample_store (lit "token") (lit " ")
           (sample_world (lit "/h/s.toml") []) e s' w' sample_store_named E)).
Defined.
