(* ===== verification/ProductConfig.v ===== *)
(** * The managed product config file

    [ConfiguredPluginStore] of [crates/mutsuki-service-config/src/lib.rs]:
    replacing one plugin's config and patching the product surface keys of a
    TOML document, and the JSON to TOML conversion.  A [&mut] into the document
    is a function applied at that place. *)

From S2P Require Import Prelude Text BTreeMap Value ConfigTypes Frame Fs Secrets.

(** ** JSON to TOML *)

Definition number_to_toml (n : number) : result toml text :=
  match n with
  | NegInt z => Ok (TInteger z)
  | PosInt n =>
      if (Z.of_N n <=? i64_max)%Z then Ok (TInteger (Z.of_N n))
      else Err (lit "unsigned integer exceeds TOML range")
  | Float bits => Ok (TFloat bits)
  end.

Fixpoint json_to_toml (value : json) : result toml text :=
  match value with
  | JNull => Err (lit "null values are not representable in TOML")
  | JBool b => Ok (TBoolean b)
  | JNumber n => number_to_toml n
  | JString s => Ok (TString s)
  | JArray values => rmap TArray (collect_results (List.map json_to_toml values))
  | JObject values =>
      rmap (λ l, TTable (bcollect l))
        (collect_results (List.map (λ '(key, value), rmap (pair key) (json_to_toml value)) values))
  end.

(** ** Places in a document *)

(** The child of a table, and writing it back. *)
Definition put_key (d : toml) (key : text) (child : toml) : toml :=
  match d with TTable m => TTable (bset key child m) | _ => d end.

Definition has_key (d : toml) (key : text) : bool :=
  match d with TTable m => bhas m key | _ => false end.

(** A missing key becomes an empty table. *)
Definition ensure_key (d : toml) (key : text) (error : ConfigError) : ConfigResult toml :=
  if has_key d key then Ok d
  else match d with
       | TTable m => Ok (TTable (bset key (TTable []) m))
       | _ => Err error
       end.

Definition ensure_table (document : toml) (key : text) (f : btree toml → btree toml)
    : ConfigResult toml :=
  let? document := ensure_key document key
    (InvalidProductSurfaceValue key (lit "document root must be a table")) in
  match toml_get document key with
  | Some (TTable m) => Ok (put_key document key (TTable (f m)))
  | _ => Err (InvalidProductSurfaceValue key (lit "`" ++ key ++ lit "` must be a table"))
  end.

(** The loop over [path]; [whole] is the path for the message of an empty
    one. *)
Fixpoint nested_loop (whole : list text) (current : toml) (path : list text)
    (f : btree toml → btree toml) : ConfigResult toml :=
  match path with
  | [] => Err (InvalidProductSurfaceValue (join (lit ".") whole) (lit "empty product surface path"))
  | key :: rest =>
      let? current := ensure_key current key
        (InvalidProductSurfaceValue key (lit "document path must be tables")) in
      match toml_get current key with
      | None => Err (InvalidProductSurfaceValue key (lit "missing nested table"))
      | Some child =>
          match rest with
          | [] =>
              match child with
              | TTable m => Ok (put_key current key (TTable (f m)))
              | _ => Err (InvalidProductSurfaceValue key (lit "nested path must end at a table"))
              end
          | _ =>
              if negb (is_table child)
              then Err (InvalidProductSurfaceValue key (lit "nested path must be tables"))
              else
                let? child := nested_loop whole child rest f in
                Ok (put_key current key child)
          end
      end
  end.

Definition ensure_nested_table (document : toml) (path : list text) (f : btree toml → btree toml)
    : ConfigResult toml := nested_loop path document path f.

(** ** Product surface *)

Definition expected (field what : text) : ConfigError :=
  InvalidProductSurfaceValue field (lit "expected " ++ what).

Definition apply_product_surface_field (document : toml) (field : text) (value : json)
    : ConfigResult toml :=
  if text_eqb field (lit "instance_id") || text_eqb field (lit "distribution_mode")
     || text_eqb field (lit "auth_token_key") then Err (ProductSurfaceReadOnly field)
  else if text_eqb field (lit "profile") then
    let? t := ok_or (as_str value) (expected field (lit "string")) in
    ensure_table document (lit "service") (bset (lit "profile") (TString t))
  else if text_eqb field (lit "console_enabled") then
    let? b := ok_or (as_bool value) (expected field (lit "bool")) in
    ensure_nested_table document [lit "web"; lit "console"] (bset (lit "enabled") (TBoolean b))
  else if text_eqb field (lit "console_listen") then
    let? t := ok_or (as_str value) (expected field (lit "string")) in
    ensure_nested_table document [lit "web"; lit "console"] (bset (lit "listen") (TString t))
  else if text_eqb field (lit "include_config") then
    let? b := ok_or (as_bool value) (expected field (lit "bool")) in
    ensure_nested_table document [lit "web"; lit "console"] (bset (lit "include_config") (TBoolean b))
  else Err (UnknownProductSurfaceField field).

Fixpoint apply_fields (document : toml) (fields : btree json) : ConfigResult toml :=
  match fields with
  | [] => Ok document
  | (field, value) :: rest =>
      let? document := apply_product_surface_field document field value in
      apply_fields document rest
  end.

(** ** Configured plugins *)

(** The index and the selection of every entry with this id. *)
Definition selection_matches (plugin_id : text) (selection : toml) : bool :=
  match toml_get selection (lit "id") ≫= toml_as_str with
  | Some id => text_eqb (trim id) (trim plugin_id)
  | None => false
  end.

Definition matching (plugin_id : text) (configured : list toml) : list nat :=
  (List.filter (λ e, selection_matches plugin_id e.2) (imap pair configured)).*1.

(** [document["plugins"]["configured"]] as an array. *)
Definition configured_of (document : toml) : option (list toml) :=
  plugins ← toml_get document (lit "plugins");
  configured ← toml_get plugins (lit "configured");
  toml_as_array configured.

Definition put_configured (document : toml) (configured : list toml) : toml :=
  match toml_get document (lit "plugins") with
  | Some plugins => put_key document (lit "plugins") (put_key plugins (lit "configured") (TArray configured))
  | None => document
  end.

Definition replace_in_document (document : toml) (plugin_id path : text) (config : json)
    : ConfigResult toml :=
  match configured_of document with
  | None => Err (ConfiguredPluginNotFound plugin_id path)
  | Some configured =>
      match matching plugin_id configured with
      | [index] =>
          let? value := map_err (InvalidConfiguredPluginValue plugin_id) (json_to_toml config) in
          Ok (put_configured document
                (alter (λ selection, put_key selection (lit "config") value) index configured))
      | _ => Err (ConfiguredPluginNotFound plugin_id path)
      end
  end.

Section store.
Context `{Toml}.

Definition read_document (path : text) (w : world) : ConfigResult toml :=
  let? content := map_err (ReadFile path) (read_to_string w path) in
  map_err (ParseFile path) (parse_document content).

Definition replace_config (path plugin_id : text) (config : json) (w : world)
    : ConfigResult unit * world :=
  let edited :=
    let? document := read_document path w in
    let? document := replace_in_document document plugin_id path config in
    map_err (InvalidConfiguredPluginValue plugin_id) (print_document document) in
  match edited with
  | Err e => (Err e, w)
  | Ok content => atomic_write path (utf8 content) false w
  end.

Definition patch_product_surface (path : text) (fields : btree json) (w : world)
    : ConfigResult unit * world :=
  let edited :=
    let? document := read_document path w in
    let? document := apply_fields document fields in
    map_err (λ m, WriteManagedFile path (mkIo false m)) (print_document document) in
  match edited with
  | Err e => (Err e, w)
  | Ok content => atomic_write path (utf8 content) false w
  end.

End store.

(** ** The meaning of documents *)

(** TOML values read as JSON again. *)
Fixpoint toml_to_json (v : toml) : json :=
  match v with
  | TString s | TDatetime s => JString s
  | TInteger z => JNumber (if (z <? 0)%Z then NegInt z else PosInt (Z.to_N z))
  | TFloat bits => JNumber (Float bits)
  | TBoolean b => JBool b
  | TArray l => JArray (List.map toml_to_json l)
  | TTable m => JObject (List.map (λ '(k, v), (k, toml_to_json v)) m)
  end.

(** What TOML can hold: no null, integers within 64 signed bits. *)
Fixpoint representable (v : json) : bool :=
  match v with
  | JNull => false
  | JNumber (PosInt n) => (Z.of_N n <=? i64_max)%Z
  | JArray l => forallb representable l
  | JObject m => forallb (λ '(_, v), representable v) m
  | _ => true
  end.

(** A value as the parser builds it: numbers in range, keys in order. *)
Fixpoint wf_json (v : json) : Prop :=
  match v with
  | JNumber n => wf_number n
  | JArray l => List.fold_right (λ v P, wf_json v ∧ P) True l
  | JObject m => bsorted m ∧ List.fold_right (λ '(_, v) P, wf_json v ∧ P) True m
  | _ => True
  end.

(** The value at a path of table keys. *)
Fixpoint dig (d : toml) (path : list text) : option toml :=
  match path with
  | [] => Some d
  | key :: rest => child ← toml_get d key; dig child rest
  end.

(** ** Lemmas on the conversion *)

Lemma is_ok_collect {A E} (l : list (result A E)) :
  is_ok (collect_results l) = forallb is_ok l.
Proof.
  induction l as [|[a|e] l IH]; simpl; [done| |done].
  rewrite <-IH. by destruct (collect_results l).
Qed.

Lemma is_ok_rmap {A B E} (f : A → B) (r : result A E) : is_ok (rmap f r) = is_ok r.
Proof. by destruct r. Qed.

Lemma forallb_map {A B} (p : B → bool) (f : A → B) l :
  forallb p (List.map f l) = forallb (λ x, p (f x)) l.
Proof. induction l; simpl; congruence. Qed.

Lemma forallb_ext_Forall {A} (p q : A → bool) l :
  Forall (λ x, p x = q x) l → forallb p l = forallb q l.
Proof. induction 1; simpl; congruence. Qed.

Lemma json_to_toml_is_ok v : is_ok (json_to_toml v) = representable v.
Proof.
  induction v as [| |n| |l IH|m IH] using json_ind_nested; try done.
  - destruct n; simpl; try done. by case_match.
  - simpl. rewrite is_ok_rmap, is_ok_collect, forallb_map. by apply forallb_ext_Forall.
  - simpl. rewrite is_ok_rmap, is_ok_collect, forallb_map. apply forallb_ext_Forall.
    eapply Forall_impl; [exact IH|]. intros [k v] Hv. by rewrite is_ok_rmap.
Qed.

Lemma wf_array_Forall l : wf_json (JArray l) → Forall wf_json l.
Proof. simpl. induction l; simpl; [constructor|]. intros [? ?]. constructor; auto. Qed.

Lemma wf_object_Forall m : wf_json (JObject m) → bsorted m ∧ Forall (λ e, wf_json e.2) m.
Proof.
  simpl. intros [Hs H]. split; [done|]. clear Hs. induction m as [|[k v] m IH]; simpl in *; [constructor|].
  destruct H. constructor; auto.
Qed.

Lemma json_to_toml_inverse v : ∀ t, wf_json v → json_to_toml v = Ok t → toml_to_json t = v.
Proof.
  induction v as [|b|n|s|l IH|m IH] using json_ind_nested; intros t Hw Ht; simpl in Ht;
    try (injection Ht as <-; done); [done| | |].
  - destruct n as [n|z|bits]; simpl in *.
    + destruct (Z.leb_spec (Z.of_N n) i64_max); [|done]. injection Ht as <-. simpl.
      destruct (Z.ltb_spec (Z.of_N n) 0); [lia|]. by rewrite N2Z.id.
    + injection Ht as <-. simpl. destruct (Z.ltb_spec z 0); [done|lia].
    + by injection Ht as <-.
  - apply wf_array_Forall in Hw. destruct (collect_results _) as [ts|] eqn:Hc; [|done].
    injection Ht as <-. apply collect_results_ok in Hc. simpl. f_equal.
    revert ts Hc Hw. induction IH as [|v l Hv Hl IHl]; intros ts Hc Hw; destruct ts as [|t ts];
      simpl in *; try done. injection Hc as Hc1 Hc2. apply Forall_cons in Hw as [Hw1 Hw2].
    f_equal; auto.
  - apply wf_object_Forall in Hw as [Hs Hw]. destruct (collect_results _) as [ts|] eqn:Hc; [|done].
    injection Ht as <-. apply collect_results_ok in Hc.
    assert (Hk : m.*1 = ts.*1 ∧ List.map (λ '(k, v), (k, toml_to_json v)) ts = m).
    { clear Hs. revert ts Hc Hw. induction IH as [|[k v] m Hv Hm IHm]; intros ts Hc Hw;
        destruct ts as [|[k' t] ts]; simpl in *; try done.
      injection Hc as Hc1 Hc2. apply Forall_cons in Hw as [Hw1 Hw2].
      destruct (json_to_toml v) as [t0|] eqn:Ht0; [|done]. simpl in Hc1. injection Hc1 as <- <-.
      destruct (IHm ts Hc2 Hw2) as [E1 E2]. split; [f_equal; exact E1|].
      f_equal; [f_equal; by apply Hv|exact E2]. }
    destruct Hk as [Hk1 Hk2]. simpl. rewrite bcollect_id by (by eapply bsorted_keys). by rewrite Hk2.
Qed.

(** ** Lemmas on places *)

Lemma toml_get_put d k k' c :
  is_table d = true →
  toml_get (put_key d k c) k' = if text_eqb k k' then Some c else toml_get d k'.
Proof. destruct d; try done. intros _. unfold toml_get. simpl. apply bget_set. Qed.

(** Two paths, one of which begins with the other. *)
Definition comparable (p q : list text) : Prop := p `prefix_of` q ∨ q `prefix_of` p.

Lemma comparable_cons k p q : comparable (k :: p) (k :: q) ↔ comparable p q.
Proof.
  unfold comparable. split; (intros [H|H]; [left|right]).
  1,2: by apply prefix_cons_inv_2 in H.
  all: by apply prefix_cons.
Qed.

Lemma not_comparable_nil q : ¬ ¬ comparable [] q.
Proof. intros H. apply H. left. apply prefix_nil. Qed.

(** Making room for a key: the rest of the document stays, and what was below
    the key stays. *)
Lemma ensure_key_spec d key e d' :
  ensure_key d key e = Ok d' →
  is_table d' = true ∧
  (∃ c, toml_get d' key = Some c ∧
     ∀ r, r ≠ [] → dig c r = (c0 ← toml_get d key; dig c0 r)) ∧
  (∀ k, k ≠ key → toml_get d' k = toml_get d k).
Proof.
  unfold ensure_key, has_key. destruct d as [| | | | | |m]; try done.
  destruct (bhas m key) eqn:Hh; intros [= <-]; (split; [done|]).
  - unfold bhas in Hh. destruct (bget m key) as [c|] eqn:Hg; [|done].
    split; [|done]. exists c. unfold toml_get. simpl. by rewrite Hg.
  - unfold bhas in Hh. destruct (bget m key) as [c|] eqn:Hg; [done|].
    unfold toml_get. simpl. split.
    + exists (TTable []). rewrite bget_set_eq, Hg. split; [done|]. by intros [|].
    + intros k Hk. by rewrite bget_set_ne.
Qed.

(** What an edit at [path] leaves alone. *)
Definition edits (path : list text) (key : text) (v : toml) (d d' : toml) : Prop :=
  dig d' (path ++ [key]) = Some v ∧
  ∀ p, ¬ comparable p (path ++ [key]) → dig d' p = dig d p.

Lemma edits_step key rest k v d d1 c c' :
  is_table d1 = true → toml_get d1 key = Some c →
  (∀ r, r ≠ [] → dig c r = (c0 ← toml_get d key; dig c0 r)) →
  (∀ k, k ≠ key → toml_get d1 k = toml_get d k) →
  edits rest k v c c' → edits (key :: rest) k v d (put_key d1 key c').
Proof.
  intros Ht Hc Hr Hk [Hv He]. split; simpl.
  - rewrite toml_get_put by done. by rewrite text_eqb_refl.
  - intros p Hp. destruct p as [|k' r]; [by apply not_comparable_nil in Hp|].
    simpl. rewrite toml_get_put by done. destruct (text_eqb key k') eqn:E.
    + apply text_eqb_eq in E as <-. simpl in Hp. rewrite comparable_cons in Hp. simpl.
      rewrite He by done. apply Hr. intros ->. by apply not_comparable_nil in Hp.
    + apply bool_decide_eq_false in E. by rewrite Hk.
Qed.

Lemma edits_table m k v : edits [] k v (TTable m) (TTable (bset k v m)).
Proof.
  split; simpl; unfold toml_get; simpl; [by rewrite bget_set_eq|].
  intros [|k' r] Hp; [by apply not_comparable_nil in Hp|]. simpl. unfold toml_get. simpl.
  rewrite bget_set_ne; [done|]. intros <-. apply Hp. right. apply prefix_cons, prefix_nil.
Qed.

Lemma ensure_table_edits d key k v d' :
  ensure_table d key (bset k v) = Ok d' → edits [key] k v d d'.
Proof.
  unfold ensure_table. intros (d1 & H1 & H2)%rbind_ok.
  destruct (ensure_key_spec _ _ _ _ H1) as (Ht & (c & Hc & Hr) & Hk).
  rewrite Hc in H2. destruct c as [| | | | | |m]; try done. injection H2 as <-.
  eapply edits_step; eauto using edits_table.
Qed.

Lemma nested_loop_edits whole d path k v d' :
  nested_loop whole d path (bset k v) = Ok d' → edits path k v d d'.
Proof.
  revert d d'. induction path as [|key rest IH]; intros d d' H; simpl in H; [done|].
  apply rbind_ok in H as (d1 & H1 & H2).
  destruct (ensure_key_spec _ _ _ _ H1) as (Ht & (c & Hc & Hr) & Hk). rewrite Hc in H2.
  destruct rest as [|key2 rest].
  - destruct c as [| | | | | |m]; try done. injection H2 as <-.
    eapply edits_step; eauto using edits_table.
  - case_match; [done|]. apply rbind_ok in H2 as (c' & H2 & H3). injection H3 as <-.
    eapply edits_step; eauto.
Qed.

(** The writable product surface. *)
Definition surface : list (text * list text) :=
  [(lit "profile", [lit "service"; lit "profile"]);
   (lit "console_enabled", [lit "web"; lit "console"; lit "enabled"]);
   (lit "console_listen", [lit "web"; lit "console"; lit "listen"]);
   (lit "include_config", [lit "web"; lit "console"; lit "include_config"])].

Lemma field_edits d field value d' :
  apply_product_surface_field d field value = Ok d' →
  ∃ path, (field, path) ∈ surface ∧ ∀ p, ¬ comparable p path → dig d' p = dig d p.
Proof.
  unfold apply_product_surface_field. intros H. case_match; [done|].
  repeat (case_match; [match goal with E : text_eqb field _ = true |- _ => apply text_eqb_eq in E as -> end;
    apply rbind_ok in H as (x & _ & H)|]); [| | | |done].
  - apply ensure_table_edits in H as [_ H]. eexists. split; [|exact H]. apply list_elem_of_here.
  - apply nested_loop_edits in H as [_ H]. eexists. split; [|exact H]. apply list_elem_of_further, list_elem_of_here.
  - apply nested_loop_edits in H as [_ H]. eexists. split; [|exact H].
    apply list_elem_of_further, list_elem_of_further, list_elem_of_here.
  - apply nested_loop_edits in H as [_ H]. eexists. split; [|exact H].
    apply list_elem_of_further, list_elem_of_further, list_elem_of_further, list_elem_of_here.
Qed.

Lemma fields_edits d fields d' :
  apply_fields d fields = Ok d' →
  (∀ e, e ∈ fields → ∃ path, (e.1, path) ∈ surface) ∧
  ∀ p, (∀ e path, e ∈ fields → (e.1, path) ∈ surface → ¬ comparable p path) → dig d' p = dig d p.
Proof.
  revert d. induction fields as [|[field value] fields IH]; intros d H; simpl in H.
  - injection H as <-. split; [|done]. intros e He. by apply not_elem_of_nil in He.
  - apply rbind_ok in H as (d1 & H1 & H2). apply field_edits in H1 as (path & Hin & H1).
    apply IH in H2 as [H2 H3]. split.
    + intros e [->|He]%elem_of_cons; [eauto|]. by apply H2.
    + intros p Hp. rewrite H3.
      * apply H1. apply (Hp (field, value) path); [apply list_elem_of_here|done].
      * intros e path' He. apply Hp. by apply list_elem_of_further.
Qed.

(** ** Lemmas on selections *)

Lemma elem_matching id l i :
  i ∈ matching id l ↔ ∃ s, l !! i = Some s ∧ selection_matches id s = true.
Proof.
  unfold matching. rewrite list_elem_of_fmap. split.
  - intros ([j s] & -> & Hin). rewrite list_elem_of_In, filter_In in Hin.
    destruct Hin as [Hin Hm]. apply list_elem_of_In, elem_of_lookup_imap in Hin as (j' & s' & [= -> ->] & Hl).
    eauto.
  - intros (s & Hl & Hm). exists (i, s). split; [done|].
    rewrite list_elem_of_In, filter_In. split; [|done].
    apply list_elem_of_In, elem_of_lookup_imap. eauto.
Qed.

Lemma selection_is_table id s : selection_matches id s = true → is_table s = true.
Proof. by destruct s. Qed.

Lemma alter_lookup {A} (f : A → A) i (l : list A) x :
  l !! i = Some x → alter f i l = <[i := f x]> l.
Proof.
  revert i. induction l as [|y l IH]; intros [|i]; simpl; try done.
  - by intros [= ->].
  - intros H. f_equal. by apply IH.
Qed.

(** What replacing a plugin's config does to the document. *)
Lemma replace_in_document_ok d id path config d' :
  replace_in_document d id path config = Ok d' →
  ∃ l i sel value,
    configured_of d = Some l ∧ matching id l = [i] ∧ l !! i = Some sel ∧
    is_table sel = true ∧ json_to_toml config = Ok value ∧
    configured_of d' = Some (<[i := put_key sel (lit "config") value]> l) ∧
    ∀ p, ¬ comparable p [lit "plugins"; lit "configured"] → dig d' p = dig d p.
Proof.
  unfold replace_in_document. destruct (configured_of d) as [l|] eqn:Hl; [|done].
  destruct (matching id l) as [|i [|]] eqn:Hm; try done.
  intros (value & Hv & Hd)%rbind_ok. injection Hd as <-.
  destruct (json_to_toml config) as [v|] eqn:Hj; [|done]. simpl in Hv. injection Hv as ->.
  assert (Hi : i ∈ matching id l) by (rewrite Hm; set_solver).
  apply elem_matching in Hi as (sel & Hsel & Hs). exists l, i, sel, value.
  pose proof (selection_is_table _ _ Hs) as Ht. split_and!; try done.
  - unfold configured_of in Hl |- *. apply bind_Some in Hl as (pl & Hp & Hl).
    apply bind_Some in Hl as (c & Hc & Hl). unfold put_configured. rewrite Hp.
    assert (Hdt : is_table d = true) by (by destruct d).
    assert (Hpt : is_table pl = true) by (by destruct pl).
    rewrite toml_get_put by done. rewrite text_eqb_refl. simpl.
    rewrite toml_get_put by done. rewrite text_eqb_refl. simpl. f_equal.
    by apply (alter_lookup (λ s, put_key s (lit "config") value)).
  - unfold configured_of in Hl. apply bind_Some in Hl as (pl & Hp & Hl).
    apply bind_Some in Hl as (c & Hc & Hl). unfold put_configured. rewrite Hp.
    assert (Hdt : is_table d = true) by (by destruct d).
    assert (Hpt : is_table pl = true) by (by destruct pl).
    intros [|k r] Hnc; [by apply not_comparable_nil in Hnc|]. simpl.
    rewrite toml_get_put by done. destruct (text_eqb (lit "plugins") k) eqn:Ek; [|done].
    apply text_eqb_eq in Ek as <-. rewrite comparable_cons in Hnc. rewrite Hp. simpl.
    destruct r as [|k2 r]; [by apply not_comparable_nil in Hnc|]. simpl.
    rewrite toml_get_put by done. destruct (text_eqb (lit "configured") k2) eqn:Ek2; [|done].
    apply text_eqb_eq in Ek2 as <-. rewrite comparable_cons in Hnc.
    exfalso. apply Hnc. right. apply prefix_nil.
Qed.

(** Reading a managed document after it was written. *)
Lemma read_after_write `{TomlOk} path d t w w' d0 :
  named path → read_document path w = Ok d0 → print_document d = Ok t →
  atomic_write path (utf8 t) false w = (Ok tt, w') → read_document path w' = Ok d.
Proof.
  intros Hn Hr Hp Hw. destruct (document_law _ _ Hp) as [Hwf Hparse].
  destruct (atomic_write_spec _ _ _ _ _ _ Hn Hw) as (_ & _ & Hf & _).
  pose proof (atomic_write_faults path (utf8 t) false w) as Hfl. rewrite Hw in Hfl. simpl in Hfl.
  unfold read_document, read_to_string in *. rewrite Hfl, Hf, lookup_insert_eq.
  destruct (faults w (OpRead path)) as [[]|]; [done|]. simpl.
  rewrite from_utf8_utf8 by done. simpl. by rewrite Hparse.
Qed.

Lemma managed_error path bytes w e w' :
  named path → atomic_write path bytes false w = (Err e, w') → files w' !! path = files w !! path.
Proof. intros Hn Hw. by destruct (atomic_write_spec _ _ _ _ _ _ Hn Hw) as (_ & _ & Hf & _). Qed.

(** ** Properties *)

(** The JSON to TOML conversion succeeds exactly on the values TOML can
    hold (no null, no integer beyond 64 signed bits), and loses nothing: the
    TOML value reads back as the JSON value. *)
Theorem json_to_toml_lossless v :
  is_ok (json_to_toml v) = representable v ∧
  ∀ t, wf_json v → json_to_toml v = Ok t → toml_to_json t = v.
Proof. split; [apply json_to_toml_is_ok|apply json_to_toml_inverse]. Qed.

Lemma json_to_toml_lossless_witness :
  toml_to_json (TTable [(lit "a", TArray [TInteger (-1); TBoolean true])]) =
  JObject [(lit "a", JArray [JNumber (NegInt (-1)); JBool true])].
Proof.
  apply (proj2 (json_to_toml_lossless
                  (JObject [(lit "a", JArray [JNumber (NegInt (-1)); JBool true])]))).
  - vm_compute. repeat split; try done; constructor.
  - reflexivity.
Defined.

Section properties.
Context `{TomlOk}.

(** Replacing a plugin's config touches nothing else.  On success the file
    reads back as the old document in which the one selection with the plugin's
    id has the converted config, its other keys, the other selections and
    every place outside [plugins.configured] being unchanged; on an error the
    file is unchanged. *)
Theorem replace_config_only path id config w r w' :
  named path → replace_config path id config w = (r, w') →
  match r with
  | Err _ => files w' !! path = files w !! path
  | Ok _ =>
      ∃ d d' l i sel value,
        read_document path w = Ok d ∧ read_document path w' = Ok d' ∧
        configured_of d = Some l ∧ l !! i = Some sel ∧
        (∀ j s, l !! j = Some s → selection_matches id s = true → j = i) ∧
        json_to_toml config = Ok value ∧
        configured_of d' = Some (<[i := put_key sel (lit "config") value]> l) ∧
        (∀ k, toml_get (put_key sel (lit "config") value) k =
              if text_eqb (lit "config") k then Some value else toml_get sel k) ∧
        ∀ p, ¬ comparable p [lit "plugins"; lit "configured"] → dig d' p = dig d p
  end.
Proof.
  intros Hn Hr. unfold replace_config in Hr.
  destruct (read_document path w) as [d|] eqn:Hd; simpl in Hr; [|by injection Hr as <- <-].
  destruct (replace_in_document d id path config) as [d'|] eqn:Hd'; simpl in Hr; [|by injection Hr as <- <-].
  destruct (print_document d') as [t|] eqn:Ht; simpl in Hr; [|by injection Hr as <- <-].
  destruct r as [[]|e]; [|by eapply managed_error].
  apply replace_in_document_ok in Hd' as (l & i & sel & value & Hl & Hm & Hi & Hst & Hv & Hl' & Hp).
  exists d, d', l, i, sel, value. split_and!; try done.
  - by eapply read_after_write.
  - intros j s Hj Hs. assert (Hin : j ∈ matching id l) by (apply elem_matching; eauto).
    rewrite Hm in Hin. set_solver.
  - intros k. by apply toml_get_put.
Qed.

(** Patching the product surface is all or nothing and stays on the
    surface.  On success every field is one of the four writable ones, the
    file reads back as the patched document, and every place that is not on
    the path of a patched field is unchanged; on an error (a read-only or
    unknown field, a value of the wrong type, a place that is not a table) the
    file is unchanged. *)
Theorem product_patch_only path fields w r w' :
  named path → patch_product_surface path fields w = (r, w') →
  match r with
  | Err _ => files w' !! path = files w !! path
  | Ok _ =>
      (∀ e, e ∈ fields → ∃ place, (e.1, place) ∈ surface) ∧
      ∃ d d', read_document path w = Ok d ∧ read_document path w' = Ok d' ∧
        apply_fields d fields = Ok d' ∧
        ∀ p, (∀ e place, e ∈ fields → (e.1, place) ∈ surface → ¬ comparable p place) →
             dig d' p = dig d p
  end.
Proof.
  intros Hn Hr. unfold patch_product_surface in Hr.
  destruct (read_document path w) as [d|] eqn:Hd; simpl in Hr; [|by injection Hr as <- <-].
  destruct (apply_fields d fields) as [d'|] eqn:Hd'; simpl in Hr; [|by injection Hr as <- <-].
  destruct (print_document d') as [t|] eqn:Ht; simpl in Hr; [|by injection Hr as <- <-].
  destruct r as [[]|e]; [|by eapply managed_error].
  pose proof (fields_edits _ _ _ Hd') as [H1 H2]. split; [done|].
  exists d, d'. split_and!; try done. by eapply read_after_write.
Qed.

End properties.

(** A store over a one-document TOML: [a = true] under [service], and a
    configured plugin. *)
#[local] Instance one_document : Toml := {|
  parse_config _ := Ok (default_config false None);
  parse_secret_file _ := Err [];
  print_secret_file _ := Err [];
  parse_document t :=
    if text_eqb t (lit "0") then
      Ok (TTable [(lit "plugins", TTable [(lit "configured", TArray [TTable [(lit "id", TString (lit "p"))]])])])
    else Ok (TTable [(lit "plugins", TTable [(lit "configured",
               TArray [TTable [(lit "config", TBoolean true); (lit "id", TString (lit "p"))]])])]);
  print_document d :=
    match d with
    | TTable [(a, TTable [(b, TArray [TTable [(c, TBoolean true); (e, TString f)]])])] =>
        if text_eqb a (lit "plugins") && text_eqb b (lit "configured") && text_eqb c (lit "config")
           && text_eqb e (lit "id") && text_eqb f (lit "p")
        then Ok (lit "1") else Err (lit "unsupported")
    | _ => Err (lit "unsupported")
    end;
|}.

#[local] Instance one_document_ok : TomlOk.
Proof.
  split; simpl; try done. intros d t H. repeat case_hyp H. injection H as <-.
  bool_props. repeat match goal with E : text_eqb _ _ = true |- _ => apply text_eqb_eq in E end.
  subst. split; [repeat constructor|done].
Qed.

Lemma sample_named : named (lit "/h/s.toml").
Proof. split; vm_compute; discriminate. Qed.

Lemma replace_config_only_witness :
  ∃ w', replace_config (lit "/h/s.toml") (lit "p") (JBool true) (sample_world (lit "/h/s.toml") (lit "0")) =
          (Ok tt, w') ∧
    ∃ d', read_document (lit "/h/s.toml") w' = Ok d'.
Proof.
  destruct (replace_config (lit "/h/s.toml") (lit "p") (JBool true)
              (sample_world (lit "/h/s.toml") (lit "0"))) as [[[]|e] w'] eqn:E;
    [|exfalso; vm_compute in E; discriminate].
  exists w'. split; [reflexivity|].
  destruct (replace_config_only (lit "/h/s.toml") (lit "p") (JBool true)
              (sample_world (lit "/h/s.toml") (lit "0")) (Ok tt) w' sample_named E)
    as (d & d' & _ & _ & _ & _ & _ & H & _).
  exists d'. exact H.
Defined.

Lemma product_patch_only_witness :
  ∃ w' e, patch_product_surface (lit "/h/s.toml") [(lit "instance_id", JNull)]
            (sample_world (lit "/h/s.toml") (lit "0")) = (Err e, w') ∧
    files w' !! lit "/h/s.toml" = files (sample_world (lit "/h/s.toml") (lit "0")) !! lit "/h/s.toml".
Proof.
  destruct (patch_product_surface (lit "/h/s.toml") [(lit "instance_id", JNull)]
              (sample_world (lit "/h/s.toml") (lit "0"))) as [[[]|e] w'] eqn:E;
    [exfalso; vm_compute in E; discriminate|].
  exists w', e. split; [reflexivity|].
  exact (product_patch_only (lit "/h/s.toml") [(lit "instance_id", JNull)]
           (sample_world (lit "/h/s.toml") (lit "0")) (Err e) w' sample_named E).
Defined.
