(* ===== verification/ConfigLoad.v ===== *)
(** * Loading the service configuration

    [ServiceConfig::load] of [crates/mutsuki-service-config/src/lib.rs]: the
    choice of the files, the merge, the environment, the overrides, the secret
    store, the directories and the control token.  [windows] is [cfg(windows)],
    [os_home] is [dirs::home_dir()]. *)

From S2P Require Import Prelude Text BTreeMap Value ConfigTypes Frame Fs Secrets.

Record ConfigOverrides : Type := mkOverrides {
  o_profile : option text; config_file : option text;
  o_home_dir : option text; control_token : option text;
}.

(** The configuration with the handles it carries: the secret store and the
    path of the managed product config. *)
Record loaded : Type := mkLoaded {
  cfg : ServiceConfig; secret_store : SecretStore; configured_plugin_store : option text;
}.

(** ** Field updates *)

Definition with_service (f : ServiceSection → ServiceSection) (c : ServiceConfig) : ServiceConfig :=
  mkServiceConfig (f (service c)) (core c) (ipc c) (plugins c) (runners c) (observe c) (security c).
Definition with_ipc (f : IpcSection → IpcSection) (c : ServiceConfig) : ServiceConfig :=
  mkServiceConfig (service c) (core c) (f (ipc c)) (plugins c) (runners c) (observe c) (security c).
Definition with_plugins (f : PluginsSection → PluginsSection) (c : ServiceConfig) : ServiceConfig :=
  mkServiceConfig (service c) (core c) (ipc c) (f (plugins c)) (runners c) (observe c) (security c).
Definition with_security (f : SecuritySection → SecuritySection) (c : ServiceConfig) : ServiceConfig :=
  mkServiceConfig (service c) (core c) (ipc c) (plugins c) (runners c) (observe c) (f (security c)).

Definition set_home (h : text) (s : ServiceSection) : ServiceSection :=
  mkServiceSection (profile s) (instance_id s) h (data_dir s) (log_dir s) (plugin_dir s) (run_dir s).
Definition set_profile (p : text) (s : ServiceSection) : ServiceSection :=
  mkServiceSection p (instance_id s) (home_dir s) (data_dir s) (log_dir s) (plugin_dir s) (run_dir s).
Definition set_instance (i : text) (s : ServiceSection) : ServiceSection :=
  mkServiceSection (profile s) i (home_dir s) (data_dir s) (log_dir s) (plugin_dir s) (run_dir s).
Definition set_token (t : text) (i : IpcSection) : IpcSection :=
  mkIpcSection (ipc_enabled i) (ipc_transport i) (ipc_codec i) (ipc_name i) (Some t)
    (tcp_debug_addr i) (sec_max_frame_bytes i) (sec_max_payload_bytes i)
    (sec_max_jsonl_line_bytes i) (sec_max_in_flight i) (sec_idle_timeout_ms i)
    (sec_request_timeout_ms i).
Definition set_transport (t : IpcTransport) (i : IpcSection) : IpcSection :=
  mkIpcSection (ipc_enabled i) t (ipc_codec i) (ipc_name i) (ipc_token i)
    (tcp_debug_addr i) (sec_max_frame_bytes i) (sec_max_payload_bytes i)
    (sec_max_jsonl_line_bytes i) (sec_max_in_flight i) (sec_idle_timeout_ms i)
    (sec_request_timeout_ms i).
Definition set_secret_file (f : option text) (s : SecuritySection) : SecuritySection :=
  mkSecuritySection (control_token_env s) (secret_env_prefix s) f.

(** ** Pieces of [load] *)

Definition absolutize (home path : text) : text :=
  if is_absolute path then path else path_join home path.

Definition resolve_relative_dirs (c : ServiceConfig) : ServiceConfig :=
  let home := home_dir (service c) in
  with_plugins (λ p, mkPluginsSection (configured p) (absolutize home <$> dynamic_dirs p)
                       (absolutize home (disabled_dir p)))
    (with_service (λ s, mkServiceSection (profile s) (instance_id s) (home_dir s)
        (absolutize home (data_dir s)) (absolutize home (log_dir s))
        (absolutize home (plugin_dir s)) (absolutize home (run_dir s))) c).

(** [merge]: every section of the file replaces the one there. *)
Definition merge (c other : ServiceConfig) : ServiceConfig :=
  mkServiceConfig (service other) (core other) (ipc other) (plugins other) (runners other)
    (observe other) (security other).

Definition merge_optional (c : ServiceConfig) (other : option ServiceConfig) : ServiceConfig :=
  match other with Some other => merge c other | None => c end.

Definition env_instance (w : world) (c : ServiceConfig) : ServiceConfig :=
  match env_var w (lit "MUTSUKI_INSTANCE_ID") with
  | Some instance => with_service (set_instance instance) c
  | None => c
  end.

Definition env_token (w : world) (c : ServiceConfig) : ServiceConfig :=
  match env_var w (control_token_env (security c)) with
  | Some token => with_ipc (set_token token) c
  | None => c
  end.

Definition env_transport (w : world) (c : ServiceConfig) : ServiceConfig :=
  match env_var w (lit "MUTSUKI_IPC_TRANSPORT") with
  | Some transport =>
      with_ipc (λ i, set_transport
        (if text_eqb transport (lit "named-pipe") then NamedPipe
         else if text_eqb transport (lit "unix-socket") then UnixSocket
         else if text_eqb transport (lit "tcp-debug") then TcpDebug
         else ipc_transport i) i) c
  | None => c
  end.

Definition apply_env (w : world) (c : ServiceConfig) : ServiceConfig :=
  env_transport w (env_token w (env_instance w c)).

Definition generate_local_token (w : world) : text :=
  lit "local-" ++ show_hex (nanos w) ++ lit "-" ++ show_N (pid w).

Definition ensure_control_token (c : ServiceConfig) (w : world) : ConfigResult ServiceConfig * world :=
  match ipc_token (ipc c) with
  | Some _ => (Ok c, w)
  | None =>
      if bool_decide (env_var w (lit "MUTSUKI_TEST_ALLOW_EMPTY_TOKEN") = Some (lit "1"))
      then (Ok (with_ipc (set_token []) c), w)
      else
        let token_path := path_join (run_dir (service c)) (lit "control.token") in
        let stored := match read_to_string w token_path with Ok t => trim t | Err _ => [] end in
        if negb (is_empty stored) then (Ok (with_ipc (set_token stored) c), w)
        else
          let generated := generate_local_token w in
          match fs_write token_path (utf8 generated) w with
          | (Err e, w) => (Err (CreateDir token_path e), w)
          | (Ok _, w) => (Ok (with_ipc (set_token generated) c), w)
          end
  end.

Definition verify_directory_access (path : text) (w : world) : ConfigResult unit * world :=
  match read_dir w path with
  | Err e => (Err (DirectoryAccess path e), w)
  | Ok _ =>
      let probe := path_join path (lit ".mutsuki-access-probe-" ++ show_N (pid w) ++ lit "-"
                                   ++ show_hex (nanos w)) in
      match fs_write probe [] w with
      | (Err e, w) => (Err (DirectoryAccess path e), w)
      | (Ok _, w) =>
          let '(r, w) := remove_file probe w in (map_err (DirectoryAccess path) r, w)
      end
  end.

Fixpoint ensure_dirs_loop (paths : list text) (w : world) : ConfigResult unit * world :=
  match paths with
  | [] => (Ok tt, w)
  | path :: rest =>
      match create_dir_all path w with
      | (Err e, w) => (Err (CreateDir path e), w)
      | (Ok _, w) =>
          match verify_directory_access path w with
          | (Err e, w) => (Err e, w)
          | (Ok _, w) => ensure_dirs_loop rest w
          end
      end
  end.

Definition service_dirs (c : ServiceConfig) : list text :=
  let s := service c in [home_dir s; data_dir s; log_dir s; plugin_dir s; run_dir s].

Definition ensure_dirs (c : ServiceConfig) (w : world) : ConfigResult unit * world :=
  ensure_dirs_loop (service_dirs c) w.

Section load.
Context `{Toml}.

Definition read_optional_config (path : text) (w : world) : ConfigResult (option ServiceConfig) :=
  if negb (exists_ w path) then Ok None
  else
    let? content := map_err (ReadFile path) (read_to_string w path) in
    let? config := map_err (ParseFile path) (parse_config content) in
    Ok (Some config).

(** The first [Some] of a chain of [or_else]. *)
Fixpoint first_some {A} (l : list (option A)) : option A :=
  match l with
  | [] => None
  | Some x :: _ => Some x
  | None :: l' => first_some l'
  end.

(** The default configuration under the chosen home. *)
Definition start_config (windows : bool) (os_home : option text) (o : ConfigOverrides) (w : world)
    : ServiceConfig :=
  let c := default_config windows os_home in
  resolve_relative_dirs
    match first_some [o_home_dir o; env_var w (lit "MUTSUKI_HOME")] with
    | Some home => with_service (set_home home) c
    | None => c
    end.

Definition local_file_of (o : ConfigOverrides) (c : ServiceConfig) : text :=
  default (path_join (path_join (home_dir (service c)) (lit "config")) (lit "service.toml"))
    (config_file o).

Definition profile_file_of (c : ServiceConfig) : text :=
  path_join (path_join (path_join (home_dir (service c)) (lit "config")) (lit "profiles"))
    (profile (service c) ++ lit ".toml").

(** The files: the local file names the profile, then the profile file and the
    local file are merged in this order. *)
Definition assemble (o : ConfigOverrides) (c : ServiceConfig) (w : world) : ConfigResult ServiceConfig :=
  let local_file := local_file_of o c in
  if bool_decide (is_Some (config_file o)) && negb (is_file w local_file)
  then Err (MissingConfigFile local_file)
  else
    let? local := read_optional_config local_file w in
    let local_profile :=
      p ← (λ f, profile (service f)) <$> local;
      if is_empty p then None else Some p in
    let c := match first_some [o_profile o; env_var w (lit "MUTSUKI_PROFILE"); local_profile] with
             | Some p => with_service (set_profile p) c | None => c end in
    let? profile_config := read_optional_config (profile_file_of c) w in
    let c := merge_optional c profile_config in
    let? local_config := read_optional_config local_file w in
    Ok (merge_optional c local_config).

(** The environment and the command line over the files. *)
Definition override (o : ConfigOverrides) (w : world) (c : ServiceConfig) : ServiceConfig :=
  let c := apply_env w c in
  let c := match o_profile o with Some p => with_service (set_profile p) c | None => c end in
  match control_token o with Some t => with_ipc (set_token t) c | None => c end.

Definition load (windows : bool) (os_home : option text) (o : ConfigOverrides) (w : world)
    : ConfigResult loaded * world :=
  let c0 := start_config windows os_home o w in
  let local_file := local_file_of o c0 in
  let prepared :=
    let? c := assemble o c0 w in
    let c := override o w c in
    let? secrets := load_secret_file (secret_file (security c)) local_file w in
    let '(store, secret_file) := secrets in
    let c := with_security (set_secret_file secret_file) c in
    let plugin_store := if is_file w local_file then Some local_file else None in
    Ok (resolve_relative_dirs c, store, plugin_store) in
  match prepared with
  | Err e => (Err e, w)
  | Ok (c, store, plugin_store) =>
      match ensure_dirs c w with
      | (Err e, w) => (Err e, w)
      | (Ok _, w) =>
          match ensure_control_token c w with
          | (Err e, w) => (Err e, w)
          | (Ok c, w) => (Ok (mkLoaded c store plugin_store), w)
          end
      end
  end.

(** ** Lemmas *)

Lemma is_absolute_join base p : is_absolute base = true → is_absolute (path_join base p) = true.
Proof.
  unfold is_absolute, path_join. intros Hb. case_match; [done|].
  apply starts_with_spec in Hb as [r ->].
  case_match; simpl; done.
Qed.

Lemma is_absolute_absolutize home p : is_absolute home = true → is_absolute (absolutize home p) = true.
Proof. intros Hh. unfold absolutize. case_match; [done|]. by apply is_absolute_join. Qed.

Lemma ensure_token_spec c w c' w' :
  ensure_control_token c w = (Ok c', w') →
  (∃ t, ipc_token (ipc c') = Some t ∧ (∀ t', ipc_token (ipc c) = Some t' → t = t')) ∧
  service c' = service c ∧ core c' = core c ∧ plugins c' = plugins c ∧ runners c' = runners c ∧
  observe c' = observe c ∧ security c' = security c.
Proof.
  unfold ensure_control_token. destruct (ipc_token (ipc c)) as [t|] eqn:Ht.
  - intros [= <- <-]. rewrite Ht. naive_solver.
  - repeat case_match; intros [= <- <-]; simpl; naive_solver.
Qed.

(** What [load] went through. *)
Lemma load_ok windows os_home o w l w' :
  load windows os_home o w = (Ok l, w') →
  ∃ c store secret_file c' w1,
    let c0 := start_config windows os_home o w in
    assemble o c0 w = Ok c ∧
    load_secret_file (ConfigTypes.secret_file (security (override o w c))) (local_file_of o c0) w =
      Ok (store, secret_file) ∧
    c' = resolve_relative_dirs (with_security (set_secret_file secret_file) (override o w c)) ∧
    ensure_control_token c' w1 = (Ok (cfg l), w') ∧ secret_store l = store ∧
    configured_plugin_store l =
      (if is_file w (local_file_of o c0) then Some (local_file_of o c0) else None) ∧
    ensure_dirs c' w = (Ok tt, w1).
Proof.
  unfold load. cbv zeta.
  destruct (assemble o _ w) as [c|] eqn:Ha; cbn [rbind]; [|done].
  destruct (load_secret_file _ _ w) as [[store sf]|] eqn:Hs; cbn [rbind]; [|done].
  destruct (ensure_dirs _ w) as [[[]|] w1] eqn:Hd; [|done].
  destruct (ensure_control_token _ w1) as [[c2|] w2] eqn:Ht; [|done]. intros [= <- <-].
  exists c, store, sf. eexists. exists w1. split_and!; [done|exact Hs|reflexivity|exact Ht|done|done|exact Hd].
Qed.

(** The local file, when it exists, decides every section. *)
Lemma assemble_local o c w c' local :
  assemble o c w = Ok c' → read_optional_config (local_file_of o c) w = Ok (Some local) → c' = local.
Proof.
  unfold assemble. intros Ha Hl. case_match; [done|]. rewrite Hl in Ha. cbn [rbind] in Ha.
  destruct (read_optional_config (profile_file_of _) w) as [pc|]; cbn [rbind] in Ha; [|done].
  injection Ha as <-. unfold merge_optional, merge. by destruct local.
Qed.

(** What the environment does not touch, and the token it sets. *)
Lemma apply_env_sections w c :
  let c' := apply_env w c in
  core c' = core c ∧ plugins c' = plugins c ∧ runners c' = runners c ∧ observe c' = observe c ∧
  security c' = security c ∧ home_dir (service c') = home_dir (service c) ∧
  profile (service c') = profile (service c) ∧
  ipc_token (ipc c') = first_some [env_var w (control_token_env (security c)); ipc_token (ipc c)].
Proof.
  cbv zeta. unfold apply_env.
  assert (H1 : ∀ c, let c' := env_instance w c in
    core c' = core c ∧ plugins c' = plugins c ∧ runners c' = runners c ∧ observe c' = observe c ∧
    security c' = security c ∧ home_dir (service c') = home_dir (service c) ∧
    profile (service c') = profile (service c) ∧ ipc c' = ipc c)
    by (intros c0; unfold env_instance; by destruct (env_var w _)).
  assert (H2 : ∀ c, let c' := env_transport w c in
    core c' = core c ∧ plugins c' = plugins c ∧ runners c' = runners c ∧ observe c' = observe c ∧
    security c' = security c ∧ service c' = service c ∧ ipc_token (ipc c') = ipc_token (ipc c))
    by (intros c0; unfold env_transport; by destruct (env_var w _)).
  assert (H3 : ∀ c, let c' := env_token w c in
    core c' = core c ∧ plugins c' = plugins c ∧ runners c' = runners c ∧ observe c' = observe c ∧
    security c' = security c ∧ service c' = service c ∧
    ipc_token (ipc c') = first_some [env_var w (control_token_env (security c)); ipc_token (ipc c)]).
  { intros c0. unfold env_token. destruct (env_var w _); [done|]. simpl.
    by destruct (ipc_token (ipc c0)). }
  destruct (H1 c) as (A1 & A2 & A3 & A4 & A5 & A6 & A7 & A8).
  destruct (H3 (env_instance w c)) as (B1 & B2 & B3 & B4 & B5 & B6 & B7).
  destruct (H2 (env_token w (env_instance w c))) as (C1 & C2 & C3 & C4 & C5 & C6 & C7).
  clear H1 H2 H3. rewrite C1, C2, C3, C4, C5, C6, C7, B1, B2, B3, B4, B5, B6, B7, A8, A5.
  by split_and!.
Qed.

Lemma override_sections o w c :
  let c' := override o w c in
  core c' = core c ∧ plugins c' = plugins c ∧ runners c' = runners c ∧ observe c' = observe c ∧
  security c' = security c ∧ home_dir (service c') = home_dir (service c) ∧
  profile (service c') = default (profile (service c)) (o_profile o) ∧
  ipc_token (ipc c') =
    first_some [control_token o; env_var w (control_token_env (security c)); ipc_token (ipc c)].
Proof.
  cbv zeta. unfold override.
  destruct (apply_env_sections w c) as (A1 & A2 & A3 & A4 & A5 & A6 & A7 & A8).
  destruct (o_profile o); destruct (control_token o); simpl in *; by split_and!.
Qed.

(** ** Properties *)

(** A loaded configuration is complete.  The control token is set (so
    reading it never panics), and it is the override's, else the environment's,
    else the files', when one of them has it; the profile is the override's
    when there is one; every directory is absolute under an absolute home; and
    a missing explicit file is refused before anything is written. *)
Theorem load_complete windows os_home o w l w' :
  load windows os_home o w = (Ok l, w') →
  (∃ c t, assemble o (start_config windows os_home o w) w = Ok c ∧
     ipc_token (ipc (cfg l)) = Some t ∧
     ∀ t', first_some [control_token o; env_var w (control_token_env (security c)); ipc_token (ipc c)]
             = Some t' → t = t') ∧
  (∀ p, o_profile o = Some p → profile (service (cfg l)) = p) ∧
  (is_absolute (home_dir (service (cfg l))) = true →
     Forall (λ p, is_absolute p = true)
       (service_dirs (cfg l) ++ disabled_dir (plugins (cfg l)) :: dynamic_dirs (plugins (cfg l)))) ∧
  (∀ f, config_file o = Some f → is_file w f = true).
Proof.
  intros Hl. destruct (load_ok _ _ _ _ _ _ Hl) as (c & store & sf & c' & w1 & Ha & Hs & Hc' & Ht & _).
  apply ensure_token_spec in Ht as ((t & Ht & Hpre) & Esv & _ & Epl & _).
  destruct (override_sections o w c) as (_ & _ & _ & _ & _ & Eh & Ep & Et).
  split_and!.
  - exists c, t. split_and!; [done..|]. intros t' H'. apply Hpre.
    rewrite Hc'. simpl. by rewrite Et.
  - intros p Hp. rewrite Esv, Hc'. simpl. by rewrite Ep, Hp.
  - rewrite Esv, Epl, Hc'. unfold service_dirs. rewrite Esv, Hc'. simpl. intros Hh.
    repeat (constructor; [by (done || apply is_absolute_absolutize)|]).
    apply Forall_fmap, Forall_true. intros p. by apply is_absolute_absolutize.
  - intros f Hf. unfold assemble, local_file_of in Ha. rewrite Hf in Ha. simpl in Ha.
    by destruct (is_file w f).
Qed.

(** Sections are replaced whole.  When the local file exists, every section
    of the result is the local file's (defaults for what it omits), whatever
    the profile file holds and whatever home directory the command line or the
    environment named: neither has any effect left. *)
Theorem local_file_replaces_sections windows os_home o w l w' local :
  load windows os_home o w = (Ok l, w') →
  read_optional_config (local_file_of o (start_config windows os_home o w)) w = Ok (Some local) →
  core (cfg l) = core local ∧ runners (cfg l) = runners local ∧ observe (cfg l) = observe local ∧
  configured (plugins (cfg l)) = configured (plugins local) ∧
  home_dir (service (cfg l)) = home_dir (service local).
Proof.
  intros Hl Hlocal. destruct (load_ok _ _ _ _ _ _ Hl) as (c & store & sf & c' & w1 & Ha & Hs & Hc' & Ht & _).
  apply (assemble_local _ _ _ _ local) in Ha; [|done]. subst c.
  apply ensure_token_spec in Ht as (_ & Esv & Eco & Epl & Eru & Eob & _).
  destruct (override_sections o w local) as (E1 & E2 & E3 & E4 & _ & E6 & _).
  rewrite Esv, Eco, Epl, Eru, Eob, Hc'. simpl. rewrite E2. by split_and!.
Qed.

End load.

(** A world with a local file, and the command line that names the home. *)
Definition load_world : world := sample_world (lit "/h/config/service.toml") (lit "x").
Definition load_overrides : ConfigOverrides :=
  mkOverrides (Some (lit "dev")) None (Some (lit "/h")) (Some (lit "t")).

Lemma load_complete_witness :
  ∃ l w', load false (Some (lit "/u")) load_overrides load_world = (Ok l, w') ∧
    profile (service (cfg l)) = lit "dev".
Proof.
  destruct (load false (Some (lit "/u")) load_overrides load_world) as [[l|e] w'] eqn:E;
    [|exfalso; vm_compute in E; discriminate].
  exists l, w'. split; [reflexivity|].
  exact (proj1 (proj2 (load_complete false (Some (lit "/u")) load_overrides load_world l w' E))
           (lit "dev") eq_refl).
Defined.

Lemma local_file_replaces_sections_witness :
  ∃ l w', load false (Some (lit "/u")) load_overrides load_world = (Ok l, w') ∧
    home_dir (service (cfg l)) = home_dir (service (default_config false None)).
Proof.
  destruct (load false (Some (lit "/u")) load_overrides load_world) as [[l|e] w'] eqn:E;
    [|exfalso; vm_compute in E; discriminate].
  exists l, w'. split; [reflexivity|].
  exact (proj2 (proj2 (proj2 (proj2
    (local_file_replaces_sections false (Some (lit "/u")) load_overrides load_world l w'
       (default_config false None) E ltac:(vm_compute; reflexivity)))))).
Defined.
