(* ===== verification/Plugins.v ===== *)
(** * Plugin inventory

    [crates/mutsuki-service-plugin-loader/src/lib.rs]: the builtin registry,
    the scan of the plugin directories with its diagnostics, manifest and ABI
    artifact validation.  The plugin contracts (manifests, artifact types,
    deployment kinds), SHA-256 and the TOML parser are interfaces; the file
    system is read through a view that answers each query. *)

From Stdlib Require Import Sorting.Sorted.
From S2P Require Import Prelude Text BTreeMap ConfigTypes Frame Fs.

(** ** Contracts

    What the host reads of [mutsuki_runtime_contracts]. *)
Class Contracts : Type := {
  ArtifactType : Type;
  ArtifactType_eq_dec :: EqDecision ArtifactType;
  AProcess : ArtifactType; APython : ArtifactType; ANative : ArtifactType; AAbi : ArtifactType;
  PluginDeploymentKind : Type;
  PluginDeploymentKind_eq_dec :: EqDecision PluginDeploymentKind;
  DBuiltin : PluginDeploymentKind; DAbi : PluginDeploymentKind;
  default_for_artifact : ArtifactType → PluginDeploymentKind;
  is_compatible_with_artifact : PluginDeploymentKind → ArtifactType → bool;
  artifact_debug : ArtifactType → text;
  deployment_debug : PluginDeploymentKind → text;
  PluginManifest : Type;
  plugin_id : PluginManifest → text;
  api_version : PluginManifest → text;
  artifact_type : PluginManifest → ArtifactType;
  artifact_path : PluginManifest → text;
  artifact_sha256 : PluginManifest → text;
  (* deployment kind, codec id and bridge id of each declared backend *)
  plugin_backends : PluginManifest → list (PluginDeploymentKind * option text * option text);
  BusinessSurface : Type;
  BusinessSurface_eq_dec :: EqDecision BusinessSurface;
  business_surface : PluginManifest → BusinessSurface;
}.

(** A derived [Debug] tells the kinds apart. *)
Class ContractsOk `{Contracts} : Prop := {
  deployment_debug_inj k1 k2 : deployment_debug k1 = deployment_debug k2 → k1 = k2;
}.

(** ** Paths *)

(** The parts between separators. *)
Fixpoint split_on (sep : N) (t : text) : list text :=
  match t with
  | [] => [[]]
  | c :: t' =>
      match split_on sep t' with
      | part :: rest => if (c =? sep)%N then [] :: part :: rest else (c :: part) :: rest
      | [] => [[c]]
      end
  end.

(** [Path::components] without the root: empty parts do not count, nor does a
    ["."] that is not the start of a relative path. *)
Definition components (p : text) : list text :=
  match split_on 47 p with
  | [] => []
  | first :: rest =>
      (if is_empty first then [] else [first])
      ++ List.filter (λ part, negb (is_empty part || text_eqb part (lit "."))) rest
  end.

Fixpoint is_prefix (p l : list text) : bool :=
  match p, l with
  | [], _ => true
  | x :: p', y :: l' => text_eqb x y && is_prefix p' l'
  | _, [] => false
  end.

(** [Path::starts_with]. *)
Definition path_starts_with (p base : text) : bool :=
  Bool.eqb (is_absolute p) (is_absolute base) && is_prefix (components base) (components p).

Fixpoint compare_lists (a b : list text) : comparison :=
  match a, b with
  | [], [] => Eq
  | [], _ => Lt
  | _, [] => Gt
  | x :: a', y :: b' =>
      match text_compare x y with Eq => compare_lists a' b' | c => c end
  end.

(** [Path::cmp]: component by component. *)
Definition path_compare (a b : text) : comparison := compare_lists (components a) (components b).

(** [Path::extension]. *)
Definition extension (p : text) : option text :=
  let name := file_name p in
  let stem := file_stem name in
  if (List.length stem <? List.length name)%nat then Some (drop (S (List.length stem)) name) else None.

(** ** The file system as the scan sees it *)

Record fs_view : Type := mkView {
  v_exists : text → bool;
  v_is_dir : text → bool;
  v_is_file : text → bool;
  (* the entries of a directory; each may fail on its own *)
  v_read_dir : text → result (list (result text io_error)) io_error;
  v_canonicalize : text → result text io_error;
  v_read : text → result (list byte) io_error;
}.

Definition v_read_to_string (v : fs_view) (p : text) : result text io_error :=
  let? bytes := v_read v p in ok_or (from_utf8 bytes) not_utf8.

Section plugins.
Context `{Contracts}.

(** ** Data *)

Record ExternalRuntimeSpec : Type := mkRuntimeSpec {
  command : text; args : list text; rs_env : btree text; cwd : option text; runner_link : text;
}.

Record PluginToml : Type := mkPluginToml {
  pt_manifest : PluginManifest; pt_runtime : option ExternalRuntimeSpec;
}.

Record PluginRecord : Type := mkPluginRecord {
  manifest_path : text; manifest : PluginManifest; runtime : option ExternalRuntimeSpec;
  resolved_artifact : option text;
}.

Record PluginDiagnostic : Type := mkDiagnostic {
  d_manifest_path : text; d_plugin_id : option text;
  d_deployment : option PluginDeploymentKind; detail : text;
}.

Record PluginInventory : Type := mkInventory {
  records : list PluginRecord; diagnostics : list PluginDiagnostic;
}.

Record PluginCatalog : Type := mkCatalog {
  c_records : list PluginRecord; c_candidates : list PluginRecord;
  c_diagnostics : list PluginDiagnostic;
}.

Definition resolved (inventory : PluginInventory) (selected : list PluginRecord) : PluginCatalog :=
  mkCatalog selected (records inventory) (diagnostics inventory).

Definition external_records (c : PluginCatalog) : list PluginRecord :=
  List.filter (λ r, bool_decide (artifact_type (manifest r) = AProcess)
                    || bool_decide (artifact_type (manifest r) = APython)) (c_records c).

Inductive PluginLoaderError : Type :=
| ReadDir (path : text) (source : io_error)
| ReadManifest (path : text) (source : io_error)
| ParseManifest (path source : text)
| UnsupportedApiVersion (id version : text)
| DeploymentMismatch (id : text) (d : PluginDeploymentKind) (a : ArtifactType)
| SecretInManifest (id key : text)
| BuiltinUnavailable (id : text)
| DynamicNative (id : text)
| DuplicatePlugin (id : text)
| InvalidArtifactPath (id why : text)
| MissingArtifact (id path : text)
| InvalidArtifactExtension (id path : text)
| InvalidArtifactHash (id : text)
| ArtifactHashMismatch (id expected actual : text)
| AbiContractInvalid (id why : text)
| ReadArtifact (path : text) (source : io_error).

Abbreviation PluginLoaderResult A := (result A PluginLoaderError).

(** The [Display] of the errors. *)
Definition loader_error_text (e : PluginLoaderError) : text :=
  match e with
  | ReadDir p s => lit "failed to read plugin directory " ++ p ++ lit ": " ++ io_text s
  | ReadManifest p s => lit "failed to read plugin manifest " ++ p ++ lit ": " ++ io_text s
  | ParseManifest p s => lit "failed to parse plugin manifest " ++ p ++ lit ": " ++ s
  | UnsupportedApiVersion i v => lit "plugin " ++ i ++ lit " uses unsupported api version " ++ v
  | DeploymentMismatch i d a =>
      lit "plugin " ++ i ++ lit " deployment " ++ deployment_debug d
      ++ lit " does not match artifact " ++ artifact_debug a
  | SecretInManifest i k =>
      lit "plugin " ++ i ++ lit " runtime env contains secret-like key " ++ k
      ++ lit "; pass secrets by host backend or environment references"
  | BuiltinUnavailable i =>
      lit "requested builtin plugin " ++ i ++ lit " is not linked into this ServiceHost build"
  | DynamicNative i =>
      lit "dynamic plugin " ++ i
      ++ lit " declares a native artifact that is not linked into this build"
  | DuplicatePlugin i => lit "duplicate plugin id " ++ i ++ lit " in builtin or dynamic catalogs"
  | InvalidArtifactPath i w => lit "ABI artifact path for plugin " ++ i ++ lit " is invalid: " ++ w
  | MissingArtifact i p => lit "ABI artifact for plugin " ++ i ++ lit " is missing: " ++ p
  | InvalidArtifactExtension i p =>
      lit "ABI artifact for plugin " ++ i ++ lit " has an invalid platform extension: " ++ p
  | InvalidArtifactHash i =>
      lit "ABI artifact hash for plugin " ++ i ++ lit " must be sha256:<64 lowercase hex>"
  | ArtifactHashMismatch i e a =>
      lit "ABI artifact hash mismatch for plugin " ++ i ++ lit ": expected " ++ e ++ lit ", got " ++ a
  | AbiContractInvalid i w => lit "plugin " ++ i ++ lit " ABI contract invalid: " ++ w
  | ReadArtifact p s => lit "failed to read ABI artifact " ++ p ++ lit ": " ++ io_text s
  end.

(** ** Manifest validation *)

Definition deployment_of (m : PluginManifest) : PluginDeploymentKind :=
  default_for_artifact (artifact_type m).

Definition secret_like (key : text) : bool :=
  let upper := to_ascii_uppercase key in
  contains (lit "TOKEN") upper || contains (lit "SECRET") upper || contains (lit "PASSWORD") upper.

Definition validate_manifest (m : PluginManifest) (runtime : option ExternalRuntimeSpec)
    : PluginLoaderResult unit :=
  if negb (text_eqb (api_version m) (lit "mutsuki-plugin-v1"))
  then Err (UnsupportedApiVersion (plugin_id m) (api_version m))
  else if negb (is_compatible_with_artifact (deployment_of m) (artifact_type m))
  then Err (DeploymentMismatch (plugin_id m) (deployment_of m) (artifact_type m))
  else
    match runtime with
    | None => Ok tt
    | Some rt =>
        match List.find secret_like (bkeys (rs_env rt)) with
        | Some key => Err (SecretInManifest (plugin_id m) key)
        | None => Ok tt
        end
    end.

(** ** The builtin registry *)

Abbreviation BuiltinRegistry := (btree PluginManifest).

Definition register_manifest (m : PluginManifest) (r : BuiltinRegistry) : BuiltinRegistry :=
  bset (plugin_id m) m r.

Fixpoint load_builtins (manifests : list PluginManifest) : PluginLoaderResult (list PluginRecord) :=
  match manifests with
  | [] => Ok []
  | m :: rest =>
      let? _ := validate_manifest m None in
      let? records := load_builtins rest in
      Ok (mkPluginRecord (lit "<builtin>") m None None :: records)
  end.

Definition load_all (r : BuiltinRegistry) : PluginLoaderResult (list PluginRecord) :=
  load_builtins (bvalues r).

(** ** ABI artifacts *)

Record AbiContract : Type := mkAbiContract {
  ac_codec_id : text; ac_bridge_id : text; entry_symbol : text; transport_version : N;
}.

Definition HOST_ABI_INVENTORY : list AbiContract :=
  [mkAbiContract (lit "mutsuki.codec.typed-jsonl.v1") (lit "mutsuki.bridge.abi.jsonl.v1")
     (lit "mutsuki_plugin_abi_v1") 1;
   mkAbiContract (lit "mutsuki.codec.typed-msgpack.v1") (lit "mutsuki.bridge.abi.binary.v2")
     (lit "mutsuki_plugin_abi_v2") 2].

(** [unsupported] renders the pair for the message. *)
Definition resolve_abi_contract (unsupported : option text * option text → text) (m : PluginManifest)
    : PluginLoaderResult AbiContract :=
  if negb (bool_decide (artifact_type m = AAbi))
  then Err (AbiContractInvalid (plugin_id m) (lit "ABI contract applies only to abi artifacts"))
  else
    match List.filter (λ b, bool_decide (b.1.1 = DAbi)) (plugin_backends m) with
    | [(_, codec, bridge)] =>
        ok_or (List.find (λ c, bool_decide (Some (ac_codec_id c) = codec)
                               && bool_decide (Some (ac_bridge_id c) = bridge)) HOST_ABI_INVENTORY)
          (AbiContractInvalid (plugin_id m) (unsupported (codec, bridge)))
    | _ => Err (AbiContractInvalid (plugin_id m)
                  (lit "manifest must declare exactly one ABI plugin backend"))
    end.

Definition lower_hex (c : N) : bool := is_ascii_digit c || ((97 <=? c)%N && (c <=? 102)%N).

(** [sha256] gives the digest in lower-case hexadecimal, [library] is the
    extension of the platform's dynamic libraries. *)
Definition validate_abi_artifact (unsupported : option text * option text → text)
    (sha256 : list byte → text) (library : text) (v : fs_view) (manifest_path : text)
    (m : PluginManifest) : PluginLoaderResult text :=
  let? _ := resolve_abi_contract unsupported m in
  let id := plugin_id m in
  let declared := artifact_path m in
  if is_absolute declared || is_empty (trim declared) then
    Err (InvalidArtifactPath id (lit "path must be non-empty and relative to plugin.toml"))
  else
    let? plugin_dir := map_err (ReadArtifact manifest_path) (v_canonicalize v (parent manifest_path)) in
    let candidate := path_join plugin_dir declared in
    if negb (v_is_file v candidate) then Err (MissingArtifact id candidate)
    else
      let? resolved := map_err (ReadArtifact candidate) (v_canonicalize v candidate) in
      if negb (path_starts_with resolved plugin_dir) then
        Err (InvalidArtifactPath id (lit "resolved path escapes the plugin directory"))
      else if negb (bool_decide (extension resolved = Some library)) then
        Err (InvalidArtifactExtension id resolved)
      else
        let expected := artifact_sha256 m in
        match strip_prefix (lit "sha256:") expected with
        | None => Err (InvalidArtifactHash id)
        | Some hex =>
            if negb (text_len hex =? 64)%N || negb (forallb lower_hex hex) then
              Err (InvalidArtifactHash id)
            else
              let? bytes := map_err (ReadArtifact resolved) (v_read v resolved) in
              let actual := lit "sha256:" ++ sha256 bytes in
              if negb (text_eqb actual expected) then Err (ArtifactHashMismatch id expected actual)
              else Ok resolved
        end.

(** ** The scan *)

Section scan.
Context (unsupported : option text * option text → text) (sha256 : list byte → text)
  (library : text) (parse_plugin_toml : text → result PluginToml text) (v : fs_view).

Definition read_plugin_manifest (path : text) : PluginLoaderResult PluginToml :=
  let? content := map_err (ReadManifest path) (v_read_to_string v path) in
  map_err (ParseManifest path) (parse_plugin_toml content).

Definition disabled_plugins (disabled_dir : text) : list text :=
  match v_read_dir v disabled_dir with
  | Err _ => []
  | Ok entries =>
      entries ≫= λ e, match e with
                      | Ok path => [trim_end_matches (lit ".disabled") (file_name path)]
                      | Err _ => []
                      end
  end.

(** What one directory entry contributes: nothing, a diagnostic or a record. *)
Inductive found : Type :=
| Skipped
| Diagnosed (d : PluginDiagnostic)
| Found (r : PluginRecord).

Definition manifest_path_of (entry : text) : text :=
  if v_is_dir v entry then path_join entry (lit "plugin.toml") else entry.

Definition scan_entry (disabled : list text) (entry : text) : found :=
  let manifest_path := manifest_path_of entry in
  if negb (text_eqb (file_name manifest_path) (lit "plugin.toml")) || negb (v_exists v manifest_path)
  then Skipped
  else
    match read_plugin_manifest manifest_path with
    | Err e => Diagnosed (mkDiagnostic manifest_path None None (loader_error_text e))
    | Ok record =>
        let m := pt_manifest record in
        let diagnosed detail :=
          Diagnosed (mkDiagnostic manifest_path (Some (plugin_id m)) (Some (deployment_of m)) detail) in
        if bool_decide (plugin_id m ∈ disabled) then
          diagnosed (lit "artifact is quarantined by the Host")
        else
          match validate_manifest m (pt_runtime record) with
          | Err e => diagnosed (loader_error_text e)
          | Ok _ =>
              if bool_decide (artifact_type m = ANative) then
                diagnosed (loader_error_text (DynamicNative (plugin_id m)))
              else if bool_decide (artifact_type m = AAbi) then
                match validate_abi_artifact unsupported sha256 library v manifest_path m with
                | Err e => diagnosed (loader_error_text e)
                | Ok path => Found (mkPluginRecord manifest_path m (pt_runtime record) (Some path))
                end
              else Found (mkPluginRecord manifest_path m (pt_runtime record) None)
          end
    end.

Fixpoint scan_entries (dir : text) (disabled : list text) (entries : list (result text io_error))
    : PluginLoaderResult (list found) :=
  match entries with
  | [] => Ok []
  | Err e :: _ => Err (ReadDir dir e)
  | Ok entry :: rest =>
      let? more := scan_entries dir disabled rest in
      Ok (scan_entry disabled entry :: more)
  end.

Fixpoint scan_dirs (disabled : list text) (dirs : list text) : PluginLoaderResult (list found) :=
  match dirs with
  | [] => Ok []
  | dir :: rest =>
      if negb (v_exists v dir) then scan_dirs disabled rest
      else
        let? entries := map_err (ReadDir dir) (v_read_dir v dir) in
        let? here := scan_entries dir disabled entries in
        let? more := scan_dirs disabled rest in
        Ok (here ++ more)
  end.

Definition found_records (l : list found) : list PluginRecord :=
  l ≫= λ f, match f with Found r => [r] | _ => [] end.
Definition found_diagnostics (l : list found) : list PluginDiagnostic :=
  l ≫= λ f, match f with Diagnosed d => [d] | _ => [] end.

Definition candidate_key (r : PluginRecord) : text * text :=
  (plugin_id (manifest r), deployment_debug (deployment_of (manifest r))).

Definition record_compare (a b : PluginRecord) : comparison :=
  match text_compare (candidate_key a).1 (candidate_key b).1 with
  | Eq =>
      match text_compare (candidate_key a).2 (candidate_key b).2 with
      | Eq => path_compare (manifest_path a) (manifest_path b)
      | c => c
      end
  | c => c
  end.

(** The stable [sort_by]. *)
Fixpoint insert_record (r : PluginRecord) (l : list PluginRecord) : list PluginRecord :=
  match l with
  | [] => [r]
  | x :: l' =>
      match record_compare r x with Gt => x :: insert_record r l' | _ => r :: l end
  end.
Definition sort_records (l : list PluginRecord) : list PluginRecord := foldr insert_record [] l.

(** [chunk_by] on equal keys. *)
Fixpoint chunk (l : list PluginRecord) : list (list PluginRecord) :=
  match l with
  | [] => []
  | r :: l' =>
      match chunk l' with
      | (x :: g) :: gs =>
          if bool_decide (candidate_key r = candidate_key x) then (r :: x :: g) :: gs
          else [r] :: (x :: g) :: gs
      | gs => [r] :: gs
      end
  end.

Definition duplicate_diagnostic (first : PluginRecord) : PluginDiagnostic :=
  mkDiagnostic (manifest_path first) (Some (plugin_id (manifest first)))
    (Some (deployment_of (manifest first)))
    (lit "multiple " ++ deployment_debug (deployment_of (manifest first))
     ++ lit " artifacts are installed for plugin " ++ plugin_id (manifest first)).

Definition unique_records (groups : list (list PluginRecord)) : list PluginRecord :=
  groups ≫= λ g, match g with [r] => [r] | _ => [] end.
Definition group_diagnostics (groups : list (list PluginRecord)) : list PluginDiagnostic :=
  groups ≫= λ g, match g with first :: _ :: _ => [duplicate_diagnostic first] | _ => [] end.

Definition scan (dynamic_dirs : list text) (disabled_dir : text) (builtin : list PluginRecord)
    : PluginLoaderResult PluginInventory :=
  let? found := scan_dirs (disabled_plugins disabled_dir) dynamic_dirs in
  let groups := chunk (sort_records (builtin ++ found_records found)) in
  Ok (mkInventory (unique_records groups) (found_diagnostics found ++ group_diagnostics groups)).

End scan.
End plugins.

(** ** Lemmas on the order of keys *)

Definition key_compare (a b : text * text) : comparison :=
  match text_compare a.1 b.1 with Eq => text_compare a.2 b.2 | c => c end.

Lemma key_compare_eq a b : key_compare a b = Eq ↔ a = b.
Proof.
  unfold key_compare. destruct a as [a1 a2], b as [b1 b2]. simpl.
  destruct (text_compare a1 b1) eqn:E; (split; [try done|]).
  - intros H. apply text_compare_eq in E, H. by subst.
  - intros [= -> ->]. apply text_compare_refl.
  - intros [= -> ->]. by rewrite text_compare_refl in E.
  - intros [= -> ->]. by rewrite text_compare_refl in E.
Qed.

Lemma key_compare_antisym a b : key_compare b a = CompOpp (key_compare a b).
Proof.
  unfold key_compare. rewrite (text_compare_antisym a.1 b.1).
  destruct (text_compare a.1 b.1); simpl; [|done..]. apply text_compare_antisym.
Qed.

Lemma key_compare_trans a b c :
  key_compare a b = Lt → key_compare b c = Lt → key_compare a c = Lt.
Proof.
  unfold key_compare. destruct a as [a1 a2], b as [b1 b2], c as [c1 c2]. simpl.
  destruct (text_compare a1 b1) eqn:E1; try done; destruct (text_compare b1 c1) eqn:E2; try done.
  - apply text_compare_eq in E1, E2. subst. rewrite text_compare_refl. apply text_compare_trans.
  - apply text_compare_eq in E1. subst. by rewrite E2.
  - apply text_compare_eq in E2. subst. by rewrite E1.
  - by rewrite (text_compare_trans _ _ _ E1 E2).
Qed.

Definition key_le (a b : text * text) : Prop := key_compare a b ≠ Gt.

Lemma key_le_cases a b : key_le a b ↔ a = b ∨ key_compare a b = Lt.
Proof.
  unfold key_le. rewrite <-key_compare_eq. destruct (key_compare a b); naive_solver.
Qed.

Lemma key_le_trans a b c : key_le a b → key_le b c → key_le a c.
Proof.
  rewrite !key_le_cases. intros [->|H1] [->|H2]; auto. right. by eapply key_compare_trans.
Qed.

Section lemmas.
Context `{Contracts}.

Definition record_le (a b : PluginRecord) : Prop := key_le (candidate_key a) (candidate_key b).

Lemma record_compare_le a b : record_compare a b ≠ Gt → record_le a b.
Proof.
  unfold record_compare, record_le, key_le, key_compare.
  destruct (text_compare _ _); [|done..]. by destruct (text_compare _ _).
Qed.

Lemma record_compare_ge a b : record_compare a b = Gt → record_le b a.
Proof.
  unfold record_compare, record_le, key_le. rewrite key_compare_antisym. unfold key_compare.
  destruct (text_compare _ _); [|done..]. by destruct (text_compare _ _).
Qed.

Lemma insert_record_perm r l : insert_record r l ≡ₚ r :: l.
Proof.
  induction l as [|x l IH]; simpl; [done|]. destruct (record_compare r x); try done.
  rewrite IH. constructor.
Qed.

Lemma sort_records_perm l : sort_records l ≡ₚ l.
Proof. induction l as [|r l IH]; simpl; [done|]. by rewrite insert_record_perm, IH. Qed.

Lemma insert_record_sorted r l :
  StronglySorted record_le l → StronglySorted record_le (insert_record r l).
Proof.
  induction 1 as [|x l Hl IH Hx]; simpl; [repeat constructor|].
  destruct (record_compare r x) eqn:E.
  3: { constructor; [done|]. rewrite insert_record_perm. constructor; [by apply record_compare_ge|done]. }
  all: assert (Hrx : record_le r x) by (apply record_compare_le; congruence);
    constructor; [by constructor|constructor; [done|]];
    eapply Forall_impl; [exact Hx|]; intros y Hy; by eapply key_le_trans.
Qed.

Lemma sort_records_sorted l : StronglySorted record_le (sort_records l).
Proof. induction l; simpl; [constructor|]. by apply insert_record_sorted. Qed.

(** ** Lemmas on groups *)

Definition head_keys (gs : list (list PluginRecord)) : list (text * text) :=
  gs ≫= λ g, match g with r :: _ => [candidate_key r] | [] => [] end.

Definition same_keys (g : list PluginRecord) : Prop :=
  ∃ r g', g = r :: g' ∧ Forall (λ x, candidate_key x = candidate_key r) g'.

Lemma chunk_spec l :
  StronglySorted record_le l →
  concat (chunk l) = l ∧ Forall same_keys (chunk l) ∧
  StronglySorted (λ a b, key_compare a b = Lt) (head_keys (chunk l)).
Proof.
  induction 1 as [|r l Hl (Hc & Hs & Hk) Hr]; simpl; [split_and!; constructor|].
  destruct (chunk l) as [|[|x g] gs] eqn:E.
  - simpl in Hc. subst. split_and!; [done|repeat constructor; eexists _, _; split; [done|constructor]|].
    repeat constructor.
  - apply Forall_cons in Hs as [(? & ? & ? & _) _]. done.
  - assert (Hx : record_le r x).
    { rewrite <-Hc in Hr. simpl in Hr. by apply Forall_cons in Hr as [Hr _]. }
    apply Forall_cons in Hs as [(x' & g' & [= <- <-] & Hg) Hs]. case_bool_decide as Hkey.
    + simpl in *. rewrite Hc. split_and!; [done| |by rewrite Hkey].
      constructor; [|done]. exists r, (x :: g). split; [done|]. rewrite Hkey. by constructor.
    + simpl in *. rewrite Hc. split_and!; [done| |].
      * repeat constructor; [|by exists x, g|done]. eexists _, _. split; [done|constructor].
      * constructor; [done|]. apply key_le_cases in Hx as [Hx|Hx]; [done|].
        constructor; [done|]. inversion Hk as [|? ? _ Hf]. subst.
        eapply Forall_impl; [exact Hf|]. intros y Hy. by eapply key_compare_trans.
Qed.

Lemma strictly_sorted_nodup (l : list (text * text)) :
  StronglySorted (λ a b, key_compare a b = Lt) l → NoDup l.
Proof.
  induction 1 as [|x l Hl IH Hx]; constructor; [|done]. intros Hin.
  rewrite Forall_forall in Hx. specialize (Hx _ Hin).
  assert (key_compare x x = Eq) by (by apply key_compare_eq). congruence.
Qed.

Lemma unique_keys_sublist gs : (candidate_key <$> unique_records gs) `sublist_of` head_keys gs.
Proof.
  induction gs as [|[|r [|r' g]] gs IH]; simpl; [done|done|by apply sublist_skip|by apply sublist_cons].
Qed.

Lemma unique_in_concat gs r : r ∈ unique_records gs → r ∈ concat gs.
Proof.
  unfold unique_records. induction gs as [|g gs IH]; simpl; [done|].
  rewrite !elem_of_app. intros [Hr|Hr]; [left|right; auto]. destruct g as [|x [|]]; set_solver.
Qed.

(** A record is kept, or its group has a diagnostic. *)
Lemma kept_or_diagnosed gs r :
  Forall same_keys gs → r ∈ concat gs →
  r ∈ unique_records gs ∨
  ∃ d, d ∈ group_diagnostics gs ∧ d_plugin_id d = Some (plugin_id (manifest r)).
Proof.
  induction 1 as [|g gs (x & g' & -> & Hg) Hgs IH]; simpl; [set_solver|].
  rewrite elem_of_cons, elem_of_app. intros Hin.
  assert (Hin' : r ∈ x :: g' ∨ r ∈ concat gs) by (rewrite elem_of_cons; tauto). clear Hin.
  destruct Hin' as [Hin|Hin].
  - assert (Hkey : candidate_key r = candidate_key x).
    { apply elem_of_cons in Hin as [->|Hin]; [done|]. rewrite Forall_forall in Hg. auto. }
    destruct g' as [|y g'].
    + apply list_elem_of_singleton in Hin as ->. left. unfold unique_records. simpl. set_solver.
    + right. exists (duplicate_diagnostic x). split; [unfold group_diagnostics; simpl; set_solver|].
      unfold candidate_key in Hkey. simpl. congruence.
  - destruct (IH Hin) as [Hu|(d & Hd & Hid)].
    + left. unfold unique_records. simpl. rewrite elem_of_app. by right.
    + right. exists d. split; [|done]. unfold group_diagnostics. simpl. rewrite elem_of_app. by right.
Qed.

Lemma elem_found_records fs r : r ∈ found_records fs ↔ Found r ∈ fs.
Proof.
  unfold found_records. rewrite list_elem_of_bind. split.
  - intros (f & Hr & Hf). destruct f; [set_solver..|]. apply list_elem_of_singleton in Hr as ->. done.
  - intros Hf. exists (Found r). set_solver.
Qed.

Lemma elem_found_diagnostics fs d : d ∈ found_diagnostics fs ↔ Diagnosed d ∈ fs.
Proof.
  unfold found_diagnostics. rewrite list_elem_of_bind. split.
  - intros (f & Hr & Hf). destruct f; [set_solver| |set_solver].
    apply list_elem_of_singleton in Hr as ->. done.
  - intros Hf. exists (Diagnosed d). set_solver.
Qed.

End lemmas.

(** ** Lemmas on the scan *)

Section scan_lemmas.
Context `{Contracts}.
Context (unsupported : option text * option text → text) (sha256 : list byte → text)
  (library : text) (parse : text → result PluginToml text) (v : fs_view).

Abbreviation entry_of := (scan_entry unsupported sha256 library parse v).

Lemma validate_manifest_ok m rt :
  validate_manifest m rt = Ok tt →
  api_version m = lit "mutsuki-plugin-v1" ∧
  is_compatible_with_artifact (deployment_of m) (artifact_type m) = true ∧
  ∀ spec key, rt = Some spec → key ∈ bkeys (rs_env spec) → secret_like key = false.
Proof.
  unfold validate_manifest. intros Hv. case_hyp Hv. case_hyp Hv. bool_props.
  match goal with E : text_eqb _ _ = true |- _ => apply text_eqb_eq in E end.
  split_and!; [done..|]. intros spec key -> Hin. case_hyp Hv.
  match goal with E : List.find _ _ = None |- _ => apply (List.find_none _ _ E) end.
  by apply list_elem_of_In.
Qed.

(** What the scan guarantees of a record it adds. *)
Definition admitted (disabled : list text) (r : PluginRecord) : Prop :=
  (plugin_id (manifest r) ∉ disabled) ∧ artifact_type (manifest r) ≠ ANative ∧
  validate_manifest (manifest r) (runtime r) = Ok tt ∧
  (artifact_type (manifest r) = AAbi →
     ∃ p, resolved_artifact r = Some p ∧
       validate_abi_artifact unsupported sha256 library v (manifest_path r) (manifest r) = Ok p).

Lemma scan_entry_found disabled e r : entry_of disabled e = Found r → admitted disabled r.
Proof.
  unfold scan_entry. intros Hs. case_match; [done|].
  destruct (read_plugin_manifest _ _ _) as [record|]; [|done].
  case_bool_decide as Hd; [done|]. destruct (validate_manifest _ _) as [[]|] eqn:Hv; [|done].
  case_bool_decide as Hn; [done|]. case_bool_decide as Ha.
  - destruct (validate_abi_artifact _ _ _ _ _ _) as [p|] eqn:Hp; [|done]. injection Hs as <-.
    by repeat split; [..|exists p].
  - injection Hs as <-. unfold admitted. simpl. naive_solver.
Qed.

Lemma scan_entries_elem dir disabled entries fs f :
  scan_entries unsupported sha256 library parse v dir disabled entries = Ok fs →
  f ∈ fs ↔ ∃ e, Ok e ∈ entries ∧ f = entry_of disabled e.
Proof.
  revert fs. induction entries as [|[e|err] entries IH]; intros fs Hs; simpl in Hs; [| |done].
  - injection Hs as <-. set_solver.
  - apply rbind_ok in Hs as (more & Hm & Hs). injection Hs as <-.
    rewrite elem_of_cons, (IH more Hm). split.
    + intros [->|(e' & He & ->)]; [exists e|exists e']; set_solver.
    + intros (e' & [[= ->]|He]%elem_of_cons & ->); eauto.
Qed.

(** An entry of a directory that is scanned. *)
Definition listed (dirs : list text) (e : text) : Prop :=
  ∃ dir entries, dir ∈ dirs ∧ v_exists v dir = true ∧ v_read_dir v dir = Ok entries ∧ Ok e ∈ entries.

Lemma scan_dirs_elem disabled dirs fs f :
  scan_dirs unsupported sha256 library parse v disabled dirs = Ok fs →
  f ∈ fs ↔ ∃ e, listed dirs e ∧ f = entry_of disabled e.
Proof.
  revert fs. induction dirs as [|dir dirs IH]; intros fs Hs; simpl in Hs.
  - injection Hs as <-. split; [set_solver|]. intros (e & (d & es & Hd & _) & _). set_solver.
  - destruct (v_exists v dir) eqn:Hex; simpl in Hs.
    + apply rbind_ok in Hs as (entries & He & Hs). apply rbind_ok in Hs as (here & Hh & Hs).
      apply rbind_ok in Hs as (more & Hm & Hs). injection Hs as <-.
      destruct (v_read_dir v dir) as [es|] eqn:Hr; [|done]. simpl in He. injection He as ->.
      rewrite elem_of_app, (scan_entries_elem _ _ _ _ _ Hh), (IH more Hm). split.
      * intros [(e & He & ->)|(e & (d & es' & Hd & Hl) & ->)]; exists e; (split; [|done]).
        -- exists dir, entries. split_and!; try done. set_solver.
        -- exists d, es'. split; [set_solver|done].
      * intros (e & (d & es' & Hd & Hex' & Hr' & He') & ->). apply elem_of_cons in Hd as [->|Hd].
        -- left. exists e. split; [|done]. congruence.
        -- right. exists e. split; [|done]. by exists d, es'.
    + rewrite (IH fs Hs). split; intros (e & (d & es & Hd & Hex' & Hl) & ->); exists e; (split; [|done]).
      * exists d, es. split; [set_solver|done].
      * apply elem_of_cons in Hd as [->|Hd]; [congruence|]. by exists d, es.
Qed.

Lemma scan_ok dirs disabled_dir builtin inv :
  scan unsupported sha256 library parse v dirs disabled_dir builtin = Ok inv →
  ∃ fs, scan_dirs unsupported sha256 library parse v (disabled_plugins v disabled_dir) dirs = Ok fs ∧
    let groups := chunk (sort_records (builtin ++ found_records fs)) in
    records inv = unique_records groups ∧
    diagnostics inv = found_diagnostics fs ++ group_diagnostics groups ∧
    concat groups ≡ₚ builtin ++ found_records fs ∧ Forall same_keys groups ∧
    NoDup (candidate_key <$> records inv).
Proof.
  unfold scan. intros (fs & Hfs & Hs)%rbind_ok. injection Hs as <-. exists fs. split; [done|].
  simpl. destruct (chunk_spec _ (sort_records_sorted (builtin ++ found_records fs))) as (Hc & Hk & Hs).
  split_and!; try done.
  - rewrite Hc. apply sort_records_perm.
  - eapply sublist_NoDup; [|apply unique_keys_sublist]. by apply strictly_sorted_nodup.
Qed.

End scan_lemmas.

(** ** Properties *)

Section properties.
Context `{Contracts}.
Context (unsupported : option text * option text → text) (sha256 : list byte → text)
  (library : text) (parse : text → result PluginToml text) (v : fs_view).

(** C31: an ABI artifact that validates is one the host can load and trusts: the
    manifest declares exactly one ABI backend and its codec and bridge are a
    pair of the host's inventory, the resolved file lies inside the plugin's
    own directory, is a library of the platform, and its content has the
    SHA-256 the manifest declares. *)
Theorem abi_artifact_trusted path m p :
  validate_abi_artifact unsupported sha256 library v path m = Ok p →
  (∃ contract codec bridge,
     resolve_abi_contract unsupported m = Ok contract ∧ contract ∈ HOST_ABI_INVENTORY ∧
     List.filter (λ b, bool_decide (b.1.1 = DAbi)) (plugin_backends m) = [(DAbi, codec, bridge)] ∧
     codec = Some (ac_codec_id contract) ∧ bridge = Some (ac_bridge_id contract)) ∧
  (∃ dir, v_canonicalize v (parent path) = Ok dir ∧ path_starts_with p dir = true ∧
     v_canonicalize v (path_join dir (artifact_path m)) = Ok p) ∧
  extension p = Some library ∧
  ∃ bytes, v_read v p = Ok bytes ∧ artifact_sha256 m = lit "sha256:" ++ sha256 bytes.
Proof.
  unfold validate_abi_artifact. intros (contract & Hc & Hv)%rbind_ok. split.
  - exists contract. pose proof Hc as Hc'. unfold resolve_abi_contract in Hc'.
    case_match; [done|]. destruct (List.filter _ _) as [|[[d codec] bridge] [|]] eqn:Hf; try done.
    exists codec, bridge.
    destruct (List.find _ HOST_ABI_INVENTORY) as [c|] eqn:Hfind; [|done]. injection Hc' as ->.
    apply List.find_some in Hfind as [Hin Hm]. bool_props.
    assert (Hd : In (d, codec, bridge) (List.filter (λ b, bool_decide (b.1.1 = DAbi)) (plugin_backends m)))
      by (rewrite Hf; by left).
    apply List.filter_In in Hd.
    destruct Hd as [_ Hd]. apply bool_decide_eq_true in Hd. cbn in Hd. subst.
    split_and!; try done. by apply list_elem_of_In.
  - case_match; [done|]. apply rbind_ok in Hv as (dir & Hdir & Hv).
    case_match; [done|]. apply rbind_ok in Hv as (res & Hres & Hv).
    case_match; [done|]. case_match; [done|]. case_match; [|done]. case_match; [done|].
    apply rbind_ok in Hv as (bytes & Hb & Hv). case_match; [done|]. injection Hv as <-. bool_props.
    destruct (v_canonicalize v (parent path)) as [dir'|]; [|done]. simpl in Hdir. injection Hdir as ->.
    destruct (v_canonicalize v (path_join dir _)) as [res'|] eqn:E; [|done]. simpl in Hres. injection Hres as ->.
    destruct (v_read v res) as [bytes'|] eqn:Eb; [|done]. simpl in Hb. injection Hb as ->.
    match goal with Ht : text_eqb _ _ = true |- _ => apply text_eqb_eq in Ht end.
    split_and!; [by exists dir|done|]. exists bytes. eauto.
Qed.


End properties.

(** ** A concrete inventory *)

Module Sample.

Inductive artifact : Type := SProcess | SPython | SNative | SAbi | SBuiltin.
#[export] Instance artifact_eq_dec : EqDecision artifact.
Proof. solve_decision. Defined.

Inductive kind : Type := KBuiltin | KAbi | KProcess.
#[export] Instance kind_eq_dec : EqDecision kind.
Proof. solve_decision. Defined.

Record plugin : Type := mkPlugin {
  s_id : text; s_version : text; s_artifact : artifact; s_path : text; s_hash : text;
  s_backends : list (kind * option text * option text);
}.

Definition kind_of (a : artifact) : kind :=
  match a with SBuiltin => KBuiltin | SAbi => KAbi | _ => KProcess end.

#[export] Instance sample_contracts : Contracts := {|
  ArtifactType := artifact; ArtifactType_eq_dec := _;
  AProcess := SProcess; APython := SPython; ANative := SNative; AAbi := SAbi;
  PluginDeploymentKind := kind; PluginDeploymentKind_eq_dec := _;
  DBuiltin := KBuiltin; DAbi := KAbi;
  default_for_artifact := kind_of;
  is_compatible_with_artifact k a := bool_decide (k = kind_of a);
  artifact_debug _ := lit "artifact";
  deployment_debug k :=
    match k with KBuiltin => lit "Builtin" | KAbi => lit "Abi" | KProcess => lit "Process" end;
  PluginManifest := plugin; plugin_id := s_id; api_version := s_version;
  artifact_type := s_artifact; artifact_path := s_path; artifact_sha256 := s_hash;
  plugin_backends := s_backends;
  BusinessSurface := list (kind * option text * option text);
  BusinessSurface_eq_dec := _; business_surface _ := [];
|}.

#[export] Instance sample_contracts_ok : ContractsOk.
Proof. split. by intros [] []. Qed.

Definition zeros : text := lit "0000000000000000000000000000000000000000000000000000000000000000".

Definition abi_plugin : plugin :=
  mkPlugin (lit "echo") (lit "mutsuki-plugin-v1") SAbi (lit "echo.so") (lit "sha256:" ++ zeros)
    [(KAbi, Some (lit "mutsuki.codec.typed-jsonl.v1"), Some (lit "mutsuki.bridge.abi.jsonl.v1"))].

Definition builtin_echo : PluginRecord :=
  mkPluginRecord (lit "<builtin>")
    (mkPlugin (lit "echo") (lit "mutsuki-plugin-v1") SBuiltin [] [] []) None None.

(** [/p/echo] holds the ABI plugin, [/p/echo2] a copy, [/p/bad] a manifest that
    does not parse. *)
Definition view : fs_view := {|
  v_exists p := List.existsb (text_eqb p)
    [lit "/p"; lit "/p/echo/plugin.toml"; lit "/p/echo2/plugin.toml"; lit "/p/bad/plugin.toml"];
  v_is_dir p := negb (contains (lit ".") p);
  v_is_file p := contains (lit ".") p;
  v_read_dir p := if text_eqb p (lit "/p") then Ok [Ok (lit "/p/echo"); Ok (lit "/p/bad")]
                  else if text_eqb p (lit "/q") then Ok [Ok (lit "/p/echo2")] else Err no_such_file;
  v_canonicalize p := Ok p;
  v_read p := if contains (lit "bad") p then Ok [] else Ok [x01];
|}.

Definition parse (t : text) : result PluginToml text :=
  if is_empty t then Err (lit "missing field") else Ok (mkPluginToml abi_plugin None).
Definition unsupported (pair : option text * option text) : text := lit "unsupported pair".
Definition sha256 (_ : list byte) : text := zeros.

End Sample.

Section witnesses.
Import Sample.

Lemma abi_artifact_trusted_witness :
  let p := lit "/p/echo/echo.so" in
  validate_abi_artifact Sample.unsupported Sample.sha256 (lit "so") Sample.view
    (lit "/p/echo/plugin.toml") Sample.abi_plugin = Ok p ∧
  path_starts_with p (lit "/p/echo") = true ∧ extension p = Some (lit "so").
Proof.
  intros p.
  assert (Hv : validate_abi_artifact Sample.unsupported Sample.sha256 (lit "so") Sample.view
    (lit "/p/echo/plugin.toml") Sample.abi_plugin = Ok p) by (vm_compute; reflexivity).
  destruct (@abi_artifact_trusted sample_contracts Sample.unsupported Sample.sha256 (lit "so") Sample.view
    (lit "/p/echo/plugin.toml") Sample.abi_plugin p Hv) as (_ & (dir & Hd & Hs & _) & He & _).
  split; [exact Hv|]. split; [|exact He]. injection Hd as <-. exact Hs.
Defined.


End witnesses.
