(* ===== verification/Supervisor.v ===== *)
(** * Runner supervisor

    [crates/mutsuki-service-runner-supervisor/src/lib.rs]: the managed runner
    processes, their start, stop, restart, reconciliation and shutdown.  The
    process calls of the operating system (tokio's [Command] and [Child]) are
    an interface whose laws say what the calls guarantee; processes may exit
    on their own at any call, and every call may fail.  Each operation holds
    the supervisor's mutex from start to end, so operations run one after the
    other. *)

From S2P Require Import Prelude Text BTreeMap Frame Fs Plugins.

(** ** Processes *)

Record Command : Type := mkCommand {
  program : text; c_args : list text; envs : btree text; current_dir : option text;
  kill_on_drop : bool;
}.

(** What [timeout(graceful, child.wait())] returns. *)
Inductive waited : Type :=
| Elapsed
| Waited (r : result (option Z) io_error).

Class Os : Type := {
  os : Type;
  Child : Type;
  (* the process id of a child that has not been reaped *)
  child_id : Child → os → option N;
  os_spawn : Command → os → result Child io_error * os;
  (* an exit status is its code, when it has one *)
  os_try_wait : Child → os → result (option (option Z)) io_error * os;
  os_wait : N → Child → os → waited * os;
  os_kill : Child → os → result unit io_error * os;
  os_drop : Child → os → os;
  (* the process of a handle is running *)
  alive : os → Child → Prop;
  (* the handle has been given out *)
  known : os → Child → Prop;
  (* the operating system refuses to kill the process *)
  refuses : Child → Prop;
}.

(** Nothing starts, but processes may end. *)
Definition quiet `{Os} (o o' : os) : Prop :=
  (∀ c, alive o' c → alive o c) ∧ (∀ c, known o' c ↔ known o c).

Class OsOk `{Os} : Prop := {
  alive_known o c : alive o c → known o c;
  spawn_ok cmd o c o' : os_spawn cmd o = (Ok c, o') →
    ¬ known o c ∧ (∀ x, known o' x ↔ known o x ∨ x = c) ∧
    (∀ x, alive o' x → alive o x ∨ x = c);
  spawn_err cmd o e o' : os_spawn cmd o = (Err e, o') → quiet o o';
  try_wait_quiet c o r o' : os_try_wait c o = (r, o') → quiet o o';
  try_wait_exited c o s o' : os_try_wait c o = (Ok (Some s), o') → ¬ alive o' c;
  wait_quiet d c o r o' : os_wait d c o = (r, o') → quiet o o';
  wait_exited d c o s o' : os_wait d c o = (Waited (Ok s), o') → ¬ alive o' c;
  kill_quiet c o r o' : os_kill c o = (r, o') → quiet o o';
  kill_dead c o o' : os_kill c o = (Ok tt, o') → ¬ alive o' c;
  drop_quiet c o : quiet o (os_drop c o);
  (* [kill_on_drop] *)
  drop_kills c o : alive (os_drop c o) c → refuses c;
}.

(** ** Data *)

Inductive RunnerSupervisorError : Type :=
| AlreadyRunning (id : text)
| UnknownRunner (id : text)
| Spawn (id : text) (source : io_error)
| Stop (id : text) (source : io_error).

Definition supervisor_error_text (e : RunnerSupervisorError) : text :=
  match e with
  | AlreadyRunning i => lit "runner " ++ i ++ lit " is already running"
  | UnknownRunner i => lit "runner " ++ i ++ lit " is not known"
  | Spawn i s => lit "failed to spawn runner " ++ i ++ lit ": " ++ io_text s
  | Stop i s => lit "failed to stop runner " ++ i ++ lit ": " ++ io_text s
  end.

Record ManagedRunnerSpec : Type := mkSpec {
  runner_id : text; spec_plugin_id : text; spec_runtime : ExternalRuntimeSpec;
  env_allowlist : list text; service_home : text; session_token : text;
}.

#[export] Instance ExternalRuntimeSpec_eq_dec : EqDecision ExternalRuntimeSpec.
Proof. solve_decision. Defined.
#[export] Instance ManagedRunnerSpec_eq_dec : EqDecision ManagedRunnerSpec.
Proof. solve_decision. Defined.

Inductive RunnerProcessState : Type :=
| Running
| Exited (code : Z)
| Failed
| Stopped.

#[export] Instance RunnerProcessState_eq_dec : EqDecision RunnerProcessState.
Proof. solve_decision. Defined.

Record RunnerSnapshot : Type := mkSnapshot {
  sn_runner_id : text; sn_plugin_id : text; sn_state : RunnerProcessState;
  sn_pid : option N; sn_restarts : N; sn_last_error : option text;
}.

Section supervisor.
Context `{Os}.

Record ManagedRunner : Type := mkRunner {
  spec : ManagedRunnerSpec; child : option Child; state : RunnerProcessState;
  restarts : N; last_error : option text;
}.

Abbreviation runners := (btree ManagedRunner).

Definition new : runners := [].

Definition drop_child (c : option Child) (o : os) : os :=
  match c with Some c => os_drop c o | None => o end.

(** ** Single runners

    [w] is the host's environment at the time of the call. *)

Definition child_env (s : ManagedRunnerSpec) : btree text :=
  let e := rs_env (spec_runtime s) in
  let e := bset (lit "MUTSUKI_HOME") (service_home s) e in
  let e := bset (lit "MUTSUKI_RUNNER_SESSION_TOKEN") (session_token s) e in
  let e := bset (lit "MUTSUKI_RUNNER_ID") (runner_id s) e in
  bset (lit "MUTSUKI_PLUGIN_ID") (spec_plugin_id s) e.

Definition child_command (w : world) (s : ManagedRunnerSpec) : Command :=
  mkCommand (command (spec_runtime s)) (args (spec_runtime s))
    (filtered_environment w (env_allowlist s) (child_env s)) (cwd (spec_runtime s)) true.

Definition spawn_child (w : world) (s : ManagedRunnerSpec) (o : os)
    : result Child RunnerSupervisorError * os :=
  let '(r, o) := os_spawn (child_command w s) o in
  (map_err (Spawn (runner_id s)) r, o).

Definition set_child (c : option Child) (r : ManagedRunner) : ManagedRunner :=
  mkRunner (spec r) c (state r) (restarts r) (last_error r).
Definition set_state (s : RunnerProcessState) (r : ManagedRunner) : ManagedRunner :=
  mkRunner (spec r) (child r) s (restarts r) (last_error r).

Definition refresh_runner (r : ManagedRunner) (o : os) : ManagedRunner * os :=
  match child r with
  | None => (r, o)
  | Some c =>
      let '(a, o) := os_try_wait c o in
      match a with
      | Ok (Some code) => (set_child None (set_state (Exited (default (-1)%Z code)) r), os_drop c o)
      | Ok None => (set_state Running r, o)
      | Err e => (mkRunner (spec r) (child r) Failed (restarts r) (Some (io_text e)), o)
      end
  end.

(** The handle is taken out of the runner and dropped when the call ends. *)
Definition stop_child (graceful : N) (r : ManagedRunner) (o : os)
    : result unit RunnerSupervisorError * ManagedRunner * os :=
  match child r with
  | None => (Ok tt, set_state Stopped r, o)
  | Some c =>
      let r := set_child None r in
      let stopped := set_state Stopped r in
      let '(a, o) := os_try_wait c o in
      match a with
      | Ok (Some _) => (Ok tt, stopped, os_drop c o)
      | _ =>
          let '(w, o) := os_wait graceful c o in
          match w with
          | Elapsed =>
              let '(k, o) := os_kill c o in
              match k with
              | Err e => (Err (Stop (runner_id (spec r)) e), r, os_drop c o)
              | Ok _ => (Ok tt, stopped, os_drop c o)
              end
          | Waited _ => (Ok tt, stopped, os_drop c o)
          end
      end
  end.

Definition snapshot_runner (o : os) (r : ManagedRunner) : RunnerSnapshot :=
  mkSnapshot (runner_id (spec r)) (spec_plugin_id (spec r)) (state r)
    (child r ≫= λ c, child_id c o) (restarts r) (last_error r).

(** ** Operations *)

Definition is_running (r : ManagedRunner) : bool := bool_decide (state r = Running).

Definition started (s : ManagedRunnerSpec) (c : Child) : ManagedRunner :=
  mkRunner s (Some c) Running 0 None.

(** [insert]: the runner it replaces is dropped, and with it its handle. *)
Definition insert_runner (id : text) (r : ManagedRunner) (rs : runners) (o : os) : runners * os :=
  (bset id r rs, drop_child (bget rs id ≫= child) o).

Definition start (w : world) (s : ManagedRunnerSpec) (rs : runners) (o : os)
    : result unit RunnerSupervisorError * runners * os :=
  if default false (is_running <$> bget rs (runner_id s))
  then (Err (AlreadyRunning (runner_id s)), rs, o)
  else
    match spawn_child w s o with
    | (Err e, o) => (Err e, rs, o)
    | (Ok c, o) =>
        let '(rs, o) := insert_runner (runner_id s) (started s c) rs o in (Ok tt, rs, o)
    end.

Fixpoint refresh_all (rs : runners) (o : os) : runners * os :=
  match rs with
  | [] => ([], o)
  | (id, r) :: rs =>
      let '(r, o) := refresh_runner r o in
      let '(rs, o) := refresh_all rs o in ((id, r) :: rs, o)
  end.

Definition list_ (rs : runners) (o : os) : list RunnerSnapshot * runners * os :=
  let '(rs, o) := refresh_all rs o in
  (snapshot_runner o <$> bvalues rs, rs, o).

Definition restart (w : world) (id : text) (rs : runners) (o : os)
    : result unit RunnerSupervisorError * runners * os :=
  match bget rs id with
  | None => (Err (UnknownRunner id), rs, o)
  | Some r =>
      match stop_child 5000 r o with
      | (Err e, r, o) => (Err e, bset id r rs, o)
      | (Ok _, r, o) =>
          match spawn_child w (spec r) o with
          | (Err e, o) => (Err e, bset id r rs, o)
          | (Ok c, o) =>
              (Ok tt, bset id (mkRunner (spec r) (Some c) Running (wrap 32 (restarts r + 1)) None) rs,
               drop_child (child r) o)
          end
      end
  end.

Definition stop (id : text) (rs : runners) (o : os)
    : result unit RunnerSupervisorError * runners * os :=
  match bget rs id with
  | None => (Err (UnknownRunner id), rs, o)
  | Some r =>
      match stop_child 5000 r o with
      | (Err e, r, o) => (Err e, bset id r rs, o)
      | (Ok _, r, o) => (Ok tt, bset id (set_state Stopped r) rs, o)
      end
  end.

(** The first loop of [reconcile]: runners that are no longer desired, or
    desired with another spec, are stopped and removed. *)
Definition undesired (desired : btree ManagedRunnerSpec) (id : text) (r : ManagedRunner) : bool :=
  match bget desired id with
  | None => true
  | Some s => negb (bool_decide (spec r = s))
  end.

Fixpoint remove_loop (desired : btree ManagedRunnerSpec) (graceful : N) (ids : list text)
    (rs : runners) (o : os) : list RunnerSupervisorError * runners * os :=
  match ids with
  | [] => ([], rs, o)
  | id :: ids =>
      match bget rs id with
      | Some r =>
          if undesired desired id r then
            match stop_child graceful r o with
            | (Err e, r, o) =>
                let '(es, rs, o) := remove_loop desired graceful ids (bset id r rs) o in (e :: es, rs, o)
            | (Ok _, r, o) =>
                remove_loop desired graceful ids (bdel id rs) (drop_child (child r) o)
            end
          else remove_loop desired graceful ids rs o
      | None => remove_loop desired graceful ids rs o
      end
  end.

(** The second loop: desired runners that are not running are started. *)
Fixpoint start_loop (w : world) (desired : btree ManagedRunnerSpec) (rs : runners) (o : os)
    : list RunnerSupervisorError * runners * os :=
  match desired with
  | [] => ([], rs, o)
  | (id, s) :: desired =>
      if default false (is_running <$> bget rs id) then start_loop w desired rs o
      else
        match spawn_child w s o with
        | (Ok c, o) =>
            let '(rs, o) := insert_runner id (started s c) rs o in start_loop w desired rs o
        | (Err e, o) => let '(es, rs, o) := start_loop w desired rs o in (e :: es, rs, o)
        end
  end.

Definition by_id (desired : list ManagedRunnerSpec) : btree ManagedRunnerSpec :=
  bcollect ((λ s, (runner_id s, s)) <$> desired).

Definition reconcile (w : world) (desired : list ManagedRunnerSpec) (graceful : N)
    (rs : runners) (o : os) : list RunnerSupervisorError * runners * os :=
  let desired := by_id desired in
  let '(rs, o) := refresh_all rs o in
  let '(es1, rs, o) := remove_loop desired graceful (bkeys rs) rs o in
  let '(es2, rs, o) := start_loop w desired rs o in
  (es1 ++ es2, rs, o).

Fixpoint shutdown (graceful : N) (rs : runners) (o : os) : runners * os :=
  match rs with
  | [] => ([], o)
  | (id, r) :: rs =>
      let '(_, r, o) := stop_child graceful r o in
      let '(rs, o) := shutdown graceful rs o in ((id, r) :: rs, o)
  end.

(** ** Runs *)

Inductive call : Type :=
| CStart (w : world) (s : ManagedRunnerSpec)
| CList
| CRestart (w : world) (id : text)
| CStop (id : text)
| CReconcile (w : world) (desired : list ManagedRunnerSpec) (graceful : N)
| CShutdown (graceful : N).

Definition perform (c : call) (st : runners * os) : runners * os :=
  let '(rs, o) := st in
  match c with
  | CStart w s => let '(_, rs, o) := start w s rs o in (rs, o)
  | CList => let '(_, rs, o) := list_ rs o in (rs, o)
  | CRestart w id => let '(_, rs, o) := restart w id rs o in (rs, o)
  | CStop id => let '(_, rs, o) := stop id rs o in (rs, o)
  | CReconcile w desired graceful => let '(_, rs, o) := reconcile w desired graceful rs o in (rs, o)
  | CShutdown graceful => shutdown graceful rs o
  end.

Definition perform_all (cs : list call) (st : runners * os) : runners * os :=
  fold_left (λ st c, perform c st) cs st.

End supervisor.

(** ** Lemmas on single runners *)

Section lemmas.
Context `{OsOk}.

Abbreviation runners := (btree ManagedRunner).

Lemma quiet_trans o1 o2 o3 : quiet o1 o2 → quiet o2 o3 → quiet o1 o3.
Proof. intros [H1 H2] [H3 H4]. split; [auto|]. intros c. by rewrite H4. Qed.

Lemma quiet_drop c o o' : quiet o o' → quiet o (os_drop c o').
Proof. intros Hq. eapply quiet_trans; [exact Hq|]. apply drop_quiet. Qed.

Hint Resolve quiet_trans quiet_drop try_wait_quiet wait_quiet kill_quiet drop_quiet : core.

Lemma quiet_refl o : quiet o o.
Proof. by split. Qed.
Hint Resolve quiet_refl : core.

(** What an operation on a runner does to its process: it is kept, or the
    handle is gone and only a process that cannot be killed lives on. *)
Definition handed (r r' : ManagedRunner) (o' : os) : Prop :=
  child r' = child r ∨ child r' = None ∧ ∀ c, child r = Some c → alive o' c → refuses c.

Lemma refresh_runner_spec r o r' o' :
  refresh_runner r o = (r', o') →
  spec r' = spec r ∧ restarts r' = restarts r ∧ quiet o o' ∧ handed r r' o'.
Proof.
  unfold refresh_runner, handed. intros Hr. destruct (child r) as [c|] eqn:Ec; [|by simplify_eq; eauto].
  destruct (os_try_wait c o) as [[[code|]|e] o1] eqn:Hw; simplify_eq; simpl; split_and!; eauto.
  right. split; [done|]. intros c' [= <-]. apply drop_kills.
Qed.

Lemma stop_child_spec graceful r o a r' o' :
  stop_child graceful r o = (a, r', o') →
  spec r' = spec r ∧ restarts r' = restarts r ∧ quiet o o' ∧ child r' = None ∧
  (∀ c, child r = Some c → alive o' c → refuses c) ∧
  match a with
  | Ok _ => state r' = Stopped
  | Err e => r' = set_child None r ∧ ∃ x, e = Stop (runner_id (spec r)) x
  end.
Proof.
  unfold stop_child. intros Hr. destruct (child r) as [c|] eqn:Ec; [|simplify_eq; by split_and!].
  assert (Hd : ∀ o', ∀ c', Some c = Some c' → alive (os_drop c o') c' → refuses c')
    by (intros ? c' [= <-]; apply drop_kills).
  destruct (os_try_wait c o) as [t o1] eqn:Ht. apply try_wait_quiet in Ht.
  assert (Hrest :
    (let '(w, o) := os_wait graceful c o1 in
     match w with
     | Elapsed =>
         let '(k, o) := os_kill c o in
         match k with
         | Err e => (Err (Stop (runner_id (spec (set_child None r))) e), set_child None r, os_drop c o)
         | Ok _ => (Ok tt, set_state Stopped (set_child None r), os_drop c o)
         end
     | Waited _ => (Ok tt, set_state Stopped (set_child None r), os_drop c o)
     end) = (a, r', o') ∨ (Ok tt, set_state Stopped (set_child None r), os_drop c o1) = (a, r', o'))
    by (destruct t as [[s|]|]; auto).
  clear Hr. destruct Hrest as [Hr|Hr]; [|simplify_eq; split_and!; simpl; eauto].
  destruct (os_wait graceful c o1) as [w o2] eqn:Hw. apply wait_quiet in Hw.
  destruct w as [|x]; [|simplify_eq; split_and!; simpl; eauto].
  destruct (os_kill c o2) as [[[]|e] o3] eqn:Hk; apply kill_quiet in Hk;
    simplify_eq; split_and!; simpl; eauto 6.
Qed.

(** ** Ownership *)

Section ownership.
Context (foreign : Child → Prop).

(** Every runner has its own process, none of them someone else's, and every
    process that is alive belongs to a runner, unless it cannot be killed. *)
Record owned_ok (rs : runners) (o : os) : Prop := mkOwned {
  own_sorted : bsorted rs;
  own_ids id r : bget rs id = Some r → runner_id (spec r) = id;
  own_distinct i j r r' c :
    bget rs i = Some r → bget rs j = Some r' → child r = Some c → child r' = Some c → i = j;
  own_held i r c : bget rs i = Some r → child r = Some c → known o c ∧ ¬ foreign c;
  own_covered c : alive o c → foreign c ∨ refuses c ∨ ∃ i r, bget rs i = Some r ∧ child r = Some c;
  own_foreign c : foreign c → known o c;
}.

Lemma owned_quiet rs o o' : owned_ok rs o → quiet o o' → owned_ok rs o'.
Proof.
  intros Ho [Ha Hk]. destruct Ho. split; [done..| | |].
  - intros. rewrite Hk. eauto.
  - eauto.
  - intros. rewrite Hk. eauto.
Qed.

Lemma owned_replace rs o id r r' o' :
  owned_ok rs o → bget rs id = Some r → spec r' = spec r → quiet o o' → handed r r' o' →
  owned_ok (bset id r' rs) o'.
Proof.
  intros Ho Hg Hs Hq Hh. pose proof (owned_quiet _ _ _ Ho Hq) as Ho'.
  assert (Hc : ∀ i x c, bget (bset id r' rs) i = Some x → child x = Some c →
            ∃ y, bget rs i = Some y ∧ child y = Some c).
  { intros i x c. rewrite bget_set. destruct (text_eqb id i) eqn:E; [|eauto].
    apply text_eqb_eq in E as <-. intros [= <-] Hx. exists r. split; [done|].
    destruct Hh as [Hh|[Hh _]]; congruence. }
  split.
  - apply bset_sorted, Ho.
  - intros i x. rewrite bget_set. destruct (text_eqb id i) eqn:E; [|apply Ho].
    apply text_eqb_eq in E as <-. intros [= <-]. rewrite Hs. by apply (own_ids _ _ Ho).
  - intros i j x y c Hi Hj Hx Hy. destruct (Hc _ _ _ Hi Hx) as (? & ? & ?).
    destruct (Hc _ _ _ Hj Hy) as (? & ? & ?). by eapply (own_distinct _ _ Ho').
  - intros i x c Hi Hx. destruct (Hc _ _ _ Hi Hx) as (? & ? & ?). by eapply (own_held _ _ Ho').
  - intros c Ha. destruct (own_covered _ _ Ho' c Ha) as [|[|(i & x & Hi & Hx)]]; [tauto..|].
    destruct (text_eqb id i) eqn:E.
    + apply text_eqb_eq in E as <-. simplify_eq.
      destruct Hh as [Hh|[_ Hh]]; [|right; left; eauto]. right. right. exists id, r'.
      rewrite bget_set_eq. split; [done|congruence].
    + right. right. exists i, x. by rewrite bget_set, E.
  - apply Ho'.
Qed.

Lemma owned_spawn rs o cmd c o' id r :
  owned_ok rs o → os_spawn cmd o = (Ok c, o') → runner_id (spec r) = id → child r = Some c →
  owned_ok (bset id r rs) (drop_child (bget rs id ≫= child) o').
Proof.
  intros Ho Hsp Hid Hr. destruct (spawn_ok _ _ _ _ Hsp) as (Hnew & Hknown & Halive).
  set (o'' := drop_child (bget rs id ≫= child) o').
  assert (Hq : quiet o' o'') by (unfold o'', drop_child; case_match; auto).
  assert (Hdropped : ∀ y c', bget rs id = Some y → child y = Some c' → alive o'' c' → refuses c').
  { intros y c' Hy Hc' Ha. subst o''. rewrite Hy in Ha. cbn in Ha. rewrite Hc' in Ha.
    by apply (drop_kills _ _ Ha). }
  assert (Hk : ∀ x, known o'' x ↔ known o x ∨ x = c) by (intros; rewrite (proj2 Hq); apply Hknown).
  assert (Hold : ∀ i x c', bget (bset id r rs) i = Some x → child x = Some c' →
            i = id ∧ c' = c ∨ i ≠ id ∧ bget rs i = Some x).
  { intros i x c'. rewrite bget_set. destruct (text_eqb id i) eqn:E.
    - apply text_eqb_eq in E as <-. intros [= <-]. left. split; congruence.
    - intros. right. apply bool_decide_eq_false in E. auto. }
  split.
  - apply bset_sorted, Ho.
  - intros i x. rewrite bget_set. destruct (text_eqb id i) eqn:E; [|apply Ho].
    apply text_eqb_eq in E as <-. by intros [= <-].
  - intros i j x y c' Hi Hj Hx Hy.
    destruct (Hold _ _ _ Hi Hx) as [[-> ->]|[Hii Hi']], (Hold _ _ _ Hj Hy) as [[-> ?]|[Hjj Hj']]; subst.
    + done.
    + by destruct Hnew; eapply (own_held _ _ Ho).
    + by destruct Hnew; eapply (own_held _ _ Ho).
    + by eapply (own_distinct _ _ Ho).
  - intros i x c' Hi Hx. rewrite Hk. destruct (Hold _ _ _ Hi Hx) as [[-> ->]|[_ Hi']].
    + split; [by right|]. intros Hf. by apply Hnew, (own_foreign _ _ Ho).
    + destruct (own_held _ _ Ho _ _ _ Hi' Hx). auto.
  - intros c' Ha. destruct (Halive c' (proj1 Hq _ Ha)) as [Ha'| ->].
    2: { right. right. exists id, r. by rewrite bget_set_eq. }
    destruct (own_covered _ _ Ho c' Ha') as [|[|(i & x & Hi & Hx)]]; [tauto..|].
    destruct (text_eqb id i) eqn:E.
    + apply text_eqb_eq in E as <-. right. left. eauto.
    + right. right. exists i, x. by rewrite bget_set, E.
  - intros c' Hf. rewrite Hk. left. by apply (own_foreign _ _ Ho).
Qed.

Lemma owned_delete rs o id r :
  owned_ok rs o → bget rs id = Some r → child r = None → owned_ok (bdel id rs) o.
Proof.
  intros Ho Hg Hr.
  assert (Hd : ∀ i x, bget (bdel id rs) i = Some x → bget rs i = Some x).
  { intros i x. destruct (decide (id = i)) as [->|]; [by rewrite bget_del_eq|by rewrite bget_del_ne]. }
  destruct Ho as [Hs Hi Hdi Hh Hc Hf]. split; eauto using bdel_sorted.
  intros c Ha. destruct (Hc c Ha) as [|[|(i & x & Hix & Hx)]]; [tauto..|].
  right. right. exists i, x. split; [|done]. rewrite bget_del_ne; congruence.
Qed.

(** ** The operations keep the ownership *)

Lemma owned_bset_bset rs o id r r' :
  owned_ok (bset id r (bset id r' rs)) o → owned_ok (bset id r rs) o.
Proof. by rewrite bset_bset. Qed.

Lemma spawn_child_inv w s o x o' :
  spawn_child w s o = (x, o') →
  match x with
  | Ok c => os_spawn (child_command w s) o = (Ok c, o')
  | Err e => quiet o o' ∧ ∃ y, e = Spawn (runner_id s) y
  end.
Proof.
  unfold spawn_child. destruct (os_spawn _ o) as [[c|y] o1] eqn:Hs; intros [= <- <-]; simpl; [done|].
  split; [|eauto]. by apply spawn_err in Hs.
Qed.

Lemma refresh_all_owned rs pre o rs' o' :
  owned_ok (pre ++ rs) o → refresh_all rs o = (rs', o') → owned_ok (pre ++ rs') o'.
Proof.
  revert pre o rs' o'. induction rs as [|[id r] rs IH]; intros pre o rs' o' Ho Hr; simpl in Hr.
  { by simplify_eq. }
  destruct (refresh_runner r o) as [r1 o1] eqn:E1. destruct (refresh_all rs o1) as [rs2 o2] eqn:E2.
  simplify_eq. apply refresh_runner_spec in E1 as (Hs & _ & Hq & Hh).
  change ((id, r1) :: rs2) with ([(id, r1)] ++ rs2). rewrite (assoc_L (++)).
  eapply IH; [|exact E2]. rewrite <-(assoc_L (++)). simpl.
  rewrite <-(bset_app _ _ _ r) by apply Ho.
  apply (owned_replace _ o _ r); [done| |done..]. apply bget_app_eq, Ho.
Qed.

Lemma shutdown_owned graceful rs pre o rs' o' :
  owned_ok (pre ++ rs) o → shutdown graceful rs o = (rs', o') → owned_ok (pre ++ rs') o'.
Proof.
  revert pre o rs' o'. induction rs as [|[id r] rs IH]; intros pre o rs' o' Ho Hr; simpl in Hr.
  { by simplify_eq. }
  destruct (stop_child graceful r o) as [[a r1] o1] eqn:E1.
  destruct (shutdown graceful rs o1) as [rs2 o2] eqn:E2.
  simplify_eq. apply stop_child_spec in E1 as (Hs & _ & Hq & Hn & Hc & _).
  change ((id, r1) :: rs2) with ([(id, r1)] ++ rs2). rewrite (assoc_L (++)).
  eapply IH; [|exact E2]. rewrite <-(assoc_L (++)). simpl.
  rewrite <-(bset_app _ _ _ r) by apply Ho.
  apply (owned_replace _ o _ r); [done| |done..|by right]. apply bget_app_eq, Ho.
Qed.

Lemma stopped_owned graceful rs o id r a r' o' :
  owned_ok rs o → bget rs id = Some r → stop_child graceful r o = (a, r', o') →
  owned_ok (bset id r' rs) o' ∧ spec r' = spec r ∧ child r' = None.
Proof.
  intros Ho Hg Hs. apply stop_child_spec in Hs as (Hs & _ & Hq & Hn & Hc & _).
  split; [|done]. apply (owned_replace rs o id r); try done. by right.
Qed.

Lemma remove_loop_owned desired graceful ids rs o es rs' o' :
  owned_ok rs o → remove_loop desired graceful ids rs o = (es, rs', o') → owned_ok rs' o'.
Proof.
  revert rs o es rs' o'. induction ids as [|id ids IH]; intros rs o es rs' o' Ho Hr; simpl in Hr.
  { by simplify_eq. }
  destruct (bget rs id) as [r|] eqn:Hg; [|eauto]. destruct (undesired desired id r); [|eauto].
  destruct (stop_child graceful r o) as [[a r1] o1] eqn:E1.
  destruct (stopped_owned _ _ _ _ _ _ _ _ Ho Hg E1) as (Ho1 & _ & Hn). destruct a as [[]|e].
  - rewrite Hn in Hr. simpl in Hr. eapply IH; [|exact Hr].
    assert (Hd : bdel id rs = bdel id (bset id r1 rs)).
    { apply bsorted_ext; eauto using bdel_sorted, bset_sorted, own_sorted. intros k.
      destruct (decide (id = k)) as [->|]; [by rewrite !bget_del_eq|].
      by rewrite !bget_del_ne, bget_set_ne. }
    rewrite Hd. eapply owned_delete; [done|apply bget_set_eq|done].
  - destruct (remove_loop desired graceful ids _ o1) as [[es1 rs1] o2] eqn:E2. simplify_eq. eauto.
Qed.

Lemma start_loop_owned w desired rs o es rs' o' :
  owned_ok rs o → Forall (λ d, runner_id d.2 = d.1) desired →
  start_loop w desired rs o = (es, rs', o') → owned_ok rs' o'.
Proof.
  revert rs o es rs' o'. induction desired as [|[id s] desired IH]; intros rs o es rs' o' Ho Hd Hr;
    simpl in Hr; [by simplify_eq|].
  apply Forall_cons in Hd as [Hid Hd]. simpl in Hid.
  destruct (default false _); [eauto|].
  destruct (spawn_child w s o) as [[c|e] o1] eqn:E1; apply spawn_child_inv in E1.
  - eapply IH; [|done|exact Hr]. by eapply owned_spawn.
  - destruct E1 as [Hq _]. destruct (start_loop w desired rs o1) as [[es1 rs1] o2] eqn:E2. simplify_eq.
    eapply IH; [|done|exact E2]. by eapply owned_quiet.
Qed.

Lemma by_id_ids desired : Forall (λ d, runner_id d.2 = d.1) (by_id desired).
Proof.
  assert (Hg : ∀ l m, Forall (λ d : text * ManagedRunnerSpec, runner_id d.2 = d.1) m →
                 Forall (λ d, runner_id d.2 = d.1)
                   (bextend m ((λ s, (runner_id s, s)) <$> l))).
  { induction l as [|s l IH]; intros m Hm; [done|]. simpl. apply IH. by apply Forall_bset. }
  apply (Hg desired []). constructor.
Qed.

Lemma perform_owned c rs o rs' o' :
  owned_ok rs o → perform c (rs, o) = (rs', o') → owned_ok rs' o'.
Proof.
  intros Ho Hp. destruct c; simpl in Hp.
  - unfold start in Hp. destruct (default false _); [by simplify_eq|].
    destruct (spawn_child w s o) as [[c|e] o1] eqn:E1; apply spawn_child_inv in E1.
    + cbn in Hp. simplify_eq. by eapply owned_spawn.
    + simplify_eq. eapply owned_quiet; [done|apply E1].
  - unfold list_ in Hp. destruct (refresh_all rs o) as [rs1 o1] eqn:E. simplify_eq.
    by eapply (refresh_all_owned rs []).
  - unfold restart in Hp. destruct (bget rs id) as [r|] eqn:Hg; [|by simplify_eq].
    destruct (stop_child 5000 r o) as [[a r1] o1] eqn:E1.
    destruct (stopped_owned _ _ _ _ _ _ _ _ Ho Hg E1) as (Ho1 & Hs & Hn).
    destruct a as [[]|e]; [|by simplify_eq].
    destruct (spawn_child w (spec r1) o1) as [[c|e] o2] eqn:E2; apply spawn_child_inv in E2.
    + simplify_eq. apply owned_bset_bset with r1.
      replace (drop_child (child r1) o2) with (drop_child (bget (bset id r1 rs) id ≫= child) o2)
        by (by rewrite bget_set_eq).
      eapply owned_spawn; [done..| |done]. simpl. rewrite Hs. by apply (own_ids _ _ Ho).
    + simplify_eq. eapply owned_quiet; [done|apply E2].
  - unfold stop in Hp. destruct (bget rs id) as [r|] eqn:Hg; [|by simplify_eq].
    destruct (stop_child 5000 r o) as [[a r1] o1] eqn:E1.
    destruct (stopped_owned _ _ _ _ _ _ _ _ Ho Hg E1) as (Ho1 & Hs & Hn).
    destruct a as [[]|e]; [|by simplify_eq]. simplify_eq. apply owned_bset_bset with r1.
    eapply owned_replace; [exact Ho1|apply bget_set_eq|done|done|by left].
  - unfold reconcile in Hp. destruct (refresh_all rs o) as [rs1 o1] eqn:E1.
    destruct (remove_loop _ graceful _ rs1 o1) as [[es2 rs2] o2] eqn:E2.
    destruct (start_loop w _ rs2 o2) as [[es3 rs3] o3] eqn:E3. simplify_eq.
    eapply start_loop_owned; [|apply by_id_ids|exact E3]. eapply remove_loop_owned; [|exact E2].
    by eapply (refresh_all_owned rs []).
  - by eapply (shutdown_owned graceful rs []).
Qed.

Lemma perform_all_owned cs rs o rs' o' :
  owned_ok rs o → perform_all cs (rs, o) = (rs', o') → owned_ok rs' o'.
Proof.
  revert rs o. induction cs as [|c cs IH]; intros rs o Ho Hp; [by simplify_eq/=|].
  change (perform_all cs (perform c (rs, o)) = (rs', o')) in Hp.
  destruct (perform c (rs, o)) as [rs1 o1] eqn:E. eapply IH; [|exact Hp]. by eapply perform_owned.
Qed.

Lemma owned_new o : (∀ c, foreign c ↔ known o c) → owned_ok new o.
Proof.
  intros Hf. split; try done.
  - intros c Ha. left. by apply Hf, alive_known.
  - intros c. apply Hf.
Qed.

End ownership.
(** ** What the loops do to each runner *)

Lemma refresh_all_get rs o rs' o' :
  refresh_all rs o = (rs', o') →
  bkeys rs' = bkeys rs ∧
  ∀ id r', bget rs' id = Some r' →
    ∃ r, bget rs id = Some r ∧ spec r' = spec r ∧ restarts r' = restarts r.
Proof.
  revert o rs' o'. induction rs as [|[id r] rs IH]; intros o rs' o' Hr; simpl in Hr; [by simplify_eq|].
  destruct (refresh_runner r o) as [r1 o1] eqn:E1. destruct (refresh_all rs o1) as [rs2 o2] eqn:E2.
  simplify_eq. destruct (IH _ _ _ E2) as [Hk Hg]. apply refresh_runner_spec in E1 as (Hs & Hn & _).
  unfold bkeys in *. simpl. split; [by f_equal|]. intros i x.
  destruct (text_eqb i id); [|apply Hg]. intros [= <-]. eauto.
Qed.

Lemma remove_loop_get desired graceful ids rs o es rs' o' :
  NoDup ids → remove_loop desired graceful ids rs o = (es, rs', o') →
  ∀ id,
    (id ∉ ids → bget rs' id = bget rs id) ∧
    ∀ r, id ∈ ids → bget rs id = Some r →
      if undesired desired id r
      then bget rs' id = None ∨
           bget rs' id = Some (set_child None r) ∧ ∃ x, Stop (runner_id (spec r)) x ∈ es
      else bget rs' id = Some r.
Proof.
  intros Hnd. revert rs o es rs' o'.
  induction Hnd as [|id ids Hid Hnd IH]; intros rs o es rs' o' Hr i; simpl in Hr.
  { simplify_eq. split; [done|]. set_solver. }
  assert (Hkeep : ∀ rs1 o1 es1,
    remove_loop desired graceful ids rs1 o1 = (es1, rs', o') →
    (∀ j, j ≠ id → bget rs1 j = bget rs j) → (∀ x, x ∈ es1 → x ∈ es) →
    (∀ r, bget rs id = Some r →
      if undesired desired id r
      then bget rs1 id = None ∨
           bget rs1 id = Some (set_child None r) ∧ ∃ x, Stop (runner_id (spec r)) x ∈ es
      else bget rs1 id = Some r) →
    (i ∉ id :: ids → bget rs' i = bget rs i) ∧
    ∀ r, i ∈ id :: ids → bget rs i = Some r →
      if undesired desired i r
      then bget rs' i = None ∨
           bget rs' i = Some (set_child None r) ∧ ∃ x, Stop (runner_id (spec r)) x ∈ es
      else bget rs' i = Some r).
  { intros rs1 o1 es1 H1 Hoth Hes Hthis. destruct (IH _ _ _ _ _ H1 i) as [Ha Hb]. split.
    - intros [Hne Hni]%not_elem_of_cons. by rewrite Ha, Hoth.
    - intros r [->|Hin]%elem_of_cons Hg.
      + rewrite Ha by done. by apply Hthis.
      + assert (i ≠ id) by congruence. rewrite <-Hoth in Hg by done. specialize (Hb r Hin Hg).
        destruct (undesired desired i r); [|done]. destruct Hb as [|(? & x & ?)]; eauto. }
  destruct (bget rs id) as [r|] eqn:Hg; [|by eapply Hkeep].
  destruct (undesired desired id r) eqn:Hu.
  2: { eapply Hkeep; [exact Hr|done..|]. intros ? [= <-]. by rewrite Hu. }
  destruct (stop_child graceful r o) as [[[[]|e] r1] o1] eqn:E1.
  - eapply Hkeep; [exact Hr| |done|].
    + intros. by rewrite bget_del_ne.
    + intros ? [= <-]. rewrite Hu, bget_del_eq. by left.
  - destruct (remove_loop desired graceful ids _ o1) as [[es1 rs1] o2] eqn:E2. simplify_eq.
    apply stop_child_spec in E1 as (_ & _ & _ & _ & _ & -> & x & ->).
    eapply Hkeep; [exact E2| | |].
    + intros. by rewrite bget_set_ne.
    + set_solver.
    + intros ? [= <-]. rewrite Hu, bget_set_eq. right. split; [done|]. exists x. set_solver.
Qed.

Lemma start_loop_get w desired rs o es rs' o' :
  NoDup (bkeys desired) → start_loop w desired rs o = (es, rs', o') →
  ∀ id,
    match bget desired id with
    | None => bget rs' id = bget rs id
    | Some s =>
        if default false (is_running <$> bget rs id) then bget rs' id = bget rs id
        else (∃ c, bget rs' id = Some (started s c)) ∨
             bget rs' id = bget rs id ∧ ∃ x, Spawn (runner_id s) x ∈ es
    end.
Proof.
  unfold bkeys. revert rs o es rs' o'.
  induction desired as [|[id s] desired IH]; intros rs o es rs' o' Hnd Hr i; simpl in Hr; [by simplify_eq|].
  simpl in Hnd. apply NoDup_cons in Hnd as [Hid Hnd]. simpl.
  assert (Hout : bget desired id = None) by (by apply bget_None).
  assert (Hthis : ∀ rs1 o1 es1, start_loop w desired rs1 o1 = (es1, rs', o') → bget rs' id = bget rs1 id)
    by (intros ??? H1; specialize (IH _ _ _ _ _ Hnd H1 id); by rewrite Hout in IH).
  assert (Hother : ∀ rs1 o1 es1, start_loop w desired rs1 o1 = (es1, rs', o') →
    (i ≠ id → bget rs1 i = bget rs i) → (∀ x, x ∈ es1 → x ∈ es) → i ≠ id →
    match bget desired i with
    | None => bget rs' i = bget rs i
    | Some s =>
        if default false (is_running <$> bget rs i) then bget rs' i = bget rs i
        else (∃ c, bget rs' i = Some (started s c)) ∨
             bget rs' i = bget rs i ∧ ∃ x, Spawn (runner_id s) x ∈ es
    end).
  { intros rs1 o1 es1 H1 Hoth Hes Hne. specialize (IH _ _ _ _ _ Hnd H1 i). rewrite Hoth in IH by done.
    destruct (bget desired i); [|done]. destruct (default false _); [done|].
    destruct IH as [|(? & x & ?)]; eauto. }
  destruct (text_eqb i id) eqn:Ei.
  - apply text_eqb_eq in Ei as ->. destruct (default false _) eqn:Hrun; [eauto|].
    destruct (spawn_child w s o) as [[c|e] o1] eqn:E1; apply spawn_child_inv in E1.
    + left. exists c. rewrite (Hthis _ _ _ Hr). apply bget_set_eq.
    + destruct E1 as [_ [x ->]]. destruct (start_loop w desired rs o1) as [[es1 rs1] o2] eqn:E2.
      simplify_eq. right. split; [eauto|]. exists x. set_solver.
  - assert (Hne : i ≠ id) by (by apply bool_decide_eq_false in Ei).
    destruct (default false (is_running <$> bget rs id)); [by eapply Hother|].
    destruct (spawn_child w s o) as [[c|e] o1] eqn:E1.
    + eapply Hother; [exact Hr| |done|done]. intros. by rewrite bget_set_ne.
    + destruct (start_loop w desired rs o1) as [[es1 rs1] o2] eqn:E2. simplify_eq.
      eapply Hother; [exact E2|done|set_solver|done].
Qed.

End lemmas.

(** ** Properties *)

Section properties.
Context `{OsOk}.

(** What the supervisor can have become after a sequence of calls. *)
Definition reachable (rs : btree ManagedRunner) (o0 o : os) : Prop :=
  ∃ cs, perform_all cs (new, o0) = (rs, o).

(** C12: no process is lost.  After any sequence of starts, lists, restarts,
    stops, reconciliations and shutdowns, whatever failed in between, every
    process the supervisor spawned that is still alive is the child of a runner
    it can list and stop (or the operating system refuses to kill it), no two
    runners share a process, and every runner is registered under its own id. *)
Theorem no_orphans rs o0 o :
  reachable rs o0 o →
  (∀ c, alive o c → ¬ known o0 c → refuses c ∨ ∃ id r, bget rs id = Some r ∧ child r = Some c) ∧
  (∀ i j r r' c, bget rs i = Some r → bget rs j = Some r' → child r = Some c → child r' = Some c → i = j) ∧
  (∀ id r, bget rs id = Some r → runner_id (spec r) = id).
Proof.
  intros [cs Hcs]. assert (Ho : owned_ok (known o0) rs o).
  { eapply perform_all_owned; [|exact Hcs]. by apply owned_new. }
  split_and!; [|apply Ho|apply Ho]. intros c Ha Hk. destruct (own_covered _ _ _ Ho c Ha); tauto.
Qed.

(** A shutdown leaves no process behind: whatever the supervisor was asked
    to do before, afterwards none of the processes it ever spawned is alive,
    except those the operating system refuses to kill. *)
Theorem shutdown_stops_all rs o0 o graceful rs' o' :
  reachable rs o0 o → shutdown graceful rs o = (rs', o') →
  ∀ c, alive o' c → ¬ known o0 c → refuses c.
Proof.
  intros [cs Hcs] Hs c Ha Hk. assert (Ho : owned_ok (known o0) rs o).
  { eapply perform_all_owned; [|exact Hcs]. by apply owned_new. }
  assert (Ho' : owned_ok (known o0) rs' o') by (by eapply (shutdown_owned _ _ _ [])).
  destruct (own_covered _ _ _ Ho' c Ha) as [|[|(i & r & Hi & Hr)]]; [done..|].
  assert (Hn : Forall (λ e, child e.2 = None) rs').
  { clear -Hs H0. revert o rs' o' Hs. induction rs as [|[id r] rs IH]; intros o rs' o' Hs; simpl in Hs.
    - by simplify_eq.
    - destruct (stop_child graceful r o) as [[a r1] o1] eqn:E1.
      destruct (shutdown graceful rs o1) as [rs2 o2] eqn:E2. simplify_eq.
      constructor; [|eauto]. by apply stop_child_spec in E1 as (_ & _ & _ & Hn & _). }
  rewrite Forall_forall in Hn. apply bget_elem, Hn in Hi. simpl in Hi. congruence.
Qed.

(** C21: a reconciliation brings the runners to the desired set.  A runner that is
    not desired is gone, or stopping it failed and the error is reported; a
    desired one runs with exactly its specification, or an error of its own is
    reported; and a runner that was running with its desired specification is
    left alone: same process, same restart count. *)
Theorem reconcile_converges w desired graceful rs o0 o es rs' o' :
  reachable rs o0 o → reconcile w desired graceful rs o = (es, rs', o') →
  ∀ id,
    match bget (by_id desired) id with
    | None => bget rs' id = None ∨ ∃ x, Stop id x ∈ es
    | Some s =>
        (∃ r, bget rs' id = Some r ∧ spec r = s ∧ state r = Running ∧
           (∀ r0, bget (refresh_all rs o).1 id = Some r0 → spec r0 = s → state r0 = Running → r = r0)) ∨
        ∃ x, Stop id x ∈ es ∨ Spawn id x ∈ es
    end.
Proof.
  intros [cs Hcs] Hr id. assert (Ho : owned_ok (known o0) rs o).
  { eapply perform_all_owned; [|exact Hcs]. by apply owned_new. }
  unfold reconcile in Hr. destruct (refresh_all rs o) as [rs1 o1] eqn:E1.
  destruct (remove_loop _ graceful _ rs1 o1) as [[es2 rs2] o2] eqn:E2.
  destruct (start_loop w _ rs2 o2) as [[es3 rs3] o3] eqn:E3. simplify_eq. cbn [fst].
  destruct (refresh_all_get _ _ _ _ E1) as [Hk1 Hg1].
  assert (Hnd : NoDup (bkeys rs1)) by (rewrite Hk1; apply bsorted_nodup, Ho).
  destruct (remove_loop_get _ _ _ _ _ _ _ _ Hnd E2 id) as [Hout Hin].
  assert (Hnd' : NoDup (bkeys (by_id desired))) by (apply bsorted_nodup, bcollect_sorted).
  pose proof (start_loop_get _ _ _ _ _ _ _ Hnd' E3 id) as H3.
  assert (Hids : ∀ r, bget rs1 id = Some r → runner_id (spec r) = id).
  { intros r Hr. destruct (Hg1 _ _ Hr) as (r0 & Hr0 & -> & _). by apply (own_ids _ _ _ Ho). }
  assert (Hmid : bget rs1 id = None ∧ bget rs2 id = None ∨
    ∃ r, bget rs1 id = Some r ∧ if undesired (by_id desired) id r
      then bget rs2 id = None ∨ bget rs2 id = Some (set_child None r) ∧ ∃ x, Stop id x ∈ es2
      else bget rs2 id = Some r).
  { destruct (bget rs1 id) as [r|] eqn:Eg.
    - right. exists r. split; [done|]. specialize (Hin r). rewrite (Hids r eq_refl) in Hin.
      apply Hin; [|done]. apply bhas_spec. unfold bhas. by rewrite Eg.
    - left. split; [done|]. rewrite Hout; [done|]. by apply bget_None. }
  unfold undesired in Hmid.
  pose proof (by_id_ids desired) as Hby.
  destruct (bget (by_id desired) id) as [s|] eqn:Ed.
  - assert (Hs : runner_id s = id).
    { rewrite Forall_forall in Hby. apply bget_elem, Hby in Ed. done. }
    rewrite Hs in H3. setoid_rewrite elem_of_app.
    destruct Hmid as [[Hm1 Hm2]|(r & Hm1 & Hm2)].
    + rewrite Hm1. rewrite Hm2 in H3. simpl in H3. destruct H3 as [[c H3]|(_ & x & Hx)]; [|eauto 6].
      left. exists (started s c). by split_and!.
    + rewrite Hm1. case_bool_decide as Hspec; simpl in Hm2.
      * rewrite Hm2 in H3. simpl in H3. destruct (is_running r) eqn:Hrun.
        -- left. exists r. apply bool_decide_eq_true in Hrun. split_and!; try done. by intros ? [= <-].
        -- destruct H3 as [[c H3]|(_ & x & Hx)]; [|eauto 6]. left. exists (started s c).
           split_and!; try done. intros ? [= <-] _ Hst. by apply bool_decide_eq_false in Hrun.
      * destruct Hm2 as [Hm2|(_ & x & Hx)]; [|eauto 6]. rewrite Hm2 in H3. simpl in H3.
        destruct H3 as [[c H3]|(_ & x & Hx)]; [|eauto 6]. left. exists (started s c).
        split_and!; try done. by intros ? [= <-].
  - setoid_rewrite elem_of_app. destruct Hmid as [[_ Hm2]|(r & _ & [Hm2|(_ & x & Hx)])]; [left; congruence..|eauto].
Qed.

(** The environment of a runner: its identity (home, session token, runner and
    plugin id) is the supervisor's whatever the plugin's manifest sets, then come
    the manifest's variables, then the allowlisted ones of the host, and nothing
    else. *)
Theorem runner_environment w s k :
  bsorted (rs_env (spec_runtime s)) →
  bget (envs (child_command w s)) k =
    if text_eqb (lit "MUTSUKI_PLUGIN_ID") k then Some (spec_plugin_id s)
    else if text_eqb (lit "MUTSUKI_RUNNER_ID") k then Some (runner_id s)
    else if text_eqb (lit "MUTSUKI_RUNNER_SESSION_TOKEN") k then Some (session_token s)
    else if text_eqb (lit "MUTSUKI_HOME") k then Some (service_home s)
    else match bget (rs_env (spec_runtime s)) k with
         | Some v => Some v
         | None => if bool_decide (k ∈ env_allowlist s) then env_var w k else None
         end.
Proof.
  intros Hs. unfold child_command. cbn [envs].
  rewrite bget_filtered_environment by (unfold child_env; auto 10 with host).
  unfold child_env. cbv zeta. rewrite !bget_set. by repeat case_match.
Qed.

End properties.

(** ** A concrete operating system

    Handles are counted; a spawn fails on the program [bad]; a process runs
    until it is killed. *)

Module Sample.

Record system : Type := mkSystem { next : nat; live : list nat }.

Definition reap (c : nat) (o : system) : system :=
  mkSystem (next o) (List.filter (λ x, negb (Nat.eqb x c)) (live o)).
Definition running (o : system) (c : nat) : bool := Nat.ltb c (next o) && bool_decide (c ∈ live o).

#[export] Instance sample_os : Os := {|
  os := system; Child := nat;
  child_id c o := if running o c then Some (N.of_nat c) else None;
  os_spawn cmd o :=
    if text_eqb (program cmd) (lit "bad") then (Err no_such_file, o)
    else (Ok (next o), mkSystem (S (next o)) (next o :: live o));
  os_try_wait c o := (if running o c then Ok None else Ok (Some (Some 0%Z)), o);
  os_wait _ c o := (if running o c then Elapsed else Waited (Ok None), o);
  os_kill c o := (Ok tt, reap c o);
  os_drop c o := reap c o;
  alive o c := running o c = true;
  known o c := (c < next o)%nat;
  refuses _ := False;
|}.

Lemma reap_running c o x : running (reap c o) x = running o x && negb (Nat.eqb x c).
Proof.
  unfold running, reap. simpl. destruct (Nat.ltb x (next o)); [|done]. simpl.
  destruct (Nat.eqb_spec x c) as [->|Hne]; simpl.
  - rewrite andb_false_r. apply bool_decide_eq_false. rewrite list_elem_of_In, List.filter_In.
    rewrite Nat.eqb_refl. by intros [_ ?].
  - rewrite andb_true_r. apply bool_decide_ext. rewrite !list_elem_of_In, List.filter_In.
    destruct (Nat.eqb_spec x c); naive_solver.
Qed.

Lemma reap_quiet c o : quiet o (reap c o).
Proof.
  split; [|done]. intros x. simpl. rewrite reap_running. intros Ha. by apply andb_true_iff in Ha as [? _].
Qed.

#[export] Instance sample_os_ok : OsOk.
Proof.
  split.
  - intros o c. simpl. unfold running. intros Ha. apply andb_true_iff in Ha as [Ha _].
    by apply Nat.ltb_lt.
  - intros cmd o c o'. simpl. case_match; [done|]. intros [= <- <-]. simpl. split_and!; [lia|lia|].
    intros x. unfold running. simpl. intros [Hx Hin]%andb_true_iff.
    apply Nat.ltb_lt in Hx. apply bool_decide_eq_true, elem_of_cons in Hin as [->|Hin]; [by right|].
    destruct (decide (x = next o)); [by right|]. left. apply andb_true_iff.
    split; [apply Nat.ltb_lt; lia|by apply bool_decide_eq_true].
  - intros cmd o e o'. simpl. case_match; [|done]. intros [= <- <-]. by split.
  - intros c o r o' [= <- <-]. by split.
  - intros c o s o'. simpl. intros [= Hs <-]. simpl. by destruct (running o c).
  - intros d c o r o' [= <- <-]. by split.
  - intros d c o s o'. simpl. intros [= Hs <-]. simpl. by destruct (running o c).
  - intros c o r o' [= <- <-]. apply reap_quiet.
  - intros c o o' [= <-]. simpl. rewrite reap_running, Nat.eqb_refl, andb_false_r. done.
  - intros c o. apply reap_quiet.
  - intros c o. simpl. by rewrite reap_running, Nat.eqb_refl, andb_false_r.
Qed.

Definition host : world := sample_world (lit "f") [].
Definition runner (id program : text) : ManagedRunnerSpec :=
  mkSpec id (lit "plugin") (mkRuntimeSpec program [] [(lit "A", lit "1")] None (lit "stdio"))
    [lit "PATH"] (lit "/h") (lit "token").

(** Two runners are started, one is restarted, one fails to start; then the
    desired set is one of the two and a new one. *)
Definition calls : list call :=
  [CStart host (runner (lit "a") (lit "x")); CStart host (runner (lit "b") (lit "x"));
   CRestart host (lit "a"); CStart host (runner (lit "c") (lit "bad")); CList].
Definition state0 : btree ManagedRunner * os := perform_all calls (new, mkSystem 0 []).
Definition desired : list ManagedRunnerSpec :=
  [runner (lit "b") (lit "x"); runner (lit "d") (lit "y"); runner (lit "e") (lit "bad")].

Lemma reachable0 : reachable state0.1 (mkSystem 0 []) state0.2.
Proof. exists calls. unfold state0. by destruct (perform_all _ _). Qed.

End Sample.

Section witnesses.
Import Sample.

Lemma no_orphans_witness :
  live state0.2 = [2; 1]%nat ∧
  (∀ c, alive state0.2 c → ¬ known (mkSystem 0 []) c →
     refuses c ∨ ∃ id r, bget state0.1 id = Some r ∧ child r = Some c).
Proof.
  split; [vm_compute; reflexivity|].
  exact (proj1 (no_orphans state0.1 (mkSystem 0 []) state0.2 reachable0)).
Defined.

Lemma shutdown_stops_all_witness :
  live (shutdown 1 state0.1 state0.2).2 = [] ∧
  ∀ c, alive (shutdown 1 state0.1 state0.2).2 c → ¬ known (mkSystem 0 []) c → refuses c.
Proof.
  split; [vm_compute; reflexivity|].
  destruct (shutdown 1 state0.1 state0.2) as [rs' o'] eqn:E.
  exact (shutdown_stops_all state0.1 (mkSystem 0 []) state0.2 1 rs' o' reachable0 E).
Defined.

Lemma reconcile_converges_witness :
  let '(es, rs', o') := reconcile host desired 1 state0.1 state0.2 in
  bkeys rs' = [lit "b"; lit "d"] ∧ List.length es = 1%nat ∧
  (bget rs' (lit "a") = None ∨ ∃ x, Stop (lit "a") x ∈ es).
Proof.
  destruct (reconcile host desired 1 state0.1 state0.2) as [[es rs'] o'] eqn:E.
  pose proof (reconcile_converges host desired 1 state0.1 (mkSystem 0 []) state0.2 es rs' o'
    reachable0 E (lit "a")) as Ha.
  split; [|split; [|exact Ha]]; vm_compute in E; injection E as <- <- <-; reflexivity.
Defined.

Lemma runner_environment_witness :
  bget (envs (child_command host (runner (lit "a") (lit "x")))) (lit "A") = Some (lit "1").
Proof.
  exact (runner_environment host (runner (lit "a") (lit "x")) (lit "A") (conj (Forall_nil_2 _) I)).
Defined.

End witnesses.
