(* ===== verification/RunnerLogs.v ===== *)
(** * The output of runner processes

    [drain_stream] of [crates/mutsuki-service-runner-supervisor/src/lib.rs], which
    logs what a supervised runner writes to its output streams, and
    [drain_blocking_stderr] of [crates/mutsuki-service-runtime/src/lib.rs], its
    counterpart for the JSONL runners.  A stream is the bytes that the process
    writes and the way it ends; what is left of it was not read when the task
    that drains it ended and closed the pipe. *)

From S2P Require Import Prelude Text ConfigTypes Frame Stream Fs.

(** ** Lines *)

Definition invalid_utf8 : io_error := mkIo false (lit "stream did not contain valid UTF-8").

(** [Lines::next_line] of tokio, and [BufRead::lines]: the end of a line is a
    newline, with a carriage return before it if there is one. *)
Definition next_line (r : reader) : result (option text) io_error * reader :=
  match split_line (remaining r) with
  | Some (line, rest) => (rmap Some (ok_or (from_utf8 (strip_cr line)) invalid_utf8), mkReader rest (at_end r))
  | None =>
      (if is_unexpected_eof (at_end r) then
         match remaining r with
         | [] => Ok None
         | line => rmap Some (ok_or (from_utf8 line) invalid_utf8)
         end
       else Err (at_end r),
       mkReader [] (at_end r))
  end.

(** ** The tasks *)

(** What is logged: a line, at the level the task has for it, or the failure
    that ends the task. *)
Inductive log_event : Type :=
| RunnerLine (runner_id stream line : text)
| ReadFailed (runner_id stream : text) (error : io_error).

(** One turn of the loop for every line; [fuel] bounds the turns. *)
Fixpoint drain_turns (fuel : nat) (runner_id stream : text) (r : reader) : option (list log_event * reader) :=
  match fuel with
  | O => None
  | S fuel =>
      match next_line r with
      | (Ok (Some line), r) =>
          '(log, r) ← drain_turns fuel runner_id stream r;
          Some (RunnerLine runner_id stream line :: log, r)
      | (Ok None, r) => Some ([], r)
      | (Err error, r) => Some ([ReadFailed runner_id stream error], r)
      end
  end.

(** Every line takes a byte. *)
Definition drain_stream (runner_id stream : text) (r : reader) : option (list log_event * reader) :=
  drain_turns (S (S (List.length (remaining r)))) runner_id stream r.

Fixpoint blocking_turns (fuel : nat) (runner_id : text) (r : reader) : option (list log_event * reader) :=
  match fuel with
  | O => None
  | S fuel =>
      match next_line r with
      | (Ok (Some line), r) =>
          '(log, r) ← blocking_turns fuel runner_id r;
          Some (RunnerLine runner_id (lit "stderr") line :: log, r)
      | (Ok None, r) | (Err _, r) => Some ([], r)
      end
  end.

(** [reader.lines().map_while(Result::ok)]. *)
Definition drain_blocking_stderr (runner_id : text) (r : reader) : option (list log_event * reader) :=
  blocking_turns (S (S (List.length (remaining r)))) runner_id r.

(** ** The output, line by line *)

(** Some lines and what follows the last newline. *)
Definition output (ls : list (list byte)) (tail : list byte) : list byte :=
  concat ((λ line, line ++ [x0a]) <$> ls) ++ tail.
Definition no_newline (line : list byte) : Prop := x0a ∉ line.
#[export] Instance no_newline_dec line : Decision (no_newline line).
Proof. unfold no_newline. apply _. Defined.

Lemma no_newline_nil : no_newline [].
Proof. apply not_elem_of_nil. Qed.

(** Every output is of this form. *)
Fixpoint cut (line l : list byte) : list (list byte) * list byte :=
  match l with
  | [] => ([], line)
  | b :: l => if Byte.eqb b x0a then (line :: (cut [] l).1, (cut [] l).2) else cut (line ++ [b]) l
  end.

Lemma output_cons line ls tail : output (line :: ls) tail = (line ++ [x0a]) ++ output ls tail.
Proof. unfold output. by rewrite fmap_cons, concat_cons, app_assoc. Qed.

Lemma cut_output line l : no_newline line →
  output (cut line l).1 (cut line l).2 = line ++ l ∧
  Forall no_newline (cut line l).1 ∧ no_newline (cut line l).2.
Proof.
  revert line. induction l as [|b l IH]; intros line Hline; simpl.
  { by rewrite app_nil_r. }
  destruct (Byte.eqb b x0a) eqn:E.
  - apply Byte.byte_dec_bl in E as ->. destruct (IH [] no_newline_nil) as (Ho & Hf & Ht). simpl. split_and!; [|by constructor|done].
    rewrite output_cons, Ho. by rewrite <-app_assoc.
  - destruct (IH (line ++ [b])) as (Ho & Hf & Ht).
    { intros [Hin|Hb%list_elem_of_singleton]%elem_of_app; [by apply Hline|]. by rewrite <-Hb in E. }
    split_and!; [|done..]. by rewrite Ho, <-app_assoc.
Qed.

(** What the lines decode to, up to the first that does not. *)
Fixpoint decoded (ls : list (list byte)) : list text :=
  match ls with
  | [] => []
  | line :: ls => match from_utf8 (strip_cr line) with Some t => t :: decoded ls | None => [] end
  end.

Definition decodes (line : list byte) : Prop := is_Some (from_utf8 (strip_cr line)).

Lemma split_none l : no_newline l → split_line l = None.
Proof.
  induction l as [|b l IH]; simpl; [done|]. intros Hn. destruct (Byte.eqb b x0a) eqn:E.
  - apply Byte.byte_dec_bl in E as ->. destruct Hn. by left.
  - rewrite IH; [done|]. intros Hin. apply Hn. by right.
Qed.

Lemma next_line_cons line ls tail e : no_newline line →
  next_line (mkReader (output (line :: ls) tail) e) =
  (rmap Some (ok_or (from_utf8 (strip_cr line)) invalid_utf8), mkReader (output ls tail) e).
Proof.
  intros Hn. unfold next_line. rewrite output_cons. simpl. rewrite <-app_assoc. simpl.
  by rewrite split_line_app.
Qed.

Lemma next_line_tail tail e : no_newline tail →
  next_line (mkReader tail e) =
  (if is_unexpected_eof e then
     match tail with [] => Ok None | _ => rmap Some (ok_or (from_utf8 tail) invalid_utf8) end
   else Err e, mkReader [] e).
Proof. intros Hn. unfold next_line. simpl. rewrite (split_none tail Hn). by destruct (is_unexpected_eof e), tail. Qed.

(** How the output ends for a task that has read all lines. *)
Definition last_line (tail : list byte) (e : io_error) : list text * option io_error :=
  if is_unexpected_eof e then
    match tail with
    | [] => ([], None)
    | _ => match from_utf8 tail with Some t => ([t], None) | None => ([], Some invalid_utf8) end
    end
  else ([], Some e).

(** The specification: the lines that are logged, the failure that ends the
    task, and what is left in the pipe. *)
Definition drained (ls : list (list byte)) (tail : list byte) (e : io_error) : list text * option io_error * list byte :=
  let good := decoded ls in
  match drop (List.length good) ls with
  | [] => let '(ts, failure) := last_line tail e in (good ++ ts, failure, [])
  | _ :: unread => (good, Some invalid_utf8, output unread tail)
  end.

Definition drained_log (runner_id stream : text) (ts : list text) (failure : option io_error) : list log_event :=
  (RunnerLine runner_id stream <$> ts) ++ match failure with Some e => [ReadFailed runner_id stream e] | None => [] end.

Lemma drain_turns_tail fuel id st tail e : no_newline tail → (1 < fuel)%nat →
  drain_turns fuel id st (mkReader tail e) =
    let '(ts, failure) := last_line tail e in Some (drained_log id st ts failure, mkReader [] e).
Proof.
  intros Hn Hf. destruct fuel as [|[|fuel]]; [lia..|]. cbn [drain_turns]. rewrite (next_line_tail tail e Hn).
  unfold last_line. destruct (is_unexpected_eof e) eqn:He; [|done]. destruct tail as [|b tail]; [done|].
  destruct (from_utf8 (b :: tail)) as [t|]; [|done].
  cbn [ok_or rmap drain_turns].
  rewrite (next_line_tail [] e no_newline_nil). by rewrite He.
Qed.

Lemma drain_turns_spec fuel id st ls tail e :
  Forall no_newline ls → no_newline tail → (S (List.length ls) < fuel)%nat →
  drain_turns fuel id st (mkReader (output ls tail) e) =
    let '(ts, failure, rest) := drained ls tail e in Some (drained_log id st ts failure, mkReader rest e).
Proof.
  intros Hls Ht. revert fuel. induction Hls as [|line ls Hl Hls IH]; intros fuel Hf; simpl in Hf.
  { unfold drained. simpl. change (output [] tail) with tail. rewrite (drain_turns_tail fuel id st tail e Ht Hf). by destruct (last_line tail e). }
  destruct fuel as [|fuel]; [lia|]. cbn [drain_turns]. rewrite (next_line_cons line ls tail e Hl).
  unfold drained. cbn [decoded]. destruct (from_utf8 (strip_cr line)) as [t|]; simpl; [|done].
  rewrite IH by lia. unfold drained. cbv zeta. destruct (drop _ ls) as [|bad unread]; [|done].
  by destruct (last_line tail e).
Qed.

Lemma output_length ls tail : (List.length ls + List.length tail ≤ List.length (output ls tail))%nat.
Proof.
  induction ls as [|line ls IH]; [done|]. rewrite output_cons, !length_app. simpl. lia.
Qed.

Definition is_line (e : log_event) : bool := match e with RunnerLine _ _ _ => true | ReadFailed _ _ _ => false end.

Lemma log_lines id st ts failure :
  List.filter is_line (drained_log id st ts failure) = drained_log id st ts None.
Proof.
  unfold drained_log. induction ts as [|t ts IH]; [by destruct failure|]. simpl. f_equal. exact IH.
Qed.

(** ** Properties *)

(** What a runner writes reaches the log line by line, in order, and complete
    if it all is UTF-8 and the stream comes to its end; after an undecodable line
    the task ends, and all that follows stays in the pipe.  The task for the
    standard error of the JSONL runners logs the same lines, and nothing about
    the failure. *)
Theorem runner_output_logged id st ls tail e :
  Forall no_newline ls → no_newline tail →
  drain_stream id st (mkReader (output ls tail) e) =
    (let '(ts, failure, rest) := drained ls tail e in Some (drained_log id st ts failure, mkReader rest e)) ∧
  drain_blocking_stderr id (mkReader (output ls tail) e) =
    (let '(ts, failure, rest) := drained ls tail e in
     Some (drained_log id (lit "stderr") ts None, mkReader rest e)) ∧
  (Forall decodes ls → tail = [] → is_unexpected_eof e = true →
     ∃ ts, drained ls tail e = (ts, None, []) ∧ Forall2 (λ line t, from_utf8 (strip_cr line) = Some t) ls ts).
Proof.
  intros Hls Ht. pose proof (output_length ls tail) as Hlen.
  assert (Hd : ∀ st, drain_stream id st (mkReader (output ls tail) e) =
    (let '(ts, failure, rest) := drained ls tail e in Some (drained_log id st ts failure, mkReader rest e))).
  { intros st'. apply drain_turns_spec; [done..|]. simpl. lia. }
  assert (Hsame : ∀ fuel r, blocking_turns fuel id r =
    '(log, r) ← drain_turns fuel id (lit "stderr") r;
    Some (List.filter is_line log, r)).
  { induction fuel as [|fuel IH]; intros r; simpl; [done|].
    destruct (next_line r) as [[[line|]|err] r']; [|done..]. rewrite IH. by destruct (drain_turns _ _ _ _) as [[log r'']|]. }
  split; [apply Hd|split].
  - unfold drain_blocking_stderr. rewrite Hsame. pose proof (Hd (lit "stderr")) as Hd'. unfold drain_stream in Hd'.
    rewrite Hd'. destruct (drained ls tail e) as [[ts failure] rest]. simpl. by rewrite log_lines.
  - intros Hdec -> He. exists (decoded ls). unfold drained, last_line. rewrite He.
    assert (Hall : Forall2 (λ line t, from_utf8 (strip_cr line) = Some t) ls (decoded ls)).
    { clear -Hdec. induction Hdec as [|line ls [t Hx] _ IH]; simpl; [constructor|]. rewrite Hx. by constructor. }
    split; [|done]. rewrite <-(Forall2_length _ _ _ Hall), drop_all. by rewrite app_nil_r.
Qed.

Lemma runner_output_logged_witness :
  drain_stream (lit "r") (lit "stdout")
    (mkReader (output [utf8 (lit "one") ++ [x0d]; utf8 (lit "two")] []) (mkIo true [])) =
  Some ([RunnerLine (lit "r") (lit "stdout") (lit "one"); RunnerLine (lit "r") (lit "stdout") (lit "two")],
        mkReader [] (mkIo true [])).
Proof.
  apply (runner_output_logged (lit "r") (lit "stdout") [utf8 (lit "one") ++ [x0d]; utf8 (lit "two")] []
    (mkIo true [])); apply (bool_decide_unpack _); vm_compute; exact I.
Defined.

(** A line that is not UTF-8 ends the logging of the stream: what the runner
    writes later is not read. *)
Example undecodable_line_stops :
  drain_stream (lit "r") (lit "stdout")
    (mkReader (output [utf8 (lit "one"); [xff]; utf8 (lit "two")] []) (mkIo true [])) =
  Some ([RunnerLine (lit "r") (lit "stdout") (lit "one"); ReadFailed (lit "r") (lit "stdout") invalid_utf8],
        mkReader (output [utf8 (lit "two")] []) (mkIo true [])).
Proof. vm_compute. reflexivity. Qed.
