(* ===== verification/Catalog.v ===== *)
(** * Plugin selection

    [crates/mutsuki-service-runtime/src/lib.rs]: the catalog of configured
    plugin factories and their installation at boot, the scan of plugin
    configs for raw credentials, the checks on event sources, and the choice
    of one installed record per enabled plugin. *)

From S2P Require Import Prelude Text BTreeMap Value ConfigTypes Frame Fs Secrets Plugins.

(** ** Errors *)

Section errors.
Context `{Contracts}.

(** The errors of other crates are kept as their message. *)
Inductive ServiceRuntimeError : Type :=
| Plugin (e : PluginLoaderError)
| Core (message : text)
| Ipc (e : IpcError)
| LinkControl (message : text)
| UnsupportedRunnerLink (id link : text)
| ExternalRunnerSpawn (id detail : text)
| AlreadyStarted
| EventSource (message : text)
| NativeRunnerFactory (message : text)
| EmptyConfiguredPluginId
| DuplicateConfiguredPlugin (id : text)
| UnknownConfiguredPlugin (id : text)
| RawConfiguredPluginSecret (id field : text)
| ConfiguredPluginInstall (id detail : text)
| AbiPlugin (id detail : text)
| PluginUnavailable (id detail : text)
| PluginDeploymentAmbiguous (id : text)
| PluginDeploymentUnavailable (id : text) (d : PluginDeploymentKind) (detail : text)
| PluginBusinessSurfaceMismatch (id : text)
| DeploymentStateError (path detail : text).

Definition service_error_text (e : ServiceRuntimeError) : text :=
  match e with
  | Plugin e => loader_error_text e
  | Core m => m
  | Ipc e => ipc_error_text e
  | LinkControl m => lit "link control bridge failed: " ++ m
  | UnsupportedRunnerLink i l =>
      lit "external runner link " ++ l ++ lit " for plugin " ++ i ++ lit " is not supported"
  | ExternalRunnerSpawn i d => lit "external runner " ++ i ++ lit " failed to start: " ++ d
  | AlreadyStarted => lit "service runtime already started"
  | EventSource m => lit "event source registration failed: " ++ m
  | NativeRunnerFactory m => lit "native runner factory failed: " ++ m
  | EmptyConfiguredPluginId => lit "configured plugin id must not be empty"
  | DuplicateConfiguredPlugin i => lit "configured plugin " ++ i ++ lit " is selected more than once"
  | UnknownConfiguredPlugin i => lit "configured plugin factory is not registered: " ++ i
  | RawConfiguredPluginSecret i f =>
      lit "configured plugin " ++ i ++ lit " contains raw credential field " ++ f
  | ConfiguredPluginInstall i d => lit "configured plugin " ++ i ++ lit " failed to install: " ++ d
  | AbiPlugin i d => lit "ABI plugin " ++ i ++ lit " failed to load: " ++ d
  | PluginUnavailable i d => lit "configured plugin " ++ i ++ lit " has no available artifact: " ++ d
  | PluginDeploymentAmbiguous i =>
      lit "configured plugin " ++ i ++ lit " has multiple deployments and requires a Host selection"
  | PluginDeploymentUnavailable i k d =>
      lit "configured plugin " ++ i ++ lit " deployment " ++ deployment_debug k
      ++ lit " is unavailable: " ++ d
  | PluginBusinessSurfaceMismatch i =>
      lit "plugin " ++ i ++ lit " builtin and selected deployment expose different business surfaces"
  | DeploymentStateError p d =>
      lit "failed to read or write plugin deployment state " ++ p ++ lit ": " ++ d
  end.

End errors.

Abbreviation ServiceRuntimeResult A := (result A ServiceRuntimeError).

(** ** Raw credentials in plugin configs *)

Definition normalized_key (key : text) : text := replace_char 45 (lit "_") (to_ascii_lowercase key).

Definition is_credential (key : text) : bool :=
  let normalized := normalized_key key in
  let is_reference := ends_with (lit "_key") normalized || ends_with (lit "_ref") normalized in
  bool_decide (normalized ∈ [lit "secret"; lit "client_secret"; lit "token"; lit "access_token";
                             lit "password"; lit "api_key"])
  && negb is_reference.

Definition field_path (path key : text) : text :=
  if is_empty path then key else path ++ lit "." ++ key.
Definition item_path (path : text) (index : N) : text :=
  path ++ lit "[" ++ show_N index ++ lit "]".

Fixpoint raw_credential_field (value : json) (path : text) {struct value} : option text :=
  match value with
  | JObject object =>
      (fix find (object : list (text * json)) : option text :=
         match object with
         | [] => None
         | (key, value) :: rest =>
             let field := field_path path key in
             match (if is_credential key && negb (is_null value) then Some field
                    else raw_credential_field value field) with
             | Some field => Some field
             | None => find rest
             end
         end) object
  | JArray values =>
      (fix find (index : N) (values : list json) : option text :=
         match values with
         | [] => None
         | value :: rest =>
             match raw_credential_field value (item_path path index) with
             | Some field => Some field
             | None => find (index + 1)%N rest
             end
         end) 0%N values
  | _ => None
  end.

(** ** Configured plugin factories

    A builder is what the factories of the product transform. *)

Section builder.
Context `{Contracts} {Builder : Type}.

Record ConfiguredPluginFactory : Type := mkFactory {
  factory_plugin_id : text;
  prepare : json → Builder → result Builder text;
}.

Abbreviation ConfiguredPluginCatalog := (btree ConfiguredPluginFactory).

Definition register (f : ConfiguredPluginFactory) (c : ConfiguredPluginCatalog)
    : ServiceRuntimeResult ConfiguredPluginCatalog :=
  let id := trim (factory_plugin_id f) in
  if is_empty id then Err EmptyConfiguredPluginId
  else if bhas c id then Err (DuplicateConfiguredPlugin id)
  else Ok (bset id f c).

Definition merge_catalog (c other : ConfiguredPluginCatalog)
    : ServiceRuntimeResult ConfiguredPluginCatalog :=
  match List.find (bhas c) (bkeys other) with
  | Some id => Err (DuplicateConfiguredPlugin id)
  | None => Ok (bextend c other)
  end.

Definition enabled_selections (configured : list ConfiguredPluginSelection)
    : list ConfiguredPluginSelection := List.filter sel_enabled configured.

Fixpoint resolve_selections (catalog : ConfiguredPluginCatalog) (seen : list text)
    (selections : list ConfiguredPluginSelection)
    : ServiceRuntimeResult (list (ConfiguredPluginSelection * ConfiguredPluginFactory)) :=
  match selections with
  | [] => Ok []
  | s :: rest =>
      let id := trim (sel_id s) in
      if is_empty id then Err EmptyConfiguredPluginId
      else if bool_decide (id ∈ seen) then Err (DuplicateConfiguredPlugin id)
      else
        match raw_credential_field (sel_config s) [] with
        | Some field => Err (RawConfiguredPluginSecret id field)
        | None =>
            let? more := resolve_selections catalog (id :: seen) rest in
            Ok (match bget catalog id with Some f => (s, f) :: more | None => more end)
        end
  end.

Fixpoint prepare_all (resolved : list (ConfiguredPluginSelection * ConfiguredPluginFactory))
    (b : Builder) : ServiceRuntimeResult Builder :=
  match resolved with
  | [] => Ok b
  | (s, f) :: rest =>
      let? b := map_err (ConfiguredPluginInstall (sel_id s)) (prepare f (sel_config s) b) in
      prepare_all rest b
  end.

Definition install_configured_plugins (configured : list ConfiguredPluginSelection)
    (catalog : ConfiguredPluginCatalog) (b : Builder) : ServiceRuntimeResult Builder :=
  let? resolved := resolve_selections catalog [] (enabled_selections configured) in
  prepare_all resolved b.

End builder.

(** ** Event sources *)

Record HostEventSourceDescriptor : Type := mkDescriptor {
  source_id : text; d_plugin : text; d_instance : text; required_secrets : list text;
}.

(** [HostEventSourceConfig::secret] and [contains_secret]: unlike the secret
    store the key is not trimmed. *)
Definition secret_variable (key : text) : text :=
  (λ c, if is_ascii_alphanumeric c then ascii_upper c else 95%N) <$> key.

Definition source_secret (prefix : text) (store : SecretStore) (w : world) (key : text) : option text :=
  let key := secret_variable key in
  match env_var w (prefix ++ key) with
  | Some v => Some v
  | None => Secrets.resolve store key
  end.

Definition contains_secret (prefix : text) (store : SecretStore) (w : world) (key : text) : bool :=
  match source_secret prefix store w key with Some v => negb (is_empty v) | None => false end.

Section event_sources.
Context `{Contracts} (prefix : text) (store : SecretStore) (w : world).

Fixpoint validate_secrets (id : text) (seen : list text) (keys : list text)
    : ServiceRuntimeResult unit :=
  match keys with
  | [] => Ok tt
  | key :: rest =>
      if is_empty (trim key) || bool_decide (key ∈ seen) then
        Err (EventSource (lit "event source " ++ id
          ++ lit " must declare non-empty unique required secret keys"))
      else if negb (contains_secret prefix store w key) then
        Err (EventSource (lit "event source " ++ id ++ lit " requires missing Host secret " ++ key))
      else validate_secrets id (key :: seen) rest
  end.

Fixpoint validate_sources (ids : list text) (sources : list HostEventSourceDescriptor)
    : ServiceRuntimeResult unit :=
  match sources with
  | [] => Ok tt
  | d :: rest =>
      if is_empty (trim (source_id d)) || is_empty (trim (d_plugin d)) || is_empty (trim (d_instance d))
      then Err (EventSource (lit "source id, plugin id and instance id must not be empty"))
      else if bool_decide (source_id d ∈ ids) then
        Err (EventSource (lit "duplicate event source id " ++ source_id d))
      else
        let? _ := validate_secrets (source_id d) [] (required_secrets d) in
        validate_sources (source_id d :: ids) rest
  end.

Definition validate_event_sources (sources : list HostEventSourceDescriptor)
    : ServiceRuntimeResult unit := validate_sources [] sources.

End event_sources.

(** ** The choice of records *)

Section catalog.
Context `{Contracts}.

Abbreviation preferences := (btree PluginDeploymentKind).

Definition deployment_for (r : PluginRecord) : PluginDeploymentKind := deployment_of (manifest r).
Definition deployment_name (k : PluginDeploymentKind) : text := to_ascii_lowercase (deployment_debug k).

Definition has_deployment (k : PluginDeploymentKind) (r : PluginRecord) : bool :=
  bool_decide (deployment_for r = k).

Definition candidates_of (inv : PluginInventory) (id : text) : list PluginRecord :=
  List.filter (λ r, text_eqb (plugin_id (manifest r)) id) (records inv).

Definition diagnostic (inv : PluginInventory) (id : text) : text :=
  let details := join (lit "; ")
    (detail <$> List.filter (λ d, bool_decide (d_plugin_id d = Some id)) (diagnostics inv)) in
  if is_empty details then lit "plugin is not linked or installed" else details.

Definition pick (inv : PluginInventory) (prefs : preferences) (id : text)
    (candidates : list PluginRecord) : ServiceRuntimeResult PluginRecord :=
  match bget prefs id with
  | Some preferred =>
      ok_or (List.find (has_deployment preferred) candidates)
        (PluginDeploymentUnavailable id preferred (diagnostic inv id))
  | None =>
      match candidates with
      | [only] => Ok only
      | _ =>
          let builtin := List.find (has_deployment DBuiltin) candidates in
          let builtin_abi_only :=
            forallb (λ r, has_deployment DBuiltin r || has_deployment DAbi r) candidates in
          if builtin_abi_only then ok_or builtin (PluginDeploymentAmbiguous id)
          else Err (PluginDeploymentAmbiguous id)
      end
  end.

Definition choose (inv : PluginInventory) (prefs : preferences) (s : ConfiguredPluginSelection)
    : ServiceRuntimeResult PluginRecord :=
  let id := trim (sel_id s) in
  let candidates := candidates_of inv id in
  if bool_decide (candidates = []) then Err (PluginUnavailable id (diagnostic inv id))
  else
    let? chosen := pick inv prefs id candidates in
    match List.find (has_deployment DBuiltin) candidates with
    | Some builtin =>
        if negb (has_deployment DBuiltin chosen)
           && negb (bool_decide (business_surface (manifest builtin) = business_surface (manifest chosen)))
        then Err (PluginBusinessSurfaceMismatch id)
        else Ok chosen
    | None => Ok chosen
    end.

Fixpoint choose_all (inv : PluginInventory) (prefs : preferences)
    (selections : list ConfiguredPluginSelection) : ServiceRuntimeResult (list PluginRecord) :=
  match selections with
  | [] => Ok []
  | s :: rest =>
      let? chosen := choose inv prefs s in
      let? more := choose_all inv prefs rest in
      Ok (chosen :: more)
  end.

Definition resolve_catalog (config : ServiceConfig) (inv : PluginInventory) (prefs : preferences)
    : ServiceRuntimeResult PluginCatalog :=
  let? selected := choose_all inv prefs (enabled_selections (configured (plugins config))) in
  Ok (resolved inv selected).

End catalog.

(** ** Lemmas on credentials *)

(** A credential is written out somewhere in the value. *)
Inductive exposes : json → Prop :=
| exposes_here m key value :
    (key, value) ∈ m → is_credential key = true → value ≠ JNull → exposes (JObject m)
| exposes_field m key value : (key, value) ∈ m → exposes value → exposes (JObject m)
| exposes_item l value : value ∈ l → exposes value → exposes (JArray l).

Lemma is_null_spec v : negb (is_null v) = true ↔ v ≠ JNull.
Proof. by destruct v. Qed.

Lemma raw_object m path :
  (∀ e, e ∈ m → ∀ path, raw_credential_field e.2 path = None ↔ ¬ exposes e.2) →
  raw_credential_field (JObject m) path = None ↔
  ∀ key value, (key, value) ∈ m →
    (is_credential key = true → value = JNull) ∧ ¬ exposes value.
Proof.
  simpl. induction m as [|[key value] m IH]; intros He; [split; [set_solver|done]|].
  specialize (IH (λ e Hin, He e (list_elem_of_further _ _ _ Hin))).
  pose proof (He (key, value) (list_elem_of_here _ _) (field_path path key)) as Hv. simpl in Hv.
  destruct (is_credential key && negb (is_null value)) eqn:Ec.
  - apply andb_true_iff in Ec as [Ec En]. apply is_null_spec in En. split; [done|].
    intros H. destruct (H key value (list_elem_of_here _ _)) as [H1 _]. by destruct En; apply H1.
  - destruct (raw_credential_field value (field_path path key)) as [f|].
    + split; [done|]. intros H. destruct (H key value (list_elem_of_here _ _)) as [_ H1].
      by apply Hv in H1.
    + rewrite IH. split.
      * intros H k v [[= -> ->]|Hin]%elem_of_cons; [|by apply H]. split; [|by apply Hv].
        intros Hk. rewrite Hk in Ec. by destruct value.
      * intros H k v Hin. apply H. by right.
Qed.

Lemma raw_array l path :
  (∀ v, v ∈ l → ∀ path, raw_credential_field v path = None ↔ ¬ exposes v) →
  raw_credential_field (JArray l) path = None ↔ ∀ v, v ∈ l → ¬ exposes v.
Proof.
  simpl. generalize 0%N. induction l as [|v l IH]; intros i He; [split; [set_solver|done]|].
  specialize (IH (i + 1)%N (λ e Hin, He e (list_elem_of_further _ _ _ Hin))).
  pose proof (He v (list_elem_of_here _ _) (item_path path i)) as Hv.
  destruct (raw_credential_field v (item_path path i)) as [f|].
  - split; [done|]. intros H. by apply Hv, H, list_elem_of_here.
  - rewrite IH. split; [|set_solver]. intros H x [->|Hin]%elem_of_cons; [by apply Hv|by apply H].
Qed.

Lemma raw_credential_none v path : raw_credential_field v path = None ↔ ¬ exposes v.
Proof.
  revert path. induction v as [| | | |l IH|m IH] using json_ind_nested; intros path;
    try (split; [intros _ H; inversion H|done]).
  - rewrite raw_array by (rewrite <-Forall_forall; done). split.
    + intros H Hx. inversion Hx; subst. by eapply H.
    + intros H v Hin Hx. apply H. by eapply exposes_item.
  - rewrite raw_object by (rewrite <-Forall_forall; done). split.
    + intros H Hx. inversion Hx as [? k v Hin Hk Hn|? k v Hin Hv|]; subst;
        destruct (H k v Hin) as [H1 H2]; [by apply Hn, H1|done].
    + intros H k v Hin. split.
      * intros Hk. destruct (is_null v) eqn:En; [by destruct v|]. destruct H.
        eapply exposes_here; [done..|]. by apply is_null_spec; rewrite En.
      * intros Hv. apply H. by eapply exposes_field.
Qed.

(** The names that are refused.  [api_key] is none of them, since a name that
    ends in [_key] counts as a reference. *)
Lemma is_credential_spec key :
  is_credential key = true ↔
  normalized_key key ∈ [lit "secret"; lit "client_secret"; lit "token"; lit "access_token"; lit "password"].
Proof.
  unfold is_credential. cbv zeta. rewrite andb_true_iff, bool_decide_eq_true, negb_true_iff.
  rewrite !elem_of_cons. split.
  - intros [[Hin|[Hin|[Hin|[Hin|[Hin|[Hin|[]%not_elem_of_nil]]]]]] Href]; auto 10.
    rewrite Hin in Href. vm_compute in Href. done.
  - intros [Hin|[Hin|[Hin|[Hin|[Hin|[]%not_elem_of_nil]]]]]; rewrite Hin; (split; [auto 10|done]).
Qed.

(** ** Lemmas on the choice *)

Section choice.
Context `{Contracts}.

(** The deployment the host asked for, or without such a preference the only
    candidate, or the builtin one when the others are ABI plugins. *)
Definition preferred (prefs : btree PluginDeploymentKind) (id : text)
    (candidate : PluginRecord → Prop) (r : PluginRecord) : Prop :=
  match bget prefs id with
  | Some k => deployment_for r = k
  | None =>
      (∀ r', candidate r' → r' = r) ∨
      deployment_for r = DBuiltin ∧
      ∀ r', candidate r' → deployment_for r' = DBuiltin ∨ deployment_for r' = DAbi
  end.

Lemma preferred_proper prefs id (P Q : PluginRecord → Prop) r :
  (∀ r', P r' ↔ Q r') → preferred prefs id P r ↔ preferred prefs id Q r.
Proof. intros Hpq. unfold preferred. destruct (bget prefs id); [done|]. by setoid_rewrite Hpq. Qed.

(** The record a selection stands for. *)
Definition selects (inv : PluginInventory) (prefs : btree PluginDeploymentKind)
    (s : ConfiguredPluginSelection) (r : PluginRecord) : Prop :=
  let id := trim (sel_id s) in
  let candidate r := r ∈ records inv ∧ plugin_id (manifest r) = id in
  candidate r ∧ preferred prefs id candidate r ∧
  ∀ b, candidate b → deployment_for b = DBuiltin →
    business_surface (manifest b) = business_surface (manifest r).

Context (inv : PluginInventory) (Hkeys : NoDup (candidate_key <$> records inv)).

Lemma same_key_same_record r r' :
  r ∈ records inv → r' ∈ records inv → plugin_id (manifest r) = plugin_id (manifest r') →
  deployment_for r = deployment_for r' → r = r'.
Proof.
  intros Hr Hr' Hid Hd. apply (fmap_nodup_inj _ _ _ _ Hkeys Hr Hr').
  unfold candidate_key. unfold deployment_for in Hd. by rewrite Hid, Hd.
Qed.

Lemma elem_candidates id r :
  r ∈ candidates_of inv id ↔ r ∈ records inv ∧ plugin_id (manifest r) = id.
Proof.
  unfold candidates_of. rewrite elem_filter.
  unfold text_eqb. by rewrite bool_decide_eq_true.
Qed.

Lemma candidates_nodup id : NoDup (candidates_of inv id).
Proof. apply NoDup_ListNoDup, List.NoDup_filter, NoDup_ListNoDup. by eapply NoDup_fmap_1. Qed.

Lemma find_deployment id k r :
  List.find (has_deployment k) (candidates_of inv id) = Some r ↔
  r ∈ candidates_of inv id ∧ deployment_for r = k.
Proof.
  split.
  - intros [Hin Hd]%find_elem. by apply bool_decide_eq_true in Hd.
  - intros [Hin Hd]. apply find_unique; [done|by apply bool_decide_eq_true|].
    intros y Hy Hyd. apply bool_decide_eq_true in Hyd. apply elem_candidates in Hin as [? ?], Hy as [? ?].
    apply same_key_same_record; congruence.
Qed.

Lemma pick_spec prefs id r :
  candidates_of inv id ≠ [] →
  pick inv prefs id (candidates_of inv id) = Ok r ↔
  r ∈ candidates_of inv id ∧ preferred prefs id (λ r', r' ∈ candidates_of inv id) r.
Proof.
  intros Hne. unfold pick, preferred. destruct (bget prefs id) as [k|].
  { rewrite <-find_deployment. destruct (List.find _ _); simpl; naive_solver. }
  pose proof (find_deployment id DBuiltin r) as Hfind.
  pose proof (candidates_nodup id) as Hnd. destruct (candidates_of inv id) as [|x [|y l]]; [done|set_solver|].
  set (c := x :: y :: l) in *.
  assert (Hall : forallb (λ r, has_deployment DBuiltin r || has_deployment DAbi r) c = true ↔
            ∀ r', r' ∈ c → deployment_for r' = DBuiltin ∨ deployment_for r' = DAbi).
  { rewrite forallb_forall. setoid_rewrite <-list_elem_of_In. setoid_rewrite orb_true_iff.
    unfold has_deployment. by setoid_rewrite bool_decide_eq_true. }
  assert (Hsole : ¬ ∀ r', r' ∈ c → r' = r).
  { intros Hs. apply NoDup_cons in Hnd as [Hnd _]. apply Hnd.
    rewrite (Hs x), (Hs y) by (subst c; set_solver). set_solver. }
  destruct (forallb _ c).
  - transitivity (List.find (has_deployment DBuiltin) c = Some r).
    + destruct (List.find _ c); simpl; naive_solver.
    + rewrite Hfind. naive_solver.
  - split; [done|]. intros [_ [?|[_ Hx]]]; [done|]. by apply Hall in Hx.
Qed.

Lemma choose_spec prefs s r : choose inv prefs s = Ok r ↔ selects inv prefs s r.
Proof.
  unfold choose, selects. cbv zeta. set (id := trim (sel_id s)).
  rewrite (preferred_proper _ _ _ (λ r', r' ∈ candidates_of inv id))
    by (intros; by rewrite elem_candidates).
  setoid_rewrite <-elem_candidates. case_bool_decide as Hc.
  { rewrite Hc. split; [done|]. intros [Hr _]. by apply not_elem_of_nil in Hr. }
  assert (Hsurface : ∀ chosen, chosen ∈ candidates_of inv id →
    match List.find (has_deployment DBuiltin) (candidates_of inv id) with
    | Some builtin =>
        if negb (has_deployment DBuiltin chosen)
           && negb (bool_decide (business_surface (manifest builtin) = business_surface (manifest chosen)))
        then Err (PluginBusinessSurfaceMismatch id)
        else Ok chosen
    | None => Ok chosen
    end = Ok r ↔
    chosen = r ∧ ∀ b, b ∈ candidates_of inv id → deployment_for b = DBuiltin →
      business_surface (manifest b) = business_surface (manifest r)).
  { intros chosen Hin. destruct (List.find _ _) as [b|] eqn:Ef.
    - pose proof Ef as Eb. apply find_deployment in Eb as [Hb1 Hb2].
      assert (Hu : ∀ b', b' ∈ candidates_of inv id → deployment_for b' = DBuiltin → b' = b).
      { intros b' Hb' Hd'. apply (conj Hb'), find_deployment in Hd'. congruence. }
      unfold has_deployment. case_bool_decide as Hd; simpl.
      + apply Hu in Hd; [|done]. subst b. split; [intros [= <-]|naive_solver].
        split; [done|]. intros b' Hb' Hd'. by rewrite (Hu b').
      + case_bool_decide as Hs; simpl.
        * split; [intros [= <-]|naive_solver]. split; [done|]. intros b' Hb' Hd'. by rewrite (Hu b').
        * split; [done|]. intros [-> Hx]. destruct Hs. by apply Hx.
    - split; [intros [= <-]|naive_solver]. split; [done|]. intros b Hb1 Hb2.
      apply (conj Hb1), find_deployment in Hb2. congruence. }
  rewrite rbind_ok. split.
  - intros (chosen & Hp & Hm). apply pick_spec in Hp as [Hin Hp]; [|done].
    apply Hsurface in Hm as [-> Hm]; [|done]. by split_and!.
  - intros (Hin & Hp & Hs). exists r. split; [apply pick_spec; [done|by split]|]. apply Hsurface; [done|by split].
Qed.

Lemma choose_all_spec prefs selections rs :
  choose_all inv prefs selections = Ok rs ↔ Forall2 (selects inv prefs) selections rs.
Proof.
  revert rs. induction selections as [|s l IH]; intros rs; simpl.
  - split; [intros [= <-]; constructor|]. intros Hf. by inversion Hf.
  - rewrite rbind_ok. setoid_rewrite rbind_ok. split.
    + intros (r & Hr & more & Hm & [= <-]). constructor; [by apply choose_spec|by apply IH].
    + intros Hf. inversion Hf as [|? r ? more Hr Hm]; subst. exists r. split; [by apply choose_spec|].
      exists more. split; [by apply IH|done].
Qed.

End choice.

(** ** Lemmas on installation *)

Section installation.
Context `{Contracts} {Builder : Type}.

(** The selections a factory is registered for, with it. *)
Definition with_factories (catalog : btree (@ConfiguredPluginFactory Builder))
    (selections : list ConfiguredPluginSelection)
    : list (ConfiguredPluginSelection * ConfiguredPluginFactory) :=
  omap (λ s, (s,.) <$> bget catalog (trim (sel_id s))) selections.

(** What every enabled selection has to satisfy. *)
Definition installable (seen : list text) (selections : list ConfiguredPluginSelection) : Prop :=
  Forall (λ s, trim (sel_id s) ≠ [] ∧ ¬ exposes (sel_config s)) selections ∧
  NoDup ((λ s, trim (sel_id s)) <$> selections) ∧
  ∀ id, id ∈ seen → id ∉ (λ s, trim (sel_id s)) <$> selections.

Lemma resolve_selections_spec catalog seen selections resolved :
  resolve_selections catalog seen selections = Ok resolved ↔
  installable seen selections ∧ resolved = with_factories catalog selections.
Proof.
  unfold installable. revert seen resolved. induction selections as [|s l IH]; intros seen resolved; simpl.
  { split; [intros [= <-]; split_and!; by constructor || set_solver|by intros [_ ->]]. }
  rewrite Forall_cons, NoDup_cons, <-(raw_credential_none _ []).
  destruct (is_empty (trim (sel_id s))) eqn:Ee.
  { split; [done|]. intros ([[[Hne _] _] _] & _). by destruct (trim (sel_id s)). }
  assert (Hne : trim (sel_id s) ≠ []) by (by intros Hx; rewrite Hx in Ee).
  case_bool_decide as Hseen.
  { split; [done|]. intros ((_ & _ & Hd) & _). destruct (Hd _ Hseen). by apply list_elem_of_here. }
  destruct (raw_credential_field (sel_config s) []) as [f|].
  { split; [done|]. by intros ([[[_ ?] _] _] & _). }
  rewrite rbind_ok. setoid_rewrite IH. setoid_rewrite elem_of_cons. split.
  - intros (more & ((Hf & Hn & Hd) & ->) & [= <-]). split.
    + split_and!; try done; [by apply Hd; left|]. intros id Hid [->|Hin]; [done|].
      by destruct (Hd id (or_intror Hid)).
    + simpl. by destruct (bget catalog (trim (sel_id s))).
  - intros ((([_ _] & Hf) & (Hs & Hn) & Hd) & ->). eexists. split; [split; [|done]|].
    + split_and!; try done. intros id [->|Hin]; [done|]. intros Hx. apply (Hd id Hin). by right.
    + simpl. by destruct (bget catalog (trim (sel_id s))).
Qed.

End installation.

(** ** Properties *)

Section properties.
Context `{Contracts}.

(** C28: resolving the catalog succeeds exactly when every enabled selection stands
    for an installed record, and then yields these records in the order of the
    configuration: the record has the selected id; a deployment preference is
    honoured, and without one the choice is never arbitrary (the only
    candidate, or the builtin one among builtin and ABI candidates); and it
    offers the business surface of the builtin record, when there is one. *)
Theorem catalog_resolved config inv prefs catalog :
  NoDup (candidate_key <$> records inv) →
  resolve_catalog config inv prefs = Ok catalog ↔
  Forall2 (selects inv prefs) (enabled_selections (configured (plugins config))) (c_records catalog) ∧
  c_candidates catalog = records inv ∧ c_diagnostics catalog = diagnostics inv.
Proof.
  intros Hk. unfold resolve_catalog. rewrite rbind_ok. split.
  - intros (rs & Hrs & [= <-]). split; [|done]. by apply choose_all_spec.
  - intros (Hf & Hc & Hd). exists (c_records catalog). split; [by apply choose_all_spec|].
    unfold resolved. rewrite <-Hc, <-Hd. by destruct catalog.
Qed.

(** Installation succeeds exactly when the enabled selections have non-empty
    distinct ids and write out no credential at any depth of their configs
    (secret, client_secret, token, access_token or password under any casing,
    unless null), and every factory that is registered for one accepts; and
    then the builder went through exactly these factories, in configuration
    order, nothing before all selections were checked. *)
Theorem configured_plugins_installed {Builder : Type} configured
    (catalog : btree (@ConfiguredPluginFactory Builder)) b b' :
  let selections := enabled_selections configured in
  install_configured_plugins configured catalog b = Ok b' ↔
  Forall (λ s, trim (sel_id s) ≠ []) selections ∧
  NoDup ((λ s, trim (sel_id s)) <$> selections) ∧
  Forall (λ s, ¬ exposes (sel_config s)) selections ∧
  prepare_all (with_factories catalog selections) b = Ok b'.
Proof.
  intros selections. unfold install_configured_plugins. rewrite rbind_ok.
  setoid_rewrite resolve_selections_spec. unfold installable. setoid_rewrite Forall_and. split.
  - intros (rs & (((Hne & Hx) & Hn & _) & ->) & Hp). done.
  - intros (Hne & Hn & Hx & Hp). eexists. split; [|exact Hp]. split; [|done].
    split_and!; try done. intros id Hin. by apply not_elem_of_nil in Hin.
Qed.

(** Event sources are accepted exactly when their ids are distinct, their id,
    plugin and instance are not blank, and every secret they require is named
    once, not blank, and present and non-empty in the environment or the
    secret store, so that no source starts with a missing credential. *)
Theorem event_sources_validated prefix store w sources :
  validate_event_sources prefix store w sources = Ok tt ↔
  NoDup (source_id <$> sources) ∧
  Forall (λ d, trim (source_id d) ≠ [] ∧ trim (d_plugin d) ≠ [] ∧ trim (d_instance d) ≠ [] ∧
    NoDup (required_secrets d) ∧
    Forall (λ key, trim key ≠ [] ∧ ∃ v, source_secret prefix store w key = Some v ∧ v ≠ [])
      (required_secrets d)) sources.
Proof.
  assert (Hempty : ∀ t : text, is_empty t = false ↔ t ≠ []) by (by intros []).
  assert (Hsecret : ∀ key, contains_secret prefix store w key = true ↔
            ∃ v, source_secret prefix store w key = Some v ∧ v ≠ []).
  { intros key. unfold contains_secret. destruct (source_secret prefix store w key) as [v|]; [|naive_solver].
    rewrite negb_true_iff, Hempty. naive_solver. }
  assert (Hsecrets : ∀ id keys seen, validate_secrets prefix store w id seen keys = Ok tt ↔
    NoDup keys ∧ (∀ k, k ∈ seen → k ∉ keys) ∧
    Forall (λ key, trim key ≠ [] ∧ ∃ v, source_secret prefix store w key = Some v ∧ v ≠ []) keys).
  { intros id keys. induction keys as [|key keys IH]; intros seen; simpl.
    { split; [intros _; split_and!; by constructor || set_solver|done]. }
    rewrite NoDup_cons, Forall_cons, <-Hsecret, <-Hempty.
    destruct (is_empty (trim key)); [simpl; naive_solver|]. case_bool_decide as Hs; simpl.
    { split; [done|]. intros (_ & Hd & _). destruct (Hd _ Hs). by left. }
    destruct (contains_secret prefix store w key); simpl; [|naive_solver].
    rewrite IH. setoid_rewrite elem_of_cons. naive_solver. }
  unfold validate_event_sources.
  assert (Hall : ∀ ids, validate_sources prefix store w ids sources = Ok tt ↔
    NoDup (source_id <$> sources) ∧ (∀ i, i ∈ ids → i ∉ source_id <$> sources) ∧
    Forall (λ d, trim (source_id d) ≠ [] ∧ trim (d_plugin d) ≠ [] ∧ trim (d_instance d) ≠ [] ∧
      NoDup (required_secrets d) ∧
      Forall (λ key, trim key ≠ [] ∧ ∃ v, source_secret prefix store w key = Some v ∧ v ≠ [])
        (required_secrets d)) sources).
  { induction sources as [|d sources IH]; intros ids; simpl.
    { split; [intros _; split_and!; by constructor || set_solver|done]. }
    rewrite NoDup_cons, Forall_cons, <-!Hempty.
    destruct (is_empty (trim (source_id d))); [simpl; naive_solver|].
    destruct (is_empty (trim (d_plugin d))); [simpl; naive_solver|].
    destruct (is_empty (trim (d_instance d))); [simpl; naive_solver|]. simpl.
    case_bool_decide as Hs.
    { split; [done|]. intros (_ & Hd & _). destruct (Hd _ Hs). by left. }
    rewrite rbind_ok. setoid_rewrite IH. setoid_rewrite elem_of_cons. split.
    - intros ([] & H1 & H2 & H3 & H4). apply Hsecrets in H1 as (? & _ & ?). naive_solver.
    - intros ((H1 & H2) & H3 & (_ & _ & _ & H4 & H5) & H6). exists tt.
      split; [apply Hsecrets; split_and!; set_solver|]. naive_solver. }
  rewrite Hall. split; [naive_solver|]. intros []. split_and!; try done. set_solver.
Qed.

End properties.

Section witnesses.
Import Plugins.Sample.

(** [echo] is installed as builtin and as ABI plugin. *)
Definition sample_inventory : PluginInventory :=
  mkInventory [builtin_echo; mkPluginRecord (lit "/p/echo/plugin.toml") abi_plugin None None] [].

Definition sample_config : ServiceConfig :=
  let c := default_config false None in
  mkServiceConfig (service c) (core c) (ipc c)
    (mkPluginsSection [mkSelection (lit " echo ") true JNull; mkSelection (lit "off") false JNull] []
       (lit "/d"))
    (runners c) (observe c) (security c).

Lemma catalog_resolved_witness :
  Forall2 (selects sample_inventory []) [mkSelection (lit " echo ") true JNull] [builtin_echo].
Proof.
  assert (Hk : NoDup (candidate_key <$> records sample_inventory)).
  { repeat constructor; vm_compute; intros Hx; repeat (apply elem_of_cons in Hx as [Hx|Hx]; [discriminate|]);
      by apply not_elem_of_nil in Hx. }
  exact (proj1 (proj1 (@catalog_resolved sample_contracts sample_config sample_inventory []
    (resolved sample_inventory [builtin_echo]) Hk) eq_refl)).
Defined.

End witnesses.
