(* ===== verification/Boot.v ===== *)
(** * Booting the plugins

    [crates/mutsuki-service-runtime/src/lib.rs]: how the records of a resolved
    catalog become registrations of the Core bootstrapper and a runtime
    profile ([runtime_bootstrapper], [register_stdio_runners]) and which of
    them are supervised processes instead ([sidecar_specs]).  The Core runtime
    is an interface; a factory is what calling it returns. *)

From S2P Require Import Prelude Text BTreeMap Value ConfigTypes Frame Fs Plugins Supervisor Catalog.

(** ** The Core runtime *)

Inductive SurfaceCompatibility : Type := Identical | Additive | Deprecated | Removed | Breaking.

Section profile.
Context `{Contracts}.

Record RuntimeProfile : Type := mkProfile {
  profile_id : text;
  enabled_plugins : list text;
  plugin_deployments : btree PluginDeploymentKind;
  allow_dynamic_registration : bool;
  allow_hot_reload : bool;
}.

End profile.

Class CoreRuntime `{Contracts} : Type := {
  (* further fields of the manifest: runner and plugin id of each provided
     runner, and the unload timeout of its lifecycle *)
  RunnerDescriptor : Type;
  rd_runner_id : RunnerDescriptor → text;
  rd_plugin_id : RunnerDescriptor → text;
  provides_runners : PluginManifest → list RunnerDescriptor;
  unload_timeout_ms : PluginManifest → N;
  (* what factories and processes provide *)
  LoadedPlugin : Type;
  loaded_manifest : LoadedPlugin → PluginManifest;
  Runner : Type;
  runner_plugin_id : Runner → text;
  AsyncHandler : Type;
  handler_plugin_id : AsyncHandler → text;
  ExternalRunner : Type;
  spawn_jsonl_runner : RunnerDescriptor → Command → result ExternalRunner text;
  (* the bootstrapper *)
  RuntimeBootstrapper : Type;
  bootstrapper_new : RuntimeBootstrapper;
  register_loaded_plugin : LoadedPlugin → RuntimeBootstrapper → RuntimeBootstrapper;
  boot_manifest : PluginManifest → RuntimeBootstrapper → RuntimeBootstrapper;
  register_external_runner :
    PluginDeploymentKind → ExternalRunner → RuntimeBootstrapper → RuntimeBootstrapper;
  register_builtin_runner : Runner → RuntimeBootstrapper → RuntimeBootstrapper;
  register_async_handler : AsyncHandler → RuntimeBootstrapper → RuntimeBootstrapper;
  (* load plans and reloads *)
  RuntimeLock : Type;
  set_generation : N → RuntimeLock → RuntimeLock;
  lock_to_vec : RuntimeLock → result (list byte) text;
  resolve_load_plan : list PluginManifest → RuntimeProfile → result RuntimeLock text;
  Prepared : Type;
  prepare_reload : RuntimeProfile → N → RuntimeBootstrapper → result Prepared text;
  HostRuntime : Type;
  registry_generation : HostRuntime → N;
  (* the surface changes of an accepted reload *)
  core_reload : Prepared → N → HostRuntime →
    result (list (text * SurfaceCompatibility)) text * HostRuntime;
}.

Section boot.
Context `{CoreRuntime}.

(** ** Records that the Core hosts *)

Definition jsonl_stdio : text := lit "jsonl-stdio".

Definition is_bootable_record (r : PluginRecord) : bool :=
  match runtime r with None => true | Some rt => text_eqb (runner_link rt) jsonl_stdio end.

Definition configured_plugin_config (config : ServiceConfig) (id : text) : json :=
  match List.find (λ s, sel_enabled s && text_eqb (trim (sel_id s)) id)
          (configured (plugins config)) with
  | Some s => sel_config s
  | None => JNull
  end.

(** [w] is the host's environment at the time of the call. *)
Definition stdio_command (config : ServiceConfig) (w : world) (rt : ExternalRuntimeSpec)
    (d : RunnerDescriptor) : Command :=
  let e := rs_env rt in
  let e := bset (lit "MUTSUKI_HOME") (home_dir (service config)) e in
  let e := bset (lit "MUTSUKI_RUNNER_ID") (rd_runner_id d) e in
  let e := bset (lit "MUTSUKI_PLUGIN_ID") (rd_plugin_id d) e in
  mkCommand (command rt) (args rt)
    (filtered_environment w (ConfigTypes.env_allowlist (runners config)) e) (cwd rt) false.

Fixpoint spawn_runners (config : ServiceConfig) (w : world) (rt : ExternalRuntimeSpec)
    (k : PluginDeploymentKind) (ds : list RunnerDescriptor) (b : RuntimeBootstrapper)
    : ServiceRuntimeResult RuntimeBootstrapper :=
  match ds with
  | [] => Ok b
  | d :: ds =>
      let? runner := map_err (ExternalRunnerSpawn (rd_runner_id d))
        (spawn_jsonl_runner d (stdio_command config w rt d)) in
      spawn_runners config w rt k ds (register_external_runner k runner b)
  end.

Definition register_stdio_runners (config : ServiceConfig) (w : world) (b : RuntimeBootstrapper)
    (r : PluginRecord) (rt : ExternalRuntimeSpec) (k : PluginDeploymentKind)
    : ServiceRuntimeResult RuntimeBootstrapper :=
  if negb (text_eqb (runner_link rt) jsonl_stdio)
  then Err (UnsupportedRunnerLink (plugin_id (manifest r)) (runner_link rt))
  else spawn_runners config w rt k (provides_runners (manifest r)) b.

(** ** Factories *)

Record Factories : Type := mkFactories {
  native_runner_factories : list (result Runner text);
  async_handler_factories : list (result AsyncHandler text);
  loaded_plugin_factories : btree (result LoadedPlugin text);
  (* [abi_plugin::load_abi_plugin] *)
  load_abi_plugin : PluginRecord → json → ServiceRuntimeResult LoadedPlugin;
}.

Definition boot_record (config : ServiceConfig) (w : world) (fs : Factories) (r : PluginRecord)
    (b : RuntimeBootstrapper) : ServiceRuntimeResult RuntimeBootstrapper :=
  let id := plugin_id (manifest r) in
  let? b :=
    if bool_decide (artifact_type (manifest r) = AAbi) then
      let? plugin := load_abi_plugin fs r (configured_plugin_config config id) in
      Ok (register_loaded_plugin plugin b)
    else
      match bget (loaded_plugin_factories fs) id with
      | Some factory =>
          let? plugin := map_err NativeRunnerFactory factory in
          if negb (bool_decide
                     (business_surface (loaded_manifest plugin) = business_surface (manifest r)))
          then Err (PluginBusinessSurfaceMismatch id)
          else Ok (register_loaded_plugin plugin b)
      | None => Ok (boot_manifest (manifest r) b)
      end in
  match runtime r with
  | Some rt => register_stdio_runners config w b r rt (deployment_for r)
  | None => Ok b
  end.

Fixpoint boot_records (config : ServiceConfig) (w : world) (fs : Factories) (rs : list PluginRecord)
    (b : RuntimeBootstrapper) (enabled : list text) (deployments : btree PluginDeploymentKind)
    : ServiceRuntimeResult (RuntimeBootstrapper * list text * btree PluginDeploymentKind) :=
  match rs with
  | [] => Ok (b, enabled, deployments)
  | r :: rs =>
      if negb (is_bootable_record r) then boot_records config w fs rs b enabled deployments
      else
        let id := plugin_id (manifest r) in
        let? b := boot_record config w fs r b in
        boot_records config w fs rs b (enabled ++ [id]) (bset id (deployment_for r) deployments)
  end.

Definition deployed_builtin (deployments : btree PluginDeploymentKind) (id : text) : bool :=
  bool_decide (bget deployments id = Some DBuiltin).

(** Runners and handlers of plugins that are not deployed as builtin are
    created and dropped. *)
Fixpoint boot_factories {A} (register_ : A → RuntimeBootstrapper → RuntimeBootstrapper)
    (owner : A → text) (deployments : btree PluginDeploymentKind) (factories : list (result A text))
    (b : RuntimeBootstrapper) : ServiceRuntimeResult RuntimeBootstrapper :=
  match factories with
  | [] => Ok b
  | f :: factories =>
      let? x := map_err NativeRunnerFactory f in
      boot_factories register_ owner deployments factories
        (if deployed_builtin deployments (owner x) then register_ x b else b)
  end.

Definition runtime_bootstrapper (config : ServiceConfig) (w : world) (catalog : PluginCatalog)
    (fs : Factories) : ServiceRuntimeResult (RuntimeBootstrapper * RuntimeProfile) :=
  let? booted := boot_records config w fs (c_records catalog) bootstrapper_new [] [] in
  let '(b, enabled, deployments) := booted in
  let? b := boot_factories register_builtin_runner runner_plugin_id deployments
              (native_runner_factories fs) b in
  let? b := boot_factories register_async_handler handler_plugin_id deployments
              (async_handler_factories fs) b in
  Ok (b, mkProfile (profile (service config)) enabled deployments false true).

(** ** Supervised sidecars *)

Definition sidecar_spec (config : ServiceConfig) (token : text) (r : PluginRecord)
    : option ManagedRunnerSpec :=
  match runtime r with
  | None => None
  | Some rt =>
      if text_eqb (runner_link rt) jsonl_stdio
         && negb (match provides_runners (manifest r) with [] => true | _ => false end)
      then None
      else
        let id := match provides_runners (manifest r) with
                  | d :: _ => rd_runner_id d
                  | [] => lit "sidecar:" ++ plugin_id (manifest r)
                  end in
        Some (mkSpec id (plugin_id (manifest r)) rt (ConfigTypes.env_allowlist (runners config))
                (home_dir (service config)) token)
  end.

Definition sidecar_specs (config : ServiceConfig) (token : text) (catalog : PluginCatalog)
    : list ManagedRunnerSpec :=
  omap (sidecar_spec config token) (external_records catalog).

Definition reload_drain_timeout (config : ServiceConfig) (catalog : PluginCatalog) : N :=
  N.max (graceful_shutdown_ms (runners config))
    (foldr N.max 0%N ((λ r, unload_timeout_ms (manifest r)) <$> c_records catalog)).

End boot.

(** ** Lemmas *)

Section lemmas.
Context `{CoreRuntime}.

Definition record_id (r : PluginRecord) : text := plugin_id (manifest r).

Lemma boot_records_spec config w fs rs b enabled deployments b' enabled' deployments' :
  boot_records config w fs rs b enabled deployments = Ok (b', enabled', deployments') →
  let hosted := List.filter is_bootable_record rs in
  enabled' = enabled ++ (record_id <$> hosted) ∧
  deployments' = bextend deployments ((λ r, (record_id r, deployment_for r)) <$> hosted).
Proof.
  revert b enabled deployments. induction rs as [|r rs IH]; intros b enabled deployments Hb; simpl in *.
  - injection Hb as <- <- <-. by rewrite app_nil_r.
  - destruct (is_bootable_record r); simpl in *; [|by apply IH in Hb].
    apply rbind_ok in Hb as (b1 & _ & Hb). apply IH in Hb as [-> ->].
    by rewrite <-(assoc_L (++)).
Qed.

Lemma runtime_bootstrapper_profile config w catalog fs b p :
  runtime_bootstrapper config w catalog fs = Ok (b, p) →
  let hosted := List.filter is_bootable_record (c_records catalog) in
  enabled_plugins p = record_id <$> hosted ∧
  plugin_deployments p = bcollect ((λ r, (record_id r, deployment_for r)) <$> hosted) ∧
  profile_id p = profile (service config).
Proof.
  unfold runtime_bootstrapper. intros ([[b1 enabled] deployments] & Hb & Hr)%rbind_ok.
  apply boot_records_spec in Hb as [-> ->]. apply rbind_ok in Hr as (b2 & _ & Hr).
  apply rbind_ok in Hr as (b3 & _ & Hr). injection Hr as <- <-. done.
Qed.

Lemma sidecar_bootable config token r rt :
  runtime r = Some rt → provides_runners (manifest r) ≠ [] →
  is_Some (sidecar_spec config token r) ↔ is_bootable_record r = false.
Proof.
  intros Hr Hp. unfold sidecar_spec, is_bootable_record. rewrite Hr.
  destruct (text_eqb (runner_link rt) jsonl_stdio), (provides_runners (manifest r)); simpl;
    try done; split; try done; by intros [].
Qed.

Lemma external_in_records r catalog : r ∈ external_records catalog → r ∈ c_records catalog.
Proof. unfold external_records. by intros [? _]%elem_filter. Qed.

Lemma sidecar_spec_id config token r s : sidecar_spec config token r = Some s → spec_plugin_id s = record_id r.
Proof. unfold sidecar_spec. intros Hs. by repeat case_match; simplify_eq. Qed.

Lemma elem_sidecars config token catalog r :
  NoDup (record_id <$> c_records catalog) → r ∈ external_records catalog →
  record_id r ∈ spec_plugin_id <$> sidecar_specs config token catalog ↔
  is_Some (sidecar_spec config token r).
Proof.
  intros Hnd Hr. rewrite list_elem_of_fmap. unfold sidecar_specs. setoid_rewrite list_elem_of_omap. split.
  - intros (s & Hid & r' & Hr' & Hs). rewrite (sidecar_spec_id _ _ _ _ Hs) in Hid.
    assert (r = r') as -> by (eapply (fmap_nodup_inj record_id); eauto using external_in_records). eauto.
  - intros [s Hs]. exists s. split; [|eauto]. by rewrite (sidecar_spec_id _ _ _ _ Hs).
Qed.

(** A boot places every selected plugin exactly once.  The profile enables the
    records the Core can host, in catalog order, each with the deployment of its
    artifact; a process plugin that provides runners runs either in the Core or
    as a supervised sidecar, never as both and never as neither. *)
Theorem plugins_placed config w token catalog fs b p :
  runtime_bootstrapper config w catalog fs = Ok (b, p) →
  NoDup (record_id <$> c_records catalog) →
  enabled_plugins p = record_id <$> List.filter is_bootable_record (c_records catalog) ∧
  (∀ r, r ∈ c_records catalog →
     bget (plugin_deployments p) (record_id r) =
       if is_bootable_record r then Some (deployment_for r) else None) ∧
  (∀ r rt, r ∈ external_records catalog → runtime r = Some rt → provides_runners (manifest r) ≠ [] →
     (record_id r ∈ enabled_plugins p ↔
      record_id r ∉ spec_plugin_id <$> sidecar_specs config token catalog)).
Proof.
  intros Hb Hnd. apply runtime_bootstrapper_profile in Hb as (He & Hd & _).
  assert (Hk : NoDup ((λ r, (record_id r, deployment_for r)) <$>
                       List.filter is_bootable_record (c_records catalog)).*1)
    by (rewrite <-list_fmap_compose; by apply (fmap_filter_nodup record_id)).
  assert (Hin : ∀ r, r ∈ c_records catalog → record_id r ∈ enabled_plugins p ↔ is_bootable_record r = true).
  { intros r Hr. rewrite He, list_elem_of_fmap. setoid_rewrite elem_filter. split.
    - intros (r' & Hid & Hr' & Hboot). by rewrite (fmap_nodup_inj _ _ _ _ Hnd Hr Hr' Hid).
    - intros Hboot. by exists r. }
  split_and!; [done| |].
  - intros r Hr. rewrite Hd. destruct (is_bootable_record r) eqn:Hboot.
    + apply bget_collect; [done|]. apply list_elem_of_fmap. exists r. by rewrite elem_filter.
    + destruct (bget _ (record_id r)) as [k|] eqn:Hg; [|done].
      apply bget_collect, list_elem_of_fmap in Hg as (r' & [= Hid _] & [Hr' Hb']%elem_filter); [|done].
      rewrite (fmap_nodup_inj _ _ _ _ Hnd Hr Hr' Hid) in Hboot. congruence.
  - intros r rt Hr Hrt Hp. rewrite (Hin r) by (by apply external_in_records).
    rewrite elem_sidecars, (sidecar_bootable config token r rt) by done.
    by destruct (is_bootable_record r).
Qed.

End lemmas.

(** ** A concrete Core

    The bootstrapper is the list of what was registered; a reload is refused
    when a plugin of that name is part of it. *)

Module Sample.
Import Plugins.Sample.

#[export] Instance sample_core : CoreRuntime := {|
  RunnerDescriptor := text * text; rd_runner_id := fst; rd_plugin_id := snd;
  provides_runners m := if bool_decide (s_artifact m = SProcess) then [(s_id m ++ lit ".runner", s_id m)] else [];
  unload_timeout_ms _ := 100%N;
  LoadedPlugin := plugin; loaded_manifest p := p;
  Runner := text; runner_plugin_id r := r;
  AsyncHandler := text; handler_plugin_id r := r;
  ExternalRunner := text; spawn_jsonl_runner d _ := Ok d.1;
  RuntimeBootstrapper := list text; bootstrapper_new := [];
  register_loaded_plugin p b := s_id p :: b; boot_manifest m b := s_id m :: b;
  register_external_runner _ r b := r :: b; register_builtin_runner r b := r :: b;
  register_async_handler h b := h :: b;
  RuntimeLock := N; set_generation g _ := g; lock_to_vec g := Ok (utf8 (show_N g));
  resolve_load_plan _ _ := Ok 0%N;
  Prepared := N * list text; prepare_reload _ g b := Ok (g, b);
  HostRuntime := N; registry_generation g := g;
  core_reload p _ g :=
    if bool_decide (lit "refused" ∈ p.2) then (Err (lit "reload refused"), g) else (Ok [], p.1);
|}.

Definition factories : Factories := mkFactories [] [] [] (λ r _, Ok (manifest r)).

(** A plugin whose process is run by the Core, and one that is a sidecar. *)
Definition process_plugin (id link : text) : PluginRecord :=
  mkPluginRecord (lit "/p/plugin.toml") (mkPlugin id (lit "mutsuki-plugin-v1") SProcess [] [] [])
    (Some (mkRuntimeSpec (lit "run") [] [] None link)) None.

Definition process_catalog : PluginCatalog :=
  mkCatalog [builtin_echo; process_plugin (lit "a") (lit "jsonl-stdio"); process_plugin (lit "b") (lit "socket")]
    [] [].
End Sample.

Section witnesses.
Import Plugins.Sample Boot.Sample.

Lemma plugins_placed_witness :
  ∃ b p,
    runtime_bootstrapper sample_config Supervisor.Sample.host process_catalog factories = Ok (b, p) ∧
    enabled_plugins p = [lit "echo"; lit "a"] ∧
    spec_plugin_id <$> sidecar_specs sample_config (lit "t") process_catalog = [lit "b"].
Proof.
  destruct (runtime_bootstrapper sample_config Supervisor.Sample.host process_catalog factories)
    as [[b p]|e] eqn:E; [|exfalso; vm_compute in E; discriminate].
  exists b, p. split; [reflexivity|]. split; [|vm_compute; reflexivity].
  assert (Hnd : NoDup (record_id <$> c_records process_catalog)).
  { repeat constructor; vm_compute; intros Hx; repeat (apply elem_of_cons in Hx as [Hx|Hx]; [discriminate|]);
      by apply not_elem_of_nil in Hx. }
  exact (proj1 (plugins_placed sample_config Supervisor.Sample.host (lit "t") process_catalog factories
    b p E Hnd)).
Defined.

End witnesses.
