(* ===== verification/Deployment.v ===== *)
(** * Plugin deployments and reloads

    [crates/mutsuki-service-runtime/src/lib.rs]: the durable deployment
    preferences, the runtime lock file, the reload of the Core with a new
    catalog ([reload_catalog]) and the control operation that changes the
    deployment of one plugin ([change_plugin_deployment]).  The operations run
    one after the other; [v] is what the file system answers during a scan. *)

From S2P Require Import Prelude Text BTreeMap Value Control ConfigTypes Frame Fs Serde.
From S2P Require Import Plugins Supervisor Catalog Boot.

(** [fs::read]. *)
Definition read_bytes (w : world) (p : text) : result (list byte) io_error :=
  match faults w (OpRead p), files w !! p with
  | Some (e, _), _ => Err e
  | None, None => Err no_such_file
  | None, Some bytes => Ok bytes
  end.

(** ** Deployment preferences *)

Section state.
Context `{Contracts}.

Record PluginDeploymentState : Type := mkDeploymentState {
  version : N; preferred_plugins : btree PluginDeploymentKind;
}.

Definition deployment_state_version : N := 1.
Definition default_deployment_state : PluginDeploymentState :=
  mkDeploymentState deployment_state_version [].

End state.

(** [serde_json] on the state file. *)
Class StateCodec `{Contracts} : Type := {
  print_state : PluginDeploymentState → result (list byte) text;
  parse_state : list byte → result PluginDeploymentState text;
}.

Class StateCodecOk `{StateCodec} : Prop := {
  parse_print s bytes : bsorted (preferred_plugins s) → print_state s = Ok bytes → parse_state bytes = Ok s;
}.

Section deployment.
Context `{StateCodec}.

Definition deployment_state_path (c : ServiceConfig) : text :=
  path_join (data_dir (service c)) (lit "plugin-deployments.json").

Definition state_error {E} (path : text) (show : E → text) (e : E) : ServiceRuntimeError :=
  DeploymentStateError path (show e).

Definition load_deployment_state (c : ServiceConfig) (w : world)
    : ServiceRuntimeResult PluginDeploymentState :=
  let path := deployment_state_path c in
  if negb (is_file w path) then Ok default_deployment_state
  else
    let? bytes := map_err (state_error path io_text) (read_bytes w path) in
    let? state := map_err (state_error path id) (parse_state bytes) in
    if negb (version state =? deployment_state_version)%N
    then Err (DeploymentStateError path (lit "unsupported state version " ++ show_N (version state)))
    else Ok state.

Definition pending_path (c : ServiceConfig) : text :=
  with_extension (deployment_state_path c) (lit "json.pending").

(** [remove_file] when the target exists. *)
Definition remove_existing (path : text) (w : world) : result unit io_error * world :=
  if exists_ w path then remove_file path w else (Ok tt, w).

Definition save_deployment_state (c : ServiceConfig) (s : PluginDeploymentState) (w : world)
    : ServiceRuntimeResult unit * world :=
  let path := deployment_state_path c in
  match create_dir_all (parent path) w with
  | (Err e, w) => (Err (state_error path io_text e), w)
  | (Ok _, w) =>
      match print_state s with
      | Err e => (Err (state_error path id e), w)
      | Ok bytes =>
          match fs_write (pending_path c) bytes w with
          | (Err e, w) => (Err (state_error (pending_path c) io_text e), w)
          | (Ok _, w) =>
              match remove_existing path w with
              | (Err e, w) => (Err (state_error path io_text e), w)
              | (Ok _, w) =>
                  let '(r, w) := rename (pending_path c) path w in
                  (map_err (state_error path io_text) r, w)
              end
          end
      end
  end.

Definition load_catalog_with_state (unsupported : option text * option text → text)
    (sha256 : list byte → text) (library : text) (parse : text → result PluginToml text)
    (v : fs_view) (c : ServiceConfig) (builtins : btree PluginManifest) (s : PluginDeploymentState)
    : ServiceRuntimeResult PluginCatalog :=
  let? builtin := map_err Plugin (load_all builtins) in
  let? inventory := map_err Plugin
    (Plugins.scan unsupported sha256 library parse v (dynamic_dirs (plugins c)) (disabled_dir (plugins c))
       builtin) in
  resolve_catalog c inventory (preferred_plugins s).

End deployment.

(** ** The runtime lock file *)

Section lock.
Context `{CoreRuntime}.

Definition runtime_lock_path (c : ServiceConfig) : text :=
  path_join (run_dir (service c)) (lit "runtime.lock.json").

Definition write_runtime_lock (c : ServiceConfig) (lock : RuntimeLock) (w : world)
    : ServiceRuntimeResult unit * world :=
  let path := runtime_lock_path c in
  match create_dir_all (run_dir (service c)) w with
  | (Err e, w) => (Err (state_error path io_text e), w)
  | (Ok _, w) =>
      match lock_to_vec lock with
      | Err e => (Err (state_error path id e), w)
      | Ok bytes =>
          let '(r, w) := fs_write path bytes w in (map_err (state_error path io_text) r, w)
      end
  end.

Definition restore_runtime_lock (path : text) (previous : option (list byte)) (w : world)
    : result unit io_error * world :=
  match previous with
  | Some bytes => fs_write path bytes w
  | None => remove_existing path w
  end.

End lock.

(** ** Responses *)

Definition surface_compatibility (c : SurfaceCompatibility) : text :=
  match c with
  | Identical => lit "identical"
  | Additive => lit "additive"
  | Deprecated => lit "deprecated"
  | Removed => lit "removed"
  | Breaking => lit "breaking"
  end.

Record PluginReloadResponse : Type := mkReloadResponse {
  previous_generation : N; new_generation : N; plugin_count : N;
  changes : list (text * text); runner_errors : list text; event_sources : text;
}.

(** [PluginReloadChange], kept as a pair. *)
Definition c_reload_change : codec (text * text) :=
  c_struct (lit "PluginReloadChange") false
    (req (lit "surface_id") c_string &: req (lit "compatibility") c_string &: snil)
    (λ '(a, b), (a, (b, tt))) (λ '(a, (b, _)), (a, b)).

Definition c_reload_response : codec PluginReloadResponse :=
  c_struct (lit "PluginReloadResponse") false
    (req (lit "previous_generation") c_u64 &: req (lit "registry_generation") c_u64
     &: req (lit "plugin_count") c_usize &: req (lit "changes") (c_seq c_reload_change)
     &: req (lit "runner_errors") (c_seq c_string) &: req (lit "event_sources") c_string &: snil)
    (λ '(mkReloadResponse a b c d e f), (a, (b, (c, (d, (e, (f, tt)))))))
    (λ '(a, (b, (c, (d, (e, (f, _)))))), mkReloadResponse a b c d e f).

#[export] Instance reload_response_serialize : Serialize PluginReloadResponse := enc c_reload_response.

(** ** Operations of the service runtime *)

Section reload.
Context `{CoreRuntime} `{!StateCodec} `{Os}.

(** The part of [ServiceRuntimeInner] that reloads change. *)
Record inner : Type := mkInner {
  i_catalog : PluginCatalog;
  i_host : option HostRuntime;
  i_runners : btree ManagedRunner;
  i_deployments : PluginDeploymentState;
}.

(** What does not change: the configuration with its control token, and what
    the product registered before boot. *)
Record fixed : Type := mkFixed {
  f_config : ServiceConfig;
  f_token : text;
  f_builtins : btree PluginManifest;
  f_factories : Factories;
  f_unsupported : option text * option text → text;
  f_sha256 : list byte → text;
  f_library : text;
  f_parse : text → result PluginToml text;
}.

Definition failed (message : text) : ControlResponse := response_err (Control.Failed message).

Definition reconcile_supervised_sidecars (w : world) (desired : list ManagedRunnerSpec) (graceful : N)
    (rs : btree ManagedRunner) (o : os) : list text * btree ManagedRunner * os :=
  let '(errors, rs, o) := reconcile w desired graceful rs o in (supervisor_error_text <$> errors, rs, o).

(** The prepared reload and the lock of the new generation. *)
Definition prepare_catalog (f : fixed) (w : world) (catalog : PluginCatalog) (generation : N)
    : result (Prepared * RuntimeLock) text :=
  let? booted := map_err service_error_text (runtime_bootstrapper (f_config f) w catalog (f_factories f)) in
  let '(bootstrapper, profile) := booted in
  let? lock := resolve_load_plan (manifest <$> c_records catalog) profile in
  let? prepared := prepare_reload profile generation bootstrapper in
  Ok (prepared, set_generation generation lock).

Definition reload_message (error : text) (restored : result unit io_error) : text :=
  match restored with
  | Ok _ => error
  | Err e => error ++ lit "; restoring runtime lock failed: " ++ io_text e
  end.

Definition reload_catalog (f : fixed) (catalog : PluginCatalog) (st : inner) (w : world) (o : os)
    : ControlResponse * inner * world * os :=
  let c := f_config f in
  match i_host st with
  | None => (failed (lit "core is not running"), st, w, o)
  | Some host =>
      let previous := registry_generation host in
      let generation := saturating_add u64_max previous 1 in
      match prepare_catalog f w catalog generation with
      | Err error => (failed error, st, w, o)
      | Ok (prepared, lock) =>
          let drain_timeout := reload_drain_timeout c catalog in
          let sidecars := sidecar_specs c (f_token f) catalog in
          let previous_lock := match read_bytes w (runtime_lock_path c) with
                               | Ok bytes => Some bytes | Err _ => None end in
          match write_runtime_lock c lock w with
          | (Err e, w) => (failed (service_error_text e), st, w, o)
          | (Ok _, w) =>
              match core_reload prepared drain_timeout host with
              | (Err error, host) =>
                  let '(restored, w) := restore_runtime_lock (runtime_lock_path c) previous_lock w in
                  (failed (reload_message error restored),
                   mkInner (i_catalog st) (Some host) (i_runners st) (i_deployments st), w, o)
              | (Ok decision, host) =>
                  let '(errors, rs, o) := reconcile_supervised_sidecars w sidecars
                    (graceful_shutdown_ms (runners c)) (i_runners st) o in
                  (response_ok (mkReloadResponse previous generation (len (c_records catalog))
                     ((λ ch, (ch.1, surface_compatibility ch.2)) <$> decision) errors (lit "kept")),
                   mkInner catalog (Some host) rs (i_deployments st), w, o)
              end
          end
      end
  end.

Definition is_configured (c : ServiceConfig) (id : text) : bool :=
  List.existsb (λ s, sel_enabled s && text_eqb (trim (sel_id s)) (trim id)) (configured (plugins c)).

Definition next_state (s : PluginDeploymentState) (id : text) (k : option PluginDeploymentKind)
    : PluginDeploymentState :=
  mkDeploymentState (version s)
    (match k with
     | Some k => bset id k (preferred_plugins s)
     | None => bdel id (preferred_plugins s)
     end).

Definition set_deployments (s : PluginDeploymentState) (st : inner) : inner :=
  mkInner (i_catalog st) (i_host st) (i_runners st) s.

Definition change_plugin_deployment (f : fixed) (v : fs_view) (id : text)
    (k : option PluginDeploymentKind) (st : inner) (w : world) (o : os)
    : ControlResponse * inner * world * os :=
  let c := f_config f in
  if negb (is_configured c id) then
    (response_err (BadRequest (lit "plugin " ++ id ++ lit " is not enabled by plugins.configured")), st, w, o)
  else
    let previous := i_deployments st in
    let next := next_state previous id k in
    match load_catalog_with_state (f_unsupported f) (f_sha256 f) (f_library f) (f_parse f) v c
            (f_builtins f) next with
    | Err e => (failed (service_error_text e), st, w, o)
    | Ok catalog =>
        match save_deployment_state c next w with
        | (Err e, w) => (failed (service_error_text e), st, w, o)
        | (Ok _, w) =>
            let '(response, st, w, o) := reload_catalog f catalog st w o in
            if resp_ok response then (response, set_deployments next st, w, o)
            else
              match save_deployment_state c previous w with
              | (Err e, w) =>
                  (failed (lit "deployment reload failed and restoring management state failed: "
                           ++ service_error_text e), st, w, o)
              | (Ok _, w) => (response, st, w, o)
              end
        end
    end.

End reload.

(** ** Lemmas on paths *)

Lemma take_reverse_app k (x a : text) :
  (k ≤ List.length a)%nat → take k (reverse (x ++ a)) = take k (reverse a).
Proof. intros Hk. rewrite reverse_app, take_app_le; [done|]. by rewrite length_reverse. Qed.

(** ** Lemmas on the state file *)

Section state_lemmas.
Context `{StateCodecOk}.

Lemma pending_ne c : pending_path c ≠ deployment_state_path c.
Proof.
  unfold pending_path, with_extension.
  destruct (path_join_name (data_dir (service c)) (lit "plugin-deployments.json")) as (x & Hp & Hs).
  { vm_compute. intros Hx. repeat (apply elem_of_cons in Hx as [Hx|Hx]; [discriminate|]).
    by apply not_elem_of_nil in Hx. }
  unfold deployment_state_path. rewrite Hs, Hp. intros Heq.
  assert (Ht : ∀ y : text, y ++ lit "plugin-deployments.json.pending" ≠ y ++ lit "plugin-deployments.json").
  { intros y Hy. by apply app_inv_head in Hy. }
  by apply (Ht x).
Qed.

Lemma lock_ne_state c : runtime_lock_path c ≠ deployment_state_path c.
Proof.
  unfold runtime_lock_path, deployment_state_path.
  destruct (path_join_name (data_dir (service c)) (lit "plugin-deployments.json")) as (x & -> & _).
  { vm_compute. intros Hx. repeat (apply elem_of_cons in Hx as [Hx|Hx]; [discriminate|]).
    by apply not_elem_of_nil in Hx. }
  destruct (path_join_name (run_dir (service c)) (lit "runtime.lock.json")) as (y & -> & _).
  { vm_compute. intros Hx. repeat (apply elem_of_cons in Hx as [Hx|Hx]; [discriminate|]).
    by apply not_elem_of_nil in Hx. }
  intros Heq. apply (f_equal (λ t, take 6 (reverse t))) in Heq.
  rewrite !take_reverse_app in Heq by (vm_compute; lia). vm_compute in Heq. discriminate.
Qed.

(** What a save can touch, and what it leaves when it succeeds. *)
Lemma save_spec c s w r w' :
  save_deployment_state c s w = (r, w') →
  faults w' = faults w ∧
  (∀ q, q ≠ deployment_state_path c → q ≠ pending_path c → files w' !! q = files w !! q) ∧
  (r = Ok tt → ∃ bytes, print_state s = Ok bytes ∧ files w' !! deployment_state_path c = Some bytes).
Proof.
  unfold save_deployment_state, create_dir_all, fs_write, remove_existing, remove_file, rename.
  intros Hs. pose proof (pending_ne c) as Hne.
  destruct (faults w (OpCreateDir _)) as [[e x]|]; [simplify_eq; by split_and!|].
  destruct (print_state s) as [bytes|e]; [|simplify_eq; by split_and!]. simpl in Hs.
  destruct (faults w (OpWrite _)) as [[e [partial|]]|]; simpl in Hs;
    [simplify_eq; split_and!; [done| |done]; intros; simpl; by rewrite lookup_insert_ne
    |simplify_eq; by split_and!|].
  destruct (exists_ _ _); simpl in Hs.
  - destruct (faults w (OpRemove _)) as [[e x]|]; simpl in Hs.
    { simplify_eq. split_and!; [done| |done]. intros. simpl. by rewrite lookup_insert_ne. }
    rewrite lookup_insert_ne in Hs by done.
    destruct (files w !! deployment_state_path c); simpl in Hs.
    2: { simplify_eq. split_and!; [done| |done]. intros. simpl. by rewrite lookup_insert_ne. }
    rewrite lookup_delete_ne, lookup_insert_eq in Hs by done.
    destruct (faults w (OpRename _ _)) as [[e x]|]; simpl in Hs; simplify_eq; simpl.
    + split_and!; [done| |done]. intros. by rewrite lookup_delete_ne, lookup_insert_ne.
    + split_and!; [done| |].
      * intros. rewrite lookup_insert_ne, lookup_delete_ne, lookup_delete_ne, lookup_insert_ne; done.
      * intros _. exists bytes. by rewrite lookup_insert_eq.
  - rewrite lookup_insert_eq in Hs.
    destruct (faults w (OpRename _ _)) as [[e x]|]; simpl in Hs; simplify_eq; simpl.
    + split_and!; [done| |done]. intros. by rewrite lookup_insert_ne.
    + split_and!; [done| |].
      * intros. rewrite lookup_insert_ne, lookup_delete_ne, lookup_insert_ne; done.
      * intros _. exists bytes. by rewrite lookup_insert_eq.
Qed.

Lemma load_saved c s w bytes :
  bsorted (preferred_plugins s) → version s = deployment_state_version →
  faults w (OpRead (deployment_state_path c)) = None →
  print_state s = Ok bytes → files w !! deployment_state_path c = Some bytes →
  load_deployment_state c w = Ok s.
Proof.
  intros Hs Hv Hf Hp Hw. unfold load_deployment_state, is_file, read_bytes.
  rewrite Hw, Hf. simpl. rewrite (parse_print s bytes) by done. simpl. by rewrite Hv.
Qed.

Lemma load_frame c w w' :
  faults w' = faults w → files w' !! deployment_state_path c = files w !! deployment_state_path c →
  load_deployment_state c w' = load_deployment_state c w.
Proof. intros Hf Hw. unfold load_deployment_state, is_file, read_bytes. by rewrite Hf, Hw. Qed.

Lemma next_state_ok s id k :
  bsorted (preferred_plugins s) → bsorted (preferred_plugins (next_state s id k)).
Proof. intros Hs. destruct k; simpl; auto with host. Qed.

End state_lemmas.

(** ** Lemmas on reloads *)

Section reload_lemmas.
Context `{CoreRuntime} `{!StateCodec} `{Os}.

Lemma write_lock_spec c lock w r w' :
  write_runtime_lock c lock w = (r, w') →
  faults w' = faults w ∧ (∀ q, q ≠ runtime_lock_path c → files w' !! q = files w !! q) ∧
  match r with
  | Ok _ => ∃ bytes, lock_to_vec lock = Ok bytes ∧ files w' = <[runtime_lock_path c := bytes]> (files w)
  | Err _ => faults w (OpWrite (runtime_lock_path c)) = None → files w' = files w
  end.
Proof.
  unfold write_runtime_lock, create_dir_all, fs_write. intros Hs.
  destruct (faults w (OpCreateDir _)) as [[e x]|]; [by simplify_eq|].
  destruct (lock_to_vec lock) as [bytes|e]; [|by simplify_eq]. simpl in Hs.
  destruct (faults w (OpWrite _)) as [[e [partial|]]|]; simpl in Hs; simplify_eq; simpl;
    (split_and!; [done| |]); try done; try (intros; by rewrite lookup_insert_ne). eauto.
Qed.

Lemma restore_lock_spec path previous w r w' :
  restore_runtime_lock path previous w = (r, w') →
  faults w' = faults w ∧ ∀ q, q ≠ path → files w' !! q = files w !! q.
Proof.
  unfold restore_runtime_lock, remove_existing, remove_file, fs_write. intros Hs.
  repeat case_match; simplify_eq; simpl; split; try done;
    intros; rewrite ?lookup_insert_ne, ?lookup_delete_ne; done.
Qed.

(** The lock file's content before the reload is what the restore writes. *)
Lemma restore_lock_undo path w w1 bytes r w' :
  files w1 = <[path := bytes]> (files w) → faults w1 = faults w →
  faults w (OpRead path) = None → faults w (OpWrite path) = None → faults w (OpRemove path) = None →
  restore_runtime_lock path
    (match read_bytes w path with Ok bytes => Some bytes | Err _ => None end) w1 = (r, w') →
  files w' = files w.
Proof.
  intros Hw1 Hf Hr Hw Hrm. unfold restore_runtime_lock, read_bytes, remove_existing, remove_file, fs_write, exists_.
  rewrite Hr, Hf, Hw, Hrm, Hw1, lookup_insert_eq. intros Hs.
  destruct (files w !! path) as [old|] eqn:Eo; simpl in Hs; simplify_eq; simpl; rewrite ?Hw1.
  - rewrite insert_insert_eq. by apply insert_id.
  - by apply delete_insert_id.
Qed.

Lemma reload_responds (r : PluginReloadResponse) : resp_ok (response_ok r) = true.
Proof.
  unfold response_ok, to_value, reload_response_serialize. pose proof (codec_total (c:=c_reload_response) r) as Ht.
  by destruct (enc c_reload_response r).
Qed.

Lemma reload_frame f catalog st w o resp st' w' o' :
  reload_catalog f catalog st w o = (resp, st', w', o') →
  faults w' = faults w ∧ (∀ q, q ≠ runtime_lock_path (f_config f) → files w' !! q = files w !! q) ∧
  i_deployments st' = i_deployments st ∧
  if resp_ok resp then i_catalog st' = catalog
  else i_catalog st' = i_catalog st ∧ i_runners st' = i_runners st ∧ o' = o.
Proof.
  unfold reload_catalog, reconcile_supervised_sidecars. intros Hr.
  destruct (i_host st) as [host|]; [|by simplify_eq].
  destruct (prepare_catalog _ _ _ _) as [[prepared lock]|e]; [|by simplify_eq].
  destruct (write_runtime_lock _ lock w) as [[[]|e] w1] eqn:Ew;
    apply write_lock_spec in Ew as (Hf1 & Hq1 & _); [|by simplify_eq].
  destruct (core_reload _ _ host) as [[decision|e] host'].
  - destruct (reconcile _ _ _ _ _) as [[es rs] o1]. simplify_eq. rewrite reload_responds. by split_and!.
  - destruct (restore_runtime_lock _ _ w1) as [restored w2] eqn:Er.
    apply restore_lock_spec in Er as [Hf2 Hq2]. simplify_eq. simpl. split_and!; try done.
    + congruence.
    + intros. by rewrite Hq2, Hq1.
Qed.

End reload_lemmas.

(** ** Properties *)

Section properties.
Context `{CoreRuntime} `{!StateCodec} `{!StateCodecOk} `{Os}.



(** The state file is removed before its replacement is moved into place, so a
    failing rename loses the preferences: the operation answers with an error
    and keeps them in memory, but a restart finds none. *)
Theorem rename_failure_forgets c s w e x bytes old :
  files w !! deployment_state_path c = Some old →
  print_state s = Ok bytes →
  faults w (OpCreateDir (parent (deployment_state_path c))) = None →
  faults w (OpWrite (pending_path c)) = None →
  faults w (OpRemove (deployment_state_path c)) = None →
  faults w (OpRename (pending_path c) (deployment_state_path c)) = Some (e, x) →
  let '(r, w') := save_deployment_state c s w in
  is_ok r = false ∧ load_deployment_state c w' = Ok default_deployment_state.
Proof.
  intros Hold Hp Hc Hw Hr Hn. pose proof (pending_ne c) as Hne.
  unfold save_deployment_state, create_dir_all, fs_write, remove_existing, remove_file, rename, exists_.
  rewrite Hc, Hp. simpl. rewrite Hw. simpl. rewrite lookup_insert_ne, Hold by done. simpl.
  rewrite Hr. simpl. rewrite ?Hold. simpl.
  rewrite lookup_delete_ne, lookup_insert_eq by done. rewrite Hn. simpl. split; [done|].
  unfold load_deployment_state, is_file. simpl. by rewrite lookup_delete_eq.
Qed.

(** A preference given with blanks around the plugin id is accepted and saved,
    but never consulted: the catalog is the one without it. *)
Theorem padded_preference_ignored unsupported sha256 library parse v c builtins s id k :
  trim id ≠ id →
  load_catalog_with_state unsupported sha256 library parse v c builtins (next_state s id k) =
  load_catalog_with_state unsupported sha256 library parse v c builtins s ∧
  is_configured c id = is_configured c (trim id).
Proof.
  intros Hid. split; [|unfold is_configured; by rewrite trim_idem].
  assert (Hget : ∀ sel, bget (preferred_plugins (next_state s id k)) (trim sel) = bget (preferred_plugins s) (trim sel)).
  { intros sel. assert (id ≠ trim sel) by (intros ->; by rewrite trim_idem in Hid).
    destruct k; simpl; [by apply bget_set_ne|by apply bget_del_ne]. }
  unfold load_catalog_with_state. destruct (map_err Plugin (load_all builtins)); [|done]. cbn [rbind].
  destruct (map_err Plugin _) as [inv|]; [|done]. cbn [rbind]. unfold resolve_catalog.
  assert (Hall : ∀ sels, choose_all inv (preferred_plugins (next_state s id k)) sels
                       = choose_all inv (preferred_plugins s) sels).
  { induction sels as [|sel sels IH]; [done|]. cbn [choose_all]. rewrite IH. unfold choose, pick. by rewrite Hget. }
  by rewrite Hall.
Qed.

End properties.

(** ** A concrete service *)

Module Sample.
Import Plugins.Sample Boot.Sample Supervisor.Sample.

(** A codec for the states the examples use. *)
#[export] Instance sample_codec : StateCodec := {|
  print_state s :=
    if bool_decide (version s = 1%N) then
      match preferred_plugins s with
      | [] => Ok [x00]
      | [(id, KBuiltin)] => if text_eqb id (lit "echo") then Ok [x01] else Err (lit "example")
      | [(id, KAbi)] => if text_eqb id (lit "echo") then Ok [x02] else Err (lit "example")
      | _ => Err (lit "example")
      end
    else Err (lit "example");
  parse_state bytes :=
    match bytes with
    | [x00] => Ok (mkDeploymentState 1 [])
    | [x01] => Ok (mkDeploymentState 1 [(lit "echo", KBuiltin)])
    | [x02] => Ok (mkDeploymentState 1 [(lit "echo", KAbi)])
    | _ => Err (lit "not a state")
    end;
|}.

#[export] Instance sample_codec_ok : StateCodecOk.
Proof.
  split. intros [v plugins] bytes _ Hp. cbn [print_state parse_state sample_codec version preferred_plugins] in *.
  case_bool_decide as Hv; [|done]. rewrite Hv.
  destruct plugins as [|[id []] [|]]; try done; [by simplify_eq|..];
    destruct (text_eqb id (lit "echo")) eqn:E; try done; apply text_eqb_eq in E as ->;
    injection Hp as <-; reflexivity.
Qed.

Definition service : fixed :=
  mkFixed sample_config (lit "token") [(lit "echo", manifest builtin_echo)] factories
    unsupported sha256 (lit "so") parse.

Definition running : inner := mkInner (mkCatalog [builtin_echo] [builtin_echo] []) (Some 3%N) [] default_deployment_state.
Definition disk : world := sample_world (lit "f") [].
Definition processes : os := mkSystem 0 [].

(** A world where the given operations fail. *)
Definition with_fault (op : fs_op) (w : world) : world :=
  mkWorld (files w) (dirs w) (private w) (env w)
    (λ o, match o, op with
          | OpRename a b, OpRename a' b' =>
              if text_eqb a a' && text_eqb b b' then Some (no_such_file, None) else None
          | _, _ => None
          end) (nanos w) (pid w).

Definition refused_catalog : PluginCatalog :=
  mkCatalog [mkPluginRecord (lit "<builtin>") (mkPlugin (lit "refused") [] SBuiltin [] [] []) None None] [] [].
End Sample.

Section witnesses.
Import Plugins.Sample Boot.Sample Supervisor.Sample Deployment.Sample.



Definition faulty_disk : world :=
  with_fault (OpRename (pending_path sample_config) (deployment_state_path sample_config))
    (sample_world (deployment_state_path sample_config) (lit "x")).

Lemma rename_failure_forgets_witness :
  let '(r, w') := save_deployment_state sample_config default_deployment_state faulty_disk in
  is_ok r = false ∧ load_deployment_state sample_config w' = Ok default_deployment_state.
Proof.
  exact (rename_failure_forgets sample_config default_deployment_state faulty_disk no_such_file None
    [x00] (utf8 (lit "x")) eq_refl eq_refl eq_refl eq_refl eq_refl eq_refl).
Defined.

Lemma padded_preference_ignored_witness :
  load_catalog_with_state unsupported sha256 (lit "so") parse view sample_config [] 
    (next_state default_deployment_state (lit " echo") (Some KAbi)) =
  load_catalog_with_state unsupported sha256 (lit "so") parse view sample_config []
    default_deployment_state ∧
  is_configured sample_config (lit " echo") = is_configured sample_config (trim (lit " echo")).
Proof.
  apply padded_preference_ignored. vm_compute. discriminate.
Defined.

End witnesses.
