(* ===== verification/EventSource.v ===== *)
(** * Event source supervision

    [crates/mutsuki-service-runtime/src/event_source.rs]: every event source is
    run by an actor task that starts it, watches it, and obeys the commands of
    the supervisor.  The actor is a state machine; a label says which branch of
    its code runs next and what the source's own code does there (return,
    fail, panic or hang), so a list of labels is a schedule. *)

From S2P Require Import Prelude Text BTreeMap Value ConfigTypes Frame Fs Secrets Catalog.

(** ** What sources do *)

Inductive HostEventSourceHealth : Type :=
| Healthy
| Degraded (reason : text)
| Unhealthy (reason : text).

Definition health_label (h : HostEventSourceHealth) : text :=
  match h with
  | Healthy => lit "healthy"
  | Degraded _ => lit "degraded"
  | Unhealthy _ => lit "unhealthy"
  end.

(** The payload of a panic, if it is a string. *)
Definition panic_message (payload : option text) : text :=
  match payload with
  | Some message => lit "event source panicked: " ++ message
  | None => lit "event source panicked with a non-string payload"
  end.

(** A call into the source that may panic. *)
Inductive caught (A : Type) : Type :=
| Returned (a : A)
| Panicked (payload : option text).
Arguments Returned {A} a.
Arguments Panicked {A} payload.

(** How [shutdown()] ends: the call, then its future under the timeout. *)
Inductive stop_outcome : Type :=
| CallPanicked (payload : option text)
| Finished (r : caught (result unit text))
| TimedOut.

(** ** Status *)

Record EventSourceStatus : Type := mkStatus {
  st_source_id : text; st_plugin_id : text; st_instance_id : text;
  st_state : text; st_health : text; st_last_error : option text;
  st_reconnects : N; st_last_event : option N; st_started_at : option N;
}.

Definition new_status (d : HostEventSourceDescriptor) (now : option N) : EventSourceStatus :=
  mkStatus (source_id d) (d_plugin d) (d_instance d) (lit "starting") (lit "unknown") None 0 None now.

Definition set_st (state : text) (s : EventSourceStatus) : EventSourceStatus :=
  mkStatus (st_source_id s) (st_plugin_id s) (st_instance_id s) state (st_health s)
    (st_last_error s) (st_reconnects s) (st_last_event s) (st_started_at s).

Definition fail (error : text) (s : EventSourceStatus) : EventSourceStatus :=
  mkStatus (st_source_id s) (st_plugin_id s) (st_instance_id s) (lit "failed") (st_health s)
    (Some error) (st_reconnects s) (st_last_event s) (st_started_at s).

Definition update_health (h : HostEventSourceHealth) (s : EventSourceStatus) : EventSourceStatus :=
  mkStatus (st_source_id s) (st_plugin_id s) (st_instance_id s) (st_state s) (health_label h)
    (match h with Degraded e | Unhealthy e => Some e | Healthy => st_last_error s end)
    (st_reconnects s) (st_last_event s) (st_started_at s).

Definition reconnect (s : EventSourceStatus) : EventSourceStatus :=
  mkStatus (st_source_id s) (st_plugin_id s) (st_instance_id s) (lit "restarting") (st_health s)
    (st_last_error s) (saturating_add u32_max (st_reconnects s) 1) (st_last_event s) (st_started_at s).

Definition submitted (now : option N) (s : EventSourceStatus) : EventSourceStatus :=
  mkStatus (st_source_id s) (st_plugin_id s) (st_instance_id s) (st_state s) (st_health s)
    (st_last_error s) (st_reconnects s) now (st_started_at s).

Definition safe_health (h : caught HostEventSourceHealth) : HostEventSourceHealth :=
  match h with Returned h => h | Panicked p => Unhealthy (panic_message p) end.

(** ** The actor *)

Inductive SourceCommand : Type := Restart | Shutdown.

#[export] Instance SourceCommand_eq_dec : EqDecision SourceCommand.
Proof. solve_decision. Defined.

(** Where the actor is: about to call [start], watching the running source,
    waiting for a command after a failure, or ended. *)
Inductive actor_phase : Type := Starting | Watching | Waiting | Ended.

#[export] Instance actor_phase_eq_dec : EqDecision actor_phase.
Proof. solve_decision. Defined.

Record actor : Type := mkActor {
  phase : actor_phase;
  status : EventSourceStatus;
  (* the commands in the channel and those whose senders wait for room *)
  commands : list SourceCommand;
  senders : bool;                   (* the supervisor still holds the sender *)
  cancelled : bool;                 (* the shutdown token of the latest start *)
  starts : N;                       (* how often [start] was called *)
  restarts_taken : N;               (* how many [Restart] commands were handled *)
}.

Definition set_phase (p : actor_phase) (a : actor) : actor :=
  mkActor p (status a) (commands a) (senders a) (cancelled a) (starts a) (restarts_taken a).
Definition on_status (f : EventSourceStatus → EventSourceStatus) (a : actor) : actor :=
  mkActor (phase a) (f (status a)) (commands a) (senders a) (cancelled a) (starts a) (restarts_taken a).

Definition new_actor (d : HostEventSourceDescriptor) (now : option N) : actor :=
  mkActor Starting (new_status d now) [] true false 0 0.

(** [stop_source]; [ms] is the graceful period for the message. *)
Definition stop_source (ms : N) (terminal : bool) (o : stop_outcome) (s : EventSourceStatus)
    : EventSourceStatus :=
  match o with
  | CallPanicked p => fail (panic_message p) s
  | Finished (Returned (Ok _)) => if terminal then set_st (lit "stopped") s else s
  | Finished (Returned (Err e)) => fail e s
  | Finished (Panicked p) => fail (panic_message p) s
  | TimedOut => fail (lit "shutdown timed out after " ++ show_N ms ++ lit " ms") s
  end.

(** [handle_command]: whether the actor goes on. *)
Definition handle_command (ms : N) (c : option SourceCommand) (o : stop_outcome) (a : actor)
    : bool * actor :=
  match c with
  | Some Restart =>
      (true, mkActor (phase a) (stop_source ms false o (reconnect (status a))) (commands a) (senders a)
               true (starts a) (restarts_taken a + 1))
  | Some Shutdown | None =>
      (false, mkActor (phase a) (stop_source ms true o (set_st (lit "stopping") (status a))) (commands a)
                (senders a) true (starts a) (restarts_taken a))
  end.

(** [commands.recv()]: the next command, or the closed channel. *)
Definition recv (a : actor) : option (option SourceCommand * actor) :=
  match commands a with
  | c :: rest =>
      Some (Some c, mkActor (phase a) (status a) rest (senders a) (cancelled a) (starts a) (restarts_taken a))
  | [] => if senders a then None else Some (None, a)
  end.

(** One run through the head of the loop. *)
Definition start_turn (o : caught (caught HostEventSourceHealth)) (a : actor) : actor :=
  let a := mkActor (phase a) (set_st (lit "starting") (status a)) (commands a) (senders a) false
             (starts a + 1) (restarts_taken a) in
  match o with
  | Panicked p => set_phase Waiting (on_status (fail (panic_message p)) a)
  | Returned h =>
      set_phase Watching (on_status (λ s, set_st (lit "running") (update_health (safe_health h) s)) a)
  end.

(** The source's future ends. *)
Definition exit_message (o : caught (result unit text)) : text :=
  match o with
  | Returned (Ok _) => lit "event source exited unexpectedly"
  | Returned (Err e) => e
  | Panicked p => panic_message p
  end.

Definition exit_turn (o : caught (result unit text)) (a : actor) : actor :=
  set_phase Waiting (on_status (fail (exit_message o)) a).

(** A command arrives.  After the inner loop a source that is [failed] waits
    for a further command before it is started again. *)
Definition command_turn (ms : N) (o : stop_outcome) (a : actor) : actor :=
  match recv a with
  | None => a
  | Some (c, a) =>
      let '(go_on, a') := handle_command ms c o a in
      if go_on then
        match phase a with
        | Watching =>
            if text_eqb (st_state (status a')) (lit "failed") then set_phase Waiting a'
            else set_phase Starting a'
        | _ => set_phase Starting a'
        end
      else set_phase Ended a'
  end.

Inductive label : Type :=
| LStart (o : caught (caught HostEventSourceHealth))
| LExit (o : caught (result unit text))
| LHealth (h : caught HostEventSourceHealth)
| LCommand (o : stop_outcome)
| LSubmitted (now : option N)     (* the source submits a batch *)
| LSend (c : SourceCommand)       (* the supervisor sends *)
| LClose.                         (* the supervisor drops the sender *)

Definition actor_step (ms : N) (l : label) (a : actor) : actor :=
  match l, phase a with
  | LStart o, Starting => start_turn o a
  | LExit o, Watching => exit_turn o a
  | LHealth h, Watching => on_status (update_health (safe_health h)) a
  | LCommand o, (Watching | Waiting) => command_turn ms o a
  | LSubmitted now, _ => on_status (submitted now) a
  | LSend c, (Starting | Watching | Waiting) =>
      mkActor (phase a) (status a) (commands a ++ [c]) (senders a) (cancelled a) (starts a) (restarts_taken a)
  | LClose, _ =>
      mkActor (phase a) (status a) (commands a) false (cancelled a) (starts a) (restarts_taken a)
  | _, _ => a
  end.

Definition actor_run (ms : N) (ls : list label) (a : actor) : actor :=
  fold_left (λ a l, actor_step ms l a) ls a.

(** ** The supervisor *)

Abbreviation sources := (btree actor).

Definition start_source (d : HostEventSourceDescriptor) (now : option N) (s : sources) : sources :=
  bset (source_id d) (new_actor d now) s.

Definition list_sources (s : sources) : list EventSourceStatus := status <$> bvalues s.

Definition restart_source (id : text) (s : sources) : result unit text * sources :=
  match bget s id with
  | None => (Err (lit "unknown event source " ++ id), s)
  | Some a =>
      if bool_decide (phase a = Ended)
      then (Err (lit "event source " ++ id ++ lit " lifecycle task has stopped"), s)
      else (Ok tt, bset id (actor_step 0 (LSend Restart) a) s)
  end.

(** The sources are taken out of the map; each is told to shut down and its
    sender dropped. *)
Definition shutdown_sources (s : sources) : sources * list actor :=
  ([], (λ a, actor_step 0 LClose (actor_step 0 (LSend Shutdown) a)) <$> bvalues s).

(** The wait of [shutdown] for one source: what its task does until it ends or
    the graceful period and a tenth of a second have passed; then it is aborted. *)
Definition await_source (ms : N) (ls : list label) (a : actor) : actor :=
  let a := actor_run ms ls a in if bool_decide (phase a = Ended) then a else set_phase Ended a.

(** [shutdown]: the sources are awaited one after the other; [waits] is what
    each of them does until its turn is over. *)
Definition shutdown_awaited (ms : N) (waits : list (list label)) (s : sources) : sources * list actor :=
  let '(s, told) := shutdown_sources s in (s, zip_with (await_source ms) waits told).

(** [abort]: the tasks end wherever they are. *)
Definition abort_sources (s : sources) : sources * list actor :=
  ([], set_phase Ended <$> bvalues s).

(** ** What a source is given *)

Definition descriptor (id plugin : text) : HostEventSourceDescriptor := mkDescriptor id plugin id [].
Definition with_instance_id (i : text) (d : HostEventSourceDescriptor) : HostEventSourceDescriptor :=
  mkDescriptor (source_id d) (d_plugin d) i (required_secrets d).
Definition require_secret (key : text) (d : HostEventSourceDescriptor) : HostEventSourceDescriptor :=
  mkDescriptor (source_id d) (d_plugin d) (d_instance d) (required_secrets d ++ [key]).

Record HostEventSourceConfig : Type := mkSourceConfig {
  sc_instance_id : text; sc_profile : text; sc_home_dir : text; sc_data_dir : text;
  sc_secret_prefix : text; sc_secret_store : SecretStore;
}.

(** The secret store is a handle of the loaded configuration. *)
Definition from_service (c : ServiceConfig) (store : SecretStore) : HostEventSourceConfig :=
  mkSourceConfig (instance_id (service c)) (profile (service c)) (home_dir (service c))
    (data_dir (service c)) (secret_env_prefix (security c)) store.

Definition config_get (c : HostEventSourceConfig) (scope key : text) : option text :=
  if negb (text_eqb scope (lit "service")) then None
  else if text_eqb key (lit "instance_id") then Some (sc_instance_id c)
  else if text_eqb key (lit "profile") then Some (sc_profile c)
  else if text_eqb key (lit "home_dir") then Some (sc_home_dir c)
  else if text_eqb key (lit "data_dir") then Some (sc_data_dir c)
  else None.

Definition config_secret (c : HostEventSourceConfig) (w : world) (key : text) : option text :=
  source_secret (sc_secret_prefix c) (sc_secret_store c) w key.

(** [HostEventSourceContext]; the shutdown token reads the actor. *)
Record HostEventSourceContext : Type := mkSourceContext {
  ctx_config : HostEventSourceConfig; ctx_logger : text * text; ctx_instance : text;
}.

Definition source_context (c : HostEventSourceConfig) (a : actor) : HostEventSourceContext :=
  mkSourceContext c (st_source_id (status a), st_plugin_id (status a)) (st_instance_id (status a)).
Definition is_cancelled (a : actor) : bool := cancelled a.

(** [SourceTaskSubmitter::submit_batch] around the submitter of the Core: the
    status notes a batch that was taken. *)
Definition tracked_submit {B T E} (inner : B → result T E) (now : option N) (batch : B) (a : actor)
    : result T E * actor :=
  match inner batch with
  | Ok handles => (Ok handles, on_status (submitted now) a)
  | Err e => (Err e, a)
  end.

(** ** Lemmas on the actor *)

(** What holds of an actor between two steps. *)
Definition phase_state (a : actor) : Prop :=
  match phase a with
  | Starting => st_state (status a) ∈ [lit "starting"; lit "restarting"; lit "failed"]
  | Watching => st_state (status a) = lit "running" ∧ cancelled a = false
  | Waiting => st_state (status a) = lit "failed" ∧ is_Some (st_last_error (status a))
  | Ended => st_state (status a) ∈ [lit "stopped"; lit "failed"] ∧ cancelled a = true
  end.

Definition same_source (d : HostEventSourceDescriptor) (s : EventSourceStatus) : Prop :=
  st_source_id s = source_id d ∧ st_plugin_id s = d_plugin d ∧ st_instance_id s = d_instance d.

Record actor_ok (d : HostEventSourceDescriptor) (a : actor) : Prop := mkActorOk {
  ok_phase : phase_state a;
  ok_source : same_source d (status a);
  ok_starts : (starts a + (if bool_decide (phase a = Starting) then 1 else 0) ≤ restarts_taken a + 1)%N;
  ok_reconnects : st_reconnects (status a) = N.min u32_max (restarts_taken a);
}.

Lemma stop_source_state ms terminal o s :
  let s' := stop_source ms terminal o s in
  (st_source_id s' = st_source_id s ∧ st_plugin_id s' = st_plugin_id s ∧ st_instance_id s' = st_instance_id s) ∧
  st_reconnects s' = st_reconnects s ∧
  (st_state s' = lit "failed" ∧ is_Some (st_last_error s') ∨
   st_state s' = if terminal then lit "stopped" else st_state s).
Proof.
  destruct o as [p|[[[]|e]|p]|]; simpl;
    (split; [by destruct terminal|split; [by destruct terminal|]]);
    first [left; split; [done|by eexists] | right; by destruct terminal].
Qed.

Lemma saturating_reconnects n : saturating_add u32_max (N.min u32_max n) 1 = N.min u32_max (n + 1).
Proof. unfold saturating_add. lia. Qed.

Lemma command_ok d ms o a :
  actor_ok d a → (phase a = Watching ∨ phase a = Waiting) → actor_ok d (command_turn ms o a).
Proof.
  intros Ha Hp. unfold command_turn. destruct (recv a) as [[c a1]|] eqn:Er; [|done].
  assert (H1 : actor_ok d a1 ∧ phase a1 = phase a ∧ status a1 = status a).
  { unfold recv in Er. destruct (commands a) as [|c' rest]; [destruct (senders a); [done|]|];
      injection Er as <- <-; split_and!; try done.
    destruct Ha. by split. }
  destruct H1 as (Ha1 & Hp1 & Hs1). clear Er. destruct Ha1 as [_ Hsrc Hst Hrec].
  rewrite <-Hp1 in Hp.
  assert (Hn : bool_decide (phase a1 = Starting) = false) by (apply bool_decide_eq_false; destruct Hp as [Hp|Hp]; by rewrite Hp).
  rewrite Hn in Hst.
  assert (Hcases : c = Some Restart ∨ c = Some Shutdown ∨ c = None) by (destruct c as [[]|]; auto).
  destruct Hcases as [->|Hc].
  - simpl. pose proof (stop_source_state ms false o (reconnect (status a1))) as (Hid & Hr & Hs).
    destruct Hsrc as (? & ? & ?). simpl in Hid, Hr.
    assert (Hrec' : st_reconnects (stop_source ms false o (reconnect (status a1)))
                    = N.min u32_max (restarts_taken a1 + 1)).
    { rewrite Hr. rewrite Hrec. apply saturating_reconnects. }
    assert (Hgo : actor_ok d (set_phase Starting (handle_command ms (Some Restart) o a1).2)).
    { split; simpl; [| |lia|done].
      - unfold phase_state. simpl. destruct Hs as [[-> _]| ->]; set_solver.
      - destruct Hid as (? & ? & ?). split_and!; simpl in *; congruence. }
    destruct (phase a1) eqn:Ep; try exact Hgo.
    destruct (text_eqb _ _) eqn:E; [|exact Hgo]. apply text_eqb_eq in E. split; simpl; [| |lia|done].
    + unfold phase_state. simpl. split; [done|]. destruct Hs as [[_ Hs]|Hs]; [done|].
      rewrite Hs in E. vm_compute in E. discriminate.
    + destruct Hid as (? & ? & ?). split_and!; simpl in *; congruence.
  - pose proof (stop_source_state ms true o (set_st (lit "stopping") (status a1))) as (Hid & Hr & Hs).
    destruct Hsrc as (? & ? & ?). simpl in Hid, Hr.
    assert (Hend : actor_ok d (set_phase Ended (handle_command ms (Some Shutdown) o a1).2)).
    { split; simpl; [| |lia|congruence].
      - unfold phase_state. simpl. split; [|done]. destruct Hs as [[-> _]| ->]; set_solver.
      - destruct Hid as (? & ? & ?). split_and!; simpl in *; congruence. }
    by destruct Hc as [->| ->].
Qed.

Lemma actor_step_ok d ms l a : actor_ok d a → actor_ok d (actor_step ms l a).
Proof.
  intros Ha. unfold actor_step.
  destruct l as [o|o|h|o|now|c|]; destruct (phase a) eqn:Ep; try done; try (apply command_ok; auto; fail).
  all: destruct Ha as [Hph (? & ? & ?) Hst Hrec]; unfold phase_state in Hph; rewrite Ep in Hph, Hst.
  all: rewrite ?bool_decide_true in Hst by done; rewrite ?bool_decide_false in Hst by done.
  all: try (split; unfold phase_state; simpl; rewrite ?Ep;
            [done|done|rewrite ?bool_decide_true by done; rewrite ?bool_decide_false by done; lia|done]).
  unfold start_turn. destruct o as [h|p]; split; try done; simpl; try lia; by split.
Qed.

Lemma actor_run_ok d ms ls a : actor_ok d a → actor_ok d (actor_run ms ls a).
Proof. revert a. induction ls as [|l ls IH]; intros a Ha; simpl; [done|]. by apply IH, actor_step_ok. Qed.

Lemma new_actor_ok d now : actor_ok d (new_actor d now).
Proof. split; [by left|done|simpl; lia|done]. Qed.

Lemma actor_ended ms more a :
  phase a = Ended →
  let a' := actor_run ms more a in
  phase a' = Ended ∧ starts a' = starts a ∧ st_state (status a') = st_state (status a).
Proof.
  revert a. induction more as [|l more IH]; intros a Ha; [done|].
  assert (Hl : phase (actor_step ms l a) = Ended ∧ starts (actor_step ms l a) = starts a ∧
               st_state (status (actor_step ms l a)) = st_state (status a)).
  { unfold actor_step. rewrite Ha. by destruct l. }
  destruct Hl as (H1 & H2 & H3). destruct (IH _ H1) as (H4 & H5 & H6). simpl.
  split_and!; congruence.
Qed.

(** ** Lemmas on what a source is given *)

(** A source that the service accepted finds each secret it required. *)
Lemma required_secret_found `{Plugins.Contracts} c store w sources d key :
  validate_event_sources (secret_env_prefix (security c)) store w sources = Ok tt →
  d ∈ sources → key ∈ required_secrets d →
  ∃ v, config_secret (from_service c store) w key = Some v ∧ v ≠ [].
Proof.
  intros [_ Hf]%event_sources_validated Hd Hk.
  destruct (proj1 (Forall_forall _ _) Hf d Hd) as (_ & _ & _ & _ & Hs).
  by destruct (proj1 (Forall_forall _ _) Hs key Hk) as (_ & ?).
Qed.

(** What a source reads of the configuration says nothing of the rest: the
    control token, the other plugins, the secret file's place. *)
Lemma config_confined c c' store :
  service c = service c' → secret_env_prefix (security c) = secret_env_prefix (security c') →
  from_service c store = from_service c' store.
Proof. unfold from_service. by intros -> ->. Qed.

(** Only a batch the Core took is noted, and the answer is the Core's. *)
Lemma tracked_submit_answer {B T E} (inner : B → result T E) now batch a :
  (tracked_submit inner now batch a).1 = inner batch ∧
  (tracked_submit inner now batch a).2 = if inner batch is Ok _ then on_status (submitted now) a else a.
Proof. unfold tracked_submit. by destruct (inner batch). Qed.

(** ** Properties *)

(** C39: the status of an event source tells the truth under every schedule.  A
    source reported as running is being watched and was not told to shut down; a
    failed one keeps its error and is not started again without a command; an
    ended one has stopped or failed, its token is cancelled and it takes no
    further step; and [start] was called at most once more than there were
    restarts, which the reported reconnects count. *)
Theorem source_lifecycle ms ls d now :
  let a := actor_run ms ls (new_actor d now) in
  phase_state a ∧ same_source d (status a) ∧
  (starts a ≤ restarts_taken a + 1)%N ∧
  st_reconnects (status a) = N.min u32_max (restarts_taken a) ∧
  (phase a = Ended → ∀ more,
     let a' := actor_run ms more a in
     phase a' = Ended ∧ starts a' = starts a ∧ st_state (status a') = st_state (status a)).
Proof.
  intros a. destruct (actor_run_ok d ms ls _ (new_actor_ok d now)) as [Hp Hs Hst Hr].
  split_and!; try done.
  - fold a in Hst. destruct (bool_decide _); lia.
  - intros He more. by apply actor_ended.
Qed.

(** The actor alone: it starts the source when it is time to, and otherwise
    takes the next command. *)
Fixpoint drive (ms : N) (os : caught (caught HostEventSourceHealth)) (oc : stop_outcome) (n : nat)
    (a : actor) : actor :=
  match n with
  | O => a
  | S n =>
      drive ms os oc n
        (actor_step ms (if bool_decide (phase a = Starting) then LStart os else LCommand oc) a)
  end.

Lemma drive_ended ms os oc n a : phase a = Ended → phase (drive ms os oc n a) = Ended.
Proof.
  revert a. induction n as [|n IH]; intros a Ha; simpl; [done|]. apply IH. unfold actor_step. rewrite Ha.
  by case_bool_decide.
Qed.

Lemma step_start ms o a : phase a = Starting → actor_step ms (LStart o) a = start_turn o a.
Proof. intros Hp. unfold actor_step. by rewrite Hp. Qed.

Lemma step_command ms o a :
  phase a = Watching ∨ phase a = Waiting → actor_step ms (LCommand o) a = command_turn ms o a.
Proof. unfold actor_step. by intros [->| ->]. Qed.

Lemma command_taken ms oc a c rest :
  commands a = c :: rest → phase a = Watching ∨ phase a = Waiting →
  if bool_decide (c = Shutdown) then phase (command_turn ms oc a) = Ended
  else commands (command_turn ms oc a) = rest.
Proof.
  intros Hc Hp. unfold command_turn, recv. rewrite Hc. destruct c; simpl; [|done].
  by destruct (phase a); [|destruct (text_eqb _ _)|..].
Qed.

Lemma drive_shutdown_ends ms os oc a n :
  Shutdown ∈ commands a → (2 * List.length (commands a) ≤ n)%nat →
  phase (drive ms os oc n a) = Ended.
Proof.
  remember (commands a) as cs eqn:Hcs. revert a n Hcs.
  induction cs as [|c cs IH]; intros a n Hcs Hin Hn; [set_solver|]. simpl in Hn.
  assert (Hgo : ∀ b m, commands b = c :: cs → phase b = Watching ∨ phase b = Waiting →
            (2 * List.length cs ≤ m)%nat → phase (drive ms os oc m (command_turn ms oc b)) = Ended).
  { intros b m Hb Hph Hm. pose proof (command_taken ms oc b c cs Hb Hph) as Hone. case_bool_decide.
    - by apply drive_ended.
    - apply IH; [done| |done]. apply elem_of_cons in Hin as [Hin|]; [congruence|done]. }
  destruct n as [|[|n]]; [lia..|].
  destruct (decide (phase a = Ended)) as [He|He]; [by apply drive_ended|].
  destruct (decide (phase a = Starting)) as [Hp|Hp].
  - simpl. rewrite (bool_decide_true _ Hp), (step_start _ _ _ Hp).
    assert (Hst : commands (start_turn os a) = c :: cs ∧
                  (phase (start_turn os a) = Watching ∨ phase (start_turn os a) = Waiting))
      by (unfold start_turn; destruct os; simpl; auto).
    destruct Hst as [Hc Hph]. rewrite bool_decide_false by (destruct Hph; congruence).
    rewrite step_command by done. apply Hgo; auto; lia.
  - assert (Hph : phase a = Watching ∨ phase a = Waiting) by (destruct (phase a); auto; done).
    change (phase (drive ms os oc (S n)
      (actor_step ms (if bool_decide (phase a = Starting) then LStart os else LCommand oc) a)) = Ended).
    rewrite (bool_decide_false _ Hp), step_command by done. apply Hgo; auto; lia.
Qed.

(** What [drive] does, as a schedule. *)
Fixpoint drive_labels (ms : N) (os : caught (caught HostEventSourceHealth)) (oc : stop_outcome) (n : nat)
    (a : actor) : list label :=
  match n with
  | O => []
  | S n =>
      let l := if bool_decide (phase a = Starting) then LStart os else LCommand oc in
      l :: drive_labels ms os oc n (actor_step ms l a)
  end.

Lemma drive_run ms os oc n a : actor_run ms (drive_labels ms os oc n a) a = drive ms os oc n a.
Proof. revert a. induction n as [|n IH]; intros a; [done|]. apply IH. Qed.

(** After the shutdown of the supervisor no task of a source runs; one that
    takes its turns in time ends by itself, stopped or failed, and only one that
    does not is aborted where it was. *)
Lemma shutdown_ends_tasks ms waits s :
  let '(left_, ended) := shutdown_awaited ms waits s in
  left_ = [] ∧ Forall (λ a, phase a = Ended) ended ∧
  ∀ i a a' os oc n, bvalues s !! i = Some a → ended !! i = Some a' → phase a ≠ Ended →
    let told := actor_step 0 LClose (actor_step 0 (LSend Shutdown) a) in
    (2 * List.length (commands told) ≤ n)%nat → waits !! i = Some (drive_labels ms os oc n told) →
    a' = drive ms os oc n told.
Proof.
  unfold shutdown_awaited, shutdown_sources. split; [done|]. split.
  - apply Forall_lookup_2. intros i a (ls & told & -> & _)%lookup_zip_with_Some. unfold await_source. by case_bool_decide.
  - intros i a a' os oc n Ha Ha' Hne. set (told := actor_step 0 LClose _). intros Hn Hw.
    apply lookup_zip_with_Some in Ha' as (ls & told' & -> & Hls & Ht). rewrite list_lookup_fmap, Ha in Ht.
    injection Ht as <-. rewrite Hw in Hls. injection Hls as <-. unfold await_source. fold told.
    rewrite drive_run, bool_decide_true; [done|]. apply drive_shutdown_ends; [|done].
    unfold told, actor_step. destruct (phase a); simpl; set_solver.
Qed.

(** A source that was told to shut down ends: whatever the source's own code
    does (succeed, fail, panic, time out), after at most two turns for each
    queued command the actor has ended. *)
Theorem source_shutdown_ends ms os oc a n :
  Shutdown ∈ commands a → (2 * List.length (commands a) ≤ n)%nat →
  phase (drive ms os oc n a) = Ended.
Proof. apply drive_shutdown_ends. Qed.

Lemma source_shutdown_ends_witness :
  let d := mkDescriptor (lit "s") (lit "p") (lit "i") [] in
  let a := actor_step 1 (LSend Shutdown) (new_actor d None) in
  phase (drive 1 (Returned (Returned Healthy)) TimedOut 2 a) = Ended ∧
  st_state (status (drive 1 (Returned (Returned Healthy)) TimedOut 2 a)) = lit "failed".
Proof.
  split; [|vm_compute; reflexivity].
  apply (source_shutdown_ends 1 (Returned (Returned Healthy)) TimedOut
    (actor_step 1 (LSend Shutdown) (new_actor (mkDescriptor (lit "s") (lit "p") (lit "i") []) None)) 2).
  - left.
  - vm_compute. lia.
Defined.

(** A restart whose shutdown fails is answered with success, but the source
    stays down until a further command. *)
Lemma failed_restart_strands ms e a :
  phase a = Watching → commands a = [Restart] →
  let a' := actor_step ms (LCommand (Finished (Returned (Err e)))) a in
  phase a' = Waiting ∧ st_state (status a') = lit "failed" ∧ st_last_error (status a') = Some e.
Proof. intros Hp Hc. unfold actor_step, command_turn, recv. by rewrite Hp, Hc. Qed.
