(* ===== verification/LogTail.v ===== *)
(** * Reading the log

    [crates/mutsuki-service-runtime/src/lib.rs], [read_log_tail]: the lines of
    the log file from a cursor on, the last so many of them, and the cursor
    for the next call. *)

From S2P Require Import Prelude Text BTreeMap Value Control Frame Fs Serde.

Record LogTailParams : Type := mkTailParams {
  tail_cursor : option N; tail_lines : option N; tail_filters : btree text;
}.
Record LogTailEntry : Type := mkEntry { offset : N; line : text }.
Record LogTailResponse : Type := mkTailResponse { cursor : N; entries : list LogTailEntry }.

Definition c_tail_entry : codec LogTailEntry :=
  c_struct (lit "LogTailEntry") false (req (lit "offset") c_u64 &: req (lit "line") c_string &: snil)
    (λ '(mkEntry a b), (a, (b, tt))) (λ '(a, (b, _)), mkEntry a b).

Definition c_tail_response : codec LogTailResponse :=
  c_struct (lit "LogTailResponse") false
    (req (lit "cursor") c_u64 &: req (lit "entries") (c_seq c_tail_entry) &: snil)
    (λ '(mkTailResponse a b), (a, (b, tt))) (λ '(a, (b, _)), mkTailResponse a b).

#[export] Instance tail_response_serialize : Serialize LogTailResponse := enc c_tail_response.

(** [read_line] without the decoding: up to and with the next newline. *)
Fixpoint take_line (l : list byte) : list byte * list byte :=
  match l with
  | [] => ([], [])
  | b :: l => if Byte.eqb b x0a then ([b], l) else let '(line, rest) := take_line l in (b :: line, rest)
  end.

Definition is_line_end (c : N) : bool := (c =? 13)%N || (c =? 10)%N.

(** The loop reads at least one byte per turn. *)
Fixpoint tail_loop (fuel : nat) (at_ : N) (l : list byte)
    : option (result (list LogTailEntry * N) ControlError) :=
  match fuel with
  | O => None
  | S fuel =>
      let '(raw, rest) := take_line l in
      match from_utf8 raw with
      | None => Some (Err (Failed (io_text not_utf8)))
      | Some t =>
          if (len raw =? 0)%N then Some (Ok ([], at_))
          else
            match tail_loop fuel (at_ + len raw)%N rest with
            | Some (Ok (more, last)) => Some (Ok (mkEntry at_ (trim_end_by is_line_end t) :: more, last))
            | r => r
            end
      end
  end.

Definition keep_last {A} (n : N) (l : list A) : list A :=
  if (n <? len l)%N then drop (List.length l - N.to_nat n) l else l.

Definition read_log_tail (w : world) (path : text) (params : LogTailParams)
    : result LogTailResponse ControlError :=
  match tail_filters params with
  | _ :: _ => Err (BadRequest (lit "log_tail filters are not supported by this runtime"))
  | [] =>
      match files w !! path with
      | None => Ok (mkTailResponse 0 [])
      | Some bytes =>
          let start := match tail_cursor params with
                       | Some c => if (c <=? len bytes)%N then c else 0%N
                       | None => 0%N
                       end in
          match faults w (OpRead path) with
          | Some (e, _) => Err (Failed (io_text e))
          | None =>
              let rest := drop (N.to_nat start) bytes in
              let? read := default (Ok ([], start)) (tail_loop (S (List.length rest)) start rest) in
              Ok (mkTailResponse read.2 (keep_last (default 100%N (tail_lines params)) read.1))
          end
      end
  end.

(** ** The reference: the lines of a byte string *)

(** The raw lines, each with its newline, the last one perhaps without. *)
Fixpoint raw_lines (l : list byte) : list (list byte) :=
  match l with
  | [] => []
  | b :: l =>
      if Byte.eqb b x0a then [b] :: raw_lines l
      else match raw_lines l with
           | [] => [[b]]
           | first :: rest => (b :: first) :: rest
           end
  end.

(** The entries of raw lines that start at a given offset. *)
Fixpoint entries_of (at_ : N) (lines : list (list byte)) : option (list LogTailEntry) :=
  match lines with
  | [] => Some []
  | raw :: lines =>
      t ← from_utf8 raw;
      more ← entries_of (at_ + len raw)%N lines;
      Some (mkEntry at_ (trim_end_by is_line_end t) :: more)
  end.

Lemma take_line_lines l :
  l ≠ [] → raw_lines l = (take_line l).1 :: raw_lines (take_line l).2 ∧ (take_line l).1 ≠ [] ∧
  (take_line l).1 ++ (take_line l).2 = l.
Proof.
  induction l as [|b l IH]; intros Hne; [done|]. simpl. destruct (Byte.eqb b x0a); [done|].
  destruct l as [|b' l]; [done|]. destruct (IH ltac:(done)) as (IH1 & IH2 & IH3).
  remember (b' :: l) as l' eqn:El. rewrite IH1. destruct (take_line l') as [line rest]. simpl in *.
  split_and!; [done|done|]. by rewrite IH3.
Qed.

Lemma tail_loop_spec fuel at_ l :
  (List.length l < fuel)%nat →
  tail_loop fuel at_ l =
    Some (match entries_of at_ (raw_lines l) with
          | Some es => Ok (es, at_ + len l)%N
          | None => Err (Failed (io_text not_utf8))
          end).
Proof.
  revert at_ l. induction fuel as [|fuel IH]; intros at_ l Hf; [lia|]. simpl.
  destruct l as [|b l]; [simpl; by rewrite N.add_0_r|].
  destruct (take_line_lines (b :: l)) as (Hl & Hne & Happ); [done|].
  rewrite Hl. destruct (take_line (b :: l)) as [raw rest]. simpl in Hne, Happ |- *.
  destruct (from_utf8 raw) as [t|]; [|done]. simpl.
  assert (Hlen : len (b :: l) = (len raw + len rest)%N) by (rewrite <-Happ; apply len_app).
  destruct (N.eqb_spec (len raw) 0) as [Hz|_]; [by destruct raw|].
  rewrite IH.
  - destruct (entries_of _ (raw_lines rest)); simpl; [|done]. do 3 f_equal. lia.
  - destruct raw; [done|]. apply (f_equal List.length) in Happ. simpl in Happ. rewrite length_app in Happ.
    simpl in *. lia.
Qed.

Lemma raw_lines_app a b :
  (a = [] ∨ last a = Some x0a) → raw_lines (a ++ b) = raw_lines a ++ raw_lines b.
Proof.
  induction a as [|c a IH]; intros Ha; [done|]. simpl. destruct (Byte.eqb c x0a) eqn:Ec.
  - rewrite IH; [done|]. destruct a as [|c' a]; [by left|right]. by destruct Ha.
  - destruct a as [|c' a].
    + destruct Ha as [|[= ->]]; [done|]. vm_compute in Ec. done.
    + rewrite IH by (right; by destruct Ha).
      destruct (raw_lines (c' :: a)) as [|first rest] eqn:E; [|done].
      destruct (take_line_lines (c' :: a)) as (Hl & _); [done|]. rewrite Hl in E. done.
Qed.

Lemma entries_of_app at_ a b :
  entries_of at_ (a ++ b) =
    (es ← entries_of at_ a; fs ← entries_of (at_ + len (concat a))%N b; Some (es ++ fs)).
Proof.
  revert at_. induction a as [|raw a IH]; intros at_; simpl.
  - rewrite N.add_0_r. by destruct (entries_of at_ b).
  - destruct (from_utf8 raw) as [t|]; [|done]. simpl. rewrite IH.
    destruct (entries_of _ a) as [es|]; [|done]. simpl. rewrite len_app, N.add_assoc.
    by destruct (entries_of _ b).
Qed.

Lemma concat_raw_lines l : concat (raw_lines l) = l.
Proof.
  induction l as [|b l IH]; [done|]. simpl. destruct (Byte.eqb b x0a); simpl; [by rewrite IH|].
  destruct (raw_lines l); simpl in *; by subst.
Qed.

(** What a call without a line limit reads. *)
Lemma read_log_tail_eq w path c n bytes :
  files w !! path = Some bytes → faults w (OpRead path) = None →
  let start := if (c <=? len bytes)%N then c else 0%N in
  read_log_tail w path (mkTailParams (Some c) (Some n) []) =
    match entries_of start (raw_lines (drop (N.to_nat start) bytes)) with
    | Some es => Ok (mkTailResponse (len bytes) (keep_last n es))
    | None => Err (Failed (io_text not_utf8))
    end.
Proof.
  intros Hw Hf start. unfold read_log_tail. cbn [tail_filters tail_cursor tail_lines].
  rewrite Hw, Hf. fold start. rewrite tail_loop_spec by lia. cbn [default].
  assert (Hlen : (start + len (drop (N.to_nat start) bytes) = len bytes)%N).
  { unfold start, len. rewrite length_drop.
    destruct (N.leb_spec c (N.of_nat (List.length bytes))); lia. }
  destruct (entries_of _ _) as [es|]; simpl; [|done]. by rewrite Hlen.
Qed.

Lemma entries_len at_ l es : entries_of at_ (raw_lines l) = Some es → (len es ≤ len l)%N.
Proof.
  intros He. assert (Hl : len es = len (raw_lines l)).
  { revert at_ es He. induction (raw_lines l) as [|raw ls IH]; intros at_ es He; simpl in He; [by simplify_eq|].
    destruct (from_utf8 raw); [|done]. simpl in He. destruct (entries_of _ ls) as [more|] eqn:E; [|done].
    simpl in He. injection He as <-. by rewrite !len_cons, (IH _ _ E). }
  rewrite Hl. clear. induction l as [|b l IH]; [done|]. rewrite len_cons. simpl.
  destruct (Byte.eqb b x0a); [rewrite len_cons; lia|].
  destruct (raw_lines l); [|rewrite !len_cons in *]; rewrite ?len_cons, ?len_nil; lia.
Qed.

Lemma keep_all {A} n (l : list A) : (len l ≤ n)%N → keep_last n l = l.
Proof. intros Hl. unfold keep_last. destruct (N.ltb_spec n (len l)); [lia|done]. Qed.

Lemma ends_line_drop (k : nat) (l : list byte) :
  (l = [] ∨ last l = Some x0a) → (drop k l = [] ∨ last (drop k l) = Some x0a).
Proof.
  intros [->|Hl]; [left; by destruct k|]. destruct (drop k l) as [|b r] eqn:E; [by left|right].
  rewrite <-(take_drop k l), E, last_app in Hl. by rewrite last_cons in Hl |- *; destruct (last r).
Qed.

(** ** Properties *)

(** Following the log with the returned cursor shows every line once.  When
    the file ends with a full line, a call returns its entries and its length
    as the next cursor; after more has been appended, a call with that cursor
    returns exactly the entries of what was appended, at their offsets; and
    together they are what one call over the whole file returns. *)
Theorem log_tail_follows w w' path c n n' bytes more r r' :
  files w !! path = Some bytes → files w' !! path = Some (bytes ++ more) →
  faults w (OpRead path) = None → faults w' (OpRead path) = None →
  (bytes = [] ∨ last bytes = Some x0a) →
  (len bytes ≤ n)%N → (len (bytes ++ more) ≤ n')%N → (c ≤ len bytes)%N →
  read_log_tail w path (mkTailParams (Some c) (Some n) []) = Ok r →
  read_log_tail w' path (mkTailParams (Some (cursor r)) (Some n') []) = Ok r' →
  cursor r = len bytes ∧ cursor r' = len (bytes ++ more) ∧
  entries_of (len bytes) (raw_lines more) = Some (entries r') ∧
  entries_of c (raw_lines (drop (N.to_nat c) bytes ++ more)) = Some (entries r ++ entries r').
Proof.
  intros Hw Hw' Hf Hf' Hend Hn Hn' Hc Hr Hr'.
  rewrite (read_log_tail_eq _ _ _ _ _ Hw Hf) in Hr.
  destruct (N.leb_spec c (len bytes)) as [_|]; [|lia].
  destruct (entries_of c _) as [es|] eqn:Ees; [|done]. injection Hr as <-. cbn [cursor entries] in *.
  rewrite (read_log_tail_eq _ _ _ _ _ Hw' Hf') in Hr'.
  rewrite len_app in Hn', Hr' |- *. destruct (N.leb_spec (len bytes) (len bytes + len more)) as [_|]; [|lia].
  assert (Hdrop : drop (N.to_nat (len bytes)) (bytes ++ more) = more).
  { unfold len. rewrite Nat2N.id. apply drop_app_length. }
  rewrite Hdrop in Hr'. destruct (entries_of (len bytes) _) as [fs|] eqn:Efs; [|done].
  injection Hr' as <-. cbn [cursor entries].
  pose proof (entries_len _ _ _ Ees) as Hes. pose proof (entries_len _ _ _ Efs) as Hfs.
  assert (Hd : (len (drop (N.to_nat c) bytes) = len bytes - c)%N) by (unfold len; rewrite length_drop; lia).
  rewrite !keep_all by lia. split_and!; try done.
  rewrite raw_lines_app by (by apply ends_line_drop). rewrite entries_of_app, Ees. simpl.
  rewrite concat_raw_lines, Hd. replace (c + (len bytes - c))%N with (len bytes) by lia. by rewrite Efs.
Qed.

Lemma log_tail_follows_witness :
  let w := sample_world (lit "/l") [97; 10]%N in
  let w' := sample_world (lit "/l") [97; 10; 98; 13; 10]%N in
  read_log_tail w (lit "/l") (mkTailParams (Some 0%N) (Some 100%N) []) =
    Ok (mkTailResponse 2 [mkEntry 0 (lit "a")]) ∧
  entries_of 2 (raw_lines [x62; x0d; x0a]) = Some [mkEntry 2 (lit "b")].
Proof.
  split; [vm_compute; reflexivity|].
  exact (proj1 (proj2 (proj2 (log_tail_follows (sample_world (lit "/l") [97; 10]%N)
    (sample_world (lit "/l") [97; 10; 98; 13; 10]%N) (lit "/l") 0 100 100 [x61; x0a] [x62; x0d; x0a]
    (mkTailResponse 2 [mkEntry 0 (lit "a")]) (mkTailResponse 5 [mkEntry 2 (lit "b")])
    eq_refl eq_refl eq_refl eq_refl (or_intror eq_refl) ltac:(vm_compute; discriminate)
    ltac:(vm_compute; discriminate) ltac:(vm_compute; discriminate) eq_refl eq_refl)))).
Defined.

(** A line that is still being written is returned as far as it goes, and its
    rest as a line of its own. *)
Lemma partial_line_split :
  let read content c :=
    entries <$> match read_log_tail (sample_world (lit "/l") content) (lit "/l")
                        (mkTailParams (Some c) None []) with Ok r => Some r | Err _ => None end in
  read (lit "err") 0%N = Some [mkEntry 0 (lit "err")] ∧
  read (lit "err" ++ [111; 114; 10]%N) 3%N = Some [mkEntry 3 (lit "or")].
Proof. split; vm_compute; reflexivity. Qed.
