(* ===== verification/Payloads.v ===== *)
(** * Response payloads

    The response types of [crates/mutsuki-service-control/src/lib.rs], each with
    the codec that serde derives: the host writes them, the clients read them
    back with the same types.  A type whose name is also the name of a method
    is in the module [Api]. *)

From S2P Require Import Prelude Text BTreeMap Value Control Serde.
From S2P Require Import Deployment EventSource LogTail.

Module Api.
Record ServiceStatus : Type := mkServiceStatus {
  ss_instance_id : text; ss_profile : text; ss_uptime_ms : N; ss_ipc_endpoint : text;
  ss_core_running : bool; ss_plugin_count : N; ss_runner_count : N;
}.

Record HostMetrics : Type := mkHostMetrics {
  hm_pid : N; hm_uptime_ms : N; hm_rss_bytes : option N; hm_cpu_time_ms : option N;
}.

Record CoreStatus : Type := mkCoreStatus {
  cs_running : bool; cs_profile_id : option text; cs_registry_generation : option N;
}.
End Api.

Record PluginCandidateStatus : Type := mkCandidateStatus {
  pc_deployment : text; pc_version : text; pc_api_version : text; pc_sha256 : text; pc_path : text;
  pc_available : bool; pc_runner_link : option text;
}.

Record PluginStatus : Type := mkPluginStatus {
  ps_plugin_id : text; ps_configured : bool; ps_active_deployment : option text;
  ps_preferred_deployment : option text; ps_candidates : list PluginCandidateStatus;
}.

Record PluginInventoryDiagnostic : Type := mkInventoryDiagnostic {
  pd_manifest_path : text; pd_plugin_id : option text; pd_deployment : option text; pd_detail : text;
}.

Record PluginListResponse : Type := mkPluginList {
  pl_plugins : list PluginStatus; pl_diagnostics : list PluginInventoryDiagnostic;
}.

Record RunnerStatus : Type := mkRunnerStatus {
  rs_runner_id : text; rs_plugin_id : text; rs_state : text; rs_pid : option N; rs_restarts : N;
  rs_last_error : option text;
}.

Record TaskPoolStatisticsView : Type := mkPoolView {
  pv_ready : N; pv_running : N; pv_waiting : N; pv_blocked : N; pv_completed : N; pv_failed : N;
  pv_cancelled : N; pv_expired : N; pv_dead_letter : N; pv_submitted_total : N; pv_attempts_started : N;
  pv_cumulative_queue_steps : N; pv_cumulative_execution_steps : N; pv_stale_results_rejected : N;
  pv_terminal_records_evicted : N;
}.

Record RuntimeStatisticsView : Type := mkStatisticsView {
  sv_tasks : TaskPoolStatisticsView; sv_retained_events : N; sv_dropped_events : N; sv_retained_traces : N;
  sv_dropped_traces : N; sv_scheduler_decisions : N;
}.

Record TaskFailureSummary : Type := mkFailureSummary { fs_code : text; fs_source : text; fs_route : text }.

Record TaskOutcomeView : Type := mkOutcomeView {
  ov_task_id : text; ov_status : text; ov_output : option json; ov_output_ref : option text;
  ov_reason : option text; ov_error_code : option text; ov_evidence : btree json;
}.

Record TaskSnapshot : Type := mkSnapshotView {
  tv_task_id : text; tv_protocol_id : text; tv_status : text; tv_priority : Z; tv_ready_at_step : option N;
  tv_created_sequence : N; tv_registry_generation : N; tv_target_binding_id : option text;
  tv_runner_hint : option text; tv_claimed_by : option text; tv_owner_runner : option text;
  tv_lease_id : option text; tv_trace_id : option text; tv_correlation_id : option text;
  tv_input_refs : list text; tv_output_ref : option text; tv_continuation_ref : option text;
  tv_required_surfaces : list text; tv_failure : option TaskFailureSummary;
}.

Record HealthReport : Type := mkHealthReport {
  hr_service : text; hr_core : text; hr_plugins : text; hr_runners : text; hr_event_sources : text;
  hr_event_source_details : list EventSourceStatus; hr_recent_errors : list text; hr_components : btree json;
}.

Record TaskOutcomesBatchResponse : Type := mkOutcomesBatch { ob_outcomes : list TaskOutcomeView }.
Record TaskWaitResponse : Type := mkWaitResponse { wr_outcomes : list TaskOutcomeView; wr_timed_out : bool }.
Record CoreDrainResponse : Type := mkDrainResponse { dr_state : text }.
(** Handles and events are types of the contracts crate. *)
Record TaskSubmitBatchResponse (H : Type) : Type := mkSubmitResponse { sr_handles : list H }.
Arguments mkSubmitResponse {H}. Arguments sr_handles {H}.
Record TaskEventPage (E : Type) : Type := mkEventPage {
  ep_next_sequence : N; ep_earliest_available_sequence : option N; ep_latest_sequence : N; ep_lost : N;
  ep_dropped : N; ep_has_more : bool; ep_events : list E;
}.
Arguments mkEventPage {E}. Arguments ep_next_sequence {E}. Arguments ep_earliest_available_sequence {E}.
Arguments ep_latest_sequence {E}. Arguments ep_lost {E}. Arguments ep_dropped {E}.
Arguments ep_has_more {E}. Arguments ep_events {E}.

(** ** Codecs *)

Definition c_service_status : codec Api.ServiceStatus :=
  c_struct (lit "ServiceStatus") false
    (req (lit "instance_id") c_string &: req (lit "profile") c_string &: req (lit "uptime_ms") c_u128
     &: req (lit "ipc_endpoint") c_string &: req (lit "core_running") c_bool
     &: req (lit "plugin_count") c_usize &: req (lit "runner_count") c_usize &: snil)
    (λ '(Api.mkServiceStatus a b c d e f g), (a, (b, (c, (d, (e, (f, (g, tt))))))))
    (λ '(a, (b, (c, (d, (e, (f, (g, _))))))), Api.mkServiceStatus a b c d e f g).

Definition c_host_metrics : codec Api.HostMetrics :=
  c_struct (lit "HostMetrics") false
    (req (lit "pid") c_u32 &: req (lit "uptime_ms") c_u128 &: skip_none (lit "rss_bytes") c_u64
     &: skip_none (lit "cpu_time_ms") c_u64 &: snil)
    (λ '(Api.mkHostMetrics a b c d), (a, (b, (c, (d, tt)))))
    (λ '(a, (b, (c, (d, _)))), Api.mkHostMetrics a b c d).

Definition c_core_status : codec Api.CoreStatus :=
  c_struct (lit "CoreStatus") false
    (req (lit "running") c_bool &: opt (lit "profile_id") c_string
     &: opt (lit "registry_generation") c_u64 &: snil)
    (λ '(Api.mkCoreStatus a b c), (a, (b, (c, tt)))) (λ '(a, (b, (c, _))), Api.mkCoreStatus a b c).

Definition c_candidate_status : codec PluginCandidateStatus :=
  c_struct (lit "PluginCandidateStatus") false
    (req (lit "deployment") c_string &: req (lit "version") c_string &: req (lit "api_version") c_string
     &: req (lit "sha256") c_string &: req (lit "path") c_string &: req (lit "available") c_bool
     &: opt (lit "runner_link") c_string &: snil)
    (λ '(mkCandidateStatus a b c d e f g), (a, (b, (c, (d, (e, (f, (g, tt))))))))
    (λ '(a, (b, (c, (d, (e, (f, (g, _))))))), mkCandidateStatus a b c d e f g).

Definition c_plugin_status : codec PluginStatus :=
  c_struct (lit "PluginStatus") false
    (req (lit "plugin_id") c_string &: req (lit "configured") c_bool
     &: opt (lit "active_deployment") c_string &: opt (lit "preferred_deployment") c_string
     &: req (lit "candidates") (c_seq c_candidate_status) &: snil)
    (λ '(mkPluginStatus a b c d e), (a, (b, (c, (d, (e, tt))))))
    (λ '(a, (b, (c, (d, (e, _))))), mkPluginStatus a b c d e).

Definition c_inventory_diagnostic : codec PluginInventoryDiagnostic :=
  c_struct (lit "PluginInventoryDiagnostic") false
    (req (lit "manifest_path") c_string &: opt (lit "plugin_id") c_string &: opt (lit "deployment") c_string
     &: req (lit "detail") c_string &: snil)
    (λ '(mkInventoryDiagnostic a b c d), (a, (b, (c, (d, tt)))))
    (λ '(a, (b, (c, (d, _)))), mkInventoryDiagnostic a b c d).

Definition c_plugin_list : codec PluginListResponse :=
  c_struct (lit "PluginListResponse") false
    (req (lit "plugins") (c_seq c_plugin_status) &: req (lit "diagnostics") (c_seq c_inventory_diagnostic)
     &: snil)
    (λ '(mkPluginList a b), (a, (b, tt))) (λ '(a, (b, _)), mkPluginList a b).

Definition c_runner_status : codec RunnerStatus :=
  c_struct (lit "RunnerStatus") false
    (req (lit "runner_id") c_string &: req (lit "plugin_id") c_string &: req (lit "state") c_string
     &: opt (lit "pid") c_u32 &: req (lit "restarts") c_u32 &: opt (lit "last_error") c_string &: snil)
    (λ '(mkRunnerStatus a b c d e f), (a, (b, (c, (d, (e, (f, tt)))))))
    (λ '(a, (b, (c, (d, (e, (f, _)))))), mkRunnerStatus a b c d e f).

Definition c_event_source_status : codec EventSourceStatus :=
  c_struct (lit "EventSourceStatus") false
    (req (lit "source_id") c_string &: req (lit "plugin_id") c_string &: req (lit "instance_id") c_string
     &: req (lit "state") c_string &: req (lit "health") c_string &: opt (lit "last_error") c_string
     &: req (lit "reconnects") c_u32 &: opt (lit "last_event_unix_ms") c_u128
     &: dflt (lit "started_at_unix_ms") (c_option c_u128) None &: snil)
    (λ '(mkStatus a b c d e f g h i), (a, (b, (c, (d, (e, (f, (g, (h, (i, tt))))))))))
    (λ '(a, (b, (c, (d, (e, (f, (g, (h, (i, _))))))))), mkStatus a b c d e f g h i).

Definition c_pool_statistics : codec TaskPoolStatisticsView :=
  c_struct (lit "TaskPoolStatisticsView") false
    (req (lit "ready") c_usize &: req (lit "running") c_usize &: req (lit "waiting") c_usize
     &: req (lit "blocked") c_usize &: req (lit "completed") c_usize &: req (lit "failed") c_usize
     &: req (lit "cancelled") c_usize &: req (lit "expired") c_usize &: req (lit "dead_letter") c_usize
     &: req (lit "submitted_total") c_u64 &: req (lit "attempts_started") c_u64
     &: req (lit "cumulative_queue_steps") c_u64 &: req (lit "cumulative_execution_steps") c_u64
     &: req (lit "stale_results_rejected") c_u64 &: req (lit "terminal_records_evicted") c_u64 &: snil)
    (λ '(mkPoolView a b c d e f g h i j k l m n o),
       (a, (b, (c, (d, (e, (f, (g, (h, (i, (j, (k, (l, (m, (n, (o, tt))))))))))))))))
    (λ '(a, (b, (c, (d, (e, (f, (g, (h, (i, (j, (k, (l, (m, (n, (o, _))))))))))))))),
       mkPoolView a b c d e f g h i j k l m n o).

Definition c_statistics : codec RuntimeStatisticsView :=
  c_struct (lit "RuntimeStatisticsView") false
    (req (lit "tasks") c_pool_statistics &: req (lit "retained_events") c_usize
     &: req (lit "dropped_events") c_u64 &: req (lit "retained_traces") c_usize
     &: req (lit "dropped_traces") c_u64 &: req (lit "scheduler_decisions") c_u64 &: snil)
    (λ '(mkStatisticsView a b c d e f), (a, (b, (c, (d, (e, (f, tt)))))))
    (λ '(a, (b, (c, (d, (e, (f, _)))))), mkStatisticsView a b c d e f).

Definition c_failure_summary : codec TaskFailureSummary :=
  c_struct (lit "TaskFailureSummary") false
    (req (lit "code") c_string &: req (lit "source") c_string &: req (lit "route") c_string &: snil)
    (λ '(mkFailureSummary a b c), (a, (b, (c, tt)))) (λ '(a, (b, (c, _))), mkFailureSummary a b c).

Definition c_outcome_view : codec TaskOutcomeView :=
  c_struct (lit "TaskOutcomeView") false
    (req (lit "task_id") c_string &: req (lit "status") c_string &: skip_none (lit "output") c_json
     &: skip_none (lit "output_ref") c_string &: skip_none (lit "reason") c_string
     &: skip_none (lit "error_code") c_string &: skip_empty (lit "evidence") c_json_map &: snil)
    (λ '(mkOutcomeView a b c d e f g), (a, (b, (c, (d, (e, (f, (g, tt))))))))
    (λ '(a, (b, (c, (d, (e, (f, (g, _))))))), mkOutcomeView a b c d e f g).

Definition c_task_snapshot : codec TaskSnapshot :=
  c_struct (lit "TaskSnapshot") false
    (req (lit "task_id") c_string &: req (lit "protocol_id") c_string &: req (lit "status") c_string
     &: req (lit "priority") c_i64 &: opt (lit "ready_at_step") c_u64 &: req (lit "created_sequence") c_u64
     &: req (lit "registry_generation") c_u64 &: opt (lit "target_binding_id") c_string
     &: opt (lit "runner_hint") c_string &: opt (lit "claimed_by") c_string
     &: opt (lit "owner_runner") c_string &: opt (lit "lease_id") c_string &: opt (lit "trace_id") c_string
     &: opt (lit "correlation_id") c_string &: req (lit "input_refs") (c_seq c_string)
     &: opt (lit "output_ref") c_string &: opt (lit "continuation_ref") c_string
     &: req (lit "required_surfaces") (c_seq c_string) &: opt (lit "failure") c_failure_summary &: snil)
    (λ '(mkSnapshotView a b c d e f g h i j k l m n o p q r s),
       (a, (b, (c, (d, (e, (f, (g, (h, (i, (j, (k, (l, (m, (n, (o, (p, (q, (r, (s, tt))))))))))))))))))))
    (λ '(a, (b, (c, (d, (e, (f, (g, (h, (i, (j, (k, (l, (m, (n, (o, (p, (q, (r, (s, _))))))))))))))))))),
       mkSnapshotView a b c d e f g h i j k l m n o p q r s).

Definition c_health_report : codec HealthReport :=
  c_struct (lit "HealthReport") false
    (req (lit "service") c_string &: req (lit "core") c_string &: req (lit "plugins") c_string
     &: req (lit "runners") c_string &: req (lit "event_sources") c_string
     &: req (lit "event_source_details") (c_seq c_event_source_status)
     &: req (lit "recent_errors") (c_seq c_string) &: dflt (lit "components") c_json_map [] &: snil)
    (λ '(mkHealthReport a b c d e f g h), (a, (b, (c, (d, (e, (f, (g, (h, tt)))))))))
    (λ '(a, (b, (c, (d, (e, (f, (g, (h, _)))))))), mkHealthReport a b c d e f g h).

Definition c_outcomes_batch : codec TaskOutcomesBatchResponse :=
  c_struct (lit "TaskOutcomesBatchResponse") false (req (lit "outcomes") (c_seq c_outcome_view) &: snil)
    (λ '(mkOutcomesBatch a), (a, tt)) (λ '(a, _), mkOutcomesBatch a).

Definition c_wait_response : codec TaskWaitResponse :=
  c_struct (lit "TaskWaitResponse") false
    (req (lit "outcomes") (c_seq c_outcome_view) &: req (lit "timed_out") c_bool &: snil)
    (λ '(mkWaitResponse a b), (a, (b, tt))) (λ '(a, (b, _)), mkWaitResponse a b).

Definition c_drain_response : codec CoreDrainResponse :=
  c_struct (lit "CoreDrainResponse") false (req (lit "state") c_string &: snil)
    (λ '(mkDrainResponse a), (a, tt)) (λ '(a, _), mkDrainResponse a).

Definition c_submit_response {H} (c : codec H) : codec (TaskSubmitBatchResponse H) :=
  c_struct (lit "TaskSubmitBatchResponse") false (req (lit "handles") (c_seq c) &: snil)
    (λ '(mkSubmitResponse a), (a, tt)) (λ '(a, _), mkSubmitResponse a).

Definition c_event_page {E} (c : codec E) : codec (TaskEventPage E) :=
  c_struct (lit "TaskEventPage") false
    (req (lit "next_sequence") c_u64 &: opt (lit "earliest_available_sequence") c_u64
     &: req (lit "latest_sequence") c_u64 &: req (lit "lost") c_u64 &: req (lit "dropped") c_u64
     &: req (lit "has_more") c_bool &: req (lit "events") (c_seq c) &: snil)
    (λ '(mkEventPage a b c d e f g), (a, (b, (c, (d, (e, (f, (g, tt))))))))
    (λ '(a, (b, (c, (d, (e, (f, (g, _))))))), mkEventPage a b c d e f g).

(** ** [ControlResponse::ok] of each type *)

#[export] Instance service_status_serialize : Serialize Api.ServiceStatus := enc c_service_status.
#[export] Instance host_metrics_serialize : Serialize Api.HostMetrics := enc c_host_metrics.
#[export] Instance core_status_serialize : Serialize Api.CoreStatus := enc c_core_status.
#[export] Instance plugin_list_serialize : Serialize PluginListResponse := enc c_plugin_list.
#[export] Instance runner_statuses_serialize : Serialize (list RunnerStatus) := enc (c_seq c_runner_status).
#[export] Instance source_statuses_serialize : Serialize (list EventSourceStatus) :=
  enc (c_seq c_event_source_status).
#[export] Instance statistics_serialize : Serialize RuntimeStatisticsView := enc c_statistics.
#[export] Instance task_snapshots_serialize : Serialize (list TaskSnapshot) := enc (c_seq c_task_snapshot).
#[export] Instance outcome_view_serialize : Serialize TaskOutcomeView := enc c_outcome_view.
#[export] Instance outcomes_batch_serialize : Serialize TaskOutcomesBatchResponse := enc c_outcomes_batch.
#[export] Instance wait_response_serialize : Serialize TaskWaitResponse := enc c_wait_response.
#[export] Instance drain_response_serialize : Serialize CoreDrainResponse := enc c_drain_response.
#[export] Instance health_report_serialize : Serialize HealthReport := enc c_health_report.

(** ** Laws *)

#[export] Instance c_service_status_ok : CodecOk c_service_status.
Proof. solve_codec. Qed.
#[export] Instance c_host_metrics_ok : CodecOk c_host_metrics.
Proof. solve_codec. Qed.
#[export] Instance c_core_status_ok : CodecOk c_core_status.
Proof. solve_codec. Qed.
#[export] Instance c_candidate_status_ok : CodecOk c_candidate_status.
Proof. solve_codec. Qed.
#[export] Instance c_plugin_status_ok : CodecOk c_plugin_status.
Proof. solve_codec. Qed.
#[export] Instance c_inventory_diagnostic_ok : CodecOk c_inventory_diagnostic.
Proof. solve_codec. Qed.
#[export] Instance c_plugin_list_ok : CodecOk c_plugin_list.
Proof. solve_codec. Qed.
#[export] Instance c_reload_change_ok : CodecOk c_reload_change.
Proof. solve_codec. Qed.
#[export] Instance c_reload_response_ok : CodecOk c_reload_response.
Proof. solve_codec. Qed.
#[export] Instance c_runner_status_ok : CodecOk c_runner_status.
Proof. solve_codec. Qed.
#[export] Instance c_event_source_status_ok : CodecOk c_event_source_status.
Proof. solve_codec. Qed.
#[export] Instance c_pool_statistics_ok : CodecOk c_pool_statistics.
Proof. solve_codec. Qed.
#[export] Instance c_statistics_ok : CodecOk c_statistics.
Proof. solve_codec. Qed.
#[export] Instance c_failure_summary_ok : CodecOk c_failure_summary.
Proof. solve_codec. Qed.
#[export] Instance c_outcome_view_ok : CodecOk c_outcome_view.
Proof. solve_codec. Qed.
#[export] Instance c_task_snapshot_ok : CodecOk c_task_snapshot.
Proof. solve_codec. Qed.
#[export] Instance c_health_report_ok : CodecOk c_health_report.
Proof. solve_codec. Qed.
#[export] Instance c_outcomes_batch_ok : CodecOk c_outcomes_batch.
Proof. solve_codec. Qed.
#[export] Instance c_wait_response_ok : CodecOk c_wait_response.
Proof. solve_codec. Qed.
#[export] Instance c_drain_response_ok : CodecOk c_drain_response.
Proof. solve_codec. Qed.
#[export] Instance c_submit_response_ok {H} (c : codec H) `{!CodecOk c} : CodecOk (c_submit_response c).
Proof. solve_codec. Qed.
#[export] Instance c_event_page_ok {E} (c : codec E) `{!CodecOk c} : CodecOk (c_event_page c).
Proof. solve_codec. Qed.
#[export] Instance c_tail_entry_ok : CodecOk c_tail_entry.
Proof. solve_codec. Qed.
#[export] Instance c_tail_response_ok : CodecOk c_tail_response.
Proof. solve_codec. Qed.

#[export] Instance c_service_status_exact : CodecExact c_service_status.
Proof. solve_exact. Qed.
#[export] Instance c_host_metrics_exact : CodecExact c_host_metrics.
Proof. solve_exact. Qed.
#[export] Instance c_core_status_exact : CodecExact c_core_status.
Proof. solve_exact. Qed.
#[export] Instance c_candidate_status_exact : CodecExact c_candidate_status.
Proof. solve_exact. Qed.
#[export] Instance c_plugin_status_exact : CodecExact c_plugin_status.
Proof. solve_exact. Qed.
#[export] Instance c_inventory_diagnostic_exact : CodecExact c_inventory_diagnostic.
Proof. solve_exact. Qed.
#[export] Instance c_plugin_list_exact : CodecExact c_plugin_list.
Proof. solve_exact. Qed.
#[export] Instance c_reload_change_exact : CodecExact c_reload_change.
Proof. solve_exact. Qed.
#[export] Instance c_reload_response_exact : CodecExact c_reload_response.
Proof. solve_exact. Qed.
#[export] Instance c_runner_status_exact : CodecExact c_runner_status.
Proof. solve_exact. Qed.
#[export] Instance c_event_source_status_exact : CodecExact c_event_source_status.
Proof. solve_exact. Qed.
#[export] Instance c_pool_statistics_exact : CodecExact c_pool_statistics.
Proof. solve_exact. Qed.
#[export] Instance c_statistics_exact : CodecExact c_statistics.
Proof. solve_exact. Qed.
#[export] Instance c_failure_summary_exact : CodecExact c_failure_summary.
Proof. solve_exact. Qed.
#[export] Instance c_task_snapshot_exact : CodecExact c_task_snapshot.
Proof. solve_exact. Qed.
#[export] Instance c_health_report_exact : CodecExact c_health_report.
Proof. solve_exact. Qed.
#[export] Instance c_drain_response_exact : CodecExact c_drain_response.
Proof. solve_exact. Qed.
#[export] Instance c_submit_response_exact {H} (c : codec H) `{!CodecExact c} : CodecExact (c_submit_response c).
Proof. solve_exact. Qed.
#[export] Instance c_event_page_exact {E} (c : codec E) `{!CodecExact c} : CodecExact (c_event_page c).
Proof. solve_exact. Qed.
#[export] Instance c_tail_entry_exact : CodecExact c_tail_entry.
Proof. solve_exact. Qed.
#[export] Instance c_tail_response_exact : CodecExact c_tail_response.
Proof. solve_exact. Qed.

(** An outcome loses an output that is [null]: it reads back as none. *)
Definition drop_null (o : option json) : option json := match o with Some JNull => None | _ => o end.
Definition read_outcome (v : TaskOutcomeView) : TaskOutcomeView :=
  mkOutcomeView (ov_task_id v) (ov_status v) (drop_null (ov_output v)) (ov_output_ref v) (ov_reason v)
    (ov_error_code v) (ov_evidence v).

Lemma outcome_norm v : norm c_outcome_view v = read_outcome v.
Proof. destruct v as [i s [[]|] [] [] [] []]; reflexivity. Qed.
