(* ===== verification/Tasks.v ===== *)
(** * Task operations

    [crates/mutsuki-service-runtime/src/lib.rs]: the handlers that submit,
    cancel, inspect and wait for tasks of the Core, the conversions of its
    values, and the resolution of task ids to handles.  The Core's task
    operations are an interface over the running host. *)

From S2P Require Import Prelude Text BTreeMap Value Control ConfigTypes Frame Fs Plugins Catalog Boot.
From S2P Require Import Serde Payloads.

(** ** Values of the Core *)

Inductive TaskStatus : Type :=
| Created | Ready | TaskRunning | TaskWaiting | Blocked
| Completed | TaskFailed | Cancelled | Expired | DeadLetter.

Inductive RuntimeStopState : Type := StopRunning | Draining | Aborted.

Record TaskFailure : Type := mkFailure { failure_code : text; failure_source : text; failure_route : text }.

(** [evidence] with each value as it serializes. *)
Record RuntimeFailureView : Type := mkFailureView {
  fv_code : text; fv_route : text; fv_evidence : list (text * result json text);
}.

Inductive TaskOutcome : Type :=
| OutCompleted (id : text) (output : option json) (output_ref : option text)
| OutFailed (id : text) (error : RuntimeFailureView)
| OutCancelled (id : text) (reason : option text)
| OutExpired (id : text) (reason : option text)
| OutDeadLetter (id : text) (reason : option text).

Record TaskHandle : Type := mkHandle {
  h_task_id : text; h_protocol_id : text; h_target_binding_id : option text;
  h_cascade : bool;                      (* CancelPolicy::Cascade *)
  h_trace_id : option text; h_correlation_id : option text;
}.

Record HostTaskSnapshot : Type := mkTaskSnapshot {
  task_id : text; protocol_id : text; task_status : TaskStatus; priority : Z;
  ready_at_step : option N; created_sequence : N; task_generation : N;
  target_binding_id : option text; runner_hint : option text; claimed_by : option text;
  owner_runner : option text; lease_id : option text; trace_id : option text;
  correlation_id : option text; input_refs : list text; output_ref : option text;
  continuation_ref : option text; required_surfaces : list text; failure : option TaskFailure;
}.

Record HostTaskState : Type := mkTaskState {
  state_handle : TaskHandle; state_status : option TaskStatus; state_outcome : option TaskOutcome;
}.

Record TaskPoolStatistics : Type := mkPoolStatistics {
  ready : N; running : N; waiting : N; blocked : N; completed : N; failed_tasks : N; cancelled_tasks : N;
  expired : N; dead_letter : N; submitted_total : N; attempts_started : N; cumulative_queue_steps : N;
  cumulative_execution_steps : N; stale_results_rejected : N; terminal_records_evicted : N;
}.

Record RuntimeStatistics : Type := mkStatistics {
  tasks : TaskPoolStatistics; retained_events : N; dropped_events : N; retained_traces : N;
  dropped_traces : N; scheduler_decisions : N;
}.

Class TaskCore `{CoreRuntime} : Type := {
  TaskBatch : Type;
  batch_is_empty : TaskBatch → bool;
  RuntimeEvent : Type;
  event_codec : codec RuntimeEvent;
  handle_codec : codec TaskHandle;
  task_snapshots : HostRuntime → result (list HostTaskSnapshot) text;
  task_states : list TaskHandle → HostRuntime → result (list HostTaskState) text;
  (* [dispatch] of each command: the matching reply, or the [Debug] of another *)
  submit_batch : TaskBatch → HostRuntime → result (list TaskHandle + text) text * HostRuntime;
  cancel_task : TaskHandle → HostRuntime → result unit text * HostRuntime;
  outcome_of : TaskHandle → HostRuntime → result (option TaskOutcome + text) text;
  begin_drain : HostRuntime → result RuntimeStopState text * HostRuntime;
  statistics : HostRuntime → result RuntimeStatistics text;
  events_after : N → N → HostRuntime → result (N * option N * N * N * N * bool * list RuntimeEvent) text;
  host_profile_id : HostRuntime → text;
  (* whether each pool is degraded, and their serialization *)
  worker_pools : HostRuntime → result (list bool * result json text) text;
}.

(** ** Names *)

Definition task_status_name (s : TaskStatus) : text :=
  match s with
  | Created => lit "created" | Ready => lit "ready" | TaskRunning => lit "running"
  | TaskWaiting => lit "waiting" | Blocked => lit "blocked" | Completed => lit "completed"
  | TaskFailed => lit "failed" | Cancelled => lit "cancelled" | Expired => lit "expired"
  | DeadLetter => lit "dead_letter"
  end.

Definition runtime_stop_state (s : RuntimeStopState) : text :=
  match s with
  | StopRunning => lit "running" | Draining => lit "draining" | Aborted => lit "aborted"
  end.

Definition is_terminal_task_status (s : option TaskStatus) : bool :=
  match s with
  | Some (Completed | TaskFailed | Cancelled | Expired | DeadLetter) => true
  | _ => false
  end.

(** ** Views *)

Definition to_control_task_outcome (id : text) (o : option TaskOutcome) : TaskOutcomeView :=
  match o with
  | None => mkOutcomeView id (lit "pending") None None None None []
  | Some (OutCompleted id output output_ref) =>
      mkOutcomeView id (lit "completed") output output_ref None None []
  | Some (OutFailed id error) =>
      mkOutcomeView id (lit "failed") None None (Some (fv_route error)) (Some (fv_code error))
        (bcollect (omap (λ e, match e.2 with Ok v => Some (e.1, v) | Err _ => None end)
                     (fv_evidence error)))
  | Some (OutCancelled id reason) => mkOutcomeView id (lit "cancelled") None None reason None []
  | Some (OutExpired id reason) => mkOutcomeView id (lit "expired") None None reason None []
  | Some (OutDeadLetter id reason) => mkOutcomeView id (lit "dead_letter") None None reason None []
  end.

Definition to_control_task_snapshot (s : HostTaskSnapshot) : TaskSnapshot :=
  {| tv_task_id := task_id s; tv_protocol_id := protocol_id s; tv_status := task_status_name (task_status s);
     tv_priority := priority s; tv_ready_at_step := ready_at_step s; tv_created_sequence := created_sequence s;
     tv_registry_generation := task_generation s; tv_target_binding_id := target_binding_id s;
     tv_runner_hint := runner_hint s; tv_claimed_by := claimed_by s; tv_owner_runner := owner_runner s;
     tv_lease_id := lease_id s; tv_trace_id := trace_id s; tv_correlation_id := correlation_id s;
     tv_input_refs := input_refs s; tv_output_ref := output_ref s; tv_continuation_ref := continuation_ref s;
     tv_required_surfaces := required_surfaces s;
     tv_failure := (λ f, mkFailureSummary (failure_code f) (failure_source f) (failure_route f)) <$> failure s |}.

Definition to_control_task_snapshots (l : list HostTaskSnapshot) : list TaskSnapshot :=
  to_control_task_snapshot <$> l.

(** ** Resolution of task ids *)

Definition handle_of (s : HostTaskSnapshot) : TaskHandle :=
  mkHandle (task_id s) (protocol_id s) (target_binding_id s) true (trace_id s) (correlation_id s).

(** Each id takes its snapshot out of the map. *)
Fixpoint take_handles (by_id : btree HostTaskSnapshot) (ids : list text)
    : result (list TaskHandle) ControlError :=
  match ids with
  | [] => Ok []
  | id :: ids =>
      match bget by_id id with
      | None => Err (Failed (lit "task " ++ id ++ lit " was not found"))
      | Some s =>
          let? more := take_handles (bdel id by_id) ids in
          Ok (handle_of s :: more)
      end
  end.

Section tasks.
Context `{TaskCore}.

Definition resolve_task_handles (host : HostRuntime) (ids : list text)
    : result (list TaskHandle) ControlError :=
  let? snapshots := map_err Failed (task_snapshots host) in
  take_handles (bcollect ((λ s, (task_id s, s)) <$> snapshots)) ids.

(** [handles.remove(0)]: a resolution of one id has one handle. *)
Definition resolve_task_handle (host : HostRuntime) (id : text) : result TaskHandle ControlError :=
  let? handles := resolve_task_handles host [id] in
  match handles with h :: _ => Ok h | [] => Err (Failed []) end.

(** ** Handlers

    Each works on the Core behind its mutex; parameters are decoded. *)

#[export] Instance submit_response_serialize : Serialize (TaskSubmitBatchResponse TaskHandle) :=
  enc (c_submit_response handle_codec).
#[export] Instance event_page_serialize : Serialize (TaskEventPage RuntimeEvent) :=
  enc (c_event_page event_codec).

Definition core_not_running : ControlResponse := response_err (Failed (lit "core is not running")).
Definition failed_with (message : text) : ControlResponse := response_err (Failed message).

Definition task_submit_batch (batch : TaskBatch) (host : option HostRuntime)
    : ControlResponse * option HostRuntime :=
  if batch_is_empty batch
  then (response_err (BadRequest (lit "task batch must contain at least one task")), host)
  else
    match host with
    | None => (core_not_running, host)
    | Some h =>
        let '(r, h) := submit_batch batch h in
        (match r with
         | Ok (inl handles) => response_ok (mkSubmitResponse handles)
         | Ok (inr other) => failed_with (lit "unexpected task submit reply: " ++ other)
         | Err e => failed_with e
         end, Some h)
    end.

Definition task_list (host : option HostRuntime) : ControlResponse :=
  match host with
  | None => core_not_running
  | Some h =>
      match task_snapshots h with
      | Ok snapshots => response_ok (to_control_task_snapshots snapshots)
      | Err e => failed_with e
      end
  end.

Definition task_cancel (id : text) (host : option HostRuntime) : ControlResponse * option HostRuntime :=
  match host with
  | None => (core_not_running, host)
  | Some h =>
      match resolve_task_handle h id with
      | Err e => (response_err e, host)
      | Ok handle =>
          let '(r, h) := cancel_task handle h in
          (match r with Ok _ => empty_ok | Err e => failed_with e end, Some h)
      end
  end.

Definition task_outcome (id : text) (host : option HostRuntime) : ControlResponse :=
  match host with
  | None => core_not_running
  | Some h =>
      match resolve_task_handle h id with
      | Err e => response_err e
      | Ok handle =>
          match outcome_of handle h with
          | Ok (inl outcome) =>
              response_ok (to_control_task_outcome (h_task_id handle) outcome)
          | Ok (inr other) => failed_with (lit "unexpected task outcome reply: " ++ other)
          | Err e => failed_with e
          end
      end
  end.

Definition outcomes_of (states : list HostTaskState) : list TaskOutcomeView :=
  (λ s, to_control_task_outcome (h_task_id (state_handle s)) (state_outcome s)) <$> states.

Definition task_outcomes_batch (ids : list text) (host : option HostRuntime) : ControlResponse :=
  match ids with
  | [] => response_err (BadRequest (lit "task outcomes batch requires at least one id"))
  | _ =>
      match host with
      | None => core_not_running
      | Some h =>
          match resolve_task_handles h ids with
          | Err e => response_err e
          | Ok handles =>
              match task_states handles h with
              | Ok states => response_ok (mkOutcomesBatch (outcomes_of states))
              | Err e => failed_with e
              end
          end
      end
  end.

(** ** Waiting

    One round of the loop: the Core as the round finds it, the clock, what
    the subscription answers (a new revision, or nothing when it timed out),
    and the Core after that. *)
Record round : Type := mkRound {
  r_host : option HostRuntime; r_now : N; r_next : option N; r_after : option HostRuntime;
}.

Definition task_wait_response (states : list HostTaskState) (timed_out : bool) : ControlResponse :=
  response_ok (mkWaitResponse (outcomes_of states) timed_out).

Definition all_terminal (states : list HostTaskState) : bool :=
  forallb (λ s, is_terminal_task_status (state_status s)) states.

(** What one round does: answer, or go on. *)
Definition wait_round (deadline : N) (handles : list TaskHandle) (r : round) : option ControlResponse :=
  match r_host r with
  | None => Some core_not_running
  | Some h =>
      match task_states handles h with
      | Err e => Some (failed_with e)
      | Ok states =>
          if all_terminal states then Some (task_wait_response states false)
          else if (deadline <=? r_now r)%N then Some (task_wait_response states true)
          else
            match r_next r with
            | Some _ => None
            | None =>
                Some match r_after r with
                     | None => core_not_running
                     | Some h =>
                         match task_states handles h with
                         | Ok states => task_wait_response states true
                         | Err e => failed_with e
                         end
                     end
            end
      end
  end.

Fixpoint wait_loop (fuel : nat) (deadline : N) (handles : list TaskHandle) (rounds : nat → round)
    (i : nat) : option ControlResponse :=
  match fuel with
  | O => None
  | S fuel =>
      match wait_round deadline handles (rounds i) with
      | Some response => Some response
      | None => wait_loop fuel deadline handles rounds (S i)
      end
  end.

(** [now] is the time of the call, [timeout_ms] in the clock's unit. *)
Definition task_wait (fuel : nat) (ids : list text) (timeout_ms now : N) (rounds : nat → round)
    (host : option HostRuntime) : option ControlResponse :=
  match ids with
  | [] => Some (response_err (BadRequest (lit "task wait requires at least one id")))
  | _ =>
      match host with
      | None => Some core_not_running
      | Some h =>
          match resolve_task_handles h ids with
          | Err e => Some (response_err e)
          | Ok handles => wait_loop fuel (now + timeout_ms) handles rounds 0
          end
      end
  end.

(** ** Events *)

Definition MAX_EVENTS_PER_PAGE : N := 1024.

Definition task_events_after (sequence limit : N) (host : option HostRuntime) : ControlResponse :=
  if (limit =? 0)%N || (MAX_EVENTS_PER_PAGE <? limit)%N then
    response_err (BadRequest (lit "event page limit must be in 1..=1024"))
  else
    match host with
    | None => core_not_running
    | Some h =>
        match events_after sequence limit h with
        | Err e => failed_with e
        | Ok (next, earliest, latest, lost, dropped, truncated, items) =>
            response_ok (mkEventPage next earliest latest lost dropped truncated items)
        end
    end.

Definition core_begin_drain (host : option HostRuntime) : ControlResponse * option HostRuntime :=
  match host with
  | None => (core_not_running, host)
  | Some h =>
      let '(r, h) := begin_drain h in
      (match r with
       | Ok s => response_ok (mkDrainResponse (runtime_stop_state s))
       | Err e => failed_with e
       end, Some h)
  end.

Definition statistics_view (s : RuntimeStatistics) : RuntimeStatisticsView :=
  let t := tasks s in
  mkStatisticsView
    {| pv_ready := ready t; pv_running := running t; pv_waiting := waiting t; pv_blocked := blocked t;
       pv_completed := completed t; pv_failed := failed_tasks t; pv_cancelled := cancelled_tasks t;
       pv_expired := expired t; pv_dead_letter := dead_letter t; pv_submitted_total := submitted_total t;
       pv_attempts_started := attempts_started t; pv_cumulative_queue_steps := cumulative_queue_steps t;
       pv_cumulative_execution_steps := cumulative_execution_steps t;
       pv_stale_results_rejected := stale_results_rejected t;
       pv_terminal_records_evicted := terminal_records_evicted t |}
    (retained_events s) (dropped_events s) (retained_traces s) (dropped_traces s) (scheduler_decisions s).

Definition runtime_statistics (host : option HostRuntime) : ControlResponse :=
  match host with
  | None => core_not_running
  | Some h => match statistics h with Ok s => response_ok (statistics_view s) | Err e => failed_with e end
  end.

End tasks.

(** ** Lemmas *)

Lemma bget_del {V} (m : btree V) k k' v : bget (bdel k m) k' = Some v ↔ k' ≠ k ∧ bget m k' = Some v.
Proof.
  destruct (decide (k' = k)) as [->|Hne]; [rewrite bget_del_eq; naive_solver|].
  rewrite bget_del_ne by done. naive_solver.
Qed.

(** The handle an id stands for. *)
Definition handle_for (m : btree HostTaskSnapshot) (id : text) (h : TaskHandle) : Prop :=
  ∃ s, bget m id = Some s ∧ h = handle_of s.

Lemma handle_for_del m k id h : handle_for (bdel k m) id h ↔ id ≠ k ∧ handle_for m id h.
Proof. unfold handle_for. setoid_rewrite bget_del. naive_solver. Qed.

Lemma take_handles_spec m ids hs :
  take_handles m ids = Ok hs ↔ NoDup ids ∧ Forall2 (handle_for m) ids hs.
Proof.
  revert m hs. induction ids as [|id ids IH]; intros m hs; simpl.
  { split; [intros [= <-]; split; constructor|intros [_ Hf]; by inversion Hf]. }
  rewrite NoDup_cons. destruct (bget m id) as [s|] eqn:Hg.
  2: { split; [done|]. intros [_ Hf]. inversion Hf as [|? ? ? ? (s & Hs & _)]; subst. congruence. }
  rewrite rbind_ok. split.
  - intros (more & [Hn Hf]%IH & [= <-]). split; [split; [|done]|].
    + intros Hin. apply list_elem_of_lookup in Hin as [i Hi].
      destruct (Forall2_lookup_l _ _ _ _ _ Hf Hi) as (h & _ & Hh). by apply handle_for_del in Hh as [].
    + constructor; [by exists s|]. eapply Forall2_impl; [exact Hf|]. intros i h Hh.
      by apply handle_for_del in Hh as [].
  - intros [[Hid Hn] Hf]. inversion Hf as [|? h ? more (s' & Hs' & Hh) Hf']; subst.
    rewrite Hg in Hs'. injection Hs' as <-. exists more. split; [|done]. apply IH. split; [done|].
    apply Forall2_same_length_lookup_2; [by eapply Forall2_length|].
    intros i x y Hx Hy. apply handle_for_del. split.
    + intros ->. apply Hid. by eapply list_elem_of_lookup_2.
    + by eapply Forall2_lookup_lr.
Qed.

(** ** Properties *)

Section properties.
Context `{TaskCore}.

(** A list of task ids resolves exactly when no id is repeated and every id is
    the id of a task of the Core; the handles come in the order of the ids and
    carry the task's protocol, binding, trace and correlation, so that an
    operation reaches the tasks it names and no other. *)
Theorem handles_resolved host snapshots ids hs :
  task_snapshots host = Ok snapshots → NoDup (task_id <$> snapshots) →
  resolve_task_handles host ids = Ok hs ↔
  NoDup ids ∧
  Forall2 (λ id h, ∃ s, s ∈ snapshots ∧ task_id s = id ∧ h = handle_of s) ids hs.
Proof.
  intros Hs Hn. unfold resolve_task_handles. rewrite Hs. cbn [map_err rbind].
  rewrite take_handles_spec.
  assert (Hget : ∀ id s, bget (bcollect ((λ s, (task_id s, s)) <$> snapshots)) id = Some s ↔
            s ∈ snapshots ∧ task_id s = id).
  { intros id s. rewrite bget_collect.
    - rewrite list_elem_of_fmap. naive_solver.
    - by rewrite <-list_fmap_compose. }
  assert (Hall : ∀ id h, handle_for (bcollect ((λ s, (task_id s, s)) <$> snapshots)) id h ↔
            ∃ s, s ∈ snapshots ∧ task_id s = id ∧ h = handle_of s).
  { intros id h. unfold handle_for. setoid_rewrite Hget. naive_solver. }
  split; intros [Hnd Hf]; (split; [done|]); (eapply Forall2_impl; [exact Hf|]); intros id h; apply Hall.
Qed.

(** What the answer of a wait means. *)
Definition wait_answer (handles : list TaskHandle) (r : round) (resp : ControlResponse) : Prop :=
  (∃ h states, r_host r = Some h ∧ task_states handles h = Ok states ∧ all_terminal states = true ∧
     resp = task_wait_response states false) ∨
  (∃ h states, (r_host r = Some h ∨ r_after r = Some h) ∧ task_states handles h = Ok states ∧
     resp = task_wait_response states true) ∨
  resp_ok resp = false.

Lemma wait_round_answer deadline handles r resp :
  wait_round deadline handles r = Some resp → wait_answer handles r resp.
Proof.
  unfold wait_round, wait_answer. intros Hr.
  destruct (r_host r) as [h|]; [|injection Hr as <-; by right; right].
  destruct (task_states handles h) as [states|e] eqn:Es; [|injection Hr as <-; by right; right].
  destruct (all_terminal states) eqn:Et; [injection Hr as <-; left; eauto 6|].
  destruct (deadline <=? r_now r)%N; [injection Hr as <-; right; left; eauto 6|].
  destruct (r_next r); [done|]. destruct (r_after r) as [h'|]; [|injection Hr as <-; by right; right].
  destruct (task_states handles h') as [states'|e'] eqn:Es'; injection Hr as <-; [|by right; right].
  right. left. eauto 6.
Qed.

(** C37: a wait answers, and no later than its deadline allows: whatever completes
    or wakes it in between, it has answered by the first round that begins
    after the deadline.  It says that nothing timed out only with the states of
    a round in which every task is terminal; otherwise it gives the states it
    last saw, marked as timed out, or the Core's error. *)
Theorem task_wait_ends fuel ids timeout_ms now rounds h handles k :
  ids ≠ [] → resolve_task_handles h ids = Ok handles →
  (now + timeout_ms ≤ r_now (rounds k))%N → (k < fuel)%nat →
  ∃ i resp, (i ≤ k)%nat ∧
    task_wait fuel ids timeout_ms now rounds (Some h) = Some resp ∧
    wait_answer handles (rounds i) resp ∧
    ∀ j, (j < i)%nat → (r_now (rounds j) < now + timeout_ms)%N.
Proof.
  intros Hids Hres Hk Hfuel. unfold task_wait. destruct ids as [|x ids]; [done|]. rewrite Hres. clear Hids Hres.
  set (deadline := (now + timeout_ms)%N) in *.
  assert (Hend : wait_round deadline handles (rounds k) ≠ None).
  { unfold wait_round. destruct (r_host (rounds k)); [|done]. destruct (task_states _ _); [|done].
    destruct (all_terminal _); [done|]. by destruct (N.leb_spec deadline (r_now (rounds k))); [|lia]. }
  assert (Hgo : ∀ n i, (i + n = k)%nat → ∀ fuel, (n < fuel)%nat →
    ∃ m resp, (i ≤ m ≤ k)%nat ∧ wait_loop fuel deadline handles rounds i = Some resp ∧
      wait_answer handles (rounds m) resp ∧
      ∀ j, (i ≤ j < m)%nat → (r_now (rounds j) < deadline)%N).
  { induction n as [|n IH]; intros i Hi [|fuel'] Hf; try lia; simpl;
      destruct (wait_round deadline handles (rounds i)) as [resp|] eqn:Er;
      try (exists i, resp; split_and!; [lia|lia|done|by eapply wait_round_answer|lia]).
    - replace i with k in Er by lia. done.
    - destruct (IH (S i) ltac:(lia) fuel' ltac:(lia)) as (m & resp & Hm & Hl & Ha & Hj).
      exists m, resp. split_and!; try done; try lia. intros j Hji.
      destruct (decide (j = i)) as [->|Hne]; [|apply Hj; lia].
      unfold wait_round in Er. destruct (r_host (rounds i)); [|done]. destruct (task_states _ _); [|done].
      destruct (all_terminal _); [done|]. by destruct (N.leb_spec deadline (r_now (rounds i))). }
  destruct (Hgo k 0%nat ltac:(lia) fuel Hfuel) as (m & resp & Hm & Hl & Ha & Hj).
  exists m, resp. split_and!; [lia|done|done|]. intros j Hjm. apply Hj. lia.
Qed.

End properties.

(** ** A concrete Core with two tasks, the first of which has completed *)

Module Sample.
Import Plugins.Sample Boot.Sample.

Definition snapshot (id : text) (s : TaskStatus) : HostTaskSnapshot :=
  mkTaskSnapshot id (lit "p") s 0 None 0 0 None None None None None None None [] None None [] None.
Definition snapshots : list HostTaskSnapshot := [snapshot (lit "t1") Completed; snapshot (lit "t2") Ready].

Definition pool : TaskPoolStatistics := mkPoolStatistics 0 0 0 0 0 0 0 0 0 0 0 0 0 0 0.

Definition sample_handle : codec TaskHandle :=
  c_struct (lit "TaskHandle") false
    (req (lit "task_id") c_string &: req (lit "protocol_id") c_string
     &: opt (lit "target_binding_id") c_string &: req (lit "cancel_policy") c_bool
     &: opt (lit "trace_id") c_string &: opt (lit "correlation_id") c_string &: snil)
    (λ '(mkHandle a b c d e f), (a, (b, (c, (d, (e, (f, tt)))))))
    (λ '(a, (b, (c, (d, (e, (f, _)))))), mkHandle a b c d e f).

#[export] Instance sample_tasks : TaskCore := {|
  TaskBatch := list text; batch_is_empty b := match b with [] => true | _ => false end;
  RuntimeEvent := text; event_codec := c_string; handle_codec := sample_handle;
  task_snapshots _ := Ok snapshots;
  task_states hs _ :=
    Ok ((λ h, mkTaskState h
           (task_status <$> List.find (λ s, text_eqb (task_id s) (h_task_id h)) snapshots) None) <$> hs);
  submit_batch b g := (Ok (inl ((λ id, handle_of (snapshot id Ready)) <$> b)), g);
  cancel_task _ g := (Ok tt, g);
  outcome_of _ _ := Ok (inl None);
  begin_drain g := (Ok Draining, g);
  statistics _ := Ok (mkStatistics pool 0 0 0 0 0);
  events_after s l _ := Ok (s, None, s, 0%N, 0%N, false, []);
  host_profile_id _ := lit "default";
  worker_pools _ := Ok ([], Ok (JArray []));
|}.

(** The clock advances by one per round and every round is woken. *)
Definition rounds (i : nat) : round := mkRound (Some 3%N) (N.of_nat i) (Some 0%N) (Some 3%N).
End Sample.

Section witnesses.
Import Plugins.Sample Boot.Sample Tasks.Sample.

Lemma handles_resolved_witness :
  NoDup [lit "t2"] ∧
  Forall2 (λ id h, ∃ s, s ∈ Tasks.Sample.snapshots ∧ task_id s = id ∧ h = handle_of s)
    [lit "t2"] [handle_of (Tasks.Sample.snapshot (lit "t2") Ready)].
Proof.
  assert (Hn : NoDup (task_id <$> Tasks.Sample.snapshots)).
  { repeat constructor; vm_compute; intros Hx; repeat (apply elem_of_cons in Hx as [Hx|Hx]; [discriminate|]);
      by apply not_elem_of_nil in Hx. }
  exact (proj1 (handles_resolved 3%N Tasks.Sample.snapshots [lit "t2"]
    [handle_of (Tasks.Sample.snapshot (lit "t2") Ready)] eq_refl Hn) eq_refl).
Defined.

Lemma task_wait_ends_witness :
  ∃ i resp, (i ≤ 2)%nat ∧
    task_wait 5 [lit "t1"; lit "t2"] 2 0 rounds (Some 3%N) = Some resp ∧
    wait_answer (handle_of <$> Tasks.Sample.snapshots) (rounds i) resp ∧
    ∀ j, (j < i)%nat → (r_now (rounds j) < 0 + 2)%N.
Proof.
  refine (task_wait_ends 5 [lit "t1"; lit "t2"] 2 0 rounds 3%N (handle_of <$> Tasks.Sample.snapshots) 2 _ _ _ _).
  - discriminate.
  - vm_compute. reflexivity.
  - vm_compute. discriminate.
  - lia.
Defined.

End witnesses.
