(* ===== verification/Runtime.v ===== *)
(** * The control handler of the service

    [crates/mutsuki-service-runtime/src/lib.rs], [handle_request] and the
    handlers it dispatches to: the instance of [ControlHandler] that the
    transports serve.  A request is handled in one step; what the environment
    answers meanwhile (clocks, metrics, the file system during a scan, the
    rounds of a wait) is part of the state as [ambient]. *)

From S2P Require Import Prelude Text BTreeMap Value Control ConfigTypes Frame Fs.
From S2P Require Import Plugins Supervisor Catalog Boot Deployment EventSource LogTail Serde Payloads Tasks.

(** ** Parameters

    [serde_json::from_value] for the parameter types, and the version field of
    manifests. *)
Class RequestCodec `{Contracts} {B : Type} : Type := {
  id_param : json → result text text;
  deployment_param : json → result (text * PluginDeploymentKind) text;
  deployment_clear_param : json → result text text;
  ids_param : json → result (list text) text;
  wait_param : json → result (list text * N) text;
  batch_param : json → result B text;
  events_param : json → result (N * N) text;
  tail_param : json → result LogTailParams text;
  manifest_version : PluginManifest → text;
}.
Arguments RequestCodec {_} B.

Section runtime.
Context `{TaskCore} `{!StateCodec} `{Os} `{!RequestCodec TaskBatch}.

(** ** State *)

Record ambient : Type := mkAmbient {
  a_uptime_ms : N; a_pid : N; a_rss : option N; a_cpu : option N;
  a_view : fs_view;
  a_probes : btree json;                   (* what the health probes return *)
  a_now : N;
  a_rounds : nat → round;
  (* time passes: the round by which a deadline is over *)
  a_bound : N → nat;
  a_bound_ok : ∀ deadline, (deadline ≤ r_now (a_rounds (a_bound deadline)))%N;
}.

Record svc : Type := mkSvc {
  s_fixed : fixed; s_inner : inner; s_sources : btree actor;
  s_shutdown_tx : bool;                    (* the sender was not taken yet *)
  s_shutdown : option text;                (* the reason that was sent *)
  s_world : world; s_os : os; s_ambient : ambient;
}.

Definition with_inner (st : inner) (w : world) (o : os) (s : svc) : svc :=
  mkSvc (s_fixed s) st (s_sources s) (s_shutdown_tx s) (s_shutdown s) w o (s_ambient s).
Definition with_runners (rs : btree ManagedRunner) (o : os) (s : svc) : svc :=
  with_inner (mkInner (i_catalog (s_inner s)) (i_host (s_inner s)) rs (i_deployments (s_inner s)))
    (s_world s) o s.
Definition with_host (h : option HostRuntime) (s : svc) : svc :=
  with_inner (mkInner (i_catalog (s_inner s)) h (i_runners (s_inner s)) (i_deployments (s_inner s)))
    (s_world s) (s_os s) s.

Definition config (s : svc) : ServiceConfig := f_config (s_fixed s).
Definition bad_request (message : text) : ControlResponse := response_err (BadRequest message).

(** Decode the parameters or answer with the error. *)
Definition with_param {P} (p : result P text) (s : svc) (f : P → svc * ControlResponse)
    : svc * ControlResponse :=
  match p with Ok p => f p | Err e => (s, bad_request e) end.

(** ** Status *)

Definition service_status (s : svc) : svc * ControlResponse :=
  let '(snapshots, rs, o) := list_ (i_runners (s_inner s)) (s_os s) in
  let s' := with_runners rs o s in
  (s', response_ok
    {| Api.ss_instance_id := instance_id (service (config s)); Api.ss_profile := profile (service (config s));
       Api.ss_uptime_ms := a_uptime_ms (s_ambient s); Api.ss_ipc_endpoint := ipc_endpoint (config s);
       Api.ss_core_running := bool_decide (is_Some (i_host (s_inner s)));
       Api.ss_plugin_count := len (c_records (i_catalog (s_inner s)));
       Api.ss_runner_count := len snapshots |}).

Definition host_metrics (s : svc) : ControlResponse :=
  let a := s_ambient s in
  response_ok (Api.mkHostMetrics (a_pid a) (a_uptime_ms a) (a_rss a) (a_cpu a)).

Definition service_shutdown (s : svc) : svc * ControlResponse :=
  (if s_shutdown_tx s
   then mkSvc (s_fixed s) (s_inner s) (s_sources s) false (Some (lit "control-api")) (s_world s) (s_os s)
          (s_ambient s)
   else s, empty_ok).

Definition core_status (s : svc) : ControlResponse :=
  response_ok
    match i_host (s_inner s) with
    | Some h => Api.mkCoreStatus true (Some (host_profile_id h)) (Some (registry_generation h))
    | None => Api.mkCoreStatus false None None
    end.

(** ** Plugins *)

Definition candidate_status (r : PluginRecord) : PluginCandidateStatus :=
  {| pc_deployment := deployment_name (deployment_for r); pc_version := manifest_version (manifest r);
     pc_api_version := api_version (manifest r); pc_sha256 := artifact_sha256 (manifest r);
     pc_path := manifest_path r; pc_available := true; pc_runner_link := runner_link <$> runtime r |}.

Definition plugin_status (s : svc) (id : text) : PluginStatus :=
  let catalog := i_catalog (s_inner s) in
  {| ps_plugin_id := id;
     ps_configured := List.existsb (λ sel, sel_enabled sel && text_eqb (trim (sel_id sel)) id)
                        (configured (plugins (config s)));
     ps_active_deployment :=
       (λ r, deployment_name (deployment_for r)) <$>
         List.find (λ r, text_eqb (plugin_id (manifest r)) id) (c_records catalog);
     ps_preferred_deployment :=
       deployment_name <$> bget (preferred_plugins (i_deployments (s_inner s))) id;
     ps_candidates :=
       candidate_status <$> List.filter (λ r, text_eqb (plugin_id (manifest r)) id) (c_candidates catalog) |}.

Definition inventory_diagnostic (d : PluginDiagnostic) : PluginInventoryDiagnostic :=
  {| pd_manifest_path := d_manifest_path d; pd_plugin_id := d_plugin_id d;
     pd_deployment := deployment_name <$> d_deployment d; pd_detail := detail d |}.

(** The ids in order, each once. *)
Definition plugin_ids (s : svc) : list text :=
  bkeys (bcollect ((λ id, (id, tt)) <$>
    (((λ sel, trim (sel_id sel)) <$> configured (plugins (config s)))
     ++ ((λ r, plugin_id (manifest r)) <$> c_candidates (i_catalog (s_inner s)))))).

Definition plugin_list (s : svc) : ControlResponse :=
  response_ok (mkPluginList (plugin_status s <$> plugin_ids s)
                 (inventory_diagnostic <$> c_diagnostics (i_catalog (s_inner s)))).

Definition plugin_reload (s : svc) : svc * ControlResponse :=
  let f := s_fixed s in
  match load_catalog_with_state (f_unsupported f) (f_sha256 f) (f_library f) (f_parse f)
          (a_view (s_ambient s)) (config s) (f_builtins f) (i_deployments (s_inner s)) with
  | Err e => (s, failed_with (service_error_text e))
  | Ok catalog =>
      let '(response, st, w, o) := reload_catalog f catalog (s_inner s) (s_world s) (s_os s) in
      (with_inner st w o s, response)
  end.

Definition change_deployment (id : text) (k : option PluginDeploymentKind) (s : svc)
    : svc * ControlResponse :=
  let '(response, st, w, o) :=
    change_plugin_deployment (s_fixed s) (a_view (s_ambient s)) id k (s_inner s) (s_world s) (s_os s) in
  (with_inner st w o s, response).

(** ** Runners and event sources *)

Definition runner_state_text (s : RunnerProcessState) : text :=
  match s with
  | Running => lit "running"
  | Exited code => lit "exited:" ++ show_Z code
  | Supervisor.Failed => lit "failed"
  | Stopped => lit "stopped"
  end.

Definition to_control_runner_status (l : list RunnerSnapshot) : list RunnerStatus :=
  (λ s, {| rs_runner_id := sn_runner_id s; rs_plugin_id := sn_plugin_id s;
           rs_state := runner_state_text (sn_state s); rs_pid := sn_pid s; rs_restarts := sn_restarts s;
           rs_last_error := sn_last_error s |}) <$> l.

Definition runner_list (s : svc) : svc * ControlResponse :=
  let '(snapshots, rs, o) := list_ (i_runners (s_inner s)) (s_os s) in
  (with_runners rs o s, response_ok (to_control_runner_status snapshots)).

Definition runner_answer (r : result unit RunnerSupervisorError) : ControlResponse :=
  match r with Ok _ => empty_ok | Err e => failed_with (supervisor_error_text e) end.

Definition runner_restart (id : text) (s : svc) : svc * ControlResponse :=
  let '(r, rs, o) := restart (s_world s) id (i_runners (s_inner s)) (s_os s) in
  (with_runners rs o s, runner_answer r).

Definition runner_stop (id : text) (s : svc) : svc * ControlResponse :=
  let '(r, rs, o) := stop id (i_runners (s_inner s)) (s_os s) in
  (with_runners rs o s, runner_answer r).

Definition event_source_list (s : svc) : ControlResponse :=
  response_ok (list_sources (s_sources s)).

Definition event_source_restart (id : text) (s : svc) : svc * ControlResponse :=
  let '(r, sources) := restart_source id (s_sources s) in
  (mkSvc (s_fixed s) (s_inner s) sources (s_shutdown_tx s) (s_shutdown s) (s_world s) (s_os s) (s_ambient s),
   match r with Ok _ => empty_ok | Err e => failed_with e end).

(** ** Health *)

Definition label_of (degraded : bool) : text := if degraded then lit "degraded" else lit "ok".

Definition source_unwell (s : EventSourceStatus) : bool :=
  text_eqb (st_state s) (lit "failed") || text_eqb (st_health s) (lit "unhealthy").

Definition health_check (s : svc) : svc * ControlResponse :=
  let '(runners, rs, o) := list_ (i_runners (s_inner s)) (s_os s) in
  let details := list_sources (s_sources s) in
  let runners_degraded := List.existsb (λ r, bool_decide (sn_state r = Supervisor.Failed)) runners in
  let sources_degraded := List.existsb source_unwell details in
  let errors := omap (λ d, (λ e, lit "event_source:" ++ st_source_id d ++ lit ":" ++ e) <$> st_last_error d)
                  details in
  let pools := h ← i_host (s_inner s); match worker_pools h with Ok p => Some p | Err _ => None end in
  let workers_degraded := match pools with Some (degraded, _) => List.existsb id degraded | None => false end in
  let errors := errors ++ (if workers_degraded then [lit "worker_pool:isolation_capacity_exhausted"] else []) in
  let components := bcollect (a_probes (s_ambient s)) in
  let components := match pools with
                    | Some (_, v) =>
                        bset (lit "worker_pools") (match v with Ok v => v | Err _ => JNull end) components
                    | None => components
                    end in
  (with_runners rs o s,
   response_ok
     {| hr_service := lit "ok";
        hr_core := match i_host (s_inner s) with
                   | Some _ => label_of workers_degraded
                   | None => lit "stopped" end;
        hr_plugins := lit "ok"; hr_runners := label_of runners_degraded;
        hr_event_sources := label_of sources_degraded; hr_event_source_details := details;
        hr_recent_errors := errors; hr_components := components |}).

Definition log_tail (p : LogTailParams) (s : svc) : ControlResponse :=
  match read_log_tail (s_world s) (path_join (log_dir (service (config s))) (log_file (observe (config s)))) p with
  | Ok r => response_ok r
  | Err e => response_err e
  end.

(** ** Dispatch *)

Definition wait_fuel (a : ambient) (timeout_ms : N) : nat := S (a_bound a (a_now a + timeout_ms)%N).

Definition handle_task_wait (p : list text * N) (s : svc) : ControlResponse :=
  let a := s_ambient s in
  default core_not_running
    (task_wait (wait_fuel a p.2) p.1 p.2 (a_now a) (a_rounds a) (i_host (s_inner s))).

Definition on_host (r : ControlResponse * option HostRuntime) (s : svc) : svc * ControlResponse :=
  (with_host r.2 s, r.1).

Definition dispatch (m : ControlMethod) (params : json) (s : svc) : svc * ControlResponse :=
  let host := i_host (s_inner s) in
  match m with
  | ServiceStatus => service_status s
  | ServiceShutdown => service_shutdown s
  | CoreStatus => (s, core_status s)
  | PluginList => (s, plugin_list s)
  | PluginReload => plugin_reload s
  | PluginDeploymentSet =>
      with_param (deployment_param params) s (λ p, change_deployment p.1 (Some p.2) s)
  | PluginDeploymentClear =>
      with_param (deployment_clear_param params) s (λ id, change_deployment id None s)
  | RunnerList => runner_list s
  | RunnerRestart => with_param (id_param params) s (λ id, runner_restart id s)
  | RunnerStop => with_param (id_param params) s (λ id, runner_stop id s)
  | EventSourceList => (s, event_source_list s)
  | EventSourceRestart => with_param (id_param params) s (λ id, event_source_restart id s)
  | CoreBeginDrain => on_host (core_begin_drain host) s
  | TaskSubmitBatch => with_param (batch_param params) s (λ b, on_host (task_submit_batch b host) s)
  | TaskList => (s, task_list host)
  | TaskCancel => with_param (id_param params) s (λ id, on_host (task_cancel id host) s)
  | Control.TaskOutcome => with_param (id_param params) s (λ id, (s, task_outcome id host))
  | TaskOutcomesBatch => with_param (ids_param params) s (λ ids, (s, task_outcomes_batch ids host))
  | TaskWait => with_param (wait_param params) s (λ p, (s, handle_task_wait p s))
  | TaskEventsAfter => with_param (events_param params) s (λ p, (s, task_events_after p.1 p.2 host))
  | HealthCheck => health_check s
  | LogTail => with_param (tail_param params) s (λ p, (s, log_tail p s))
  | Control.RuntimeStatistics => (s, runtime_statistics host)
  | HostMetrics => (s, host_metrics s)
  end.

Definition handle_request (request : ControlRequest) (s : svc) : svc * ControlResponse :=
  if negb (text_eqb (req_token request) (f_token (s_fixed s)))
  then (s, response_err Unauthorized)
  else dispatch (req_method request) (req_params request) s.

#[export] Instance RuntimeControl : ControlHandler svc := handle_request.

End runtime.

(** ** Lemmas *)

Section lemmas.
Context `{TaskCore} `{!StateCodec} `{Os} `{!RequestCodec TaskBatch}.

Ltac wf := repeat case_match; simplify_eq/=; eauto with host.

Lemma wf_failed_with m : wf_response (failed_with m).
Proof. apply wf_response_err. Qed.
Lemma wf_core_not_running : wf_response core_not_running.
Proof. apply wf_response_err. Qed.
Lemma wf_bad_request m : wf_response (bad_request m).
Proof. apply wf_response_err. Qed.
Hint Resolve wf_failed_with wf_core_not_running wf_bad_request : host.

Lemma wf_reload f catalog st w o : wf_response (reload_catalog f catalog st w o).1.1.1.
Proof. unfold reload_catalog. wf. all: apply wf_response_err. Qed.

Lemma wf_change f v id k st w o : wf_response (change_plugin_deployment f v id k st w o).1.1.1.
Proof.
  unfold change_plugin_deployment. destruct (negb _); [apply wf_response_err|].
  destruct (load_catalog_with_state _ _ _ _ _ _ _ _) as [c|e]; [|apply wf_response_err].
  destruct (save_deployment_state _ _ w) as [[[]|e] w1]; [|apply wf_response_err].
  pose proof (wf_reload f c st w1 o) as Hr.
  destruct (reload_catalog f c st w1 o) as [[[resp st2] w2] o2]. destruct (resp_ok resp); [done|].
  destruct (save_deployment_state _ _ w2) as [[[]|e] w3]; [done|apply wf_response_err].
Qed.

Lemma wait_round_wf deadline handles r resp : wait_round deadline handles r = Some resp → wf_response resp.
Proof. unfold wait_round, task_wait_response. intros Hr. wf. Qed.

Lemma wait_loop_wf fuel deadline handles rounds i resp :
  wait_loop fuel deadline handles rounds i = Some resp → wf_response resp.
Proof.
  revert i. induction fuel as [|fuel IH]; intros i Hr; simpl in Hr; [done|].
  destruct (wait_round _ _ _) eqn:E; [simplify_eq; by eapply wait_round_wf|eauto].
Qed.

(** The handler's waits answer: the default is never taken. *)
Lemma handle_task_wait_answers p s :
  is_Some (task_wait (wait_fuel (s_ambient s) p.2) p.1 p.2 (a_now (s_ambient s)) (a_rounds (s_ambient s))
             (i_host (s_inner s))).
Proof.
  unfold task_wait. destruct p.1; [eauto|]. destruct (i_host (s_inner s)); [|eauto].
  destruct (resolve_task_handles _ _); [|eauto]. unfold wait_fuel.
  set (deadline := (a_now (s_ambient s) + p.2)%N). set (k := a_bound (s_ambient s) deadline).
  assert (Hgo : ∀ n i, (i + n = k)%nat → is_Some (wait_loop (S n) deadline a (a_rounds (s_ambient s)) i)).
  { induction n as [|n IH]; intros i Hi; simpl; destruct (wait_round _ _ _) eqn:Er; eauto.
    - pose proof (a_bound_ok (s_ambient s) deadline) as Hk. fold k in Hk. replace i with k in Er by lia.
      unfold wait_round in Er. repeat case_match; try done.
      match goal with E : (_ <=? _)%N = false |- _ => apply N.leb_gt in E; lia end.
    - apply IH. lia. }
  by apply Hgo.
Qed.

Lemma wf_change_deployment id k s : wf_response (change_deployment id k s).2.
Proof.
  unfold change_deployment.
  pose proof (wf_change (s_fixed s) (a_view (s_ambient s)) id k (s_inner s) (s_world s) (s_os s)) as Hw.
  by destruct (change_plugin_deployment _ _ _ _ _ _ _) as [[[resp st] w] o].
Qed.

Lemma wf_plugin_reload s : wf_response (plugin_reload s).2.
Proof.
  unfold plugin_reload. destruct (load_catalog_with_state _ _ _ _ _ _ _ _) as [c|e]; [|apply wf_failed_with].
  pose proof (wf_reload (s_fixed s) c (s_inner s) (s_world s) (s_os s)) as Hw.
  by destruct (reload_catalog _ _ _ _ _) as [[[resp st] w] o].
Qed.

Lemma wf_handle_task_wait p s : wf_response (handle_task_wait p s).
Proof.
  unfold handle_task_wait. destruct (task_wait _ _ _ _ _ _) as [resp|] eqn:E; [|apply wf_core_not_running].
  unfold task_wait in E. simpl. repeat case_match; simplify_eq; eauto using wait_loop_wf, wf_response_err.
Qed.
Hint Resolve wf_change_deployment wf_plugin_reload wf_handle_task_wait : host.

Lemma wf_dispatch m params s : wf_response (dispatch m params s).2.
Proof.
  destruct m; cbn [dispatch]; unfold with_param, on_host; try (case_match; [|apply wf_bad_request]);
    auto with host.
  all: unfold service_status, core_status, runner_list, runner_restart, runner_stop, runner_answer,
    event_source_restart, core_begin_drain, task_submit_batch, task_list, task_cancel, task_outcome,
    task_outcomes_batch, task_events_after, runtime_statistics, health_check, log_tail; cbn [fst snd].
  all: wf.
Qed.

#[export] Instance RuntimeControlOk : ControlHandlerOk svc.
Proof.
  intros req s. unfold handle, RuntimeControl, handle_request.
  destruct (negb _); [apply wf_response_err|apply wf_dispatch].
Qed.

(** What a request that only reads may change: the runners are refreshed. *)
Definition only_refreshed (s s' : svc) : Prop :=
  s_fixed s' = s_fixed s ∧ s_sources s' = s_sources s ∧ s_shutdown_tx s' = s_shutdown_tx s ∧
  s_shutdown s' = s_shutdown s ∧ s_world s' = s_world s ∧ s_ambient s' = s_ambient s ∧
  i_catalog (s_inner s') = i_catalog (s_inner s) ∧ i_host (s_inner s') = i_host (s_inner s) ∧
  i_deployments (s_inner s') = i_deployments (s_inner s) ∧
  ((i_runners (s_inner s'), s_os s') = (i_runners (s_inner s), s_os s) ∨
   (i_runners (s_inner s'), s_os s') = refresh_all (i_runners (s_inner s)) (s_os s)).

Lemma only_refreshed_refl s : only_refreshed s s.
Proof. unfold only_refreshed. auto 20. Qed.

Lemma only_refreshed_list s rs o :
  refresh_all (i_runners (s_inner s)) (s_os s) = (rs, o) → only_refreshed s (with_runners rs o s).
Proof. intros Hr. unfold only_refreshed. simpl. rewrite Hr. auto 20. Qed.
Hint Resolve only_refreshed_refl only_refreshed_list : host.

Lemma dispatch_read_only m params s :
  is_mutating m = false → only_refreshed s (dispatch m params s).1.
Proof.
  destruct m; intros Hm; try done; cbn [dispatch]; unfold with_param;
    try (case_match; simpl; auto with host; fail); auto with host.
  all: unfold service_status, runner_list, health_check, list_;
    destruct (refresh_all (i_runners (s_inner s)) (s_os s)) as [rs o] eqn:E; cbn [fst snd]; auto with host.
Qed.

End lemmas.

(** ** Properties *)

Section properties.
Context `{TaskCore} `{!StateCodec} `{Os} `{!RequestCodec TaskBatch}.

(** C1: the control token guards everything, and the methods that are treated as
    reads are reads.  A request with another token is answered with
    "unauthorized" and changes nothing at all; an authorized request whose
    method does not count as mutating, and which is therefore handled without
    the mutation lock, changes no catalog, preference, file, event source, Core
    or shutdown state, it only refreshes the states of the runners; and every
    answer is either a result or an error. *)
Theorem control_authority (request : ControlRequest) (s : svc) :
  let '(s', response) := handle request s in
  wf_response response ∧
  if negb (text_eqb (req_token request) (f_token (s_fixed s)))
  then s' = s ∧ response = response_err Unauthorized
  else if is_mutating (req_method request) then (s', response) = dispatch (req_method request) (req_params request) s
  else only_refreshed s s'.
Proof.
  pose proof (handle_wf request s) as Hw.
  unfold handle, RuntimeControl, handle_request in *.
  destruct (negb _); [done|].
  destruct (is_mutating (req_method request)) eqn:Em.
  - by destruct (dispatch _ _ s).
  - pose proof (dispatch_read_only _ (req_params request) s Em) as Hr. by destruct (dispatch _ _ s).
Qed.

End properties.
