(* ===== verification/Params.v ===== *)
(** * Request parameters

    The parameter types of [crates/mutsuki-service-control/src/lib.rs] with what
    [serde] derives for them: how a JSON value is read into a struct, field by
    field, with defaults, optional fields, unknown fields and the array form.
    The result is the [RequestCodec] of the control handler; the texts of
    [serde_json]'s errors, task batches and deployment kinds are an interface. *)

From S2P Require Import Prelude Text BTreeMap Value Serde Plugins LogTail Runtime.

(** ** The parameter types *)

Definition default_task_wait_timeout_ms : N := 5000.

(** What the crates behind the parameters decode and encode themselves, and the
    [Display] of [serde_json::Error]. *)
Class ParamContracts `{Contracts} {B : Type} : Type := {
  de_kind : decoder PluginDeploymentKind;
  kind_to_value : PluginDeploymentKind → json;
  de_batch : decoder B;
  batch_to_value : B → json;
  de_error_text : de_error → text;
  version_of : PluginManifest → text;
}.
Arguments ParamContracts {_} B.

Class ParamContractsOk `{Contracts} {B : Type} `{!ParamContracts B} : Prop := {
  kind_read k : de_kind (kind_to_value k) = Ok k;
  batch_read b : de_batch (batch_to_value b) = Ok b;
}.
Arguments ParamContractsOk {_} B {_}.

Definition de_id_param : decoder text := λ v,
  rmap fst (de_struct (lit "IdParam") false (fcons (required (lit "id") de_string) fnil) v).

Definition de_deployment_clear_param : decoder text := λ v,
  rmap fst (de_struct (lit "PluginDeploymentClearParam") true (fcons (required (lit "plugin_id") de_string) fnil) v).

Definition de_ids_param : decoder (list text) := λ v,
  rmap fst (de_struct (lit "TaskOutcomesBatchParam") true (fcons (required (lit "ids") (de_seq de_string)) fnil) v).

Definition wait_fields : fields (list text * (N * unit)) :=
  fcons (required (lit "ids") (de_seq de_string))
    (fcons (defaulted (lit "timeout_ms") (de_unsigned (lit "u64")) default_task_wait_timeout_ms) fnil).
Definition de_wait_param : decoder (list text * N) := λ v,
  rmap (λ t, (t.1, t.2.1)) (de_struct (lit "TaskWaitParam") true wait_fields v).

Definition de_events_param : decoder (N * N) := λ v,
  rmap (λ t, (t.1, t.2.1))
    (de_struct (lit "TaskEventsAfterParam") true
       (fcons (required (lit "sequence") (de_unsigned (lit "u64")))
          (fcons (required (lit "limit") (de_unsigned (lit "usize"))) fnil)) v).

Definition de_tail_param : decoder LogTailParams := λ v,
  rmap (λ t, mkTailParams t.1 t.2.1 t.2.2.1)
    (de_struct (lit "LogTailParams") false
       (fcons (optional (lit "cursor") (de_unsigned (lit "u64")))
          (fcons (optional (lit "lines") (de_unsigned (lit "usize")))
             (fcons (defaulted (lit "filters") (de_map de_string) []) fnil))) v).

Section params.
Context `{Contracts} {B : Type} `{!ParamContracts B}.

Definition de_deployment_param : decoder (text * PluginDeploymentKind) := λ v,
  rmap (λ t, (t.1, t.2.1))
    (de_struct (lit "PluginDeploymentParam") true
       (fcons (required (lit "plugin_id") de_string) (fcons (required (lit "deployment") de_kind) fnil)) v).

Definition de_batch_param : decoder B := λ v,
  rmap fst (de_struct (lit "TaskSubmitBatchParam") true (fcons (required (lit "batch") de_batch) fnil) v).

(** The codec of the control handler. *)
#[export] Instance serde_requests : RequestCodec B := {|
  id_param v := map_err de_error_text (de_id_param v);
  deployment_param v := map_err de_error_text (de_deployment_param v);
  deployment_clear_param v := map_err de_error_text (de_deployment_clear_param v);
  ids_param v := map_err de_error_text (de_ids_param v);
  wait_param v := map_err de_error_text (de_wait_param v);
  batch_param v := map_err de_error_text (de_batch_param v);
  events_param v := map_err de_error_text (de_events_param v);
  tail_param v := map_err de_error_text (de_tail_param v);
  manifest_version := version_of;
|}.

(** ** Serialization: what a client sends *)

Inductive request_params : Type :=
| IdParam (id : text)
| PluginDeploymentParam (id : text) (k : PluginDeploymentKind)
| PluginDeploymentClearParam (id : text)
| TaskOutcomesBatchParam (ids : list text)
| TaskWaitParam (ids : list text) (timeout_ms : N)
| TaskSubmitBatchParam (b : B)
| TaskEventsAfterParam (sequence limit : N)
| TailParams (p : LogTailParams).

(** The fields in the order of their declaration. *)
Definition params_entries (p : request_params) : list (text * json) :=
  match p with
  | IdParam id => [(lit "id", JString id)]
  | PluginDeploymentParam id k => [(lit "plugin_id", JString id); (lit "deployment", kind_to_value k)]
  | PluginDeploymentClearParam id => [(lit "plugin_id", JString id)]
  | TaskOutcomesBatchParam ids => [(lit "ids", to_array JString ids)]
  | TaskWaitParam ids ms => [(lit "ids", to_array JString ids); (lit "timeout_ms", jnum ms)]
  | TaskSubmitBatchParam b => [(lit "batch", batch_to_value b)]
  | TaskEventsAfterParam sequence limit => [(lit "sequence", jnum sequence); (lit "limit", jnum limit)]
  | TailParams p =>
      [(lit "cursor", jopt jnum (tail_cursor p)); (lit "lines", jopt jnum (tail_lines p));
       (lit "filters", JObject ((λ e, (e.1, JString e.2)) <$> tail_filters p))]
  end.

Definition params_value (p : request_params) : json := jobj (params_entries p).

(** Reading a value as parameters of the same type. *)
Definition read_as (p : request_params) (v : json) : result request_params text :=
  match p with
  | IdParam _ => rmap IdParam (id_param v)
  | PluginDeploymentParam _ _ => rmap (λ t, PluginDeploymentParam t.1 t.2) (deployment_param v)
  | PluginDeploymentClearParam _ => rmap PluginDeploymentClearParam (deployment_clear_param v)
  | TaskOutcomesBatchParam _ => rmap TaskOutcomesBatchParam (ids_param v)
  | TaskWaitParam _ _ => rmap (λ t, TaskWaitParam t.1 t.2) (wait_param v)
  | TaskSubmitBatchParam _ => rmap TaskSubmitBatchParam (batch_param v)
  | TaskEventsAfterParam _ _ => rmap (λ t, TaskEventsAfterParam t.1 t.2) (events_param v)
  | TailParams _ => rmap TailParams (tail_param v)
  end.

End params.

(** Finds the value of a struct whose fields are written as the entries. *)
Ltac read_field :=
  lazymatch goal with
  | |- f_decode _ _ = Ok _ =>
      first [reflexivity | by apply de_seq_strings | apply de_option_num | apply kind_read | apply batch_read
            | by apply de_map_strings]
  end.
Ltac read_struct :=
  lazymatch goal with
  | |- context [de_struct ?name ?deny ?fs (jobj ?es)] =>
      let Hf := fresh "Hf" in let E1 := fresh "E" in let E2 := fresh "E" in
      eassert (Hf : fits fs _ es) by (repeat (apply fits_cons; [read_field|]); apply fits_nil);
      destruct (fits_decode name deny fs _ es Hf) as [E1 E2];
      [apply (bool_decide_unpack _); vm_compute; exact I|rewrite E1, ?E2; clear Hf E1 E2]
  end.

Lemma strings_inj l k : to_array JString l = to_array JString k → l = k.
Proof.
  intros E. pose proof (proj2 (de_seq_strings l _) eq_refl) as Hl.
  pose proof (proj2 (de_seq_strings k _) eq_refl) as Hk. congruence.
Qed.

(** The two forms of the parameters of a wait. *)
Lemma wait_array l ids ms :
  de_struct (lit "TaskWaitParam") true wait_fields (JArray l) = Ok (ids, (ms, tt)) ↔
  l = [to_array JString ids] ∧ ms = default_task_wait_timeout_ms ∨ l = [to_array JString ids; jnum ms].
Proof.
  unfold wait_fields. cbn [de_struct]. split.
  - destruct l as [|v1 l]; [done|]. simpl. destruct (de_seq de_string v1) as [ids'|e] eqn:E1; simpl; [|done].
    apply de_seq_strings in E1 as ->. destruct l as [|v2 l]; simpl; [naive_solver|].
    destruct (de_unsigned _ v2) as [n|e] eqn:E2; simpl; [|done]. apply de_unsigned_num in E2 as ->.
    destruct l; simpl; [|done]. naive_solver.
  - intros [[-> ->]| ->]; simpl; unfold to_array; simpl;
      by rewrite (proj2 (collect_results_ok _ ids)) by (by rewrite <-list_fmap_compose).
Qed.

Lemma wait_object m ids ms :
  NoDup m.*1 →
  de_struct (lit "TaskWaitParam") true wait_fields (JObject m) = Ok (ids, (ms, tt)) ↔
  Forall (λ k, k = lit "ids" ∨ k = lit "timeout_ms") m.*1 ∧
  bget m (lit "ids") = Some (to_array JString ids) ∧
  match bget m (lit "timeout_ms") with Some w => w = jnum ms | None => ms = default_task_wait_timeout_ms end.
Proof.
  intros Hn. cbn [de_struct].
  assert (Hmap : from_map wait_fields m = Ok (ids, (ms, tt)) ↔
    bget m (lit "ids") = Some (to_array JString ids) ∧
    match bget m (lit "timeout_ms") with Some w => w = jnum ms | None => ms = default_task_wait_timeout_ms end).
  { cbn [from_map wait_fields fcons f_name f_decode f_missing required defaulted fnil].
    destruct (bget m (lit "ids")) as [v|]; [|naive_solver].
    destruct (de_seq de_string v) as [ids'|e] eqn:E1; cbn [rbind].
    2: { split; [done|]. intros [[= ->] _]. by rewrite (proj2 (de_seq_strings ids _) eq_refl) in E1. }
    apply de_seq_strings in E1 as ->.
    destruct (bget m (lit "timeout_ms")) as [w|]; cbn [rbind].
    - destruct (de_unsigned _ w) as [n|e] eqn:E2; cbn [rbind].
      + apply de_unsigned_num in E2 as ->. split; [naive_solver|]. intros [Hi%(inj Some)%strings_inj [= ->]]. by subst.
      + split; [done|]. by intros [_ ->].
    - split; [naive_solver|]. intros [Hi%(inj Some)%strings_inj ->]. by subst. }
  rewrite <-Hmap. split.
  - destruct (check_entries true wait_fields m) as [[]|e] eqn:Ec; [|done]. cbn [rbind]. intros Hm. split; [|done].
    apply strict_names in Ec. apply Forall_fmap. eapply Forall_impl; [exact Ec|].
    intros [k v] [Hk _]. simpl in *. apply elem_of_cons in Hk as [->|Hk]; [by left|right]. set_solver.
  - intros [Hk Hm]. rewrite strict_names_2; [exact Hm|]. apply Forall_forall. intros [k v] Hin.
    pose proof (bget_nodup_elem m k v Hn Hin) as Hg. apply Hmap in Hm as [Hi Ht].
    apply Forall_fmap in Hk. rewrite Forall_forall in Hk. specialize (Hk _ Hin). simpl in Hk |- *.
    destruct Hk as [-> | ->].
    + split; [set_solver|]. rewrite Hi in Hg. injection Hg as <-.
      rewrite text_eqb_refl. by rewrite (proj2 (de_seq_strings ids _) eq_refl).
    + split; [set_solver|]. rewrite Hg in Ht. subst v.
      by rewrite text_eqb_neq, text_eqb_refl by done.
Qed.

(** ** Properties *)

Section properties.
Context `{Contracts} {B : Type} `{!ParamContracts B} `{!ParamContractsOk B}.

(** C35: parameters survive the wire: whatever a client serializes, the handler
    reads the same parameters, and it also reads the array of their fields. *)
Theorem params_roundtrip (p : request_params) :
  (∀ t, p = TailParams t → bsorted (tail_filters t)) →
  read_as p (params_value p) = Ok p ∧ read_as p (JArray (params_entries p).*2) = Ok p.
Proof.
  intros Hs. destruct p; [..|specialize (Hs p eq_refl)]; unfold params_value, read_as;
    cbn [params_entries id_param deployment_param deployment_clear_param ids_param wait_param batch_param
      events_param tail_param serde_requests].
  all: unfold de_id_param, de_deployment_param, de_deployment_clear_param, de_ids_param, de_wait_param,
    de_batch_param, de_events_param, de_tail_param, wait_fields; read_struct.
  all: try done.
  by destruct p.
Qed.

(** Which values are the parameters of a wait: an object with the ids and
    at most the timeout next to them, which is five seconds when it is missing,
    or an array of the two, and nothing else. *)
Theorem wait_params_accepted (v : json) ids ms :
  (∀ m, v = JObject m → NoDup m.*1) →
  wait_param v = Ok (ids, ms) ↔
  (∃ m, v = JObject m ∧ Forall (λ k, k = lit "ids" ∨ k = lit "timeout_ms") m.*1 ∧
     bget m (lit "ids") = Some (to_array JString ids) ∧
     match bget m (lit "timeout_ms") with Some w => w = jnum ms | None => ms = 5000%N end) ∨
  v = JArray [to_array JString ids] ∧ ms = 5000%N ∨
  v = JArray [to_array JString ids; jnum ms].
Proof.
  intros Hdup. cbn [wait_param serde_requests]. transitivity (de_wait_param v = Ok (ids, ms)).
  { destruct (de_wait_param v); simpl; naive_solver. }
  transitivity (de_struct (lit "TaskWaitParam") true wait_fields v = Ok (ids, (ms, tt))).
  { unfold de_wait_param. destruct (de_struct _ _ _ v) as [[a [b []]]|e]; simpl; naive_solver. }
  destruct v as [| | | |l|m]; try (simpl; naive_solver).
  - rewrite wait_array. naive_solver.
  - rewrite wait_object by auto. naive_solver.
Qed.

End properties.

(** ** Witnesses *)

Module Sample.
Import Plugins.Sample.

#[export] Instance sample_params : ParamContracts text := {|
  de_kind v :=
    match v with
    | JString s =>
        if text_eqb s (lit "Builtin") then Ok KBuiltin
        else if text_eqb s (lit "Abi") then Ok KAbi
        else if text_eqb s (lit "Process") then Ok KProcess
        else Err (Custom (lit "unknown variant"))
    | _ => Err (InvalidType v (lit "a variant"))
    end;
  kind_to_value k := JString (deployment_debug k);
  de_batch := de_string; batch_to_value := JString;
  de_error_text e := match e with MissingField f => lit "missing field `" ++ f ++ lit "`" | _ => lit "invalid" end;
  version_of _ := lit "1";
|}.

#[export] Instance sample_params_ok : ParamContractsOk text.
Proof. split; [by intros []|done]. Qed.

Definition tail_request : @request_params sample_contracts text :=
  TailParams (mkTailParams (Some 7%N) None [(lit "level", lit "warn"); (lit "target", lit "core")]).

End Sample.

Import Plugins.Sample Sample.

Lemma params_roundtrip_witness : read_as tail_request (params_value tail_request) = Ok tail_request.
Proof.
  apply (params_roundtrip tail_request). intros t [= <-]. simpl. repeat constructor.
Defined.

Lemma wait_params_accepted_witness :
  wait_param (JObject [(lit "ids", JArray [JString (lit "t1")])]) = Ok ([lit "t1"], 5000%N).
Proof.
  apply (wait_params_accepted (JObject [(lit "ids", JArray [JString (lit "t1")])]) [lit "t1"] 5000%N).
  - intros m [= <-]. repeat constructor. set_solver.
  - left. exists [(lit "ids", JArray [JString (lit "t1")])]. repeat split. repeat constructor.
Defined.

(** The parameters of the other methods refuse a misspelled field; an id
    parameter skips it. *)
Lemma id_param_lenient :
  id_param (JObject [(lit "id", JString (lit "r1")); (lit "idd", JNull)]) = Ok (lit "r1") ∧
  deployment_clear_param (JObject [(lit "idd", JNull); (lit "plugin_id", JString (lit "p"))]) = Err (lit "invalid").
Proof. by vm_compute. Qed.
