(* ===== verification/Lifecycle.v ===== *)
(** * The life of the service

    [crates/mutsuki-service-runtime/src/lib.rs]: [ServiceRuntimeBuilder], the
    boot of the Core, [start], and [run_until_shutdown_signal] and [shutdown].
    What the control handler does in between is [Runtime]; a service is its
    state together with the servers in front of it. *)

From S2P Require Import Prelude Text BTreeMap Value Control ConfigTypes Frame Fs Secrets Transport.
From S2P Require Import Plugins Supervisor Catalog Boot Deployment EventSource LogTail Tasks Runtime.

(** ** Booting the Core *)

(** The fields of [HostRuntimeConfig] that the service sets. *)
Record HostRuntimeConfig {Executor : Type} : Type := mkHostConfig {
  event_driven : bool; host_worker_threads : N; host_blocking_threads : N; host_queue_limit : N;
  host_inflight_bytes : N; host_isolated_workers : N; wall_clock_deadline : option N;
  cancel_grace_period : option N; worker_health_timeout : option N; async_executor : option Executor;
}.
Arguments HostRuntimeConfig : clear implicits.

Class HostBoot `{CoreRuntime} : Type := {
  Executor : Type;
  (* [TokioAsyncExecutor::new]: threads, ready and pending limits, bytes *)
  new_executor : N → N → N → N → result Executor text;
  into_host_runtime : RuntimeBootstrapper → RuntimeProfile → HostRuntimeConfig Executor →
    result HostRuntime text;
}.

Section boot.
Context `{HostBoot}.

Definition host_config (c : ServiceConfig) (available : option N)
    : ServiceRuntimeResult (HostRuntimeConfig Executor) :=
  let s := worker_pool_settings (core c) available in
  let? executor := map_err Core
    (new_executor (clamp 1 4 (compute_threads s)) (queue_capacity s) (queue_capacity s)
       (max_inflight_bytes s)) in
  Ok (mkHostConfig Executor true (compute_threads s) (pool_blocking_threads s) (queue_capacity s)
        (max_inflight_bytes s) (pool_max_isolated_workers s) (runner_wall_clock_timeout_ms (core c))
        (cancel_grace_period_ms (core c)) (worker_health_timeout_ms (core c)) (Some executor)).

Definition boot_core (c : ServiceConfig) (available : option N) (w : world) (catalog : PluginCatalog)
    (fs : Factories) : ServiceRuntimeResult HostRuntime * world :=
  let booted :=
    let? booted := runtime_bootstrapper c w catalog fs in
    let '(bootstrapper, profile) := booted in
    let? hc := host_config c available in
    let? lock := map_err Core (resolve_load_plan (manifest <$> c_records catalog) profile) in
    let? runtime := map_err Core (into_host_runtime bootstrapper profile hc) in
    Ok (runtime, lock) in
  match booted with
  | Err e => (Err e, w)
  | Ok (runtime, lock) =>
      match write_runtime_lock c lock w with
      | (Err e, w) => (Err e, w)
      | (Ok _, w) => (Ok runtime, w)
      end
  end.

End boot.

(** ** The builder *)

Section builder.
Context `{CoreRuntime}.

(** What the product registers; a health probe is what calling it returns.  The
    catalog of configured plugins is an argument of [start]. *)
Record ServiceRuntimeBuilder : Type := mkBuilder {
  b_config : ServiceConfig;
  builtin_registry : btree PluginManifest;
  b_factories : Factories;
  health_probes : btree json;
  event_sources : list HostEventSourceDescriptor;
}.

Definition builder_new (c : ServiceConfig)
    (abi : PluginRecord → json → ServiceRuntimeResult LoadedPlugin) : ServiceRuntimeBuilder :=
  mkBuilder c [] (mkFactories [] [] [] abi) [] [].

Definition set_factories (f : Factories) (b : ServiceRuntimeBuilder) : ServiceRuntimeBuilder :=
  mkBuilder (b_config b) (builtin_registry b) f (health_probes b) (event_sources b).

Definition register_builtin_plugin (m : PluginManifest) (b : ServiceRuntimeBuilder)
    : ServiceRuntimeBuilder :=
  mkBuilder (b_config b) (register_manifest m (builtin_registry b)) (b_factories b) (health_probes b)
    (event_sources b).

(** [register_fallible_builtin_runner]. *)
Definition register_native_runner (f : result Runner text) (b : ServiceRuntimeBuilder)
    : ServiceRuntimeBuilder :=
  let fs := b_factories b in
  set_factories (mkFactories (native_runner_factories fs ++ [f]) (async_handler_factories fs)
    (loaded_plugin_factories fs) (load_abi_plugin fs)) b.

Definition register_builtin_async_handler (f : result AsyncHandler text) (b : ServiceRuntimeBuilder)
    : ServiceRuntimeBuilder :=
  let fs := b_factories b in
  set_factories (mkFactories (native_runner_factories fs) (async_handler_factories fs ++ [f])
    (loaded_plugin_factories fs) (load_abi_plugin fs)) b.

Definition register_builtin_loaded_plugin_factory (m : PluginManifest) (f : result LoadedPlugin text)
    (b : ServiceRuntimeBuilder) : ServiceRuntimeBuilder :=
  let fs := b_factories b in
  set_factories (mkFactories (native_runner_factories fs) (async_handler_factories fs)
    (bset (plugin_id m) f (loaded_plugin_factories fs)) (load_abi_plugin fs))
    (register_builtin_plugin m b).

(** The other registrations wrap their factory; the client that is bound when the
    Core has booted serves nested tasks and resources. *)
Definition register_builtin_runner (f : Runner) (b : ServiceRuntimeBuilder) : ServiceRuntimeBuilder :=
  register_native_runner (Ok f) b.
Definition register_infallible_async_handler (f : AsyncHandler) (b : ServiceRuntimeBuilder)
    : ServiceRuntimeBuilder :=
  register_builtin_async_handler (Ok f) b.
Definition register_runtime_client_runner {Client} (client : Client) (f : Client → Runner)
    (b : ServiceRuntimeBuilder) : ServiceRuntimeBuilder :=
  register_native_runner (Ok (f client)) b.
Definition register_runtime_services_runner {Client} (services : Client) (f : Client → Client → Runner)
    (b : ServiceRuntimeBuilder) : ServiceRuntimeBuilder :=
  register_native_runner (Ok (f services services)) b.
Definition register_fallible_runtime_services_runner {Client} (services : Client)
    (f : Client → Client → result Runner text) (b : ServiceRuntimeBuilder) : ServiceRuntimeBuilder :=
  register_native_runner (f services services) b.

Definition register_health_probe (id : text) (v : json) (b : ServiceRuntimeBuilder)
    : ServiceRuntimeBuilder :=
  mkBuilder (b_config b) (builtin_registry b) (b_factories b) (bset id v (health_probes b))
    (event_sources b).

Definition register_event_source (d : HostEventSourceDescriptor) (b : ServiceRuntimeBuilder)
    : ServiceRuntimeBuilder :=
  mkBuilder (b_config b) (builtin_registry b) (b_factories b) (health_probes b) (event_sources b ++ [d]).

End builder.

(** ** Start *)

Section lifecycle.
Context `{HostBoot} `{!TaskCore} `{!StateCodec} `{Os} `{!RequestCodec TaskBatch}.

Abbreviation catalog_of_factories := (btree (@ConfiguredPluginFactory ServiceRuntimeBuilder)).

(** What the host answers while the service starts: processors, the directory
    scan, the secrets, the clock, the link endpoint; and what later requests
    find in their surroundings. *)
Record surroundings : Type := mkSurroundings {
  available : option N;
  scan_view : fs_view;
  store : SecretStore;
  now : option N;
  link_start : result unit text;
  unsupported : option text * option text → text;
  sha256_ : list byte → text;
  library : text;
  parse_toml : text → result PluginToml text;
  later : btree json → ambient;               (* given the health probes *)
}.

Record ServiceRuntime : Type := mkService {
  state_ : svc;
  ipc_server : option IpcServer;
  link_control_server : bool;
  sockets_ : net;
}.

(** [start_supervised_sidecars]: errors are logged. *)
Fixpoint start_supervised_sidecars (w : world) (specs : list ManagedRunnerSpec)
    (rs : btree ManagedRunner) (o : os) : btree ManagedRunner * os :=
  match specs with
  | [] => (rs, o)
  | s :: specs =>
      let '(_, rs, o) := Supervisor.start w s rs o in start_supervised_sidecars w specs rs o
  end.

(** [drop] of [ServiceRuntimeInner]: the handles of the children are dropped. *)
Definition drop_runners (rs : btree ManagedRunner) (o : os) : os :=
  fold_left (λ o r, drop_child (child r) o) (bvalues rs) o.

Definition start_sources (now : option N) (ds : list HostEventSourceDescriptor) : sources :=
  fold_left (λ s d, start_source d now s) ds [].

(** Everything before the Core boots. *)
Definition prepare_start (x : surroundings) (catalog : catalog_of_factories) (b : ServiceRuntimeBuilder)
    (w : world)
    : ServiceRuntimeResult (ServiceRuntimeBuilder * PluginDeploymentState * PluginCatalog) :=
  let? b := install_configured_plugins (configured (plugins (b_config b))) catalog b in
  let c := b_config b in
  let? _ := validate_event_sources (secret_env_prefix (security c)) (store x) w (event_sources b) in
  let? deployments := load_deployment_state c w in
  let? plugins := load_catalog_with_state (unsupported x) (sha256_ x) (library x) (parse_toml x)
    (scan_view x) c (builtin_registry b) deployments in
  Ok (b, deployments, plugins).

(** [ServiceRuntimeBuilder::start], until the servers. *)
Definition start_inner (x : surroundings) (catalog : catalog_of_factories) (b : ServiceRuntimeBuilder)
    (w : world) (o : os) : ServiceRuntimeResult svc * world * os :=
  match prepare_start x catalog b w with
  | Err e => (Err e, w, o)
  | Ok (b, deployments, plugins) =>
      let c := b_config b in
      match boot_core c (available x) w plugins (b_factories b) with
      | (Err e, w) => (Err e, w, o)
      | (Ok host, w) =>
          let token := config_token c in
          let '(rs, o) := start_supervised_sidecars w (sidecar_specs c token plugins) Supervisor.new o in
          let f := mkFixed c token (builtin_registry b) (b_factories b) (unsupported x) (sha256_ x)
                     (library x) (parse_toml x) in
          (Ok (mkSvc f (mkInner plugins (Some host) rs deployments)
                 (start_sources (now x) (event_sources b)) true None w o (later x (health_probes b))),
           w, o)
      end
  end.

(** The servers come after the inner state, and an event source only starts
    when they run; until then no request can observe [s_sources]. *)
Definition start (x : surroundings) (catalog : catalog_of_factories) (b : ServiceRuntimeBuilder)
    (w : world) (o : os) (n : net) : ServiceRuntimeResult ServiceRuntime * world * os * net :=
  match start_inner x catalog b w o with
  | (Err e, w, o) => (Err e, w, o, n)
  | (Ok s, w, o) =>
      let c := config s in
      match start_server c w n with
      | (Err e, w, n) => (Err (Ipc e), w, drop_runners (i_runners (s_inner s)) o, n)
      | (Ok server, w, n) =>
          let with_w := mkSvc (s_fixed s) (s_inner s) (s_sources s) true None w o (s_ambient s) in
          if ipc_enabled (ipc c) then
            match link_start x with
            | Err e => (Err (LinkControl e), w, drop_runners (i_runners (s_inner s)) o, n)
            | Ok _ => (Ok (mkService with_w server true n), w, o, n)
            end
          else (Ok (mkService with_w server false n), w, o, n)
      end
  end.

(** ** Shutdown *)

(** What is left after [shutdown]: the actors that were told to end, and the
    accept loop. *)
Record remains : Type := mkRemains {
  r_state : svc; r_actors : list actor; r_listener : option listener; r_sockets : net;
}.

(** The accept loop ends at once in [shutdown] and in [abort]. *)
Definition end_server (s : ServiceRuntime) : option listener * world * net :=
  match ipc_server s with
  | Some server =>
      let '(l, w, n) := shutdown_server server (s_world (state_ s)) (sockets_ s) in (Some l, w, n)
  | None => (None, s_world (state_ s), sockets_ s)
  end.

Definition shutdown_service (s : ServiceRuntime) : remains :=
  let st := state_ s in
  let '(l, w, n) := end_server s in
  let '(sources, actors) := shutdown_sources (s_sources st) in
  let graceful := graceful_shutdown_ms (runners (config st)) in
  let '(rs, o) := Supervisor.shutdown graceful (i_runners (s_inner st)) (s_os st) in
  mkRemains
    (mkSvc (s_fixed st) (mkInner (i_catalog (s_inner st)) None rs (i_deployments (s_inner st))) sources
       (s_shutdown_tx st) (s_shutdown st) w o (s_ambient st))
    actors l n.

(** [drop] of [ServiceRuntime], when no connection shares its inner state any
    more: the fields of [ServiceRuntimeInner] are dropped with it. *)
Definition drop_service (s : ServiceRuntime) : remains :=
  let st := state_ s in
  let '(l, w, n) := end_server s in
  let '(sources, actors) := abort_sources (s_sources st) in
  mkRemains
    (mkSvc (s_fixed st) (mkInner (i_catalog (s_inner st)) None [] (i_deployments (s_inner st))) sources
       (s_shutdown_tx st) (s_shutdown st) w (drop_runners (i_runners (s_inner st)) (s_os st)) (s_ambient st))
    actors l n.

(** [run_until_shutdown_signal] at a point where it is polled: it goes on when
    a reason was sent on the channel or the signal arrived. *)
Definition run_until_shutdown_signal (signal : option text) (s : ServiceRuntime) : option remains :=
  match s_shutdown (state_ s), signal with
  | None, None => None
  | _, _ => Some (shutdown_service s)
  end.

(** Requests that the control handler serves one after the other. *)
Definition serve (requests : list ControlRequest) (s : ServiceRuntime) : ServiceRuntime :=
  mkService (fold_left (λ st r, (handle r st).1) requests (state_ s)) (ipc_server s)
    (link_control_server s) (sockets_ s).

End lifecycle.

(** ** Lemmas *)

Section lemmas.
Context `{HostBoot} `{!TaskCore} `{!StateCodec} `{OsOk} `{!RequestCodec TaskBatch}.

Lemma perform_reach c rs o0 o rs' o' :
  reachable rs o0 o → perform c (rs, o) = (rs', o') → reachable rs' o0 o'.
Proof.
  intros [cs Hcs] Hp. exists (cs ++ [c]). unfold perform_all in *. by rewrite fold_left_app, Hcs.
Qed.

Lemma reach_start w s rs o0 o r rs' o' :
  reachable rs o0 o → Supervisor.start w s rs o = (r, rs', o') → reachable rs' o0 o'.
Proof. intros Hr Hs. apply (perform_reach (CStart w s) rs o0 o); [done|]. simpl. by rewrite Hs. Qed.

Lemma reach_refresh rs o0 o rs' o' :
  reachable rs o0 o → refresh_all rs o = (rs', o') → reachable rs' o0 o'.
Proof. intros Hr Hs. apply (perform_reach CList rs o0 o); [done|]. simpl. unfold list_. by rewrite Hs. Qed.

Lemma reach_restart w id rs o0 o r rs' o' :
  reachable rs o0 o → restart w id rs o = (r, rs', o') → reachable rs' o0 o'.
Proof. intros Hr Hs. apply (perform_reach (CRestart w id) rs o0 o); [done|]. simpl. by rewrite Hs. Qed.

Lemma reach_stop id rs o0 o r rs' o' :
  reachable rs o0 o → stop id rs o = (r, rs', o') → reachable rs' o0 o'.
Proof. intros Hr Hs. apply (perform_reach (CStop id) rs o0 o); [done|]. simpl. by rewrite Hs. Qed.

Lemma reach_reconcile w desired graceful rs o0 o es rs' o' :
  reachable rs o0 o → reconcile w desired graceful rs o = (es, rs', o') → reachable rs' o0 o'.
Proof.
  intros Hr Hs. apply (perform_reach (CReconcile w desired graceful) rs o0 o); [done|].
  simpl. by rewrite Hs.
Qed.

Lemma reach_sidecars w specs rs o0 o rs' o' :
  reachable rs o0 o → start_supervised_sidecars w specs rs o = (rs', o') → reachable rs' o0 o'.
Proof.
  revert rs o. induction specs as [|s specs IH]; intros rs o Hr Hs; simpl in Hs; [by simplify_eq|].
  destruct (Supervisor.start w s rs o) as [[r rs1] o1] eqn:E. eauto using reach_start.
Qed.

(** ** Requests keep track of the processes *)

Definition tracks (o0 : os) (s : svc) : Prop := reachable (i_runners (s_inner s)) o0 (s_os s).

Lemma reach_reload f catalog st w o o0 r st' w' o' :
  reachable (i_runners st) o0 o → reload_catalog f catalog st w o = (r, st', w', o') →
  reachable (i_runners st') o0 o'.
Proof.
  intros Hr. unfold reload_catalog, reconcile_supervised_sidecars.
  destruct (i_host st); [|intros; by simplify_eq].
  destruct (prepare_catalog _ _ _ _) as [[prepared lock]|e]; [|intros; by simplify_eq].
  destruct (write_runtime_lock _ _ _) as [[[]|e] w1]; [|intros; by simplify_eq].
  destruct (core_reload _ _ _) as [[decision|e] host].
  - destruct (reconcile _ _ _ _ _) as [[es rs] o1] eqn:E. intros. simplify_eq. simpl.
    by eapply reach_reconcile.
  - destruct (restore_runtime_lock _ _ _) as [restored w2]. intros. by simplify_eq.
Qed.

Lemma reach_change f v id k st w o o0 r st' w' o' :
  reachable (i_runners st) o0 o →
  change_plugin_deployment f v id k st w o = (r, st', w', o') → reachable (i_runners st') o0 o'.
Proof.
  intros Hr. unfold change_plugin_deployment. destruct (negb _); [intros; by simplify_eq|].
  destruct (load_catalog_with_state _ _ _ _ _ _ _ _) as [c|e]; [|intros; by simplify_eq].
  destruct (save_deployment_state _ _ w) as [[[]|e] w1]; [|intros; by simplify_eq].
  destruct (reload_catalog f c st w1 o) as [[[resp st2] w2] o2] eqn:E.
  pose proof (reach_reload _ _ _ _ _ _ _ _ _ _ Hr E) as Hr2.
  destruct (resp_ok resp); [intros; by simplify_eq|].
  destruct (save_deployment_state _ _ w2) as [[[]|e] w3]; intros; by simplify_eq.
Qed.

Lemma dispatch_tracks o0 m params s : tracks o0 s → tracks o0 (dispatch m params s).1.
Proof.
  intros Ht. destruct (is_mutating m) eqn:Em.
  - unfold tracks in *. destruct m; try done; cbn [dispatch]; unfold with_param, on_host;
      repeat case_match; simpl; try done;
      unfold service_shutdown, plugin_reload, change_deployment, runner_restart, runner_stop,
        event_source_restart; repeat case_match; simplify_eq/=;
      eauto using reach_reload, reach_change, reach_restart, reach_stop.
  - destruct (dispatch_read_only m params s Em) as (_ & _ & _ & _ & _ & _ & _ & _ & _ & [Hr|Hr]);
      unfold tracks; [by injection Hr as -> ->|].
    symmetry in Hr. eauto using reach_refresh.
Qed.

Lemma handle_tracks o0 r s : tracks o0 s → tracks o0 (handle r s).1.
Proof.
  intros Ht. unfold handle, RuntimeControl, handle_request.
  destruct (negb _); [done|by apply dispatch_tracks].
Qed.

(** ** The shutdown channel *)

Definition asks_stop (token : text) (r : ControlRequest) : bool :=
  text_eqb (req_token r) token && bool_decide (req_method r = ServiceShutdown).

Lemma handle_fixed r s : s_fixed (handle r s).1 = s_fixed s.
Proof.
  unfold handle, RuntimeControl, handle_request. destruct (negb _); [done|].
  destruct (req_method r); cbn [dispatch]; unfold with_param, on_host; repeat case_match; try done;
    unfold service_status, service_shutdown, plugin_reload, change_deployment, runner_list,
      runner_restart, runner_stop, event_source_restart, health_check; by repeat case_match.
Qed.

Lemma handle_channel r s :
  let s' := (handle r s).1 in
  if asks_stop (f_token (s_fixed s)) r
  then s_shutdown_tx s' = false ∧
       s_shutdown s' = (if s_shutdown_tx s then Some (lit "control-api") else s_shutdown s)
  else s_shutdown_tx s' = s_shutdown_tx s ∧ s_shutdown s' = s_shutdown s.
Proof.
  unfold handle, RuntimeControl, handle_request, asks_stop.
  destruct (text_eqb _ _); [|done]. cbn [negb andb].
  destruct (req_method r); cbn [dispatch bool_decide]; unfold with_param, on_host; simpl;
    repeat case_match; try done;
    unfold service_status, service_shutdown, plugin_reload, change_deployment, runner_list,
      runner_restart, runner_stop, event_source_restart, health_check in *;
    repeat case_match; simplify_eq/=; done.
Qed.

(** The sender is there until a reason was sent. *)
Definition channel_ok (s : svc) : Prop := s_shutdown_tx s = bool_decide (s_shutdown s = None).

Lemma serve_channel rs s :
  channel_ok s →
  let s' := fold_left (λ st r, (handle r st).1) rs s in
  channel_ok s' ∧ s_fixed s' = s_fixed s ∧
  (s_shutdown s' = None ↔ s_shutdown s = None ∧ Forall (λ r, asks_stop (f_token (s_fixed s)) r = false) rs).
Proof.
  revert s. induction rs as [|r rs IH]; intros s Hc; simpl; [by split_and!; [..|split; [|intros []]]|].
  pose proof (handle_channel r s) as Hr. simpl in Hr. pose proof (handle_fixed r s) as Hf.
  assert (Hc' : channel_ok (handle r s).1 ∧
    (s_shutdown (handle r s).1 = None ↔
     s_shutdown s = None ∧ asks_stop (f_token (s_fixed s)) r = false)).
  { unfold channel_ok in *. destruct (asks_stop _ r); destruct Hr as [-> ->].
    - destruct (s_shutdown_tx s); [by split; [|split; [|intros []]]|].
      symmetry in Hc. apply bool_decide_eq_false in Hc.
      split; [by rewrite bool_decide_false|]. split; [done|by intros []].
    - split; [done|]. split; [done|by intros []]. }
  destruct Hc' as [Hc1 Hi]. destruct (IH _ Hc1) as (H1' & H2' & H3'). rewrite Hf in *.
  split_and!; [done|done|]. rewrite H3', Hi, Forall_cons. tauto.
Qed.

Lemma serve_tracks o0 rs s :
  tracks o0 s → tracks o0 (fold_left (λ st r, (handle r st).1) rs s).
Proof. revert s. induction rs as [|r rs IH]; intros s Ht; [done|]. apply IH. by apply handle_tracks. Qed.

(** ** Dropping what a failed start leaves *)

Lemma drop_runners_quiet rs o : quiet o (drop_runners rs o).
Proof.
  unfold drop_runners. generalize (bvalues rs) as l. clear rs. intros l. revert o.
  induction l as [|r l IH]; intros o; [by apply quiet_refl|]. simpl.
  eapply quiet_trans; [|apply IH]. unfold drop_child. destruct (child r); [apply drop_quiet|apply quiet_refl].
Qed.

Lemma drop_runners_kills rs o id r c :
  bget rs id = Some r → child r = Some c → alive (drop_runners rs o) c → refuses c.
Proof.
  intros Hg Hc. apply bget_elem in Hg. assert (Hin : r ∈ bvalues rs) by (apply list_elem_of_fmap; by exists (id, r)).
  unfold drop_runners. revert o Hin. generalize (bvalues rs) as l. clear rs Hg.
  induction l as [|r' l IH]; intros o Hin Ha; [by apply not_elem_of_nil in Hin|].
  simpl in Ha. apply elem_of_cons in Hin as [<-|Hin]; [|by eapply IH].
  unfold drop_child in Ha. rewrite Hc in Ha. apply (drop_kills c o).
  pose proof (drop_runners_quiet ((λ x, ([], x)) <$> l) (os_drop c o)) as [Hq _].
  apply Hq. unfold drop_runners, bvalues. rewrite <-list_fmap_compose. simpl.
  by rewrite list_fmap_id.
Qed.

Lemma dropped_all rs o0 o c :
  reachable rs o0 o → alive (drop_runners rs o) c → ¬ known o0 c → refuses c.
Proof.
  intros [cs Hcs] Ha Hk. assert (Ho : owned_ok (known o0) rs o).
  { eapply perform_all_owned; [|exact Hcs]. by apply owned_new. }
  assert (Ha0 : alive o c) by (by apply drop_runners_quiet in Ha).
  destruct (own_covered _ _ _ Ho c Ha0) as [|[|(i & r & Hi & Hr)]]; [done..|].
  by eapply drop_runners_kills.
Qed.

End lemmas.

(** ** Properties *)

Section properties.
Context `{HostBoot} `{!TaskCore} `{!StateCodec} `{OsOk} `{!RequestCodec TaskBatch}.

Lemma start_inner_ok x catalog b w o s w' o' :
  start_inner x catalog b w o = (Ok s, w', o') →
  ∃ b' deployments plugins host,
    prepare_start x catalog b w = Ok (b', deployments, plugins) ∧
    boot_core (b_config b') (available x) w plugins (b_factories b') = (Ok host, w') ∧
    start_supervised_sidecars w' (sidecar_specs (b_config b') (config_token (b_config b')) plugins)
      Supervisor.new o = (i_runners (s_inner s), o') ∧
    config s = b_config b' ∧ f_token (s_fixed s) = config_token (b_config b') ∧
    s_inner s = mkInner plugins (Some host) (i_runners (s_inner s)) deployments ∧
    s_sources s = start_sources (now x) (event_sources b') ∧ channel_ok s ∧ s_shutdown s = None ∧
    s_os s = o'.
Proof.
  unfold start_inner. destruct (prepare_start x catalog b w) as [[[b' deployments] plugins]|e]; [|done].
  destruct (boot_core _ _ _ _ _) as [[host|e] w1] eqn:Eb; [|done].
  destruct (start_supervised_sidecars _ _ _ _) as [rs o1] eqn:Es. intros [= <- <- <-].
  exists b', deployments, plugins, host. by split_and!.
Qed.

Lemma start_ok x catalog b w o n s w' o' n' :
  start x catalog b w o n = (Ok s, w', o', n') →
  ∃ s0 w1, start_inner x catalog b w o = (Ok s0, w1, o') ∧
    start_server (config s0) w1 n = (Ok (ipc_server s), w', n') ∧
    link_control_server s = ipc_enabled (ipc (config s0)) ∧
    state_ s = mkSvc (s_fixed s0) (s_inner s0) (s_sources s0) true None w' o' (s_ambient s0).
Proof.
  unfold start. destruct (start_inner x catalog b w o) as [[[s0|e] w1] o1] eqn:Ei; [|done].
  destruct (start_server _ w1 n) as [[[server|e] w2] n2] eqn:Es; [|done].
  destruct (ipc_enabled (ipc (config s0))) eqn:En.
  - destruct (link_start x) as [[]|e]; [|done]. intros [= <- <- <- <-]. by exists s0, w1.
  - intros [= <- <- <- <-]. by exists s0, w1.
Qed.

Lemma boot_core_ok c avail w catalog fs host w' :
  boot_core c avail w catalog fs = (Ok host, w') →
  ∃ bootstrapper profile lock bytes,
    runtime_bootstrapper c w catalog fs = Ok (bootstrapper, profile) ∧
    resolve_load_plan (manifest <$> c_records catalog) profile = Ok lock ∧
    lock_to_vec lock = Ok bytes ∧ files w' = <[runtime_lock_path c := bytes]> (files w).
Proof.
  unfold boot_core. intros Hb.
  destruct (runtime_bootstrapper c w catalog fs) as [[bs p]|e]; [|done]. simpl in Hb.
  destruct (host_config c avail) as [hc|e]; [|done]. simpl in Hb.
  destruct (resolve_load_plan _ p) as [lock|e] eqn:El; [|done]. simpl in Hb.
  destruct (into_host_runtime bs p hc) as [h|e]; [|done]. simpl in Hb.
  destruct (write_runtime_lock c lock w) as [[[]|e] w1] eqn:Ew; [|done]. simplify_eq.
  apply write_lock_spec in Ew as (_ & _ & bytes & Hbytes & Hf). by exists bs, p, lock, bytes.
Qed.

Lemma start_tracks x catalog b w o n s w' o' n' :
  start x catalog b w o n = (Ok s, w', o', n') → tracks o (state_ s) ∧ channel_ok (state_ s).
Proof.
  intros (s0 & w1 & Hi & _ & _ & ->)%start_ok.
  apply start_inner_ok in Hi as (b' & d & p & h & _ & _ & Hs & _ & _ & _ & _ & _ & _ & _).
  split; [|done]. unfold tracks. simpl. eapply reach_sidecars; [|exact Hs]. by exists [].
Qed.

(** The sidecars that run were asked for. *)
Lemma sidecars_as_asked w (all specs : list ManagedRunnerSpec) rs o rs' o' :
  (∀ s, s ∈ specs → s ∈ all) → (∀ id r, bget rs id = Some r → spec r ∈ all) →
  start_supervised_sidecars w specs rs o = (rs', o') → ∀ id r, bget rs' id = Some r → spec r ∈ all.
Proof.
  revert rs o. induction specs as [|s specs IH]; intros rs o Hin Hr Hs; simpl in Hs; [by simplify_eq|].
  destruct (Supervisor.start w s rs o) as [[e rs1] o1] eqn:E.
  apply (IH rs1 o1); [intros s' Hs'; apply Hin; by right| |done].
  unfold Supervisor.start, insert_runner in E. destruct (default false _); [by simplify_eq|].
  destruct (spawn_child w s o) as [[c|x] o2]; simplify_eq; [|done].
  intros id r. rewrite bget_set. case_match; [|apply Hr]. intros [= <-]. simpl. apply Hin. by left.
Qed.

Lemma start_server_enabled c w n r w' n' :
  start_server c w n = (Ok r, w', n') → (is_Some r ↔ ipc_enabled (ipc c) = true).
Proof.
  unfold start_server. destruct (ipc_enabled (ipc c)); simpl.
  - split; [done|]. intros _. destruct (ipc_transport (ipc c)); [done|..].
    + destruct (remove_endpoint _ _ _) as [[x w1] n1]. destruct (unix_bind _ _ _) as [[id|e] n2]; simplify_eq; eauto.
    + destruct (tcp_bind _ _); simplify_eq; eauto.
  - intros. simplify_eq. by split; [intros []|].
Qed.

Lemma start_sources_collect now ds :
  start_sources now ds = bcollect ((λ d, (source_id d, new_actor d now)) <$> ds).
Proof.
  unfold start_sources, bcollect, bextend. generalize (@nil (text * actor)) as m.
  induction ds as [|d ds IH]; intros m; simpl; [done|]. apply IH.
Qed.


Lemma boot_core_files c avail w catalog fs r w' q :
  boot_core c avail w catalog fs = (r, w') → q ≠ runtime_lock_path c → files w' !! q = files w !! q.
Proof.
  unfold boot_core. intros Hb Hq. case_match; [|by simplify_eq]. case_match.
  destruct (write_runtime_lock c _ w) as [[[]|e] w1] eqn:Ew; simplify_eq;
    apply write_lock_spec in Ew as (_ & Hf & _); auto.
Qed.

Lemma start_server_files c w n r w' n' q :
  start_server c w n = (r, w', n') → q ≠ ipc_endpoint c → files w' !! q = files w !! q.
Proof.
  unfold start_server. intros Hs Hq. destruct (negb _); [by simplify_eq|].
  destruct (ipc_transport (ipc c)); [by simplify_eq|..].
  - destruct (remove_endpoint _ _ _) as [[x w1] n1] eqn:E. apply remove_endpoint_spec in E as (_ & Hf & _).
    destruct (unix_bind _ _ _) as [[id|e] n2]; simplify_eq; auto.
  - destruct (tcp_bind _ _); by simplify_eq.
Qed.


(** What is left when a service that kept track of its processes ends. *)
Definition nothing_left (o : os) (r : remains) : Prop :=
  (∀ c, alive (s_os (r_state r)) c → ¬ known o c → refuses c) ∧
  i_host (s_inner (r_state r)) = None ∧ s_sources (r_state r) = [] ∧
  (∀ l, r_listener r = Some l → accept_task l = LoopEnded) ∧
  Forall (λ a, ∀ ms os oc k, (2 * List.length (commands a) ≤ k)%nat → phase (drive ms os oc k a) = Ended)
    (r_actors r).

Lemma server_ended s l w n : end_server s = (Some l, w, n) → accept_task l = LoopEnded.
Proof.
  unfold end_server. destruct (ipc_server s); [|done]. unfold shutdown_server.
  destruct (remove_cleanup_path _ _ _). by intros [= <- _ _].
Qed.

Lemma shutdown_leaves_nothing o s : tracks o (state_ s) → nothing_left o (shutdown_service s).
Proof.
  intros Ht. unfold shutdown_service, nothing_left.
  destruct (end_server s) as [[l w2] n2] eqn:El.
  destruct (Supervisor.shutdown _ _ _) as [rs o2] eqn:Esh. simpl.
  split_and!; [|done|done| |].
  - intros c. by eapply shutdown_stops_all.
  - intros l' ->. by eapply server_ended.
  - apply Forall_forall. intros a (a0 & -> & _)%list_elem_of_fmap ms os1 oc k Hk.
    destruct (decide (phase a0 = Ended)) as [He|He].
    + apply drive_ended. unfold actor_step. rewrite He. simpl. done.
    + apply drive_shutdown_ends; [|done]. unfold actor_step.
      destruct (phase a0); simpl; try done; apply elem_of_app; right; by left.
Qed.

Lemma drop_leaves_nothing o s : tracks o (state_ s) → nothing_left o (drop_service s).
Proof.
  intros Ht. unfold drop_service, nothing_left. destruct (end_server s) as [[l w2] n2] eqn:El. simpl.
  split_and!; [|done|done| |].
  - intros c. by eapply dropped_all.
  - intros l' ->. by eapply server_ended.
  - apply Forall_forall. intros a (a0 & -> & _)%list_elem_of_fmap ms os1 oc k _. by apply drive_ended.
Qed.


(** A service stops exactly when it is asked to: after any requests, the
    wait of [run_until_shutdown_signal] is over iff the process got its signal
    or one of the requests was a shutdown with the right token. *)
Theorem stops_when_asked x catalog b w o n s w' o' n' requests signal :
  start x catalog b w o n = (Ok s, w', o', n') →
  run_until_shutdown_signal signal (serve requests s) = None ↔
  signal = None ∧ Forall (λ r, asks_stop (f_token (s_fixed (state_ s))) r = false) requests.
Proof.
  intros Hs. pose proof (start_tracks _ _ _ _ _ _ _ _ _ _ Hs) as [_ Hch].
  assert (Hno : s_shutdown (state_ s) = None)
    by (apply start_ok in Hs as (s0 & w1 & _ & _ & _ & ->); done).
  destruct (serve_channel requests _ Hch) as (_ & _ & Hiff). unfold run_until_shutdown_signal.
  change (state_ (serve requests s)) with (fold_left (λ st r, (handle r st).1) requests (state_ s)).
  destruct (s_shutdown (fold_left _ requests _)) as [reason|] eqn:E.
  - split; [done|]. intros [_ Hf]. destruct Hiff as [_ Hiff].
    specialize (Hiff (conj Hno Hf)). simpl in Hiff. congruence.
  - destruct Hiff as [Hiff _]. destruct (Hiff eq_refl) as [_ Hf].
    destruct signal; [by split; [|intros []]|done].
Qed.

End properties.

(** ** A concrete service *)

Module Sample.
Import Plugins.Sample Boot.Sample Supervisor.Sample Deployment.Sample Tasks.Sample.

#[export] Instance sample_boot : HostBoot := {|
  Executor := N;
  new_executor threads _ _ _ := Ok threads;
  into_host_runtime b _ _ := if bool_decide (lit "refused" ∈ b) then Err (lit "boot refused") else Ok 1%N;
|}.

#[export] Instance sample_requests : RequestCodec (list text) := {|
  id_param j := match j with JString t => Ok t | _ => Err (lit "id") end;
  deployment_param _ := Err (lit "deployment");
  deployment_clear_param _ := Err (lit "deployment");
  ids_param _ := Ok []; wait_param _ := Ok ([], 0%N); batch_param _ := Ok [];
  events_param _ := Ok (0%N, 0%N); tail_param _ := Err (lit "tail");
  manifest_version _ := lit "1";
|}.

Definition sample_ambient (probes : btree json) : ambient.
Proof.
  refine (mkAmbient 5 1 None None view probes 0 rounds N.to_nat _).
  intros d. simpl. rewrite N2Nat.id. lia.
Defined.

Definition around (link : result unit text) : surroundings :=
  mkSurroundings (Some 4%N) view empty_store (Some 7%N) link Plugins.Sample.unsupported
    Plugins.Sample.sha256 (lit "so") parse sample_ambient.

Definition product : ServiceRuntimeBuilder :=
  register_event_source (mkDescriptor (lit "s") (lit "echo") (lit "i") [])
    (register_builtin_plugin (manifest builtin_echo)
      (builder_new sample_config (load_abi_plugin factories))).

Definition demo_start (link : result unit text) :=
  start (around link) [] product (sample_world (lit "f") []) (mkSystem 0 []) demo_net.

Definition stop_request : ControlRequest := mkRequest [] ServiceShutdown JNull.
End Sample.

Section witnesses.
Import Plugins.Sample Boot.Sample Supervisor.Sample Deployment.Sample Tasks.Sample Lifecycle.Sample.




Lemma stops_when_asked_witness :
  ∃ s w' o' n', demo_start (Ok tt) = (Ok s, w', o', n') ∧
    run_until_shutdown_signal None (serve [] s) = None.
Proof.
  assert (H : is_ok (demo_start (Ok tt)).1.1.1 = true) by (vm_compute; reflexivity).
  destruct (demo_start (Ok tt)) as [[[[s|e] w'] o'] n'] eqn:E; [|discriminate H].
  exists s, w', o', n'. split; [reflexivity|].
  apply (stops_when_asked (around (Ok tt)) [] product (sample_world (lit "f") []) processes demo_net
    s w' o' n' [] None E). split; [reflexivity|constructor].
Defined.

End witnesses.
