(* ===== verification/Served.v ===== *)
(** * The service behind a connection

    The handler of a running service ([Runtime], [Lifecycle]) behind one
    connection of the server to a client ([EndToEnd]): what the requests of a
    client do to the service, and what is left of it when it is shut down
    afterwards. *)

From S2P Require Import Prelude Text Value Control ConfigTypes Frame Fs Stream Codec Transport Plugins Supervisor Catalog.
From S2P Require Import Boot Deployment EventSource LogTail Tasks Runtime Lifecycle.
From S2P Require Import Session ServerConn EndToEnd.

(** A request that the authority check lets through. *)
Definition authorized (token : text) (request : ControlRequest) : bool := text_eqb (req_token request) token.

Section served.
Context `{HostBoot} `{!TaskCore} `{!StateCodec} `{OsOk} `{!RequestCodec TaskBatch}.

Abbreviation token_of s := (f_token (s_fixed s)).

Lemma handle_unauthorized request (s : svc) :
  authorized (token_of s) request = false → handle request s = (s, response_err Unauthorized).
Proof. unfold authorized, handle, RuntimeControl, handle_request. by intros ->. Qed.

(** The requests without the token might as well not have been made. *)
Definition lets_in (token : text) (ev : event svc) : bool :=
  match ev with inl e => authorized token e.2 | inr _ => true end.

(** What others do to a service leaves its configuration alone and loses no
    process ([o]: those there were before it). *)
Definition fair (o : os) (f : svc → svc) : Prop :=
  ∀ s, s_fixed (f s) = s_fixed s ∧ (tracks o s → tracks o (f s)).

(** Another connection is such an other. *)
Lemma handle_fair o request : fair o (λ s, (handle request s).1).
Proof. intros s. split; [apply handle_fixed|apply handle_tracks]. Qed.

Lemma replay_authorized o log (s : svc) :
  Forall (fair o) (others log) →
  (replay log s).1 = (replay (List.filter (lets_in (token_of s)) log) s).1.
Proof.
  revert s. induction log as [|[e|f] log IH]; intros s Ho; [done|..]; cbn [List.filter lets_in].
  - specialize (λ s, IH s Ho). pose proof (handle_fixed e.2 s) as Hf. destruct (authorized (token_of s) e.2) eqn:Ha.
    + cbn [replay]. destruct (handle e.2 s) as [s1 a]. specialize (IH s1). simpl in Hf. rewrite Hf in IH.
      destruct (replay log s1), (replay (List.filter (lets_in (token_of s)) log) s1). exact IH.
    + cbn [replay]. rewrite (handle_unauthorized _ _ Ha). specialize (IH s). by destruct (replay log s).
  - apply Forall_cons in Ho as [Hff Ho]. destruct (Hff s) as [Hf _]. cbn [replay]. specialize (IH (f s) Ho).
    rewrite Hf in IH. destruct (replay log (f s)), (replay (List.filter (lets_in (token_of s)) log) (f s)). exact IH.
Qed.

Lemma replay_unauthorized o log (s : svc) i e a :
  Forall (fair o) (others log) → log !! i = Some (inl e) → (replay log s).2 !! i = Some (Some a) →
  authorized (token_of s) e.2 = false → a = response_err Unauthorized.
Proof.
  revert s i. induction log as [|ev log IH]; intros s i Ho Hi Ha Hu; [done|]. cbn [replay] in Ha. destruct i as [|i].
  - injection Hi as ->. rewrite (handle_unauthorized _ _ Hu) in Ha. destruct (replay log s). by injection Ha as <-.
  - assert (∃ s1 b, match ev with inl e => let '(s1, a) := handle e.2 s in (s1, Some a) | inr f => (f s, None) end = (s1, b) ∧
      s_fixed s1 = s_fixed s ∧ Forall (fair o) (others log)) as (s1 & b & E & Hf & Ho').
    { destruct ev as [e0|f].
      - pose proof (handle_fixed e0.2 s). destruct (handle e0.2 s) as [s1 a1]. by exists s1, (Some a1).
      - apply Forall_cons in Ho as [Hff Ho]. exists (f s), None. split_and!; [done|apply Hff|done]. }
    rewrite E in Ha. destruct (replay log s1) as [s2 rest] eqn:Er.
    apply (IH s1 i); [done|done|by rewrite Er|by rewrite Hf].
Qed.

Lemma replay_others log (s : svc) : served log = [] → (replay log s).1 = fold_left (λ s f, f s) (others log) s.
Proof.
  revert s. induction log as [|[e|f] log IH]; intros s Hs; [done|done|]. cbn [replay].
  specialize (IH (f s) Hs). by destruct (replay log (f s)).
Qed.

Lemma replay_tracks o log (s : svc) : Forall (fair o) (others log) → tracks o s → tracks o (replay log s).1.
Proof.
  revert s. induction log as [|[e|f] log IH]; intros s Ho Ht; [done|..]; cbn [replay].
  - pose proof (handle_tracks o e.2 s Ht). destruct (handle e.2 s) as [s1 a]. specialize (IH s1 Ho).
    destruct (replay log s1). auto.
  - apply Forall_cons in Ho as [Hff Ho]. specialize (IH (f s) Ho). destruct (replay log (f s)). apply IH, Hff, Ht.
Qed.

(** What is left of a log without the requests that are not let in. *)
Lemma filtered_log token log :
  sublist (served (List.filter (lets_in token) log)) (served log) ∧
  others (List.filter (lets_in token) log) = others log ∧
  Forall (λ e, authorized token e.2 = true) (served (List.filter (lets_in token) log)).
Proof.
  induction log as [|[e|f] log (Hs & Ho & Ha)]; [split_and!; constructor|..]; cbn [List.filter lets_in].
  - destruct (authorized token e.2) eqn:E; simpl.
    + split_and!; [by apply sublist_skip|done|by constructor].
    + split_and!; [by apply sublist_cons|done|done].
  - simpl. split_and!; [done|by f_equal|done].
Qed.

End served.

(** ** Properties *)

Section properties.
Context `{HostBoot} `{!TaskCore} `{!StateCodec} `{OsOk} `{!RequestCodec TaskBatch} `{WireOk}.


End properties.

(** ** A concrete connection

    A client with the token stops the service, and so does another. *)
Section witnesses.
Import Plugins.Sample Boot.Sample Supervisor.Sample Deployment.Sample Tasks.Sample Lifecycle.Sample.

#[local] Instance batches : RequestCodec TaskBatch := sample_requests.

Definition stop_call : list Session.label := good_send stop_request 1 ++ [ReaderTurn; SendReceive 1].
Definition stop_turns : list (ServerConn.label (State := svc)) :=
  [MainTop; MainFrame; MainInsert; TaskLock 0; Outside (λ s, (handle stop_request s).1); TaskHandle 0; TaskRespond 0].
Definition stop_bytes : list byte := frame_bytes (opcode ServiceShutdown) REQUEST 1 [xc0].
Definition stopped_bytes : list byte := frame_bytes (opcode ServiceShutdown) RESPONSE 1 [xc0].
Definition stopper : session :=
  from_stream Binary default_limits (mkReader stopped_bytes (mkIo true [])) (mkWriter [] None).

Definition server (sv : ServiceRuntime) : conn :=
  new_conn default_limits (mkReader stop_bytes (mkIo true [])) (mkWriter [] None) (state_ sv).

(** The service that was started, and what comes of the calls. *)
Lemma stop_runs :
  ∃ sv w' o' n' s c, demo_start (Ok tt) = (Ok sv, w', o', n') ∧
    Session.run stop_call stopper = Some s ∧ ServerConn.run stop_turns (server sv) = Some c ∧
    written (outgoing s) = stop_bytes ∧ written (c_out c) = stopped_bytes ∧
    Session.calls s !! 1%N = Some (Returned (Ok empty_ok)).
Proof.
  assert (Hs : (λ s, (written (outgoing s), Session.calls s !! 1%N)) <$> Session.run stop_call stopper =
    Some (stop_bytes, Some (Returned (Ok empty_ok)))) by (vm_compute; reflexivity).
  assert (Hc : match demo_start (Ok tt) with
    | (Ok sv, _, _, _) => (λ c, written (c_out c)) <$> ServerConn.run stop_turns (server sv)
    | _ => None end = Some stopped_bytes) by (vm_compute; reflexivity).
  destruct (demo_start (Ok tt)) as [[[[sv|e] w'] o'] n']; cbn iota in Hc; [|discriminate Hc].
  apply fmap_Some in Hs as (s & Es & Hs). injection Hs as Hsw Hs1. apply fmap_Some in Hc as (c & Ec & Hcw).
  exists sv, w', o', n', s, c.
  split_and!; [reflexivity|exact Es|exact Ec|symmetry..]; assumption.
Qed.


End witnesses.
