(* ===== verification/Responses.v ===== *)
(** * Typed responses

    What a client may rely on (crates/mutsuki-service-control/src/lib.rs with
    the handlers of crates/mutsuki-service-runtime/src/lib.rs): every method has
    one response type, and a successful answer of the handler to a request for
    that method is a value of the type which the client's deserializer reads. *)

From S2P Require Import Prelude Text BTreeMap Value Control ConfigTypes Frame Fs.
From S2P Require Import Plugins Supervisor Catalog Boot Deployment EventSource LogTail Serde Payloads Tasks Runtime.
From S2P Require Lifecycle.

(** [()]. *)
Definition c_unit : codec unit :=
  mkCodec (λ _, Ok JNull)
    (λ v, match v with JNull => Ok tt | _ => Err (InvalidType v (lit "unit")) end) id (λ _, True).

#[export] Instance c_unit_ok : CodecOk c_unit.
Proof. by intros [] v _ [= <-]. Qed.

(** The values of the Core that the control API passes on. *)
Class TaskCoreOk `{TaskCore} : Prop := {
  handle_codec_ok :: CodecOk handle_codec;
  event_codec_ok :: CodecOk event_codec;
  submitted_handles_fit b h hs h' :
    submit_batch b h = (Ok (inl hs), h') → Forall (fit handle_codec) hs;
  events_fit sequence limit h next earliest latest lost dropped truncated items :
    events_after sequence limit h = Ok (next, earliest, latest, lost, dropped, truncated, items) →
    Forall (fit event_codec) items;
  priorities_fit h l :
    task_snapshots h = Ok l → Forall (λ s, (i64_min ≤ priority s ≤ i64_max)%Z) l;
}.

Section responses.
Context `{TaskCore} `{!StateCodec} `{Os} `{!RequestCodec TaskBatch}.

Definition payload (m : ControlMethod) : Type :=
  match m with
  | ServiceStatus => Api.ServiceStatus
  | CoreStatus => Api.CoreStatus
  | HostMetrics => Api.HostMetrics
  | PluginList => PluginListResponse
  | PluginReload | PluginDeploymentSet | PluginDeploymentClear => PluginReloadResponse
  | RunnerList => list RunnerStatus
  | EventSourceList => list EventSourceStatus
  | CoreBeginDrain => CoreDrainResponse
  | TaskSubmitBatch => TaskSubmitBatchResponse TaskHandle
  | TaskList => list TaskSnapshot
  | Control.TaskOutcome => TaskOutcomeView
  | TaskOutcomesBatch => TaskOutcomesBatchResponse
  | TaskWait => TaskWaitResponse
  | TaskEventsAfter => TaskEventPage RuntimeEvent
  | HealthCheck => HealthReport
  | LogTail => LogTailResponse
  | Control.RuntimeStatistics => RuntimeStatisticsView
  | ServiceShutdown | RunnerRestart | RunnerStop | EventSourceRestart | TaskCancel => unit
  end.

Definition payload_codec (m : ControlMethod) : codec (payload m) :=
  match m with
  | ServiceStatus => c_service_status
  | CoreStatus => c_core_status
  | HostMetrics => c_host_metrics
  | PluginList => c_plugin_list
  | PluginReload | PluginDeploymentSet | PluginDeploymentClear => c_reload_response
  | RunnerList => c_seq c_runner_status
  | EventSourceList => c_seq c_event_source_status
  | CoreBeginDrain => c_drain_response
  | TaskSubmitBatch => c_submit_response handle_codec
  | TaskList => c_seq c_task_snapshot
  | Control.TaskOutcome => c_outcome_view
  | TaskOutcomesBatch => c_outcomes_batch
  | TaskWait => c_wait_response
  | TaskEventsAfter => c_event_page event_codec
  | HealthCheck => c_health_report
  | LogTail => c_tail_response
  | Control.RuntimeStatistics => c_statistics
  | ServiceShutdown | RunnerRestart | RunnerStop | EventSourceRestart | TaskCancel => c_unit
  end.

(** The ranges of the numbers that the state keeps as [u32]. *)
Record widths (s : svc) : Prop := {
  w_pid : (a_pid (s_ambient s) ≤ u32_max)%N;
  w_runners : Forall (λ r, (sn_restarts r ≤ u32_max)%N ∧
      match sn_pid r with Some p => (p ≤ u32_max)%N | None => True end)
    (list_ (i_runners (s_inner s)) (s_os s)).1.1;
  w_sources : Forall (λ e, (st_reconnects e ≤ u32_max)%N) (list_sources (s_sources s));
}.

(** A response that carries a value of the payload type of a method. *)
Definition typed (m : ControlMethod) (r : ControlResponse) : Prop :=
  resp_ok r = true →
  ∃ x v, fit (payload_codec m) x ∧ enc (payload_codec m) x = Ok v ∧ resp_result r = Some v.

End responses.

(** ** Lemmas *)

Section lemmas.
Context `{TaskCore} `{!StateCodec} `{Os} `{!RequestCodec TaskBatch} `{!TaskCoreOk}.

#[export] Instance payload_codec_ok m : CodecOk (payload_codec m).
Proof. destruct m; apply _. Qed.

Lemma typed_err m e : typed m (response_err e).
Proof. by destruct e. Qed.
Lemma typed_failed m t : typed m (failed_with t).
Proof. apply typed_err. Qed.
Lemma typed_down m : typed m core_not_running.
Proof. apply typed_err. Qed.
Lemma typed_bad m t : typed m (bad_request t).
Proof. apply typed_err. Qed.

Lemma typed_ok (m : ControlMethod) (x : payload m) `{!Serialize (payload m)} :
  to_value x = enc (payload_codec m) x → fit (payload_codec m) x → typed m (response_ok x).
Proof.
  unfold typed, response_ok. intros E Hf. destruct (to_value x) as [v|e] eqn:Ev; [|done].
  intros _. exists x, v. by rewrite <-E.
Qed.

Create HintDb typed.
Hint Resolve typed_err typed_failed typed_down typed_bad : typed.

Lemma outcome_fits i o : fit c_outcome_view (to_control_task_outcome i o).
Proof.
  destruct o as [[]|]; simpl; split_and!; try done; try (by destruct output); try (by destruct output_ref);
    try (by destruct reason); try apply bcollect_sorted.
Qed.

Lemma outcomes_fit states : Forall (fit c_outcome_view) (outcomes_of states).
Proof. apply Forall_fmap, Forall_forall. intros. apply outcome_fits. Qed.


Lemma option_fits {A} (c : codec A) (o : option A) :
  (∀ a, fit c a) → match o with Some a => fit c a | None => True end.
Proof. by destruct o. Qed.

(** Closes what a payload of strings, flags and 64-bit numbers has to fit. *)
Ltac fits := simpl; split_and!; try done; try (by case_match); try (by apply Forall_forall).

Lemma reload_typed f catalog st w o : typed PluginReload (reload_catalog f catalog st w o).1.1.1.
Proof.
  unfold reload_catalog. repeat case_match; simplify_eq/=; auto with typed.
  apply (typed_ok PluginReload); [done|]. fits.
Qed.

Lemma change_typed f v id k st w o : typed PluginReload (change_plugin_deployment f v id k st w o).1.1.1.
Proof.
  unfold change_plugin_deployment. destruct (negb _); [apply typed_bad|].
  destruct (load_catalog_with_state _ _ _ _ _ _ _ _) as [c|e]; [|apply typed_err].
  destruct (save_deployment_state _ _ w) as [[[]|e] w1]; [|apply typed_err].
  pose proof (reload_typed f c st w1 o) as Hr.
  destruct (reload_catalog f c st w1 o) as [[[resp st2] w2] o2]. destruct (resp_ok resp) eqn:Eo; [done|].
  destruct (save_deployment_state _ _ w2) as [[[]|e] w3]; [|apply typed_err]. simpl. intros Ho. congruence.
Qed.

Lemma typed_wait_round deadline handles r resp :
  wait_round deadline handles r = Some resp → typed TaskWait resp.
Proof.
  assert (Hw : ∀ states b, typed TaskWait (task_wait_response states b)).
  { intros. apply (typed_ok TaskWait); [done|]. split; [apply outcomes_fit|done]. }
  unfold wait_round. intros Hr. repeat case_match; simplify_eq; auto with typed.
Qed.

Lemma typed_wait p s : typed TaskWait (handle_task_wait p s).
Proof.
  unfold handle_task_wait. destruct (task_wait _ _ _ _ _ _) as [resp|] eqn:E; [|apply typed_down]. simpl.
  unfold task_wait in E. repeat case_match; simplify_eq; auto with typed.
  revert E. generalize 0%nat. generalize (wait_fuel (s_ambient s) p.2). intros fuel. induction fuel as [|fuel IH];
    intros i E; simpl in E; [done|].
  destruct (wait_round _ _ _) eqn:Er; [simplify_eq; by eapply typed_wait_round|eauto].
Qed.

Lemma typed_health s : widths s → typed HealthCheck (health_check s).2.
Proof.
  intros Hw. unfold health_check. destruct (list_ _ _) as [[snapshots rs] o].
  apply (typed_ok HealthCheck); [done|]. fits.
  - eapply Forall_impl; [apply (w_sources s Hw)|]. intros [] Hr. simpl in Hr. by fits.
  - match goal with |- bsorted match ?p with _ => _ end => destruct p as [[]|] end;
      [apply bset_sorted|]; apply bcollect_sorted.
Qed.

Lemma typed_tail p s : typed LogTail (log_tail p s).
Proof.
  unfold log_tail. destruct (read_log_tail _ _ _) as [r|e]; [|apply typed_err].
  by apply (typed_ok LogTail); [done|]; destruct r as [c es]; fits.
Qed.

Lemma typed_events sequence limit host : typed TaskEventsAfter (task_events_after sequence limit host).
Proof.
  unfold task_events_after. repeat case_match; simplify_eq; auto with typed.
  apply (typed_ok TaskEventsAfter); [done|]. fits. by eapply events_fit.
Qed.

Hint Resolve typed_wait typed_health typed_tail typed_events : typed.

Lemma typed_empty m :
  m ∈ [ServiceShutdown; RunnerRestart; RunnerStop; EventSourceRestart; TaskCancel] → typed m empty_ok.
Proof.
  intros Hm _. repeat (apply elem_of_cons in Hm as [->|Hm]; [by exists tt, JNull|]). by apply not_elem_of_nil in Hm.
Qed.

Lemma typed_sources s : widths s → typed EventSourceList (event_source_list s).
Proof.
  intros Hw. apply (typed_ok EventSourceList); [done|]. simpl. eapply Forall_impl; [apply (w_sources s Hw)|].
  intros [] Hr. simpl in Hr. by fits.
Qed.

Lemma typed_runners s : widths s → typed RunnerList (runner_list s).2.
Proof.
  intros Hw. pose proof (w_runners s Hw) as Hr. unfold runner_list. destruct (list_ _ _) as [[l rs] o].
  apply (typed_ok RunnerList); [done|]. simpl in Hr |- *. apply Forall_fmap. eapply Forall_impl; [exact Hr|].
  intros sn [Hs Hp]. destruct sn as [i p st pid rs0 [e|]]. all: fits.
Qed.

Lemma typed_plugins s : typed PluginList (plugin_list s).
Proof.
  apply (typed_ok PluginList); [done|]. fits; apply Forall_fmap, Forall_forall.
  - intros id _. fits. apply Forall_fmap, Forall_forall. intros r _. by fits.
  - intros d _. by fits.
Qed.

Lemma typed_tasks host : typed TaskList (task_list host).
Proof.
  unfold task_list. destruct host as [h|]; [|apply typed_down].
  destruct (task_snapshots h) as [l|e] eqn:E; [|apply typed_failed].
  apply (typed_ok TaskList); [done|]. change (Forall (fit c_task_snapshot) (to_control_task_snapshot <$> l)).
  apply Forall_fmap. eapply Forall_impl; [by eapply priorities_fit|].
  intros t [Hl Hu]. by fits.
Qed.

Lemma typed_submit b host : typed TaskSubmitBatch (task_submit_batch b host).1.
Proof.
  unfold task_submit_batch. destruct (batch_is_empty b); [apply typed_err|]. destruct host as [h|]; [|apply typed_down].
  destruct (submit_batch b h) as [[[hs|other]|e] h'] eqn:E; simpl; auto with typed.
  apply (typed_ok TaskSubmitBatch); [done|]. split; [by eapply submitted_handles_fit|done].
Qed.

Lemma typed_outcome id host : typed Control.TaskOutcome (task_outcome id host).
Proof.
  unfold task_outcome. repeat case_match; simplify_eq; auto with typed.
  apply (typed_ok Control.TaskOutcome); [done|]. apply outcome_fits.
Qed.

Lemma typed_outcomes ids host : typed TaskOutcomesBatch (task_outcomes_batch ids host).
Proof.
  unfold task_outcomes_batch. repeat case_match; simplify_eq; auto with typed.
  apply (typed_ok TaskOutcomesBatch); [done|]. split; [apply outcomes_fit|done].
Qed.

Lemma typed_statistics host : typed Control.RuntimeStatistics (runtime_statistics host).
Proof.
  unfold runtime_statistics. repeat case_match; simplify_eq; auto with typed.
  by apply (typed_ok Control.RuntimeStatistics); [|fits].
Qed.

Lemma typed_drain host : typed CoreBeginDrain (core_begin_drain host).1.
Proof.
  unfold core_begin_drain. repeat case_match; simplify_eq/=; auto with typed.
  by apply (typed_ok CoreBeginDrain); [|fits].
Qed.

Lemma typed_core s : typed CoreStatus (core_status s).
Proof. apply (typed_ok CoreStatus); [done|]. by destruct (i_host (s_inner s)); fits. Qed.

Lemma typed_status s : typed ServiceStatus (service_status s).2.
Proof. unfold service_status. destruct (list_ _ _) as [[l rs] o]. by apply (typed_ok ServiceStatus); [|fits]. Qed.

Lemma typed_metrics s : widths s → typed HostMetrics (host_metrics s).
Proof. intros Hw. apply (typed_ok HostMetrics); [done|]. fits. apply (w_pid s Hw). Qed.

Lemma typed_reload s : typed PluginReload (plugin_reload s).2.
Proof.
  unfold plugin_reload. destruct (load_catalog_with_state _ _ _ _ _ _ _ _) as [c|e]; [|apply typed_failed].
  pose proof (reload_typed (s_fixed s) c (s_inner s) (s_world s) (s_os s)) as Ht.
  by destruct (reload_catalog _ _ _ _ _) as [[[resp st] w] o].
Qed.

Lemma typed_deployment id k s : typed PluginReload (change_deployment id k s).2.
Proof.
  unfold change_deployment.
  pose proof (change_typed (s_fixed s) (a_view (s_ambient s)) id k (s_inner s) (s_world s) (s_os s)) as Ht.
  by destruct (change_plugin_deployment _ _ _ _ _ _ _) as [[[resp st] w] o].
Qed.

Lemma typed_cancel id host : typed TaskCancel (task_cancel id host).1.
Proof.
  unfold task_cancel. repeat case_match; simplify_eq/=; auto with typed. apply typed_empty. set_solver.
Qed.

Lemma typed_answer m r :
  m ∈ [RunnerRestart; RunnerStop] → typed m (runner_answer r).
Proof. intros Hm. destruct r; [apply typed_empty; set_solver|apply typed_failed]. Qed.

Lemma typed_source_restart id s : typed EventSourceRestart (event_source_restart id s).2.
Proof.
  unfold event_source_restart. destruct (restart_source _ _) as [[[]|e] l]; simpl; auto with typed.
  apply typed_empty. set_solver.
Qed.

Hint Resolve typed_sources typed_runners typed_plugins typed_tasks typed_submit typed_outcome typed_outcomes
  typed_statistics typed_drain typed_core typed_status typed_metrics typed_reload typed_deployment typed_cancel
  typed_source_restart : typed.

Lemma typed_dispatch m params s : widths s → typed m (dispatch m params s).2.
Proof.
  intros Hw. destruct m; cbn [dispatch]; unfold with_param, on_host; try (case_match; [|apply typed_bad]);
    cbn [fst snd]; auto with typed.
  - apply typed_empty. set_solver.
  - apply typed_deployment.
  - apply typed_deployment.
  - unfold runner_restart. destruct (restart _ _ _ _) as [[r rs] o]. apply typed_answer. set_solver.
  - unfold runner_stop. destruct (stop _ _ _) as [[r rs] o]. apply typed_answer. set_solver.
Qed.

End lemmas.

(** ** Properties *)

Section properties.
Context `{TaskCore} `{!StateCodec} `{Os} `{!RequestCodec TaskBatch} `{!TaskCoreOk}.


End properties.

(** ** Witness: the metrics of a service that has just started *)

Module Sample.
Import Plugins.Sample Boot.Sample Supervisor.Sample Deployment.Sample Tasks.Sample Lifecycle.Sample.

#[export] Instance sample_core_ok : TaskCoreOk.
Proof.
  split; simpl.
  - solve_codec.
  - apply _.
  - intros b h hs h' [= <- _]. apply Forall_fmap, Forall_forall. done.
  - intros sequence limit h ? ? ? ? ? ? ? [= <- <- <- <- <- <- <-]. constructor.
  - intros h l [= <-]. repeat constructor; done.
Qed.

#[export] Instance batch_requests : RequestCodec TaskBatch := sample_requests.

Definition started : option svc :=
  match demo_start (Ok tt) with (Ok s, _, _, _) => Some (Lifecycle.state_ s) | _ => None end.

Definition metrics_request : ControlRequest := mkRequest [] HostMetrics JNull.
Definition metrics_value : json :=
  match started with
  | Some s => default JNull (resp_result (handle metrics_request s).2)
  | None => JNull
  end.
End Sample.

Section witnesses.
Import Plugins.Sample Boot.Sample Supervisor.Sample Deployment.Sample Tasks.Sample Lifecycle.Sample Sample.


End witnesses.
