(* ===== verification/Process.v ===== *)
(** * The process of the host

    [crates/mutsuki-service-observe/src/lib.rs]: the log subscriber and the panic
    log; and the ends of [crates/mutsuki-service-runtime/src/lib.rs] that touch the
    process: its shutdown signals, resident memory and CPU time. *)

From S2P Require Import Prelude Text BTreeMap Value Control ConfigTypes Frame Fs Plugins Supervisor Catalog Boot.
From S2P Require Import Deployment EventSource LogTail Serde Payloads Tasks Runtime Lifecycle.
From Stdlib Require DecimalPos.

(** ** Logging *)

(** [rolling::never] with a non-blocking writer, and the filter; events are
    written as JSON whatever the configuration says. *)
Record subscriber : Type := mkSubscriber { sub_file : text; sub_filter : text }.

(** What is global in a process: the subscriber that was set first, the panic
    hooks with the newest first, the events with the file they went to, and the
    files. *)
Record process : Type := mkProcess {
  p_subscriber : option subscriber; p_hooks : list text; p_events : list (text * text); p_world : world;
}.

Definition log_event (event : text) (p : process) : process :=
  match p_subscriber p with
  | Some s => mkProcess (p_subscriber p) (p_hooks p) (p_events p ++ [(sub_file s, event)]) (p_world p)
  | None => p
  end.

Definition install_panic_hook (path : text) (p : process) : process :=
  mkProcess (p_subscriber p) (path :: p_hooks p) (p_events p) (p_world p).

(** [default_env] is the filter of the environment, when it has a usable one.
    [set_global_default] fails when there is a subscriber, which is ignored. *)
Definition init_observe (default_env : option text) (config : ServiceConfig) (p : process) : process :=
  let dir := log_dir (service config) in
  let subscriber := mkSubscriber (path_join dir (log_file (observe config))) (default (lit "info") default_env) in
  let p := mkProcess (Some (default subscriber (p_subscriber p))) (p_hooks p) (p_events p) (p_world p) in
  let p := if console (observe config) then log_event (lit "mutsuki service host starting") p else p in
  install_panic_hook (path_join dir (panic_file (observe config))) p.

(** ** The panic log *)

(** Appending to a file that is created when it is missing; a failing write may
    have written a part. *)
Definition fs_append (path : text) (bytes : list byte) (w : world) : result unit io_error * world :=
  let old := default [] (files w !! path) in
  match faults w (OpWrite path) with
  | Some (e, None) => (Err e, w)
  | Some (e, Some part) => (Err e, set_files (<[path := old ++ part]> (files w)) w)
  | None => (Ok tt, set_files (<[path := old ++ bytes]> (files w)) w)
  end.

Definition append_panic (path message : text) (w : world) : result unit io_error * world :=
  match create_dir_all (parent path) w with
  | (Err e, w) => (Err e, w)
  | (Ok _, w) => fs_append path (utf8 message ++ [x0a]) w
  end.

(** A panic runs the hooks, each of which calls the one before it. *)
Definition panic_with (message : text) (p : process) : process :=
  mkProcess (p_subscriber p) (p_hooks p) (p_events p)
    (fold_left (λ w path, (append_panic path message w).2) (p_hooks p) (p_world p)).

(** ** Shutdown signals *)

(** What the listeners of a process have to say by now: whether SIGTERM can be
    listened for and arrived, and what the listener for ctrl-c answered. *)
Record signals : Type := mkSignals {
  unix : bool; terminate : result unit text; terminated : bool; ctrl_c : option (result unit text);
}.

Definition ctrl_c_signal (s : signals) : option text :=
  match ctrl_c s with
  | None => None
  | Some (Ok _) => Some (lit "ctrl-c")
  | Some (Err _) => Some (lit "ctrl-c-listener-error")
  end.

(** The reasons that a poll may end with; [select!] takes any of them. *)
Definition platform_shutdown_signal (s : signals) : list text :=
  let interrupted := match ctrl_c_signal s with Some reason => [reason] | None => [] end in
  if unix s && is_ok (terminate s)
  then interrupted ++ (if terminated s then [lit "sigterm"] else [])
  else interrupted.

(** [run_foreground] at a point where it is polled: what each reason that the
    signal may end with makes of it. *)
Definition run_foreground `{HostBoot} `{!TaskCore} `{!StateCodec} `{Os} `{!RequestCodec TaskBatch}
    (s : signals) (rt : ServiceRuntime) : list (option remains) :=
  match platform_shutdown_signal s with
  | [] => [run_until_shutdown_signal None rt]
  | reasons => (λ reason, run_until_shutdown_signal (Some reason) rt) <$> reasons
  end.

(** ** Resident memory and CPU time *)

Inductive platform : Type := PLinux | PMacos | POther.

(** [statm] is what reading the file gives, [page_size] what [sysconf] returns,
    [task_info] the resident size that macOS reports. *)
Definition current_rss_bytes (os : platform) (statm : result text io_error) (page_size : Z)
    (task_info : option N) : option N :=
  match os with
  | PLinux =>
      match statm with
      | Err _ => None
      | Ok statm =>
          field ← split_whitespace statm !! 1%nat;
          pages ← parse_unsigned u64_max field;
          if (page_size <=? 0)%Z then None else Some (N.min u64_max (pages * Z.to_N page_size))
      end
  | PMacos => task_info
  | POther => None
  end.

(** [try_now] in nanoseconds. *)
Definition current_cpu_time_ms (try_now : option N) : option N := (λ ns, N.min u64_max (ns / 1000000)) <$> try_now.

(** ** Lemmas *)

Lemma append_keeps path message w q old :
  files w !! q = Some old → ∃ more, files (append_panic path message w).2 !! q = Some (old ++ more).
Proof.
  intros Hq. unfold append_panic, create_dir_all. destruct (faults w (OpCreateDir (parent path))) as [[e part]|]; simpl.
  { exists []. by rewrite app_nil_r. }
  unfold fs_append. cbn [faults files]. destruct (decide (q = path)) as [->|Hne].
  - rewrite Hq. cbn [default]. destruct (faults w (OpWrite path)) as [[e [part|]]|]; simpl;
      [exists part; by rewrite lookup_insert_eq|exists []; by rewrite app_nil_r|].
    eexists. by rewrite lookup_insert_eq.
  - exists []. rewrite app_nil_r. destruct (faults w (OpWrite path)) as [[e [part|]]|]; simpl;
      by rewrite ?lookup_insert_ne.
Qed.

Lemma append_faults path message w : faults (append_panic path message w).2 = faults w.
Proof.
  unfold append_panic, create_dir_all. destruct (faults w (OpCreateDir (parent path))) as [[e part]|]; [done|].
  unfold fs_append. simpl. by destruct (faults w (OpWrite path)) as [[e [part|]]|].
Qed.

(** Without faults exactly the line is added, to this file only. *)
Lemma append_line path message w q : (∀ op, faults w op = None) →
  default [] (files (append_panic path message w).2 !! q)
  = default [] (files w !! q) ++ (if decide (q = path) then utf8 message ++ [x0a] else []).
Proof.
  intros Hf. unfold append_panic, create_dir_all. rewrite Hf. unfold fs_append. simpl. rewrite Hf. simpl.
  destruct (decide (q = path)) as [->|Hne].
  - by rewrite lookup_insert_eq.
  - by rewrite lookup_insert_ne, app_nil_r.
Qed.

Definition appended (message : text) (hooks : list text) (w : world) : world :=
  fold_left (λ w path, (append_panic path message w).2) hooks w.

Lemma appended_keeps message hooks w q old :
  files w !! q = Some old → ∃ more, files (appended message hooks w) !! q = Some (old ++ more).
Proof.
  revert w old. induction hooks as [|h hooks IH]; intros w old Hq; [by exists []; rewrite app_nil_r|].
  destruct (append_keeps h message w q old Hq) as [m1 H1]. destruct (IH _ _ H1) as [m2 H2].
  exists (m1 ++ m2). rewrite app_assoc. exact H2.
Qed.

Lemma appended_faults message hooks w : faults (appended message hooks w) = faults w.
Proof.
  revert w. induction hooks as [|h hooks IH]; intros w; [done|].
  change (appended message (h :: hooks) w) with (appended message hooks (append_panic h message w).2).
  by rewrite IH, append_faults.
Qed.

Lemma appended_line message hooks w q : (∀ op, faults w op = None) → NoDup hooks →
  default [] (files (appended message hooks w) !! q)
  = default [] (files w !! q) ++ (if decide (q ∈ hooks) then utf8 message ++ [x0a] else []).
Proof.
  intros Hf Hnd. revert w Hf. induction Hnd as [|h hooks Hh _ IH]; intros w Hf.
  { by rewrite decide_False, app_nil_r by apply not_elem_of_nil. }
  change (appended message (h :: hooks) w) with (appended message hooks (append_panic h message w).2).
  rewrite IH by (by rewrite append_faults). rewrite append_line by done.
  rewrite <-app_assoc. f_equal. destruct (decide (q = h)) as [->|Hne].
  - rewrite (decide_False (P:=h ∈ hooks)), (decide_True (P:=h ∈ h :: hooks)) by (done || by left).
    by rewrite app_nil_r.
  - destruct (decide (q ∈ hooks)).
    + by rewrite decide_True by (by right).
    + rewrite decide_False; [done|]. intros [->|?]%elem_of_cons; done.
Qed.

Lemma split_numbers size resident rest :
  split_whitespace (show_N size ++ lit " " ++ show_N resident ++ lit " " ++ rest)
  = show_N size :: show_N resident :: split_whitespace rest.
Proof.
  assert (Hd : ∀ n, Forall (λ c, is_whitespace c = false) (show_N n)).
  { intros n. eapply Forall_impl; [apply show_N_digits|]. intros c. apply digit_not_space. }
  assert (Hne : ∀ n, show_N n ≠ []).
  { intros n. unfold show_N. assert (N.to_uint n ≠ Decimal.Nil)
      by (destruct n; [done|apply DecimalPos.Unsigned.to_uint_nonnil]). by destruct (N.to_uint n). }
  transitivity (show_N size :: split_whitespace (show_N resident ++ 32%N :: rest)).
  - by apply (words_word (show_N size) 32%N).
  - f_equal. by apply words_word.
Qed.

(** ** Properties *)

(** The panic log loses nothing: whatever fails, what a file held before the
    panics is still its beginning; and when nothing fails every panic file holds
    one line for each panic behind that, in order, and no other file changes. *)
Theorem panic_log_kept messages p :
  let p' := fold_left (λ p m, panic_with m p) messages p in
  (∀ q old, files (p_world p) !! q = Some old → ∃ more, files (p_world p') !! q = Some (old ++ more)) ∧
  ((∀ op, faults (p_world p) op = None) → NoDup (p_hooks p) →
     ∀ q, default [] (files (p_world p') !! q) =
       default [] (files (p_world p) !! q)
       ++ (if decide (q ∈ p_hooks p) then mjoin ((λ m, utf8 m ++ [x0a]) <$> messages) else [])).
Proof.
  cbv zeta. split.
  - revert p. induction messages as [|m messages IH]; intros p q old Hq; [by exists []; rewrite app_nil_r|].
    destruct (appended_keeps m (p_hooks p) (p_world p) q old Hq) as [m1 H1].
    destruct (IH (panic_with m p) q _ H1) as [m2 H2]. exists (m1 ++ m2). rewrite app_assoc. exact H2.
  - intros Hf Hnd q. revert p Hf Hnd. induction messages as [|m messages IH]; intros p Hf Hnd.
    { case_decide; by rewrite app_nil_r. }
    simpl fold_left.
    assert (Hw : p_world (panic_with m p) = appended m (p_hooks p) (p_world p)) by reflexivity.
    rewrite IH; [|intros op; by rewrite Hw, appended_faults|done].
    rewrite Hw. change (p_hooks (panic_with m p)) with (p_hooks p).
    rewrite appended_line by done. rewrite <-app_assoc. f_equal. by case_decide.
Qed.

(** A process has one log: of several services that one process starts, the
    first decides the log file and the filter for good, later ones announce
    themselves in the log of the first; and a panic is recorded in the panic file
    of every one of them, the newest first. *)
Theorem first_log_wins default_env config configs p :
  p_subscriber p = None →
  let dir c := log_dir (service c) in
  let p' := fold_left (λ p c, init_observe default_env c p) (config :: configs) p in
  let first := path_join (dir config) (log_file (observe config)) in
  p_subscriber p' = Some (mkSubscriber first (default (lit "info") default_env)) ∧
  p_events p' = p_events p ++
    ((λ _, (first, lit "mutsuki service host starting")) <$> List.filter (λ c, console (observe c)) (config :: configs)) ∧
  p_hooks p' = reverse ((λ c, path_join (dir c) (panic_file (observe c))) <$> config :: configs) ++ p_hooks p.
Proof.
  intros Hp. cbv zeta. set (s := mkSubscriber _ _).
  assert (Hgo : ∀ cs q, p_subscriber q = Some s →
    let q' := fold_left (λ p c, init_observe default_env c p) cs q in
    p_subscriber q' = Some s ∧
    p_events q' = p_events q ++
      ((λ _, (sub_file s, lit "mutsuki service host starting")) <$> List.filter (λ c, console (observe c)) cs) ∧
    p_hooks q' = reverse ((λ c, path_join (log_dir (service c)) (panic_file (observe c))) <$> cs) ++ p_hooks q).
  { induction cs as [|c cs IH]; intros q Hq; cbv zeta.
    { split_and!; [done|by rewrite app_nil_r|done]. }
    cbn [fold_left]. destruct (IH (init_observe default_env c q)) as (H1 & H2 & H3).
    { unfold init_observe, log_event. simpl. rewrite Hq. by destruct (console (observe c)). }
    rewrite H2, H3. split; [exact H1|]. rewrite fmap_cons, reverse_cons, <-app_assoc. simpl List.filter.
    unfold init_observe, log_event. simpl. rewrite Hq. destruct (console (observe c)); simpl; [|done].
    by rewrite <-app_assoc. }
  cbn [fold_left].
  destruct (Hgo configs (init_observe default_env config p)) as (H1 & H2 & H3).
  { unfold init_observe, log_event. simpl. rewrite Hp. by destruct (console (observe config)). }
  rewrite H2, H3. split; [exact H1|]. rewrite fmap_cons, reverse_cons, <-app_assoc. simpl List.filter.
  unfold init_observe, log_event. simpl. rewrite Hp. destruct (console (observe config)); simpl; [|done].
  by rewrite <-app_assoc.
Qed.

(** The metrics of the process fit their type: whatever the system reports, the
    resident size and the CPU time are 64-bit numbers; and from the line that the
    kernel writes the size is the resident pages in bytes, saturated. *)
Theorem metrics_in_range os statm page_size task_info try_now :
  (∀ n, task_info = Some n → (n <= u64_max)%N) →
  (∀ n, current_rss_bytes os statm page_size task_info = Some n → (n <= u64_max)%N) ∧
  (∀ n, current_cpu_time_ms try_now = Some n → (n <= u64_max)%N) ∧
  ∀ size resident rest, (0 < page_size)%Z → (resident <= u64_max)%N →
    current_rss_bytes PLinux (Ok (show_N size ++ lit " " ++ show_N resident ++ lit " " ++ rest)) page_size task_info
    = Some (N.min u64_max (resident * Z.to_N page_size)).
Proof.
  intros Ht. split; [|split].
  - intros n. destruct os; simpl; [|by apply Ht|done]. destruct statm as [t|]; [|done].
    intros (field & _ & (pages & _ & Hn)%bind_Some)%bind_Some.
    destruct (page_size <=? 0)%Z; [done|]. injection Hn as <-. apply N.le_min_l.
  - intros n Hn. destruct try_now; [|done]. injection Hn as <-. apply N.le_min_l.
  - intros size resident rest Hpage Hres. unfold current_rss_bytes.
    rewrite split_numbers. cbn [lookup list_lookup mbind option_bind].
    rewrite parse_show_N by done. cbn [mbind option_bind]. by rewrite (proj2 (Z.leb_gt _ _) Hpage).
Qed.

(** A service in the foreground goes on exactly as long as nothing asks it to
    stop: no shutdown request, no answer of the ctrl-c listener (a listener that
    fails stops it too), and no SIGTERM, unless the process cannot listen for
    that; and when it ends it has shut down, whatever the reason. *)
Theorem foreground_stops `{HostBoot} `{!TaskCore} `{!StateCodec} `{Os} `{!RequestCodec TaskBatch}
    (s : signals) (rt : ServiceRuntime) outcome :
  outcome ∈ run_foreground s rt →
  (outcome = None ↔ s_shutdown (state_ rt) = None ∧ ctrl_c s = None ∧
     (terminated s = false ∨ unix s = false ∨ is_ok (terminate s) = false)) ∧
  (outcome ≠ None → outcome = Some (shutdown_service rt)).
Proof.
  assert (Hrun : ∀ signal, run_until_shutdown_signal signal rt =
    match s_shutdown (state_ rt), signal with None, None => None | _, _ => Some (shutdown_service rt) end) by reflexivity.
  unfold run_foreground, platform_shutdown_signal, ctrl_c_signal. intros Ho.
  assert (Hcases : outcome = run_until_shutdown_signal None rt ∧ ctrl_c s = None ∧
      (terminated s = false ∨ unix s = false ∨ is_ok (terminate s) = false) ∨
    (∃ reason, outcome = run_until_shutdown_signal (Some reason) rt) ∧
      ¬ (ctrl_c s = None ∧ (terminated s = false ∨ unix s = false ∨ is_ok (terminate s) = false))).
  { destruct (unix s), (is_ok (terminate s)), (terminated s), (ctrl_c s) as [[]|]; simpl in Ho;
      rewrite ?elem_of_cons, ?elem_of_nil in Ho; naive_solver. }
  clear Ho.
  destruct Hcases as [(-> & Hc & Ht)|[[reason ->] Hn]]; [rewrite Hrun|rewrite Hrun];
    destruct (s_shutdown (state_ rt)); naive_solver.
Qed.

(** ** Witnesses *)

Module Sample.
Import Plugins.Sample Boot.Sample Supervisor.Sample Deployment.Sample Tasks.Sample Lifecycle.Sample.

Definition clean : world := mkWorld ∅ ∅ ∅ ∅ (λ _, None) 0 7.
Definition fresh : process := mkProcess None [] [] clean.
Definition started : option ServiceRuntime :=
  match demo_start (Ok tt) with (Ok s, _, _, _) => Some s | _ => None end.
End Sample.

Section witnesses.
Import Plugins.Sample Boot.Sample Supervisor.Sample Deployment.Sample Tasks.Sample Lifecycle.Sample Sample.

Lemma panic_log_kept_witness :
  let p := mkProcess None [lit "b/panic.log"; lit "a/panic.log"] [] clean in
  let p' := fold_left (λ p m, panic_with m p) [lit "one"; lit "two"] p in
  files (p_world p') !! lit "a/panic.log" = Some (utf8 (lit "one") ++ [x0a] ++ utf8 (lit "two") ++ [x0a]).
Proof.
  cbv zeta.
  destruct (panic_log_kept [lit "one"; lit "two"] (mkProcess None [lit "b/panic.log"; lit "a/panic.log"] [] clean))
    as [_ H].
  assert (Hn : NoDup [lit "b/panic.log"; lit "a/panic.log"])
    by (apply (bool_decide_eq_true_1 _); vm_compute; reflexivity).
  specialize (H (λ _, eq_refl) Hn (lit "a/panic.log")). rewrite decide_True in H by (right; left).
  destruct (files _ !! lit "a/panic.log") as [content|] eqn:E; [|vm_compute in E; discriminate].
  change (default [] (Some content)) with content in H. rewrite H. reflexivity.
Defined.

Lemma first_log_wins_witness :
  p_subscriber (init_observe None Catalog.sample_config (init_observe None Catalog.sample_config fresh))
  = Some (mkSubscriber (path_join (log_dir (ConfigTypes.service Catalog.sample_config))
                          (log_file (ConfigTypes.observe Catalog.sample_config))) (lit "info")).
Proof. exact (proj1 (first_log_wins None Catalog.sample_config [Catalog.sample_config] fresh eq_refl)). Defined.

Lemma metrics_in_range_witness :
  current_rss_bytes PLinux (Ok (lit "5000 700 300 20 0 900 0")) 4096 None = Some 2867200%N.
Proof.
  destruct (metrics_in_range PLinux (Ok []) 4096 None None ltac:(discriminate)) as (_ & _ & H).
  refine (eq_trans (H 5000%N 700%N (lit "300 20 0 900 0") _ _) _); [reflexivity|discriminate|reflexivity].
Defined.

Lemma foreground_stops_witness :
  ∃ rt, run_foreground (mkSignals true (Ok tt) false None) rt = [None] ∧
        ∀ outcome, outcome ∈ run_foreground (mkSignals true (Ok tt) true None) rt → outcome = Some (shutdown_service rt).
Proof.
  assert (Hch : (λ rt, s_shutdown (state_ rt)) <$> started = Some None) by (vm_compute; reflexivity).
  destruct started as [rt|]; [|discriminate Hch]. apply (inj Some) in Hch. exists rt.
  assert (Hone : ∀ o, o ∈ [run_until_shutdown_signal None rt] → o = None).
  { intros o Ho. apply (foreground_stops (mkSignals true (Ok tt) false None) rt o Ho). auto. }
  split.
  - change (run_foreground _ rt) with [run_until_shutdown_signal None rt]. rewrite (Hone (run_until_shutdown_signal None rt)); [reflexivity|left].
  - intros outcome Ho. apply (foreground_stops _ rt outcome Ho). intros ->.
    destruct (proj1 (proj1 (foreground_stops _ rt None Ho)) eq_refl) as (_ & _ & [H|[H|H]]); discriminate H.
Defined.

End witnesses.
