(* ===== verification/ServiceUnit.v ===== *)
(** * Service definitions

    The platform independent part of [crates/mutsuki-service-daemon/src/lib.rs]:
    the names a service gets, its command line, and the definitions that are
    written for systemd and for launchd.  Paths of the launch options are byte
    strings, as [OsString] is on Unix.  Quoting is checked against the syntax
    of unit files. *)

From S2P Require Import Prelude Text ConfigTypes Frame Fs.

(** ** Errors *)

Inductive DaemonError : Type :=
| Bail (m : text)
| Failed (context : text) (source : io_error).

Abbreviation DaemonResult A := (result A DaemonError).

(** ** Scope and launch options *)

Inductive DaemonScope : Type := UserScope | SystemScope.

#[export] Instance daemon_scope_eq_dec : EqDecision DaemonScope.
Proof. solve_decision. Defined.

Definition platform_default (windows : bool) : DaemonScope :=
  if windows then SystemScope else UserScope.

Definition scope_from_str (v : text) : DaemonResult DaemonScope :=
  if text_eqb v (lit "user") then Ok UserScope
  else if text_eqb v (lit "system") then Ok SystemScope
  else Err (Bail (lit "unsupported daemon scope " ++ v ++ lit "; expected user or system")).

Record DaemonLaunchOptions : Type := mkLaunch {
  executable_path : list byte;
  config_file : option (list byte);
  launch_home : list byte;
  launch_profile : text;
  persist_control_token_ : bool;
}.

(** [current_exe] is an answer of the operating system. *)
Definition from_config (current_exe : result (list byte) io_error) (c : ServiceConfig)
    (config_file : option (list byte)) (persist : bool) : DaemonResult DaemonLaunchOptions :=
  let? exe := map_err (Failed (lit "failed to resolve current executable")) current_exe in
  Ok (mkLaunch exe config_file (utf8 (home_dir (service c))) (profile (service c)) persist).

Definition WINDOWS_SERVICE_RUN_COMMAND : text := lit "windows-service-run".
Definition FOREGROUND_RUN_COMMAND : text := lit "run".

Definition launch_arguments (l : DaemonLaunchOptions) (command : text) : list (list byte) :=
  [utf8 (lit "--home"); launch_home l; utf8 (lit "--profile"); utf8 (launch_profile l)] ++
  match config_file l with Some f => [utf8 (lit "--config"); f] | None => [] end ++
  [utf8 command].

Definition foreground_launch_arguments (l : DaemonLaunchOptions) : list (list byte) :=
  launch_arguments l FOREGROUND_RUN_COMMAND.
Definition windows_service_launch_arguments (l : DaemonLaunchOptions) : list (list byte) :=
  launch_arguments l WINDOWS_SERVICE_RUN_COMMAND.

(** ** Names *)

Definition dash : N := 45%N.

Definition mapped_char (c : N) : N :=
  if is_ascii_alphanumeric c || (c =? 46)%N || (c =? 95)%N || (c =? dash)%N then ascii_lower c
  else dash.

(** The loop of [sanitized_service_suffix]. *)
Fixpoint sanitize_loop (last_was_dash : bool) (t : text) : text :=
  match t with
  | [] => []
  | ch :: t =>
      let mapped := mapped_char ch in
      if (mapped =? dash)%N then
        if last_was_dash then sanitize_loop last_was_dash t else mapped :: sanitize_loop true t
      else mapped :: sanitize_loop false t
  end.

Definition sanitized_service_suffix (instance_id : text) : text :=
  let suffix := trim_by (λ c, (c =? dash)%N) (sanitize_loop false instance_id) in
  if is_empty suffix then lit "default" else suffix.

Definition service_name (c : ServiceConfig) : text :=
  lit "mutsuki-service-" ++ sanitized_service_suffix (instance_id (service c)).
Definition windows_service_name (c : ServiceConfig) : text := service_name c.
Definition launchd_label (c : ServiceConfig) : text :=
  lit "io.github.sena-nana.mutsuki-service." ++ sanitized_service_suffix (instance_id (service c)).
Definition windows_service_display_name (c : ServiceConfig) : text :=
  lit "Mutsuki Service (" ++ instance_id (service c) ++ lit ")".

(** ** Arguments as text *)

Definition validate_text (value field : text) : DaemonResult unit :=
  if existsb is_control value
  then Err (Bail (field ++ lit " contains an unsupported control character"))
  else Ok tt.

Definition os_string (value : list byte) (field : text) : DaemonResult text :=
  let? value := ok_or (from_utf8 value) (Bail (field ++ lit " is not valid UTF-8")) in
  let? _ := validate_text value field in
  Ok value.

Definition launch_program_arguments (l : DaemonLaunchOptions) : DaemonResult (list text) :=
  collect_results
    ((λ v, os_string v (lit "launch argument")) <$> executable_path l :: foreground_launch_arguments l).

(** ** systemd *)

Definition systemd_quote (value : text) : DaemonResult text :=
  let? _ := validate_text value (lit "systemd argument") in
  Ok ([34%N] ++
      replace_char 34 [92; 34]%N (replace_char 92 [92; 92]%N (replace_char 37 [37; 37]%N value)) ++
      [34%N]).

Definition path_char (b : byte) : text :=
  let c := Byte.to_N b in
  if is_ascii_upper c || is_ascii_lower c || is_ascii_digit c || (c =? 47)%N || (c =? 46)%N
     || (c =? 95)%N || (c =? 45)%N then [c]
  else if (c =? 37)%N then lit "%%"
  else lit "\x" ++ pad_zero 2 (show_hex c).

Definition systemd_path (value : text) : DaemonResult text :=
  let? _ := validate_text value (lit "systemd path") in
  Ok (utf8 value ≫= path_char).

Definition systemd_atom (value : text) : text := replace_char 37 [37; 37]%N value.

Definition line (t : text) : text := t ++ [10%N].

(** [div_ceil(1000).max(1)]. *)
Definition timeout_secs (c : ServiceConfig) : N :=
  N.max 1 ((shutdown_timeout_ms (core c) + 999) / 1000).

Definition wanted_by (scope : DaemonScope) : text :=
  match scope with UserScope => lit "default.target" | SystemScope => lit "multi-user.target" end.

(** [replace(['\n', '\r'], " ")] *)
Definition one_line (t : text) : text := replace_char 13 [32%N] (replace_char 10 [32%N] t).

Definition systemd_unit (c : ServiceConfig) (l : DaemonLaunchOptions) (scope : DaemonScope)
    (service_user : option text) : DaemonResult text :=
  let? arguments := launch_program_arguments l in
  let? arguments := collect_results (systemd_quote <$> arguments) in
  let arguments := join [32%N] arguments in
  let? wd := os_string (launch_home l) (lit "working directory") in
  let? working_directory := systemd_path wd in
  let user := match service_user with
              | Some u => line (lit "User=" ++ systemd_atom u)
              | None => []
              end in
  Ok (line (lit "[Unit]") ++
      line (lit "Description=Mutsuki Service (" ++ one_line (instance_id (service c)) ++ lit ")") ++
      line (lit "After=network-online.target") ++ line (lit "Wants=network-online.target") ++
      line [] ++ line (lit "[Service]") ++ line (lit "Type=simple") ++ user ++
      line (lit "WorkingDirectory=" ++ working_directory) ++
      line (lit "ExecStart=" ++ arguments) ++
      line (lit "Restart=on-failure") ++ line (lit "RestartSec=2") ++ line (lit "KillSignal=SIGTERM") ++
      line (lit "TimeoutStopSec=" ++ show_N (timeout_secs c)) ++
      line [] ++ line (lit "[Install]") ++ line (lit "WantedBy=" ++ wanted_by scope)).

(** ** launchd *)

(** What the plist crate's [Value] is used for; its writer is an argument. *)
Inductive plist : Type :=
| PString (t : text)
| PBoolean (b : bool)
| PArray (l : list plist)
| PDictionary (d : list (text * plist)).

Definition launchd_plist (to_writer_xml : plist → result (list byte) io_error) (c : ServiceConfig)
    (l : DaemonLaunchOptions) (scope : DaemonScope) (service_user : option text)
    : DaemonResult (list byte) :=
  let? arguments := launch_program_arguments l in
  let? wd := os_string (launch_home l) (lit "working directory") in
  let root :=
    [(lit "Label", PString (launchd_label c));
     (lit "ProgramArguments", PArray (PString <$> arguments));
     (lit "WorkingDirectory", PString wd);
     (lit "RunAtLoad", PBoolean true);
     (lit "ProcessType", PString (lit "Background"));
     (lit "KeepAlive", PDictionary [(lit "SuccessfulExit", PBoolean false)])] ++
    match scope with
    | SystemScope => [(lit "UserName", PString (default [] service_user))]
    | UserScope => []
    end in
  map_err (Failed (lit "failed to serialize launchd plist")) (to_writer_xml (PDictionary root)).

(** ** The syntax of definitions

    A unit file is a sequence of lines.  The command line of [ExecStart=] is a
    sequence of words; of the documented syntax, this is what the generated
    units use: double quotes with backslash escapes, [%%] for a percent sign,
    and in the arguments of the program [$$] for a dollar sign, any other use
    of which is replaced by a variable. *)

Fixpoint unit_lines (t : text) : list text :=
  match t with
  | [] => [[]]
  | c :: t =>
      if (c =? 10)%N then [] :: unit_lines t
      else match unit_lines t with [] => [[c]] | l :: ls => (c :: l) :: ls end
  end.

Inductive word_mode : Type := Between | Quoted (acc : text) | Escape (acc : text) | AfterQuote.

Fixpoint command_words (m : word_mode) (t : text) : option (list text) :=
  match m, t with
  | (Between | AfterQuote), [] => Some []
  | (Quoted _ | Escape _), [] => None
  | Between, c :: t =>
      if (c =? 32)%N then command_words Between t
      else if (c =? 34)%N then command_words (Quoted []) t
      else None
  | Quoted acc, c :: t =>
      if (c =? 34)%N then cons acc <$> command_words AfterQuote t
      else if (c =? 92)%N then command_words (Escape acc) t
      else command_words (Quoted (acc ++ [c])) t
  | Escape acc, c :: t =>
      if (c =? 34)%N || (c =? 92)%N then command_words (Quoted (acc ++ [c])) t else None
  | AfterQuote, c :: t => if (c =? 32)%N then command_words Between t else None
  end.

(** A doubled character stands for one; a single one is substituted. *)
Fixpoint undouble (x : N) (t : text) : option text :=
  match t with
  | [] => Some []
  | c :: t =>
      if (c =? x)%N then
        match t with
        | d :: t => if (d =? x)%N then cons x <$> undouble x t else None
        | [] => None
        end
      else cons c <$> undouble x t
  end.

Definition exec_start (t : text) : option (list text) :=
  words ← command_words Between t;
  words ← mapM (undouble 37) words;
  match words with
  | [] => None
  | program :: arguments => cons program <$> mapM (undouble 36) arguments
  end.

(** ** Lemmas on names *)

Definition name_char (c : N) : bool :=
  is_ascii_digit c || is_ascii_lower c || (c =? 46)%N || (c =? 95)%N || (c =? dash)%N.

(** No two dashes in a row, nor one after [last]. *)
Fixpoint single_dashes (last : bool) (t : text) : bool :=
  match t with
  | [] => true
  | c :: t => if (c =? dash)%N then negb last && single_dashes true t else single_dashes false t
  end.

Lemma mapped_name_char c : name_char (mapped_char c) = true.
Proof.
  unfold mapped_char, name_char. destruct (is_ascii_alphanumeric c) eqn:Ea; simpl.
  - unfold is_ascii_alphanumeric, ascii_lower, is_ascii_upper, is_ascii_lower, is_ascii_digit in *.
    repeat case_match; bool_props; rewrite ?orb_true_iff, ?andb_true_iff, ?N.leb_le, ?N.eqb_eq; lia.
  - destruct ((c =? 46)%N || (c =? 95)%N || (c =? dash)%N) eqn:E; [|done].
    bool_props; by subst.
Qed.

Lemma mapped_id c : name_char c = true → mapped_char c = c.
Proof.
  unfold mapped_char, name_char, is_ascii_alphanumeric, ascii_lower. intros H.
  destruct (is_ascii_upper c) eqn:Eu.
  - unfold is_ascii_upper, is_ascii_digit, is_ascii_lower in *. bool_props; subst; unfold dash in *; lia.
  - unfold is_ascii_digit, is_ascii_lower in *. repeat case_match; bool_props; try done; lia.
Qed.

Lemma sanitize_loop_clean b t :
  Forall (λ c, name_char c = true) (sanitize_loop b t) ∧ single_dashes b (sanitize_loop b t) = true.
Proof.
  revert b. induction t as [|c t IH]; intros b; [done|]. simpl.
  destruct (mapped_char c =? dash)%N eqn:E.
  - destruct b; [apply IH|]. split.
    + constructor; [apply mapped_name_char|apply IH].
    + simpl. rewrite E. apply IH.
  - split; [constructor; [apply mapped_name_char|apply IH]|]. simpl. rewrite E. apply IH.
Qed.

Lemma sanitize_loop_id b t :
  Forall (λ c, name_char c = true) t → single_dashes b t = true → sanitize_loop b t = t.
Proof.
  intros Hn. revert b. induction Hn as [|c t Hc Ht IH]; intros b Hs; [done|]. simpl in *.
  rewrite mapped_id by done. destruct (c =? dash)%N.
  - destruct b; [done|]. by rewrite IH.
  - by rewrite IH.
Qed.

Lemma single_dashes_weaken b t : single_dashes b t = true → single_dashes false t = true.
Proof. destruct t as [|c t]; [done|]. simpl. destruct (c =? dash)%N; [|done]. by destruct b. Qed.

Lemma single_dashes_prefix b a t : single_dashes b (a ++ t) = true → single_dashes b a = true.
Proof.
  revert b. induction a as [|c a IH]; intros b; [done|]. simpl.
  destruct (c =? dash)%N; [destruct b; [done|]|]; apply IH.
Qed.

Lemma single_dashes_suffix b a t : single_dashes b (a ++ t) = true → single_dashes false t = true.
Proof.
  revert b. induction a as [|c a IH]; intros b; simpl; [apply single_dashes_weaken|].
  destruct (c =? dash)%N; [destruct b; [done|]|]; apply IH.
Qed.

Lemma single_dashes_trim p t : single_dashes false t = true → single_dashes false (trim_by p t) = true.
Proof.
  intros Ht. unfold trim_by.
  destruct (trim_end_by_prefix p (drop_while p t)) as [k Hk].
  apply (single_dashes_prefix false _ k). rewrite <-Hk.
  destruct (drop_while_suffix p t) as [j Hj]. rewrite Hj in Ht.
  by apply single_dashes_suffix in Ht.
Qed.

Lemma sanitized_clean t :
  let s := sanitized_service_suffix t in
  Forall (λ c, name_char c = true) s ∧ single_dashes false s = true ∧
  trim_by (λ c, (c =? dash)%N) s = s ∧ s ≠ [].
Proof.
  unfold sanitized_service_suffix. destruct (sanitize_loop_clean false t) as [Hn Hs].
  set (s := sanitize_loop false t) in *. destruct (is_empty (trim_by _ s)) eqn:E.
  { split_and!; [repeat constructor|done|done|discriminate]. }
  split_and!; [| by apply single_dashes_trim | by apply trim_by_idem | by destruct (trim_by _ s)].
  rewrite Forall_forall in *. intros c Hc. apply Hn. by eapply elem_of_sublist, trim_by_sublist.
Qed.

(** The mangled name of an instance, as a text of its own. *)
Lemma sanitized_idempotent t :
  sanitized_service_suffix (sanitized_service_suffix t) = sanitized_service_suffix t.
Proof.
  destruct (sanitized_clean t) as (Hn & Hs & Ht & Hne). unfold sanitized_service_suffix at 1.
  rewrite sanitize_loop_id, Ht by done. by destruct (sanitized_service_suffix t).
Qed.

Lemma sanitized_no_char t c : name_char c = false → c ∉ sanitized_service_suffix t.
Proof.
  intros Hc Hin. destruct (sanitized_clean t) as (Hn & _).
  rewrite Forall_forall in Hn. rewrite (Hn c Hin) in Hc. done.
Qed.

(** ** Lemmas on quoting *)

Lemma undouble_replace x t : undouble x (replace_char x [x; x] t) = Some t.
Proof.
  unfold replace_char. induction t as [|c t IH]; [done|]. cbn.
  destruct (N.eqb_spec c x) as [->|Hn]; cbn.
  - rewrite N.eqb_refl. by rewrite IH.
  - rewrite (proj2 (N.eqb_neq c x)) by done. by rewrite IH.
Qed.

Lemma undouble_len x t u : undouble x t = Some u → (List.length u ≤ List.length t)%nat.
Proof.
  revert u. induction t as [t IH] using (induction_ltof1 _ (@List.length N)). unfold ltof in IH.
  intros u. destruct t as [|c t]; simpl; [by intros [= <-]|].
  destruct (c =? x)%N.
  - destruct t as [|d t]; [done|]. destruct (d =? x)%N; [|done]. simpl in *.
    intros (v & Hv & ->)%fmap_Some. apply IH in Hv; simpl; lia.
  - intros (v & Hv & ->)%fmap_Some. apply IH in Hv; simpl; lia.
Qed.

(** A text is what it stands for when the character does not occur. *)
Lemma undouble_id x t : undouble x t = Some t ↔ x ∉ t.
Proof.
  induction t as [|c t IH]; [by split; [intros _; apply not_elem_of_nil|]|]. simpl.
  rewrite not_elem_of_cons. destruct (N.eqb_spec c x) as [->|Hn].
  - split; [|naive_solver]. destruct t as [|d t]; [done|]. destruct (d =? x)%N; [|done].
    intros (v & Hv & E)%fmap_Some. apply undouble_len in Hv. injection E as E. subst v. simpl in Hv. lia.
  - rewrite <-IH. split.
    + intros (v & Hv & E)%fmap_Some. by injection E as ->.
    + by intros [_ ->].
Qed.

Lemma mapM_undouble_id x l : mapM (undouble x) l = Some l ↔ Forall (λ t, x ∉ t) l.
Proof.
  rewrite mapM_Some. split.
  - induction l as [|t l IH]; intros H; [done|]. inversion H; subst.
    constructor; [by apply undouble_id|by apply IH].
  - induction 1; constructor; [by apply undouble_id|done].
Qed.

Definition quote_body (t : text) : text :=
  replace_char 34 [92; 34]%N (replace_char 92 [92; 92]%N t).

Lemma command_words_quoted acc t rest :
  command_words (Quoted acc) (quote_body t ++ 34%N :: rest)
  = cons (acc ++ t) <$> command_words AfterQuote rest.
Proof.
  unfold quote_body, replace_char. revert acc. induction t as [|c t IH]; intros acc.
  { cbn. by rewrite app_nil_r. }
  assert (E : acc ++ c :: t = (acc ++ [c]) ++ t) by (by rewrite <-(assoc_L (++))).
  rewrite E, <-IH. clear IH E. cbn.
  destruct (N.eqb_spec c 92) as [->|H92]; [done|]. cbn.
  destruct (N.eqb_spec c 34) as [->|H34]; [done|]. cbn.
  by rewrite (proj2 (N.eqb_neq c 34)), (proj2 (N.eqb_neq c 92)).
Qed.

Definition percent (t : text) : text := replace_char 37 [37; 37]%N t.

Lemma systemd_quote_ok v q :
  systemd_quote v = Ok q → q = 34%N :: quote_body (percent v) ++ [34%N] ∧ existsb is_control v = false.
Proof.
  unfold systemd_quote, validate_text. destruct (existsb is_control v); [done|]. cbn [rbind].
  by intros [= <-].
Qed.

Lemma command_words_line vs qs :
  collect_results (systemd_quote <$> vs) = Ok qs →
  command_words Between (join [32%N] qs) = Some (percent <$> vs).
Proof.
  intros H%collect_results_ok. revert qs H. induction vs as [|v vs IH]; intros [|q qs] H; try done.
  injection H as Hq Hqs. destruct (systemd_quote_ok _ _ Hq) as [-> _].
  assert (Hw : command_words Between (34%N :: quote_body (percent v) ++ 34%N :: match qs with [] => [] | _ => 32%N :: join [32%N] qs end)
    = Some (percent <$> v :: vs)).
  { cbn [command_words N.eqb]. cbn. rewrite command_words_quoted. cbn.
    destruct qs as [|q' qs]; [destruct vs; [done|discriminate]|].
    cbn [command_words]. change (32 =? 32)%N with true. cbv iota. by rewrite IH. }
  destruct qs; cbn [join] in *; [exact Hw|].
  rewrite <-Hw. f_equal. cbn. by rewrite <-(assoc_L (++)).
Qed.

(** The words of a generated command line, and what becomes of them. *)
Lemma exec_start_line v vs qs :
  collect_results (systemd_quote <$> v :: vs) = Ok qs →
  exec_start (join [32%N] qs) = cons v <$> mapM (undouble 36) vs.
Proof.
  intros H%command_words_line. unfold exec_start. rewrite H. cbn [mbind option_bind].
  assert (Hm : ∀ l, mapM (undouble 37) (percent <$> l) = Some l).
  { intros l. apply mapM_Some. induction l; constructor; [apply undouble_replace|done]. }
  by rewrite Hm.
Qed.

(** ** Lemmas on lines *)

(** Closes a goal from the membership of a character in a literal text. *)
Ltac absurd_in H :=
  repeat (apply elem_of_cons in H as [H|H]; [discriminate H|]); by apply not_elem_of_nil in H.

Definition newline_free (t : text) : Prop := 10%N ∉ t.

Lemma unit_lines_line t rest : newline_free t → unit_lines (line t ++ rest) = t :: unit_lines rest.
Proof.
  unfold line, newline_free. induction t as [|c t IH]; intros H; [done|].
  apply not_elem_of_cons in H as [Hc Ht]. simpl. rewrite (proj2 (N.eqb_neq c 10)) by congruence.
  by rewrite IH.
Qed.

Lemma elem_replace_char x c r t : x ∈ replace_char c r t → x ∈ r ∨ (x ∈ t ∧ x ≠ c).
Proof.
  unfold replace_char. induction t as [|d t IH]; cbn; [by intros ?%not_elem_of_nil|].
  intros [H|H]%elem_of_app.
  - destruct (N.eqb_spec d c) as [->|Hd]; [by left|].
    apply list_elem_of_singleton in H as ->. right. split; [apply list_elem_of_here|done].
  - destruct (IH H) as [|[H1 H2]]; [by left|]. right. split; [by apply list_elem_of_further|done].
Qed.

Lemma no_control_newline t : existsb is_control t = false → newline_free t.
Proof.
  unfold newline_free. intros H Hin. apply not_true_iff_false in H. apply H.
  apply existsb_exists. exists 10%N. split; [by apply list_elem_of_In|done].
Qed.

Lemma newline_free_app a b : newline_free a → newline_free b → newline_free (a ++ b).
Proof. unfold newline_free. rewrite elem_of_app. tauto. Qed.

Lemma newline_free_percent t : newline_free t → newline_free (percent t).
Proof. intros Ht [H|[H _]]%elem_replace_char; [|done]. absurd_in H. Qed.

Lemma newline_free_one_line t : newline_free (one_line t).
Proof.
  unfold one_line. intros [H|[[H|[_ H]]%elem_replace_char _]]%elem_replace_char; [..|done]; absurd_in H.
Qed.

Lemma newline_free_quote v q : systemd_quote v = Ok q → newline_free q.
Proof.
  intros [-> Hv]%systemd_quote_ok. apply no_control_newline, newline_free_percent in Hv.
  change (34%N :: quote_body (percent v) ++ [34%N]) with ([34%N] ++ quote_body (percent v) ++ [34%N]).
  repeat apply newline_free_app; [by intros ?%list_elem_of_singleton| |by intros ?%list_elem_of_singleton].
  unfold quote_body. intros [H|[[H|[H _]]%elem_replace_char _]]%elem_replace_char; [..|done];
    absurd_in H.
Qed.

Lemma newline_free_quotes vs qs :
  collect_results (systemd_quote <$> vs) = Ok qs → newline_free (join [32%N] qs).
Proof.
  intros H%collect_results_ok. revert qs H. induction vs as [|v vs IH]; intros [|q qs] H; try done.
  { intros ?%not_elem_of_nil. done. }
  injection H as Hq Hqs. apply newline_free_quote in Hq. destruct qs as [|q' qs]; [done|].
  apply newline_free_app; [done|]. apply newline_free_app; [by intros ?%list_elem_of_singleton|].
  by apply (IH (q' :: qs)).
Qed.

(** The characters of an encoded path. *)
Definition path_safe (c : N) : bool :=
  is_ascii_alphanumeric c || (c =? 47)%N || (c =? 46)%N || (c =? 95)%N || (c =? 45)%N
  || (c =? 37)%N || (c =? 92)%N.

Lemma path_char_safe b : forallb path_safe (path_char b) = true.
Proof. by destruct b. Qed.

Lemma systemd_path_ok p e : systemd_path p = Ok e → e = utf8 p ≫= path_char.
Proof. unfold systemd_path, validate_text. by destruct (existsb is_control p); intros [= <-]. Qed.

Lemma systemd_path_safe p e : systemd_path p = Ok e → Forall (λ c, path_safe c = true) e.
Proof.
  intros ->%systemd_path_ok. generalize (utf8 p) as l. induction l as [|b l IH]; [done|].
  change ((b :: l) ≫= path_char) with (path_char b ++ (l ≫= path_char)).
  apply Forall_app. split; [|done]. apply Forall_forall. intros c Hc.
  pose proof (path_char_safe b) as H. rewrite forallb_forall in H. apply H. by apply list_elem_of_In.
Qed.

Lemma newline_free_path p e : systemd_path p = Ok e → newline_free e.
Proof. intros H%systemd_path_safe Hin. rewrite Forall_forall in H. by specialize (H _ Hin). Qed.

(** The encoded bytes are told apart. *)
Definition hex_digit (c : N) : N := if (c <=? 57)%N then c - 48 else c - 87.

Definition decode_path_char (t : text) : option (N * text) :=
  match t with
  | 37%N :: 37%N :: t => Some (37%N, t)
  | 92%N :: 120%N :: a :: b :: t => Some (16 * hex_digit a + hex_digit b, t)%N
  | c :: t => Some (c, t)
  | [] => None
  end.

Lemma decode_path_char_ok b t : decode_path_char (path_char b ++ t) = Some (Byte.to_N b, t).
Proof. by destruct b. Qed.

Lemma path_bytes_inj (l k : list byte) : l ≫= path_char = k ≫= path_char → l = k.
Proof.
  revert k. induction l as [|b l IH]; intros [|d k] H; [done|..].
  - apply (f_equal decode_path_char) in H.
    change ((d :: k) ≫= path_char) with (path_char d ++ (k ≫= path_char)) in H.
    by rewrite decode_path_char_ok in H.
  - apply (f_equal decode_path_char) in H.
    change ((b :: l) ≫= path_char) with (path_char b ++ (l ≫= path_char)) in H.
    by rewrite decode_path_char_ok in H.
  - apply (f_equal decode_path_char) in H.
    change ((b :: l) ≫= path_char) with (path_char b ++ (l ≫= path_char)) in H.
    change ((d :: k) ≫= path_char) with (path_char d ++ (k ≫= path_char)) in H.
    rewrite !decode_path_char_ok in H. injection H as Hb Hl.
    apply byte_to_N_inj in Hb as ->. f_equal. by apply IH.
Qed.

Lemma newline_free_uint d : newline_free (uint_text d).
Proof.
  unfold newline_free. induction d; cbn; [apply not_elem_of_nil|..]; apply not_elem_of_cons; (split; [done|exact IHd]).
Qed.

Lemma newline_free_show n : newline_free (show_N n).
Proof. apply newline_free_uint. Qed.

#[local] Hint Resolve newline_free_app newline_free_percent newline_free_one_line newline_free_quotes
  newline_free_path newline_free_show no_control_newline : host.

(** ** Properties *)

(** The definition a launch stands for, line by line. *)
Definition unit_content (c : ServiceConfig) (scope : DaemonScope) (user : option text)
    (working_directory command : text) : list text :=
  [lit "[Unit]"; lit "Description=Mutsuki Service (" ++ one_line (instance_id (service c)) ++ lit ")";
   lit "After=network-online.target"; lit "Wants=network-online.target"; [];
   lit "[Service]"; lit "Type=simple"] ++
  match user with Some u => [lit "User=" ++ percent u] | None => [] end ++
  [lit "WorkingDirectory=" ++ working_directory; lit "ExecStart=" ++ command;
   lit "Restart=on-failure"; lit "RestartSec=2"; lit "KillSignal=SIGTERM";
   lit "TimeoutStopSec=" ++ show_N (timeout_secs c); []; lit "[Install]";
   lit "WantedBy=" ++ wanted_by scope; []].

(** Reads one line off the front. *)
Ltac read_line := rewrite unit_lines_line by
  (repeat (apply newline_free_app; [by apply no_control_newline|]);
   first [by auto with host | by apply no_control_newline
         | apply newline_free_app; [by auto with host|by apply no_control_newline]]).

Lemma unit_lines_content c scope user wd cmd :
  match user with Some u => newline_free u | None => True end → newline_free wd → newline_free cmd →
  unit_lines
    (line (lit "[Unit]") ++
      line (lit "Description=Mutsuki Service (" ++ one_line (instance_id (service c)) ++ lit ")") ++
      line (lit "After=network-online.target") ++ line (lit "Wants=network-online.target") ++
      line [] ++ line (lit "[Service]") ++ line (lit "Type=simple") ++
      match user with Some u => line (lit "User=" ++ systemd_atom u) | None => [] end ++
      line (lit "WorkingDirectory=" ++ wd) ++ line (lit "ExecStart=" ++ cmd) ++
      line (lit "Restart=on-failure") ++ line (lit "RestartSec=2") ++ line (lit "KillSignal=SIGTERM") ++
      line (lit "TimeoutStopSec=" ++ show_N (timeout_secs c)) ++
      line [] ++ line (lit "[Install]") ++ line (lit "WantedBy=" ++ wanted_by scope))
  = unit_content c scope user wd cmd.
Proof.
  intros Hu Hw Hc.
  assert (Hwb : newline_free (wanted_by scope)) by (destruct scope; by apply no_control_newline).
  assert (He : line (lit "WantedBy=" ++ wanted_by scope)
    = line (lit "WantedBy=" ++ wanted_by scope) ++ []) by (by rewrite app_nil_r).
  rewrite He. clear He.
  assert (H0 : newline_free []) by apply not_elem_of_nil.
  unfold unit_content. do 7 read_line.
  destruct user as [u|]; [read_line|rewrite app_nil_l]; do 9 read_line; done.
Qed.


(** Working directories are told apart by what is written for them, which
    has only characters without a meaning of their own and escapes. *)
Theorem paths_told_apart a b e :
  wf_text a → wf_text b → systemd_path a = Ok e → systemd_path b = Ok e →
  a = b ∧ Forall (λ c, path_safe c = true) e.
Proof.
  intros Ha Hb Ea Eb. split; [|by eapply systemd_path_safe].
  apply systemd_path_ok in Ea, Eb. rewrite Ea in Eb. apply path_bytes_inj in Eb.
  apply (f_equal from_utf8) in Eb. rewrite !from_utf8_utf8 in Eb by done. by injection Eb.
Qed.

(** Whatever the instance is called, its service has a name of lower case
    ASCII letters, digits, dots, underscores and single inner dashes; in
    particular it is no path, and naming a service by its own name changes
    nothing. *)
Theorem service_names_safe instance :
  let s := sanitized_service_suffix instance in
  s ≠ [] ∧ Forall (λ c, name_char c = true) s ∧ single_dashes false s = true ∧ (47%N ∉ s) ∧
  hd_error s ≠ Some dash ∧ last s ≠ Some dash ∧ sanitized_service_suffix s = s.
Proof.
  destruct (sanitized_clean instance) as (Hn & Hs & Ht & Hne). simpl.
  split_and!; [done|done|done|by apply sanitized_no_char| | |apply sanitized_idempotent].
  - intros Hd. destruct (sanitized_service_suffix instance) as [|c s]; [done|].
    injection Hd as ->. by apply trim_by_head in Ht.
  - intros (s' & E)%last_Some. rewrite <-Ht in E. by apply trim_end_by_last in E.
Qed.

(** Instances that differ in case or in other characters share a service. *)
Lemma service_names_collide :
  sanitized_service_suffix (lit "Prod") = sanitized_service_suffix (lit "prod") ∧
  sanitized_service_suffix (lit "a b") = sanitized_service_suffix (lit "a/b").
Proof. by vm_compute. Qed.

(** ** Witnesses *)

Module Sample.

Definition config (instance : text) : ServiceConfig :=
  let c := default_config false None in
  mkServiceConfig
    (mkServiceSection (lit "prod") instance (lit "/opt/mutsuki/home") (lit "data") (lit "logs") (lit "plugins")
       (lit "/opt/mutsuki/run"))
    (mkCoreSection (max_tasks (core c)) 3500 (worker_profile (core c)) None None None None None None None None)
    (ipc c) (plugins c) (runners c) (observe c) (security c).

Definition launch (home profile : text) : DaemonLaunchOptions :=
  mkLaunch (utf8 (lit "/opt/mutsuki/bin/mutsuki-service"))
    (Some (utf8 (lit "/opt/mutsuki/config/service.toml"))) (utf8 home) profile true.

Definition unit_of (l : DaemonLaunchOptions) : text :=
  match systemd_unit (config (lit "Prod/Main 01")) l SystemScope (Some (lit "mutsuki")) with
  | Ok u => u
  | Err _ => []
  end.

End Sample.


(** An argument with a dollar sign does not arrive as it was given. *)
Lemma dollar_is_substituted :
  rmap exec_start (rmap (join [32%N]) (collect_results (systemd_quote <$> [lit "/bin/run"; lit "a$$b"])))
  = Ok (Some [lit "/bin/run"; lit "a$b"]).
Proof. by vm_compute. Qed.

Lemma paths_told_apart_witness :
  let p := lit "/opt/mutsuki/product home" in
  systemd_path p = Ok (lit "/opt/mutsuki/product\x20home") ∧ p = p ∧
  Forall (λ c, path_safe c = true) (lit "/opt/mutsuki/product\x20home").
Proof.
  intros p. assert (E : systemd_path p = Ok (lit "/opt/mutsuki/product\x20home")) by by vm_compute.
  assert (Hp : wf_text p) by (by repeat constructor).
  split; [exact E|]. apply (paths_told_apart p p); [exact Hp|exact Hp|exact E|exact E].
Defined.
