(* ===== verification/Daemon.v ===== *)
(** * The daemon on Unix

    The [platform] module of [crates/mutsuki-service-daemon/src/lib.rs] for
    Unix, with [systemd] and [launchd]: the scope of an installation, the token
    file, definitions written beside their target and moved over it, and the
    commands that are run.  A host is its file system and the commands run so
    far; what a command answers may depend on all of them. *)

From S2P Require Import Prelude Text ConfigTypes Frame Fs Transport ServiceUnit.

(** ** The host *)

Record output : Type := mkOutput { out_success : bool; out_stdout : list byte; out_stderr : list byte }.

(** What running a command answers, given the commands before it, and the home
    directory that the dirs crate finds. *)
Class Shell : Type := {
  run_process : list (list text) → list text → result output io_error;
  user_home : option text;
}.

Record host : Type := mkHost { disk : world; commands : list (list text) }.

(** Operations on the host that can fail. *)
Definition M (A : Type) : Type := host → DaemonResult A * host.

Definition mret {A} (a : A) : M A := λ h, (Ok a, h).
Definition mfail {A} (e : DaemonError) : M A := λ h, (Err e, h).
Definition mlift {A} (r : DaemonResult A) : M A := λ h, (r, h).
Definition mthen {A B} (m : M A) (f : A → M B) : M B := λ h,
  match m h with (Ok a, h) => f a h | (Err e, h) => (Err e, h) end.

Declare Scope daemon_scope.
Notation "'let!' x ':=' m 'in' k" := (mthen m (fun x => k))
  (at level 10, x pattern, m at level 100, k at level 200) : daemon_scope.
Open Scope daemon_scope.

(** A file operation with its context. *)
Definition on_disk (op : world → result unit io_error * world) (context : text) : M unit := λ h,
  let '(r, w) := op (disk h) in (map_err (Failed context) r, mkHost w (commands h)).

(** [set_permissions] with mode 0o644. *)
Definition set_public (p : text) (w : world) : result unit io_error * world :=
  match faults w (OpChmod p) with
  | Some (e, _) => (Err e, w)
  | None =>
      (Ok tt, mkWorld (files w) (dirs w) (private w ∖ {[p]}) (env w) (faults w) (nanos w) (pid w))
  end.

(** [String::from_utf8_lossy]; every round consumes a byte. *)
Fixpoint lossy (fuel : nat) (l : list byte) : text :=
  match fuel with
  | O => []
  | S fuel =>
      match utf8_error l 0 with
      | None => default [] (from_utf8 l)
      | Some (valid, None) => default [] (from_utf8 (take (N.to_nat valid) l)) ++ [0xFFFD%N]
      | Some (valid, Some bad) =>
          default [] (from_utf8 (take (N.to_nat valid) l)) ++ [0xFFFD%N] ++
          lossy fuel (drop (N.to_nat (valid + bad)) l)
      end
  end.

Definition from_utf8_lossy (l : list byte) : text := lossy (S (List.length l)) l.

(** ** Scope *)

Definition validate_scope (scope : DaemonScope) (service_user : option text)
    : DaemonResult (option text) :=
  match scope with
  | UserScope =>
      match service_user with
      | Some _ => Err (Bail (lit "service_user is valid only for system scope"))
      | None => Ok None
      end
  | SystemScope =>
      let? user := ok_or (service_user ≫= λ u, let u := trim u in if is_empty u then None else Some u)
                     (Bail (lit "system scope requires an explicit non-root service_user")) in
      let? _ := validate_text user (lit "service_user") in
      if text_eqb user (lit "root") then Err (Bail (lit "system scope service_user must not be root"))
      else Ok (Some user)
  end.

Section files.
Context `{Shell}.

Definition home_dir_ : DaemonResult text :=
  ok_or user_home (Bail (lit "failed to resolve user home directory")).

(** ** Commands *)

Definition spawn (c : list text) : host → result output io_error * host := λ h,
  (run_process (commands h) c, mkHost (disk h) (commands h ++ [c])).

Definition run_command (c : list text) (action : text) : M unit := λ h,
  match spawn c h with
  | (Err e, h) => (Err (Failed (lit "failed to " ++ action) e), h)
  | (Ok out, h) =>
      if out_success out then (Ok tt, h)
      else (Err (Bail (lit "failed to " ++ action ++ lit ": " ++ trim (from_utf8_lossy (out_stderr out)))), h)
  end.

Definition command_succeeds (c : list text) : M bool := λ h,
  let '(r, h) := spawn c h in
  (Ok match r with Ok out => out_success out | Err _ => false end, h).

Definition ignore_command_failure (c : list text) : M unit := λ h, (Ok tt, (spawn c h).2).

(** ** Files *)

Definition token_path (c : ServiceConfig) : text := path_join (run_dir (service c)) (lit "control.token").

Definition persist_control_token (c : ServiceConfig) (service_user : option text) : M unit :=
  let! _ := on_disk (create_dir_all (run_dir (service c)))
              (lit "failed to create run dir " ++ run_dir (service c)) in
  let! _ := on_disk (fs_write (token_path c) (utf8 (config_token c)))
              (lit "failed to write control token " ++ token_path c) in
  let! _ := on_disk (set_permissions (token_path c))
              (lit "failed to secure control token " ++ token_path c) in
  match service_user with
  | Some u => run_command [lit "chown"; u; token_path c] (lit "assign control token ownership")
  | None => mret tt
  end.

(** The paths given to it have a parent. *)
Definition write_definition (path : text) (bytes : list byte) : M unit :=
  let! _ := on_disk (create_dir_all (parent path))
              (lit "failed to create service directory " ++ parent path) in
  let temporary := with_extension path (lit "tmp") in
  let! _ := on_disk (fs_write temporary bytes) (lit "failed to write service definition " ++ temporary) in
  let! _ := on_disk (set_public temporary)
              (lit "failed to set service definition permissions " ++ temporary) in
  on_disk (rename temporary path) (lit "failed to install service definition " ++ path).

(** A definition that is not there is as good as removed. *)
Definition remove_definition (path context : text) : M unit := λ h,
  let '(r, w) := remove_file path (disk h) in
  (match r with
   | Ok _ => Ok tt
   | Err e => if text_eqb (io_text e) (io_text no_such_file) then Ok tt else Err (Failed (context ++ path) e)
   end, mkHost w (commands h)).

End files.

(** ** systemd *)

Module systemd.
Section systemd.
Context `{Shell}.

Definition definition_path (c : ServiceConfig) (scope : DaemonScope) : DaemonResult text :=
  let? directory :=
    match scope with
    | UserScope => let? home := home_dir_ in Ok (path_join home (lit ".config/systemd/user"))
    | SystemScope => Ok (lit "/etc/systemd/system")
    end in
  Ok (path_join directory (service_name c ++ lit ".service")).

Definition systemctl (scope : DaemonScope) : list text :=
  lit "systemctl" :: match scope with UserScope => [lit "--user"] | SystemScope => [] end.

Definition run_systemctl (scope : DaemonScope) (args : list text) (action : text) : M unit :=
  run_command (systemctl scope ++ args) action.
Definition ignore_systemctl (scope : DaemonScope) (args : list text) : M unit :=
  ignore_command_failure (systemctl scope ++ args).

Definition install (c : ServiceConfig) (l : DaemonLaunchOptions) (scope : DaemonScope)
    (service_user : option text) : M unit :=
  let! path := mlift (definition_path c scope) in
  let! unit := mlift (systemd_unit c l scope service_user) in
  let! _ := write_definition path (utf8 unit) in
  let! _ := run_systemctl scope [lit "daemon-reload"] (lit "reload systemd units") in
  run_systemctl scope [lit "enable"; service_name c] (lit "enable systemd service").

Definition start (c : ServiceConfig) (scope : DaemonScope) : M unit :=
  run_systemctl scope [lit "start"; service_name c] (lit "start systemd service").

Definition uninstall (c : ServiceConfig) (scope : DaemonScope) : M unit :=
  let! _ := ignore_systemctl scope [lit "stop"; service_name c] in
  let! _ := ignore_systemctl scope [lit "disable"; service_name c] in
  let! path := mlift (definition_path c scope) in
  let! _ := remove_definition path (lit "failed to remove systemd unit ") in
  run_systemctl scope [lit "daemon-reload"] (lit "reload systemd units").

End systemd.
End systemd.

(** ** launchd *)

Module launchd.
Section launchd.
Context `{Shell}.

Definition definition_path (c : ServiceConfig) (scope : DaemonScope) : DaemonResult text :=
  let? directory :=
    match scope with
    | UserScope => let? home := home_dir_ in Ok (path_join home (lit "Library/LaunchAgents"))
    | SystemScope => Ok (lit "/Library/LaunchDaemons")
    end in
  Ok (path_join directory (launchd_label c ++ lit ".plist")).

Definition domain (scope : DaemonScope) : M text :=
  match scope with
  | SystemScope => mret (lit "system")
  | UserScope => λ h,
      match spawn [lit "id"; lit "-u"] h with
      | (Err e, h) => (Err (Failed (lit "failed to resolve current uid") e), h)
      | (Ok out, h) =>
          (if out_success out then
             let? uid := ok_or (from_utf8 (out_stdout out)) (Bail (lit "current uid is not UTF-8")) in
             let uid := trim uid in
             let? _ := validate_text uid (lit "uid") in
             Ok (lit "gui/" ++ uid)
           else Err (Bail (lit "failed to resolve current uid")), h)
      end
  end.

Definition service_target (c : ServiceConfig) (scope : DaemonScope) : M text :=
  let! d := domain scope in mret (d ++ lit "/" ++ launchd_label c).

Definition install (to_writer_xml : plist → result (list byte) io_error) (c : ServiceConfig)
    (l : DaemonLaunchOptions) (scope : DaemonScope) (service_user : option text) : M unit :=
  let! path := mlift (definition_path c scope) in
  let! bytes := mlift (launchd_plist to_writer_xml c l scope service_user) in
  let! _ := write_definition path bytes in
  let! target := service_target c scope in
  run_command [lit "launchctl"; lit "enable"; target] (lit "enable launchd service").

Definition start (c : ServiceConfig) (scope : DaemonScope) : M unit :=
  let! target := service_target c scope in
  let! loaded := command_succeeds [lit "launchctl"; lit "print"; target] in
  if loaded then
    run_command [lit "launchctl"; lit "kickstart"; lit "-k"; target] (lit "start launchd service")
  else
    let! d := domain scope in
    let! path := mlift (definition_path c scope) in
    run_command [lit "launchctl"; lit "bootstrap"; d; path] (lit "bootstrap launchd service").

Definition uninstall (c : ServiceConfig) (scope : DaemonScope) : M unit :=
  let! target := service_target c scope in
  let! _ := ignore_command_failure [lit "launchctl"; lit "bootout"; target] in
  let! path := mlift (definition_path c scope) in
  remove_definition path (lit "failed to remove launchd plist ").

End launchd.
End launchd.

(** ** The platform *)

Section platform.
Context `{Shell}.

Inductive unix : Type :=
| Linux
| Macos (to_writer_xml : plist → result (list byte) io_error)
| OtherUnix (name : text).

Definition unsupported (os operation : text) : M unit :=
  mfail (Bail (lit "daemon " ++ operation ++ lit " is unsupported on " ++ os)).

Definition install (os : unix) (c : ServiceConfig) (l : DaemonLaunchOptions) (scope : DaemonScope)
    (service_user : option text) : M unit :=
  let! service_user := mlift (validate_scope scope service_user) in
  let! _ := if persist_control_token_ l then persist_control_token c service_user else mret tt in
  match os with
  | Linux => systemd.install c l scope service_user
  | Macos xml => launchd.install xml c l scope service_user
  | OtherUnix name => unsupported name (lit "install")
  end.

Definition uninstall (os : unix) (c : ServiceConfig) (scope : DaemonScope) : M unit :=
  match os with
  | Linux => systemd.uninstall c scope
  | Macos _ => launchd.uninstall c scope
  | OtherUnix name => unsupported name (lit "uninstall")
  end.

Definition start (os : unix) (c : ServiceConfig) (scope : DaemonScope) : M unit :=
  match os with
  | Linux => systemd.start c scope
  | Macos _ => launchd.start c scope
  | OtherUnix name => unsupported name (lit "start")
  end.

Definition definition_path (os : unix) (c : ServiceConfig) (scope : DaemonScope) : option text :=
  match os with
  | Linux => match systemd.definition_path c scope with Ok p => Some p | Err _ => None end
  | Macos _ => match launchd.definition_path c scope with Ok p => Some p | Err _ => None end
  | OtherUnix _ => None
  end.

End platform.

(** ** Lemmas on paths *)

Section lemmas.
Context `{Shell}.

Lemma last_path_join d n x c : n = x ++ [c] → 47%N ∉ n → last (path_join d n) = Some c.
Proof. intros -> Hn. destruct (path_join_name d _ Hn) as (y & -> & _). by rewrite (assoc_L (++)), last_snoc. Qed.

Lemma last_token c : last (token_path c) = Some 110%N.
Proof.
  apply (last_path_join _ _ (lit "control.toke")); [done|].
  intros Hin. absurd_in Hin.
Qed.

Lemma last_tmp d n e c :
  n ≠ [] → 47%N ∉ n ++ 46%N :: e → 46%N ∉ e → last (n ++ 46%N :: e) = Some c → c ≠ 46%N →
  last (with_extension (path_join d (n ++ 46%N :: e)) (lit "tmp")) = Some 112%N.
Proof.
  intros Hn Hs He Hl Hc. unfold with_extension. destruct (path_join_name d _ Hs) as (x & _ & ->).
  assert (is_empty (n ++ 46%N :: e) = false) as -> by by destruct n.
  assert (text_eqb (n ++ 46%N :: e) (lit "..") = false) as ->.
  { apply bool_decide_eq_false. intros Eq. rewrite Eq in Hl. by injection Hl. }
  rewrite file_stem_app by done. cbn [orb].
  change (lit "." ++ lit "tmp") with (lit ".tm" ++ [112%N]). by rewrite !(assoc_L (++)), last_snoc.
Qed.

Lemma service_name_chars instance prefix :
  forallb (λ c, negb (c =? 47)%N) prefix = true → 47%N ∉ prefix ++ sanitized_service_suffix instance.
Proof.
  intros Hp [Hin|Hin]%elem_of_app; [|by apply sanitized_no_char in Hin].
  rewrite forallb_forall in Hp. apply list_elem_of_In in Hin. by apply Hp in Hin.
Qed.

(** The definition, the file it is written to first and the token. *)
Lemma definition_paths os c scope p :
  definition_path os c scope = Some p →
  with_extension p (lit "tmp") ≠ p ∧ p ≠ token_path c ∧ with_extension p (lit "tmp") ≠ token_path c.
Proof.
  assert (Hgen : ∀ d n e last_c, n ≠ [] → 47%N ∉ n ++ 46%N :: e → 46%N ∉ e →
    last (n ++ 46%N :: e) = Some last_c → last_c ≠ 46%N → last_c ≠ 112%N → last_c ≠ 110%N →
    path_join d (n ++ 46%N :: e) = p →
    with_extension p (lit "tmp") ≠ p ∧ p ≠ token_path c ∧ with_extension p (lit "tmp") ≠ token_path c).
  { intros d n e lc Hn Hs He Hl H46 H112 H110 <-. pose proof (last_tmp d n e lc Hn Hs He Hl H46) as Ht.
    pose proof (last_token c) as Hk.
    assert (Hp : last (path_join d (n ++ 46%N :: e)) = Some lc).
    { destruct (path_join_name d _ Hs) as (x & -> & _). apply last_Some in Hl as (y & ->).
      by rewrite (assoc_L (++)), last_snoc. }
    split_and!; intros E; apply (f_equal last) in E; congruence. }
  assert (Hext : ∀ e n, forallb (λ c, negb (c =? 47)%N) e = true → 47%N ∉ n → 47%N ∉ n ++ e).
  { intros e n He Hn [Hin|Hin]%elem_of_app; [done|].
    rewrite forallb_forall in He. apply list_elem_of_In in Hin. by apply He in Hin. }
  destruct os as [|xml|]; simpl; [| |done].
  - destruct (systemd.definition_path c scope) as [q|] eqn:E; [|done]. intros [= ->].
    unfold systemd.definition_path in E. apply rbind_ok in E as (d & _ & [= E]).
    apply (Hgen d (service_name c) (lit "service") 101%N); try done.
    + apply Hext; [done|]. by apply service_name_chars.
    + intros Hin. absurd_in Hin.
    + change (46%N :: lit "service") with (lit ".servic" ++ [101%N]). by rewrite (assoc_L (++)), last_snoc.
  - destruct (launchd.definition_path c scope) as [q|] eqn:E; [|done]. intros [= ->].
    unfold launchd.definition_path in E. apply rbind_ok in E as (d & _ & [= E]).
    apply (Hgen d (launchd_label c) (lit "plist") 116%N); try done.
    + apply Hext; [done|]. by apply service_name_chars.
    + intros Hin. absurd_in Hin.
    + change (46%N :: lit "plist") with (lit ".plis" ++ [116%N]). by rewrite (assoc_L (++)), last_snoc.
Qed.

(** ** Lemmas on operations *)

Lemma mthen_ok {A B} (m : M A) (f : A → M B) h b h' :
  mthen m f h = (Ok b, h') ↔ ∃ a h1, m h = (Ok a, h1) ∧ f a h1 = (Ok b, h').
Proof. unfold mthen. destruct (m h) as [[a|e] h1]; naive_solver. Qed.

(** An operation that at most runs commands. *)
Definition commands_only {A} (m : M A) : Prop := ∀ h, disk (m h).2 = disk h.

Lemma commands_only_then {A B} (m : M A) (f : A → M B) :
  commands_only m → (∀ a, commands_only (f a)) → commands_only (let! a := m in f a).
Proof.
  intros Hm Hf h. unfold mthen. specialize (Hm h). destruct (m h) as [[a|e] h1]; simpl in *; [|done].
  by rewrite Hf.
Qed.

Lemma commands_only_run c a : commands_only (run_command c a).
Proof. intros h. unfold run_command, spawn. destruct (run_process _ _); [|done]. by destruct (out_success _). Qed.

Lemma commands_only_lift {A} (r : DaemonResult A) : commands_only (mlift r).
Proof. done. Qed.

Lemma commands_only_ignore c : commands_only (ignore_command_failure c).
Proof. done. Qed.

Lemma commands_only_domain scope : commands_only (launchd.domain scope).
Proof. intros h. destruct scope; simpl; [|done]. unfold spawn. by destruct (run_process _ _). Qed.

Lemma commands_only_ret {A} (a : A) : commands_only (mret a).
Proof. done. Qed.

#[local] Hint Resolve commands_only_then commands_only_run commands_only_lift commands_only_ignore
  commands_only_domain commands_only_ret : host.

Lemma commands_only_target c scope : commands_only (launchd.service_target c scope).
Proof. unfold launchd.service_target. auto with host. Qed.
#[local] Hint Resolve commands_only_target : host.

Lemma write_definition_spec path bytes h r h' :
  let tmp := with_extension path (lit "tmp") in
  tmp ≠ path → write_definition path bytes h = (r, h') →
  commands h' = commands h ∧ faults (disk h') = faults (disk h) ∧
  (∀ q, q ≠ path → q ≠ tmp → files (disk h') !! q = files (disk h) !! q ∧
     (q ∈ private (disk h) → q ∈ private (disk h'))) ∧
  match r with
  | Ok _ => files (disk h') !! path = Some bytes ∧ files (disk h') !! tmp = None ∧
            path ∉ private (disk h')
  | Err _ => files (disk h') !! path = files (disk h) !! path
  end.
Proof.
  intros tmp Ht. unfold write_definition, mthen, on_disk. fold tmp.
  destruct h as [w l]. unfold create_dir_all, fs_write, set_public, rename. simpl.
  destruct (faults w (OpCreateDir _)) as [[e o]|] eqn:E1; simpl; [intros [= <- <-]; by split_and!|].
  destruct (faults w (OpWrite tmp)) as [[e [partial|]]|] eqn:E2; simpl.
  - intros [= <- <-]. simpl. split_and!; try done; intros; by rewrite ?lookup_insert_ne by done.
  - intros [= <- <-]. by split_and!.
  - destruct (faults w (OpChmod tmp)) as [[e o]|] eqn:E3; simpl.
    { intros [= <- <-]. simpl. split_and!; try done; intros; by rewrite ?lookup_insert_ne by done. }
    rewrite lookup_insert_eq. destruct (faults w (OpRename tmp path)) as [[e o]|] eqn:E4; simpl.
    + intros [= <- <-]. simpl. split_and!; try done; [|by rewrite lookup_insert_ne].
      intros q Hq Hqt. rewrite lookup_insert_ne by done. split; [done|]. set_solver.
    + intros [= <- <-]. simpl. rewrite bool_decide_false by set_solver.
      split_and!; try done.
      * intros q Hq Hqt. rewrite lookup_insert_ne by done.
        rewrite lookup_delete_ne by done. rewrite lookup_insert_ne by done. set_solver.
      * by rewrite lookup_insert_eq.
      * rewrite lookup_insert_ne by done. by rewrite lookup_delete_eq.
      * set_solver.
Qed.

Lemma persist_token_spec c user h r h' :
  persist_control_token c user h = (r, h') →
  (∀ q, q ≠ token_path c → files (disk h') !! q = files (disk h) !! q) ∧
  faults (disk h') = faults (disk h) ∧
  match r with
  | Ok _ => files (disk h') !! token_path c = Some (utf8 (config_token c)) ∧
            token_path c ∈ private (disk h') ∧
            commands h' = commands h ++ match user with Some u => [[lit "chown"; u; token_path c]] | None => [] end
  | Err _ => True
  end.
Proof.
  unfold persist_control_token, mthen, on_disk. destruct h as [w l].
  unfold create_dir_all, fs_write, set_permissions. simpl.
  destruct (faults w (OpCreateDir _)) as [[e o]|] eqn:E1; simpl; [intros [= <- <-]; by split_and!|].
  destruct (faults w (OpWrite _)) as [[e [partial|]]|] eqn:E2; simpl.
  - intros [= <- <-]. simpl. split_and!; try done. intros. by rewrite lookup_insert_ne.
  - intros [= <- <-]. by split_and!.
  - destruct (faults w (OpChmod _)) as [[e o]|] eqn:E3; simpl.
    { intros [= <- <-]. simpl. split_and!; try done. intros. by rewrite lookup_insert_ne. }
    assert (Hw : ∀ cs, let h := mkHost (mkWorld (<[token_path c := utf8 (config_token c)]> (files w))
        (dirs w ∪ {[run_dir (service c)]}) (private w ∪ {[token_path c]}) (env w) (faults w) (nanos w) (pid w)) cs in
      (∀ q, q ≠ token_path c → files (disk h) !! q = files w !! q) ∧ faults (disk h) = faults w ∧
      files (disk h) !! token_path c = Some (utf8 (config_token c)) ∧ token_path c ∈ private (disk h)).
    { intros cs. simpl. split_and!; [intros; by rewrite lookup_insert_ne|done|by rewrite lookup_insert_eq|set_solver]. }
    destruct user as [u|].
    + destruct (Hw (l ++ [[lit "chown"; u; token_path c]])) as (?&?&?&?).
      unfold run_command, spawn. simpl. destruct (run_process _ _) as [out|e]; [destruct (out_success out)|];
        intros [= <- <-]; by split_and!.
    + intros [= <- <-]. destruct (Hw l) as (?&?&?&?). split_and!; try done. by rewrite app_nil_r.
Qed.

Lemma run_command_ok c a h x h' :
  run_command c a h = (Ok x, h') →
  disk h' = disk h ∧ commands h' = commands h ++ [c] ∧
  ∃ out, run_process (commands h) c = Ok out ∧ out_success out = true.
Proof.
  unfold run_command, spawn. destruct (run_process _ _) as [out|]; [|done].
  destruct (out_success out) eqn:E; [|done]. intros [= <- <-]. eauto.
Qed.

(** ** What an installation writes *)

Definition definition_bytes (os : unix) (c : ServiceConfig) (l : DaemonLaunchOptions)
    (scope : DaemonScope) (user : option text) : DaemonResult (list byte) :=
  match os with
  | Linux => rmap utf8 (systemd_unit c l scope user)
  | Macos xml => launchd_plist xml c l scope user
  | OtherUnix name => Err (Bail name)
  end.

Definition platform_install (os : unix) (c : ServiceConfig) (l : DaemonLaunchOptions)
    (scope : DaemonScope) (user : option text) : M unit :=
  match os with
  | Linux => systemd.install c l scope user
  | Macos xml => launchd.install xml c l scope user
  | OtherUnix name => unsupported name (lit "install")
  end.

(** What happened to the definition at [path]: it is [bytes], or as before. *)
Definition wrote (path : text) (bytes : DaemonResult (list byte)) (h : host) (r : DaemonResult unit)
    (h' : host) : Prop :=
  let tmp := with_extension path (lit "tmp") in
  (∀ q, q ≠ path → q ≠ tmp → files (disk h') !! q = files (disk h) !! q ∧
     (q ∈ private (disk h) → q ∈ private (disk h'))) ∧
  match r with
  | Ok _ => ∃ b, bytes = Ok b ∧ files (disk h') !! path = Some b ∧ files (disk h') !! tmp = None ∧
            path ∉ private (disk h')
  | Err _ => files (disk h') !! path = files (disk h) !! path ∨
             ∃ b, bytes = Ok b ∧ files (disk h') !! path = Some b
  end.

Lemma write_then_commands path b (rest : M unit) h r h' :
  with_extension path (lit "tmp") ≠ path → commands_only rest →
  (let! _ := write_definition path b in rest) h = (r, h') → wrote path (Ok b) h r h'.
Proof.
  intros Ht Hr. unfold mthen. destruct (write_definition path b h) as [[[]|e] h1] eqn:E.
  - destruct (write_definition_spec _ _ _ _ _ Ht E) as (_ & _ & Hq & Hp & Htm & Hn).
    intros Hrest. specialize (Hr h1). rewrite Hrest in Hr. simpl in Hr. unfold wrote. rewrite Hr.
    split; [done|]. destruct r; eauto.
  - destruct (write_definition_spec _ _ _ _ _ Ht E) as (_ & _ & Hq & Hp).
    intros [= <- <-]. split; [done|]. by left.
Qed.

Lemma wrote_nothing path bytes h e : wrote path bytes h (Err e) h.
Proof. split; [done|]. by left. Qed.

Lemma platform_install_spec os c l scope user path h r h' :
  definition_path os c scope = Some path → platform_install os c l scope user h = (r, h') →
  wrote path (definition_bytes os c l scope user) h r h'.
Proof.
  intros Hp. destruct (definition_paths _ _ _ _ Hp) as (Ht & _). destruct os as [|xml|]; simpl in *; [..|done].
  - unfold systemd.install, mlift, mthen at 1. destruct (systemd.definition_path c scope) as [p|]; [|done].
    injection Hp as ->. unfold mthen at 1.
    destruct (systemd_unit c l scope user) as [u|e]; [|intros [= <- <-]; apply wrote_nothing].
    apply write_then_commands; [done|]. unfold systemd.run_systemctl. auto with host.
  - unfold launchd.install, mlift, mthen at 1. destruct (launchd.definition_path c scope) as [p|]; [|done].
    injection Hp as ->. unfold mthen at 1.
    destruct (launchd_plist xml c l scope user) as [u|e]; [|intros [= <- <-]; apply wrote_nothing].
    apply write_then_commands; [done|]. auto with host.
Qed.

Lemma validate_scope_ok scope user user' :
  validate_scope scope user = Ok user' ↔
  match scope with
  | UserScope => user = None ∧ user' = None
  | SystemScope => ∃ u, user = Some u ∧ user' = Some (trim u) ∧ trim u ≠ [] ∧ trim u ≠ lit "root" ∧
                   existsb is_control (trim u) = false
  end.
Proof.
  destruct scope; simpl; [destruct user; naive_solver|].
  destruct user as [u|]; simpl; [|naive_solver].
  destruct (is_empty (trim u)) eqn:Ee; simpl.
  { split; [done|]. intros (v & [= <-] & _ & Hne & _). by destruct (trim u). }
  assert (Hne : trim u ≠ []) by by destruct (trim u).
  unfold validate_text. destruct (existsb is_control (trim u)) eqn:Ec; simpl.
  { split; [done|]. intros (v & [= <-] & _ & _ & _ & Hc). congruence. }
  destruct (text_eqb (trim u) (lit "root")) eqn:Er.
  - apply text_eqb_eq in Er. split; [done|]. by intros (v & [= <-] & _ & _ & Hr & _).
  - apply bool_decide_eq_false in Er. split; [intros [= <-]; by exists u|].
    by intros (v & [= <-] & -> & _).
Qed.

Lemma remove_definition_spec path ctx h r h' :
  remove_definition path ctx h = (r, h') →
  commands h' = commands h ∧ (∀ q, q ≠ path → files (disk h') !! q = files (disk h) !! q) ∧
  match r with
  | Ok _ => files (disk h) !! path = None ∨ files (disk h') !! path = None ∨
            ∃ e o, faults (disk h) (OpRemove path) = Some (e, o) ∧ io_text e = io_text no_such_file
  | Err _ => is_Some (faults (disk h) (OpRemove path))
  end.
Proof.
  unfold remove_definition, remove_file. destruct (faults (disk h) (OpRemove path)) as [[e o]|] eqn:Ef.
  - destruct (text_eqb (io_text e) _) eqn:Et; intros [= <- <-]; (split_and!; [done|done|]); [|done].
    right; right. apply text_eqb_eq in Et. eauto.
  - destruct (files (disk h) !! path) eqn:Ep; [|intros [= <- <-]; by eauto].
    intros [= <- <-]. simpl. split_and!; [done|intros; by rewrite lookup_delete_ne|].
    right; left. by rewrite lookup_delete_eq.
Qed.

(** An installation: its scope is valid, the token was persisted if asked to,
    and the platform's part ran on that. *)
Lemma install_steps os c l scope user h r h' :
  install os c l scope user h = (r, h') →
  (∃ e, validate_scope scope user = Err e ∧ r = Err e ∧ h' = h) ∨
  ∃ user' r1 h1, validate_scope scope user = Ok user' ∧
    (if persist_control_token_ l then persist_control_token c user' else mret tt) h = (r1, h1) ∧
    match r1 with
    | Ok _ => platform_install os c l scope user' h1 = (r, h')
    | Err e => r = Err e ∧ h' = h1
    end.
Proof.
  unfold install, mlift. unfold mthen at 1. destruct (validate_scope scope user) as [user'|e].
  - set (m := if persist_control_token_ l then persist_control_token c user' else mret tt).
    unfold mthen. intros Hr. right. exists user', (m h).1, (m h).2. split; [done|]. fold m.
    revert Hr. destruct (m h) as [[[]|e] h1]; intros Hr; (split; [done|]); [exact Hr|].
    by injection Hr as <- <-.
  - intros [= <- <-]. left. by exists e.
Qed.

(** The token step, whether it is asked for or not. *)
Lemma token_step c l user h r1 h1 :
  (if persist_control_token_ l then persist_control_token c user else mret tt) h = (r1, h1) →
  (∀ q, q ≠ token_path c → files (disk h1) !! q = files (disk h) !! q) ∧
  match r1 with
  | Ok _ => persist_control_token_ l = true →
      files (disk h1) !! token_path c = Some (utf8 (config_token c)) ∧ token_path c ∈ private (disk h1)
  | Err _ => True
  end.
Proof.
  destruct (persist_control_token_ l).
  - intros (Hq & _ & Hr)%persist_token_spec. split; [done|]. destruct r1; [|done]. tauto.
  - intros [= <- <-]. done.
Qed.

(** ** Properties *)


(** What was installed is uninstalled: when both succeed, every file but
    the token is as before the installation, and it stays that way when the
    service is uninstalled again.  The token file stays. *)
Theorem uninstall_restores os c l scope user path h h1 h2 x y :
  definition_path os c scope = Some path →
  files (disk h) !! path = None → files (disk h) !! with_extension path (lit "tmp") = None →
  faults (disk h1) (OpRemove path) = None →
  install os c l scope user h = (Ok x, h1) → uninstall os c scope h1 = (Ok y, h2) →
  (∀ q, q ≠ token_path c → files (disk h2) !! q = files (disk h) !! q) ∧
  (persist_control_token_ l = true → files (disk h2) !! token_path c = Some (utf8 (config_token c))).
Proof.
  intros Hp Hn Hnt Hfault Hi Hu. destruct (definition_paths _ _ _ _ Hp) as (_ & Hpt & Htt).
  apply install_steps in Hi as [(e & _ & [=] & _)|(user' & r1 & h0 & Hv & Ht & Hr)].
  apply token_step in Ht as [Hq Hk]. destruct r1 as [z|e]; [|by destruct Hr].
  destruct (platform_install_spec _ _ _ _ _ _ _ _ _ Hp Hr) as [Hw (b & _ & Hb & Htm & _)].
  assert (Hrem : ∃ ctx ha hb u, disk ha = disk h1 ∧ remove_definition path ctx ha = (Ok u, hb) ∧
    disk hb = disk h2).
  { destruct os as [|xml|name]; simpl in Hp, Hu; [..|done].
    - destruct (systemd.definition_path c scope) as [p|] eqn:Ed; [|done]. injection Hp as ->.
      unfold systemd.uninstall in Hu.
      apply mthen_ok in Hu as (? & ha & [= <- <-] & Hu). apply mthen_ok in Hu as (? & hb & [= <- <-] & Hu).
      apply mthen_ok in Hu as (p & hc & Hl & Hu). unfold mlift in Hl. rewrite Ed in Hl. injection Hl as <- <-.
      apply mthen_ok in Hu as (u & hd & Hrm & [Hd _]%run_command_ok). do 4 eexists. split; [|split; [exact Hrm|done]].
      done.
    - destruct (launchd.definition_path c scope) as [p|] eqn:Ed; [|done]. injection Hp as ->.
      unfold launchd.uninstall in Hu. apply mthen_ok in Hu as (t & ha & Hta & Hu).
      apply mthen_ok in Hu as (? & hb & [= <- <-] & Hu).
      apply mthen_ok in Hu as (p & hc & Hl & Hu). unfold mlift in Hl. rewrite Ed in Hl. injection Hl as <- <-.
      do 4 eexists. split; [|split; [exact Hu|done]]. simpl.
      pose proof (commands_only_target c scope h1) as Hd. by rewrite Hta in Hd. }
  destruct Hrem as (ctx & ha & hb & u & Ha & Hrm & Hb2). apply remove_definition_spec in Hrm as (_ & Ho & Hrm).
  rewrite Ha, Hb2 in *. assert (Hgone : files (disk h2) !! path = None).
  { destruct Hrm as [E|[E|(e & o & E & _)]]; [congruence|done|congruence]. }
  split.
  - intros q Hqt. destruct (decide (q = path)) as [->|Hne]; [congruence|]. rewrite Ho by done.
    destruct (decide (q = with_extension path (lit "tmp"))) as [->|Hne2]; [congruence|].
    destruct (Hw q Hne Hne2) as [-> _]. by apply Hq.
  - intros Hper. destruct (Hk Hper) as [Hk1 _]. rewrite Ho by congruence.
    destruct (Hw (token_path c)) as [-> _]; [congruence|congruence|done].
Qed.

(** The token is on disk before it is made private: when that fails, the
    installation is reported as failed but the token stays readable. *)
Theorem token_before_private os c l scope user user' h e o :
  validate_scope scope user = Ok user' → persist_control_token_ l = true →
  faults (disk h) (OpCreateDir (run_dir (service c))) = None →
  faults (disk h) (OpWrite (token_path c)) = None →
  faults (disk h) (OpChmod (token_path c)) = Some (e, o) →
  let '(r, h') := install os c l scope user h in
  r = Err (Failed (lit "failed to secure control token " ++ token_path c) e) ∧
  files (disk h') !! token_path c = Some (utf8 (config_token c)) ∧ private (disk h') = private (disk h).
Proof.
  intros Hv Hp Hd Hw Hc. unfold install, mlift. unfold mthen at 1. rewrite Hv, Hp.
  unfold persist_control_token, mthen, on_disk, create_dir_all, fs_write, set_permissions.
  rewrite Hd. simpl. rewrite Hw. simpl. rewrite Hc. simpl. by rewrite lookup_insert_eq.
Qed.

(** The check of the service user compares names: the user id of root passes. *)
Lemma root_by_uid : validate_scope SystemScope (Some (lit "0")) = Ok (Some (lit "0")).
Proof. by vm_compute. Qed.

End lemmas.

(** ** Witnesses *)

Module Sample.

(** Every command succeeds. *)
#[export] Instance obedient : Shell :=
  {| run_process _ _ := Ok (mkOutput true [] []); user_home := Some (lit "/home/mutsuki") |}.

Definition config : ServiceConfig := ServiceUnit.Sample.config (lit "Prod/Main 01").
Definition launch : DaemonLaunchOptions := ServiceUnit.Sample.launch (lit "/opt/mutsuki/home") (lit "prod").
Definition user : option text := Some (lit " mutsuki ").

Definition fresh : host := mkHost (mkWorld ∅ ∅ ∅ ∅ (λ _, None) 255 7) [].
Definition path : text := lit "/etc/systemd/system/mutsuki-service-prod-main-01.service".

Definition installed : DaemonResult unit * host := install Linux config launch SystemScope user fresh.
Definition uninstalled : DaemonResult unit * host := uninstall Linux config SystemScope installed.2.

End Sample.

Import Sample.


Lemma uninstall_restores_witness :
  is_ok uninstalled.1 = true ∧ ∀ q, q ≠ token_path config → files (disk uninstalled.2) !! q = files (disk fresh) !! q.
Proof.
  split; [by vm_compute|].
  destruct installed as [[x|e] h1] eqn:E1.
  - destruct uninstalled as [[y|e] h2] eqn:E2.
    + unfold uninstalled in E2. rewrite E1 in E2.
      apply (uninstall_restores Linux config launch SystemScope user path fresh h1 h2 x y);
        [by vm_compute|by vm_compute|by vm_compute| |exact E1|exact E2].
      change h1 with (@Ok unit DaemonError x, h1).2. rewrite <-E1. by vm_compute.
    + apply (f_equal (is_ok ∘ fst)) in E2. by vm_compute in E2.
  - apply (f_equal (is_ok ∘ fst)) in E1. by vm_compute in E1.
Defined.

(** A disk on which modes cannot be changed. *)
Definition no_modes : host :=
  mkHost (mkWorld ∅ ∅ ∅ ∅ (λ op, match op with OpChmod _ => Some (no_such_file, None) | _ => None end) 255 7) [].

Lemma token_before_private_witness :
  let '(r, h') := install Linux config launch SystemScope user no_modes in
  r = Err (Failed (lit "failed to secure control token " ++ token_path config) no_such_file) ∧
  files (disk h') !! token_path config = Some (utf8 (config_token config)) ∧
  private (disk h') = private (disk no_modes).
Proof.
  apply (token_before_private Linux config launch SystemScope user (Some (lit "mutsuki")) no_modes no_such_file None);
    by vm_compute.
Defined.
