(* ===== verification/Abi.v ===== *)
(** * ABI plugins: staging and the version 1 transport

    [crates/mutsuki-service-runtime/src/abi_plugin/staging.rs, connection.rs,
    connection/v1.rs and callbacks.rs]: the staged copy of an artifact, the
    transport a manifest selects, calls through the version 1 function table,
    and the callbacks of the host.  A loaded library answers any call, given
    all the calls that crossed the boundary before it; the calls themselves are
    the trace whose shape is proved. *)

From S2P Require Import Prelude Text BTreeMap Value ConfigTypes Frame Fs Plugins Supervisor Catalog Boot ServiceUnit Daemon.

(** ** Staging *)

Section staging.
Context `{Contracts}.

Definition staging_dir (c : ServiceConfig) (r : PluginRecord) : text :=
  let hash := default [] (strip_prefix (lit "sha256:") (artifact_sha256 (manifest r))) in
  path_join (path_join (path_join (run_dir (service c)) (lit "abi")) (plugin_id (manifest r))) hash.

(** The loader validated the hash and the name of the artifact. *)
Definition stage_artifact (c : ServiceConfig) (r : PluginRecord) (source : text) (w : world)
    : ServiceRuntimeResult text * world :=
  let id := plugin_id (manifest r) in
  let dir := staging_dir c r in
  match create_dir_all dir w with
  | (Err e, w) => (Err (AbiPlugin id (lit "create ABI staging directory: " ++ io_text e)), w)
  | (Ok _, w) =>
      let target := path_join dir (file_name source) in
      if is_file w target then (Ok target, w)
      else
        match fs_copy source target w with
        | (Err e, w) => (Err (AbiPlugin id (lit "stage ABI artifact: " ++ io_text e)), w)
        | (Ok _, w) => (Ok target, w)
        end
  end.

End staging.

(** ** The boundary *)

Record AbiBuffer : Type := mkBuffer { ptr : option N; buf_len : N }.
Record AbiCallResult : Type := mkCallResult { status : N; payload : AbiBuffer }.

(** The function table a plugin answers with: a null context and missing
    functions are possible. *)
Record AbiPluginTable : Type := mkTable {
  table_version : N; context : option N; has_request : bool; has_release : bool; has_close : bool;
}.

(** What crosses the boundary, host to plugin. *)
Inductive ffi : Type :=
| EntryCall (symbol : text)
| RequestCall (bytes : list byte)
| ReleaseCall (b : AbiBuffer)
| CloseCall.

(** A loaded library: its symbols, its answers, and the memory behind a buffer,
    given the calls so far. *)
Record Guest : Type := mkGuest {
  entry : text → result (list ffi → AbiPluginTable) text;
  respond : list ffi → AbiCallResult;
  memory : list ffi → AbiBuffer → list byte;
}.

(** A pointer and a length that belong together. *)
Definition valid_payload (b : AbiBuffer) : bool :=
  match ptr b with None => (buf_len b =? 0)%N | Some _ => (0 <? buf_len b)%N end.

(** [AbiBuffer::as_slice]. *)
Definition as_slice (g : Guest) (t : list ffi) (b : AbiBuffer) : list byte :=
  if (buf_len b =? 0)%N then [] else memory g t b.

(** The test of a function table in both versions of [open]. *)
Definition table_invalid (version : N) (a : AbiPluginTable) : bool :=
  negb (table_version a =? version)%N || bool_decide (context a = None)
  || negb (has_request a) || negb (has_release a) || negb (has_close a).

(** A rejected table is closed if it can be. *)
Definition close_rejected (a : AbiPluginTable) : list ffi :=
  if bool_decide (context a ≠ None) && has_close a then [CloseCall] else [].

(** ** The runtime's own libraries *)

Record RuntimeFailure : Type := mkFailure {
  code : text; source : text; route : text; evidence : list (text * text);
}.
Abbreviation RuntimeResult A := (result A RuntimeFailure).

(** The sdk's constants and the wire crate, and loading a library from the bytes
    of a file.  A request is indexed by the type of its response. *)
Class AbiSdk : Type := {
  ABI_CODEC_ID : text; ABI_BRIDGE_ID : text; ABI_V2_CODEC_ID : text; ABI_V2_BRIDGE_ID : text;
  ABI_ENTRY_SYMBOL : text; ABI_V2_ENTRY_SYMBOL : text;
  ABI_TRANSPORT_VERSION : N; ABI_V2_TRANSPORT_VERSION : N;
  ERR_RUNTIME_HOST_FAILED : text;
  WireRequest : Type → Type;
  validate_request : ∀ {A}, WireRequest A → result unit text;
  encode_jsonl_wire : ∀ {A}, N → WireRequest A → result (list byte) text;
  decode_jsonl_wire : ∀ {A}, WireRequest A → list byte → N → RuntimeResult A;
  load_library : list byte → result Guest text;
  (* a frame of the binary wire protocol: whether it is a management frame *)
  decode_wire_frame : list byte → result bool text;
}.

(** The constants are those of the host's inventory. *)
Class AbiSdkOk `{AbiSdk} : Prop := {
  abi_inventory :
    HOST_ABI_INVENTORY =
      [mkAbiContract ABI_CODEC_ID ABI_BRIDGE_ID ABI_ENTRY_SYMBOL ABI_TRANSPORT_VERSION;
       mkAbiContract ABI_V2_CODEC_ID ABI_V2_BRIDGE_ID ABI_V2_ENTRY_SYMBOL ABI_V2_TRANSPORT_VERSION];
}.

Section transport.
Context `{Contracts} `{AbiSdk}.

Definition abi_load_error (plugin_id detail : text) : ServiceRuntimeError := AbiPlugin plugin_id detail.

Definition abi_failure (plugin_id route detail : text) : RuntimeFailure :=
  mkFailure ERR_RUNTIME_HOST_FAILED (lit "plugin:" ++ plugin_id) route [(lit "detail", detail)].

Inductive AbiTransport : Type := JsonlV1 | BinaryV2.

Definition select_transport (unsupported : option text * option text → text) (m : PluginManifest)
    : ServiceRuntimeResult AbiTransport :=
  match List.filter (λ b, bool_decide (b.1.1 = DAbi)) (plugin_backends m) with
  | [(_, codec, bridge)] =>
      if bool_decide (codec = Some ABI_CODEC_ID) && bool_decide (bridge = Some ABI_BRIDGE_ID)
      then Ok JsonlV1
      else if bool_decide (codec = Some ABI_V2_CODEC_ID) && bool_decide (bridge = Some ABI_V2_BRIDGE_ID)
      then Ok BinaryV2
      else Err (abi_load_error (plugin_id m)
                  (lit "unsupported ABI codec/bridge pair: " ++ unsupported (codec, bridge)))
  | _ => Err (abi_load_error (plugin_id m) (lit "manifest must declare exactly one ABI plugin backend"))
  end.

(** [Library::new]. *)
Definition library_new (staged : text) (w : world) : result Guest text :=
  match faults w (OpRead staged), files w !! staged with
  | Some (e, _), _ => Err (io_text e)
  | None, None => Err (io_text no_such_file)
  | None, Some bytes => load_library bytes
  end.

(** ** The version 1 connection *)

Record V1Connection : Type := mkV1 {
  v1_plugin_id : text; v1_api : AbiPluginTable; v1_library : Guest;
  next_request : N; v1_trace : list ffi;
}.

Definition set_v1_trace (t : list ffi) (c : V1Connection) : V1Connection :=
  mkV1 (v1_plugin_id c) (v1_api c) (v1_library c) (next_request c) t.

Definition missing_symbol (plugin_id symbol error : text) : ServiceRuntimeError :=
  abi_load_error plugin_id (lit "missing " ++ symbol ++ lit ": " ++ error).

(** [V1Connection::open], with the calls made. *)
Definition v1_open (plugin_id staged : text) (w : world) : ServiceRuntimeResult V1Connection * list ffi :=
  match library_new staged w with
  | Err e => (Err (abi_load_error plugin_id e), [])
  | Ok library =>
      match entry library ABI_ENTRY_SYMBOL with
      | Err e => (Err (missing_symbol plugin_id ABI_ENTRY_SYMBOL e), [])
      | Ok f =>
          let t := [EntryCall ABI_ENTRY_SYMBOL] in
          let api := f t in
          if table_invalid ABI_TRANSPORT_VERSION api then
            (Err (abi_load_error plugin_id
                    (lit "invalid ABI v1 entry or transport version " ++ show_N (table_version api)
                     ++ lit ", expected " ++ show_N ABI_TRANSPORT_VERSION)),
             t ++ close_rejected api)
          else (Ok (mkV1 plugin_id api library 0 t), t)
      end
  end.

(** [V1Connection::call], under the request mutex. *)
Definition v1_call (bytes : list byte) (c : V1Connection) : RuntimeResult (list byte) * V1Connection :=
  let g := v1_library c in
  let t := v1_trace c ++ [RequestCall bytes] in
  let r := respond g t in
  if negb (valid_payload (payload r)) then
    (Err (abi_failure (v1_plugin_id c) (lit "abi.v1.response_invalid")
            (lit "invalid payload pointer/length pair")), set_v1_trace t c)
  else
    let response := as_slice g t (payload r) in
    let t := if (0 <? buf_len (payload r))%N then t ++ [ReleaseCall (payload r)] else t in
    (if (status r =? 0)%N then Ok response
     else if (status r =? 1)%N then
       Err (abi_failure (v1_plugin_id c) (lit "abi.v1.request_failed") (from_utf8_lossy response))
     else Err (abi_failure (v1_plugin_id c) (lit "abi.v1.status_invalid")
                 (lit "callback returned a status other than 0 or 1")),
     set_v1_trace t c).

(** [V1Connection::request]; the counter is a 64-bit atomic. *)
Definition v1_request {A} (r : WireRequest A) (c : V1Connection) : RuntimeResult A * V1Connection :=
  match validate_request r with
  | Err e => (Err (abi_failure (v1_plugin_id c) (lit "abi.v1.request_invalid") e), c)
  | Ok _ =>
      let id := wrap 64 (next_request c + 1) in
      let c := mkV1 (v1_plugin_id c) (v1_api c) (v1_library c) id (v1_trace c) in
      match encode_jsonl_wire id r with
      | Err e => (Err (abi_failure (v1_plugin_id c) (lit "abi.v1.encode") e), c)
      | Ok bytes =>
          match v1_call bytes c with
          | (Err e, c) => (Err e, c)
          | (Ok response, c) => (decode_jsonl_wire r response id, c)
          end
      end
  end.

(** [Drop]; a connection has a close function. *)
Definition v1_drop (c : V1Connection) : list ffi :=
  v1_trace c ++ if has_close (v1_api c) then [CloseCall] else [].

Definition any_request : Type := { A : Type & WireRequest A }.

Fixpoint v1_requests (rs : list any_request) (c : V1Connection) : V1Connection :=
  match rs with
  | [] => c
  | existT _ r :: rs => v1_requests rs (v1_request r c).2
  end.

End transport.

(** ** Callbacks of the host *)

(** Memory that the host allocated for a plugin, by address. *)
Definition heap : Type := gmap N (list byte).

(** [host_request_v1] and [host_request_v2]: [dispatch] is the sdk's, [None] when
    it panics; the answer is a status with its bytes. *)
Definition host_request (panicked : text) (dispatch : list byte → option (list byte))
    (context request : option N) (bytes : list byte) : N * list byte :=
  if bool_decide (context = None) || (bool_decide (request = None) && negb (len bytes =? 0)%N)
  then (1%N, utf8 (lit "invalid host callback pointers"))
  else match dispatch bytes with
       | Some response => (0%N, response)
       | None => (1%N, utf8 panicked)
       end.

Definition host_request_v1 : (list byte → option (list byte)) → option N → option N → list byte → N * list byte :=
  host_request (lit "host ABI callback panicked").
Definition host_request_v2 : (list byte → option (list byte)) → option N → option N → list byte → N * list byte :=
  host_request (lit "host ABI v2 callback panicked").

Definition host_release (b : AbiBuffer) (h : heap) : heap :=
  match ptr b with
  | None => h
  | Some p => if (buf_len b =? 0)%N then h else delete p h
  end.

(** ** The shape of the calls *)

(** A payload that has to be released. *)
Definition releasable (b : AbiBuffer) : bool := valid_payload b && (0 <? buf_len b)%N.

(** The calls of a connection while it is open: the entry point once, then
    requests, each of which is followed by the release of the payload it was
    answered with, if there is one to release, and by nothing else. *)
Inductive v1_session (symbol : text) (g : Guest) : list ffi → Prop :=
| session_entry : v1_session symbol g [EntryCall symbol]
| session_request t bytes :
    v1_session symbol g t →
    v1_session symbol g
      (t ++ RequestCall bytes ::
         let p := payload (respond g (t ++ [RequestCall bytes])) in
         if releasable p then [ReleaseCall p] else []).

Section lemmas.
Context `{Contracts} `{AbiSdk}.

Lemma v1_call_session symbol bytes c :
  v1_session symbol (v1_library c) (v1_trace c) →
  let c' := (v1_call bytes c).2 in
  v1_session symbol (v1_library c') (v1_trace c') ∧
  v1_library c' = v1_library c ∧ v1_api c' = v1_api c ∧ next_request c' = next_request c.
Proof.
  intros Hs. pose proof (session_request symbol _ _ bytes Hs) as Hr.
  unfold releasable, valid_payload in Hr. unfold v1_call, valid_payload.
  set (r := respond (v1_library c) (v1_trace c ++ [RequestCall bytes])) in *.
  destruct (ptr (payload r)) eqn:Ep, (N.eqb_spec (buf_len (payload r)) 0) as [En|En],
    (N.ltb_spec 0 (buf_len (payload r))) as [El|El]; try lia; simpl in *;
    rewrite <-?List.app_assoc; split_and!; done.
Qed.

Lemma v1_request_session {A} symbol (r : WireRequest A) c :
  v1_session symbol (v1_library c) (v1_trace c) →
  let c' := (v1_request r c).2 in
  v1_session symbol (v1_library c') (v1_trace c') ∧
  v1_library c' = v1_library c ∧ v1_api c' = v1_api c.
Proof.
  intros Hs. unfold v1_request. destruct (validate_request r); [|done].
  destruct (encode_jsonl_wire _ r) as [bytes|]; [|done].
  pose proof (v1_call_session symbol bytes
    (mkV1 (v1_plugin_id c) (v1_api c) (v1_library c) (wrap 64 (next_request c + 1)) (v1_trace c)) Hs) as Hc.
  destruct (v1_call _ _) as [[response|e] c']; simpl in *; tauto.
Qed.

Lemma v1_requests_session symbol rs c :
  v1_session symbol (v1_library c) (v1_trace c) →
  let c' := v1_requests rs c in
  v1_session symbol (v1_library c') (v1_trace c') ∧
  v1_library c' = v1_library c ∧ v1_api c' = v1_api c.
Proof.
  revert c. induction rs as [|[A r] rs IH]; intros c Hs; simpl; [done|].
  destruct (v1_request_session symbol r c Hs) as (Hs' & Hl & Ha).
  destruct (IH _ Hs') as (Hs2 & Hl2 & Ha2). split_and!; [done|congruence..].
Qed.

Lemma v1_open_session plugin staged w c t :
  v1_open plugin staged w = (Ok c, t) →
  t = v1_trace c ∧ v1_session ABI_ENTRY_SYMBOL (v1_library c) (v1_trace c) ∧
  has_close (v1_api c) = true ∧ table_version (v1_api c) = ABI_TRANSPORT_VERSION ∧
  context (v1_api c) ≠ None ∧ v1_plugin_id c = plugin ∧
  library_new staged w = Ok (v1_library c).
Proof.
  unfold v1_open. destruct (library_new staged w) as [g|]; [|done].
  destruct (entry g ABI_ENTRY_SYMBOL) as [f|]; [|done].
  destruct (table_invalid _ _) eqn:E; [done|]. intros [= <- <-]. simpl.
  unfold table_invalid in E. bool_props. split_and!; try done. apply session_entry.
Qed.

(** ** Properties *)


(** The inventory entry of a transport. *)
Definition transport_contract (t : AbiTransport) : AbiContract :=
  match t with
  | JsonlV1 => mkAbiContract ABI_CODEC_ID ABI_BRIDGE_ID ABI_ENTRY_SYMBOL ABI_TRANSPORT_VERSION
  | BinaryV2 => mkAbiContract ABI_V2_CODEC_ID ABI_V2_BRIDGE_ID ABI_V2_ENTRY_SYMBOL ABI_V2_TRANSPORT_VERSION
  end.

(** The loader and the host read a manifest alike: an ABI manifest has a
    contract of the host's inventory exactly when a transport is selected for
    it, and it is the contract of that transport. *)
Theorem transport_matches_contract `{!AbiSdkOk} u v m contract :
  artifact_type m = AAbi →
  resolve_abi_contract u m = Ok contract ↔
  ∃ t, select_transport v m = Ok t ∧ transport_contract t = contract.
Proof.
  intros Ha. unfold resolve_abi_contract, select_transport. rewrite bool_decide_true by done. cbn [negb].
  destruct (List.filter _ _) as [|[[d codec] bridge] [|]]; [naive_solver| |naive_solver].
  rewrite abi_inventory. cbn [List.find ac_codec_id ac_bridge_id].
  assert (Hsym : ∀ x (y : option text), bool_decide (Some x = y) = bool_decide (y = Some x))
    by (intros; by apply bool_decide_ext).
  rewrite !Hsym.
  destruct (_ && _); cbn; [naive_solver|]. destruct (_ && _); cbn; naive_solver.
Qed.

Lemma stage_spec c r src w res w' :
  stage_artifact c r src w = (res, w') →
  let target := path_join (staging_dir c r) (file_name src) in
  (∀ q, q ≠ target → files w' !! q = files w !! q) ∧ faults w' = faults w ∧
  match res with
  | Ok p => p = target ∧
      files w' !! target = (if is_file w target then files w !! target else files w !! src) ∧
      is_file w' target = true
  | Err _ => is_file w target = false ∨ files w' = files w
  end.
Proof.
  unfold stage_artifact, create_dir_all. intros Hs. simpl.
  destruct (faults w (OpCreateDir _)) as [[e o]|]; [simplify_eq; by eauto|]. cbn in Hs.
  set (target := path_join (staging_dir c r) (file_name src)) in *.
  unfold is_file in *. cbn [files] in Hs. destruct (files w !! target) as [b|] eqn:Et.
  { rewrite bool_decide_true in Hs by done. simplify_eq. cbn. rewrite Et. split_and!; try done.
  }
  rewrite bool_decide_false in Hs |- * by (by intros []).
  unfold fs_copy in Hs. cbn [faults files] in Hs.
  destruct (faults w (OpRead src)) as [[e o]|]; [simplify_eq; by eauto|].
  destruct (files w !! src) as [bytes|] eqn:Es; [|simplify_eq; by eauto].
  unfold fs_write in Hs. cbn [faults] in Hs. destruct (faults w (OpWrite target)) as [[e [p|]]|]; simplify_eq; cbn.
  - split_and!; [|done|by left]. intros. by rewrite lookup_insert_ne.
  - eauto.
  - split_and!; try done; [intros; by rewrite lookup_insert_ne|by rewrite lookup_insert_eq|].
    rewrite lookup_insert_eq. by rewrite bool_decide_true.
Qed.

(** Staging writes at most the staged copy; a copy that was not there is the
    artifact as it is now, and one that was there is used as it is.  In
    particular what a failed copy left behind is loaded by the next start,
    although its hash was never compared. *)
Theorem staged_copy_is_reused c r src w e partial w2 :
  let target := path_join (staging_dir c r) (file_name src) in
  src ≠ target → is_file w target = false → is_Some (files w !! src) →
  faults w (OpCreateDir (staging_dir c r)) = None → faults w (OpRead src) = None →
  faults w (OpWrite target) = Some (e, Some partial) →
  (* the next start, on a healthy disk *)
  files w2 = files (stage_artifact c r src w).2 → (∀ op, faults w2 op = None) →
  is_ok (stage_artifact c r src w).1 = false ∧
  (stage_artifact c r src w2).1 = Ok target ∧
  files (stage_artifact c r src w2).2 !! target = Some partial ∧
  ∀ q, q ≠ target → files (stage_artifact c r src w2).2 !! q = files w !! q.
Proof.
  intros target Hne Hnf [bytes Hsrc] Hd Hr Hw Hf2 Hno.
  assert (E : stage_artifact c r src w =
    (Err (AbiPlugin (plugin_id (manifest r)) (lit "stage ABI artifact: " ++ io_text e)),
     set_files (<[target := partial]> (files w))
       (mkWorld (files w) (dirs w ∪ {[staging_dir c r]}) (private w) (env w) (faults w) (nanos w) (pid w)))).
  { unfold stage_artifact, create_dir_all. rewrite Hd. cbn. fold target.
    unfold is_file in *. cbn [files]. rewrite Hnf. unfold fs_copy, fs_write. cbn [faults files].
    by rewrite Hr, Hsrc, Hw. }
  rewrite E in Hf2 |- *. cbn in Hf2.
  assert (Ht : is_file w2 target = true) by (unfold is_file; rewrite Hf2, lookup_insert_eq; by rewrite bool_decide_true).
  assert (E2 : stage_artifact c r src w2 = (Ok target,
    mkWorld (files w2) (dirs w2 ∪ {[staging_dir c r]}) (private w2) (env w2) (faults w2) (nanos w2) (pid w2))).
  { unfold stage_artifact, create_dir_all. rewrite Hno. cbn. fold target.
    change (is_file (mkWorld (files w2) _ _ _ _ _ _) target) with (is_file w2 target). by rewrite Ht. }
  rewrite E2. cbn. rewrite Hf2. split_and!; [done|done|by rewrite lookup_insert_eq|].
  intros. by rewrite lookup_insert_ne.
Qed.

End lemmas.

(** ** Witnesses *)

Module Sample.

(** A plugin that answers every request with the bytes at address 7, and wants
    them back. *)
Definition echo_guest : Guest :=
  mkGuest (λ symbol, if text_eqb symbol (lit "mutsuki_plugin_abi_v1")
                     then Ok (λ _, mkTable 1 (Some 1%N) true true true) else Err (lit "undefined symbol"))
    (λ _, mkCallResult 0 (mkBuffer (Some 7%N) 2)) (λ _ _, [x31; x32]).

(** A sdk whose wire frames say in their first byte whether they are management
    frames. *)
#[export] Instance sdk : AbiSdk := {|
  ABI_CODEC_ID := lit "mutsuki.codec.typed-jsonl.v1"; ABI_BRIDGE_ID := lit "mutsuki.bridge.abi.jsonl.v1";
  ABI_V2_CODEC_ID := lit "mutsuki.codec.typed-msgpack.v1"; ABI_V2_BRIDGE_ID := lit "mutsuki.bridge.abi.binary.v2";
  ABI_ENTRY_SYMBOL := lit "mutsuki_plugin_abi_v1"; ABI_V2_ENTRY_SYMBOL := lit "mutsuki_plugin_abi_v2";
  ABI_TRANSPORT_VERSION := 1; ABI_V2_TRANSPORT_VERSION := 2;
  ERR_RUNTIME_HOST_FAILED := lit "runtime.host_failed";
  WireRequest A := A; validate_request _ _ := Ok tt;
  encode_jsonl_wire _ id _ := Ok (utf8 (show_N id)); decode_jsonl_wire A r _ _ := Ok r;
  load_library bytes := match bytes with [] => Err (lit "file too short") | _ => Ok echo_guest end;
  decode_wire_frame f := match f with [] => Err (lit "empty frame") | b :: _ => Ok (bool_decide (b = x01)) end;
|}.

#[export] Instance sdk_ok : AbiSdkOk.
Proof. by split. Qed.

Import Plugins.Sample.

Definition abi_manifest : PluginManifest := abi_plugin.

Definition record : PluginRecord :=
  mkPluginRecord (lit "/p/echo/plugin.toml") abi_plugin None (Some (lit "/p/echo/echo.so")).

Definition config : ServiceConfig := ServiceUnit.Sample.config (lit "a").

Definition target : text :=
  lit "/opt/mutsuki/run/abi/echo/" ++ zeros ++ lit "/echo.so".

(** The disk is full while the artifact is copied. *)
Definition full_disk : world :=
  mkWorld {[lit "/p/echo/echo.so" := [x01; x02]]} ∅ ∅ ∅
    (λ op, match op with OpWrite _ => Some (no_such_file, Some [x01]) | _ => None end) 255 7.

Definition next_start : world :=
  mkWorld (files (stage_artifact config record (lit "/p/echo/echo.so") full_disk).2) ∅ ∅ ∅ (λ _, None) 256 8.

End Sample.

Section witnesses.
Import Plugins.Sample Sample.

Lemma transport_matches_contract_witness :
  select_transport (λ _, []) abi_manifest = Ok JsonlV1 ∧
  ∃ contract, resolve_abi_contract (λ _, []) abi_manifest = Ok contract ∧ Plugins.transport_version contract = 1%N.
Proof.
  split; [by vm_compute|]. exists (transport_contract JsonlV1). split; [|done].
  apply (transport_matches_contract (λ _, []) (λ _, []) abi_manifest); [done|].
  exists JsonlV1. split; [by vm_compute|done].
Defined.

Lemma staged_copy_is_reused_witness :
  (stage_artifact config record (lit "/p/echo/echo.so") next_start).1 = Ok target ∧
  files (stage_artifact config record (lit "/p/echo/echo.so") next_start).2 !! target = Some [x01].
Proof.
  destruct (staged_copy_is_reused config record (lit "/p/echo/echo.so") full_disk no_such_file [x01] next_start)
    as (_ & H1 & H2 & _); [by vm_compute|by vm_compute|by eexists|done..|].
  split; [exact H1|exact H2].
Defined.

(** A plugin id is not a file name: one that is an absolute path moves the staged
    copy out of the run directory. *)
Lemma staging_escapes :
  staging_dir config (mkPluginRecord [] (mkPlugin (lit "/etc/x") [] SAbi [] (lit "sha256:ab") [] : PluginManifest) None None)
  = lit "/etc/x/ab".
Proof. by vm_compute. Qed.

End witnesses.
