(* ===== verification/AbiQueues.v ===== *)
(** * ABI plugins: the version 2 transport

    [crates/mutsuki-service-runtime/src/abi_plugin/connection/io.rs and v2.rs]:
    frames are handed to worker threads through two bounded queues, the workers
    call the plugin, and the responses come back as one byte stream.  The
    threads, the transport that writes and reads, and the owner of the
    connection are one machine whose labels can come in any order. *)

From S2P Require Import Prelude Text BTreeMap Value ConfigTypes Frame Fs Plugins Supervisor Catalog Boot Abi.

Definition WORK_QUEUE_LIMIT : nat := 56.
Definition MANAGEMENT_QUEUE_LIMIT : nat := 8.

Abbreviation frame := (list byte).

(** A callback worker: in [recv], in the plugin, or its thread has ended. *)
Inductive worker : Type := Receiving | Invoking (f : frame) | Ended.

#[export] Instance worker_eq_dec : EqDecision worker.
Proof. solve_decision. Defined.

(** What workers do, and the close of the plugin. *)
Inductive event : Type :=
| Called (i : nat) (f : frame)
| Returned (i : nat) (p : AbiBuffer)
| Released (i : nat) (p : AbiBuffer)
| Responded (i : nat) (bytes : list byte)
| Closed.

(** How a flush ended. *)
Inductive flushed : Type := Sent (management : bool) (f : frame) | InvalidFrame (e : text) | QueueClosed.

Record io : Type := mkIo {
  work : list frame;
  management : list frame;
  buffer : list byte;                       (* [CallbackWriter::buffer] *)
  sending : option (bool * frame);          (* a flush that waits in [send] *)
  writer : bool;
  flushes : list flushed;
  responses : list (list byte);             (* in the response channel *)
  current : list byte;                      (* the unread part of the cursor *)
  reader : bool;
  reads : list (option (list byte));        (* [None]: an error *)
  workers : list worker;                    (* four for work, then the one for management *)
  connection : bool;                        (* [V2Connection] holds the plugin *)
  closed : bool;
  events : list event;
}.

(** [callback_io]. *)
Definition new_io : io :=
  mkIo [] [] [] None true [] [] [] true [] (replicate 4 Receiving ++ [Receiving]) true false [].

Definition management_worker : nat := 4.
Definition is_management (i : nat) : bool := (i =? management_worker)%nat.

Definition set_worker (i : nat) (x : worker) (s : io) : io :=
  mkIo (work s) (management s) (buffer s) (sending s) (writer s) (flushes s) (responses s) (current s)
    (reader s) (reads s) (<[i := x]> (workers s)) (connection s) (closed s) (events s).
Definition queue_of (m : bool) (s : io) : list frame := if m then management s else work s.
Definition set_queue (m : bool) (q : list frame) (s : io) : io :=
  mkIo (if m then work s else q) (if m then q else management s) (buffer s) (sending s) (writer s)
    (flushes s) (responses s) (current s) (reader s) (reads s) (workers s) (connection s) (closed s)
    (events s).
Definition set_writer (b : list byte) (p : option (bool * frame)) (alive : bool) (fs : list flushed)
    (s : io) : io :=
  mkIo (work s) (management s) b p alive fs (responses s) (current s) (reader s) (reads s) (workers s)
    (connection s) (closed s) (events s).
Definition set_reader (rs : list (list byte)) (c : list byte) (alive : bool)
    (reads : list (option (list byte))) (s : io) : io :=
  mkIo (work s) (management s) (buffer s) (sending s) (writer s) (flushes s) rs c alive reads (workers s)
    (connection s) (closed s) (events s).
Definition happen (es : list event) (s : io) : io :=
  mkIo (work s) (management s) (buffer s) (sending s) (writer s) (flushes s) (responses s) (current s)
    (reader s) (reads s) (workers s) (connection s) (closed s) (events s ++ es).
Definition set_owner (conn closed : bool) (s : io) : io :=
  mkIo (work s) (management s) (buffer s) (sending s) (writer s) (flushes s) (responses s) (current s)
    (reader s) (reads s) (workers s) conn closed (events s).

(** ** Workers *)

(** What [invoke] makes of an answer, [mem] being the payload's memory. *)
Definition invoke_response (r : AbiCallResult) (mem : list byte) : list byte :=
  if negb (valid_payload (payload r)) then []
  else if (status r =? 0)%N then (if (buf_len (payload r) =? 0)%N then [] else mem)
  else [].

(** The receiver is alive while a worker of the queue is. *)
Definition queue_alive (m : bool) (s : io) : bool :=
  existsb (λ w, negb (bool_decide (w = Ended)))
    (if m then drop management_worker (workers s) else take management_worker (workers s)).

Definition worker_take (i : nat) (s : io) : io :=
  let m := is_management i in
  match workers s !! i, queue_of m s with
  | Some Receiving, f :: q => happen [Called i f] (set_worker i (Invoking f) (set_queue m q s))
  | Some Receiving, [] => if writer s then s else set_worker i Ended s
  | _, _ => s
  end.

(** The plugin answers worker [i]; then the response is sent. *)
Definition worker_finish (i : nat) (r : AbiCallResult) (mem : list byte) (s : io) : io :=
  match workers s !! i with
  | Some (Invoking _) =>
      let p := payload r in
      let s := happen (Returned i p :: if releasable p then [Released i p] else []) s in
      let response := invoke_response r mem in
      if reader s then
        happen [Responded i response]
          (set_worker i Receiving (set_reader (responses s ++ [response]) (current s) true (reads s) s))
      else set_worker i Ended s
  | _ => s
  end.

(** ** The writer and the reader of the transport *)

Section transport.
Context `{Contracts} `{AbiSdk}.

Definition write (bytes : list byte) (s : io) : io :=
  match sending s with
  | Some _ => s
  | None => if writer s then set_writer (buffer s ++ bytes) None true (flushes s) s else s
  end.

(** [flush] up to its [send]. *)
Definition flush (s : io) : io :=
  match sending s, buffer s with
  | Some _, _ | None, [] => s
  | None, f =>
      if writer s then
        match decode_wire_frame f with
        | Err e => set_writer [] None true (flushes s ++ [InvalidFrame e]) s
        | Ok m => set_writer [] (Some (m, f)) true (flushes s) s
        end
      else s
  end.

Definition queue_limit (m : bool) : nat := if m then MANAGEMENT_QUEUE_LIMIT else WORK_QUEUE_LIMIT.

(** The waiting [send] runs: it ends when there is room or nobody receives. *)
Definition push (s : io) : io :=
  match sending s with
  | None => s
  | Some (m, f) =>
      if negb (queue_alive m s) then set_writer (buffer s) None (writer s) (flushes s ++ [QueueClosed]) s
      else if (List.length (queue_of m s) <? queue_limit m)%nat then
        set_queue m (queue_of m s ++ [f])
          (set_writer (buffer s) None (writer s) (flushes s ++ [Sent m f]) s)
      else s
  end.

(** [CallbackReader::read] into [n] bytes; it waits while a worker may respond. *)
Definition read (n : nat) (s : io) : io :=
  if negb (reader s) then s
  else match current s, responses s with
       | [], [] =>
           if existsb (λ w, negb (bool_decide (w = Ended))) (workers s) then s
           else set_reader [] [] true (reads s ++ [None]) s
       | [], r :: rs => set_reader rs (drop n r) true (reads s ++ [Some (take n r)]) s
       | c, rs => set_reader rs (drop n c) true (reads s ++ [Some (take n c)]) s
       end.

(** ** The machine *)

Inductive label : Type :=
| Take (i : nat)
| Finish (i : nat) (r : AbiCallResult) (mem : list byte)
| Write (bytes : list byte) | Flush | Push | Read (n : nat)
| DropWriter | DropReader | DropConnection.

Definition act (l : label) (s : io) : io :=
  match l with
  | Take i => worker_take i s
  | Finish i r mem => worker_finish i r mem s
  | Write bytes => write bytes s
  | Flush => flush s
  | Push => push s
  | Read n => read n s
  | DropWriter => match sending s with
                  | None => set_writer [] None false (flushes s) s
                  | Some _ => s                (* borrowed by the flush *)
                  end
  | DropReader => set_reader [] [] false (reads s) s
  | DropConnection => set_owner false (closed s) s
  end.

(** [Drop] of [PluginLifetime], when its last owner is gone. *)
Definition settle (s : io) : io :=
  if negb (connection s) && forallb (λ w, bool_decide (w = Ended)) (workers s) && negb (closed s)
  then happen [Closed] (set_owner false true s)
  else s.

Definition step (l : label) (s : io) : io := settle (act l s).
Definition run (ls : list label) (s : io) : io := fold_left (λ s l, step l s) ls s.

(** ** Opening a connection *)

(** [V2Connection::open] until [BinaryTransport::with_limits], with the calls made. *)
Definition v2_open (plugin_id staged : text) (w : world) : ServiceRuntimeResult (AbiPluginTable * io) * list ffi :=
  match library_new staged w with
  | Err e => (Err (abi_load_error plugin_id e), [])
  | Ok library =>
      match entry library ABI_V2_ENTRY_SYMBOL with
      | Err e => (Err (missing_symbol plugin_id ABI_V2_ENTRY_SYMBOL e), [])
      | Ok f =>
          let t := [EntryCall ABI_V2_ENTRY_SYMBOL] in
          let api := f t in
          if table_invalid ABI_V2_TRANSPORT_VERSION api then
            (Err (abi_load_error plugin_id
                    (lit "invalid ABI v2 entry or transport version " ++ show_N (table_version api)
                     ++ lit ", expected " ++ show_N ABI_V2_TRANSPORT_VERSION)),
             t ++ close_rejected api)
          else (Ok (api, new_io), t)
      end
  end.

End transport.

(** ** The specification *)

(** What a worker owes the plugin: nothing, a call that has not returned, or the
    release of a payload. *)
Inductive phase : Type := Idle | InPlugin (f : frame) | Owing (p : AbiBuffer).

#[export] Instance buffer_eq_dec : EqDecision AbiBuffer.
Proof. solve_decision. Defined.
#[export] Instance phase_eq_dec : EqDecision phase.
Proof. solve_decision. Defined.

(** The calls a plugin may see: a worker calls when it owes nothing, releases
    exactly the payload it got before it goes on, and the plugin is closed once,
    when nobody is inside and nothing is owed. *)
Definition legal_event (e : event) (st : bool * list phase) : option (bool * list phase) :=
  let '(closed, ps) := st in
  if (closed : bool) then None
  else
    match e with
    | Called i f => if bool_decide (ps !! i = Some Idle) then Some (false, <[i := InPlugin f]> ps) else None
    | Returned i p =>
        match ps !! i with
        | Some (InPlugin _) => Some (false, <[i := if releasable p then Owing p else Idle]> ps)
        | _ => None
        end
    | Released i p => if bool_decide (ps !! i = Some (Owing p)) then Some (false, <[i := Idle]> ps) else None
    | Responded i _ => if bool_decide (ps !! i = Some Idle) then Some (false, ps) else None
    | Closed => if forallb (λ p, bool_decide (p = Idle)) ps then Some (true, ps) else None
    end.

Definition legal (es : list event) (st : bool * list phase) : option (bool * list phase) :=
  fold_left (λ st e, st ≫= legal_event e) es (Some st).

Definition plugin_start : bool * list phase := (false, replicate 5 Idle).

(** Frames handed over by the transport and frames the plugin was called with. *)
Definition sent_frames (m : bool) (fs : list flushed) : list frame :=
  omap (λ x, match x with Sent m' f => if Bool.eqb m m' then Some f else None | _ => None end) fs.
Definition called_frames (m : bool) (es : list event) : list frame :=
  omap (λ e, match e with Called i f => if Bool.eqb m (is_management i) then Some f else None | _ => None end) es.

(** The bytes that were responded. *)
Definition responded (es : list event) : list byte :=
  mjoin (omap (λ e, match e with Responded _ bytes => Some bytes | _ => None end) es).

Definition phase_of (w : worker) : phase := match w with Invoking f => InPlugin f | _ => Idle end.

Definition read_bytes (s : io) : list byte := mjoin (omap id (reads s)).

Record io_ok (s : io) : Prop := mkIoOk {
  ok_workers : List.length (workers s) = 5;
  ok_work : (List.length (work s) ≤ WORK_QUEUE_LIMIT)%nat;
  ok_management : (List.length (management s) ≤ MANAGEMENT_QUEUE_LIMIT)%nat;
  ok_legal : legal (events s) plugin_start = Some (closed s, phase_of <$> workers s);
  ok_closed : closed s = true → connection s = false ∧ Forall (λ w, w = Ended) (workers s);
  ok_fifo m : sent_frames m (flushes s) = called_frames m (events s) ++ queue_of m s;
  ok_stream : reader s = true → responded (events s) = read_bytes s ++ current s ++ mjoin (responses s);
}.

(** ** Lemmas *)

Lemma legal_snoc es es' st : legal (es ++ es') st = legal es st ≫= legal es'.
Proof.
  unfold legal. rewrite fold_left_app. destruct (fold_left _ es (Some st)) as [st'|]; [done|]. simpl.
  induction es'; [done|]. simpl. done.
Qed.

Lemma legal_cons e es st : legal (e :: es) st = legal_event e st ≫= legal es.
Proof. change (e :: es) with ([e] ++ es). by rewrite legal_snoc. Qed.

Lemma legal_nil st : legal [] st = Some st.
Proof. done. Qed.

#[local] Arguments legal : simpl never.

Lemma called_app m es es' : called_frames m (es ++ es') = called_frames m es ++ called_frames m es'.
Proof. apply omap_app. Qed.

Lemma responded_app es es' : responded (es ++ es') = responded es ++ responded es'.
Proof. unfold responded. by rewrite omap_app, join_app. Qed.

Lemma sent_app m fs fs' : sent_frames m (fs ++ fs') = sent_frames m fs ++ sent_frames m fs'.
Proof. apply omap_app. Qed.

Section lemmas.
Context `{Contracts} `{AbiSdk}.

Lemma new_io_ok : io_ok new_io.
Proof. split; try done; try (simpl; unfold WORK_QUEUE_LIMIT, MANAGEMENT_QUEUE_LIMIT; lia). by intros []. Qed.

Lemma open_while_busy s i w : io_ok s → workers s !! i = Some w → w ≠ Ended → closed s = false.
Proof.
  intros Hok Hi Hw. destruct (closed s) eqn:E; [|done].
  destruct (ok_closed _ Hok E) as [_ Hall]. rewrite Forall_lookup in Hall. by apply Hall in Hi.
Qed.

Lemma queue_set_queue m m' q s : queue_of m' (set_queue m q s) = if Bool.eqb m m' then q else queue_of m' s.
Proof. by destruct m, m'. Qed.

Lemma take_ok i s : io_ok s → io_ok (worker_take i s).
Proof.
  intros Hok. unfold worker_take. destruct (workers s !! i) as [[|f|]|] eqn:Ei; [|done..].
  pose proof (open_while_busy _ _ _ Hok Ei) as Hc. specialize (Hc ltac:(done)). destruct Hok as [Hw H1 H2 Hl Hcl Hf Hs].
  pose proof (Hf (is_management i)) as Hfm.
  destruct (queue_of (is_management i) s) as [|f q] eqn:Eq.
  - destruct (writer s); [done|].
    split; cbn; try done; [by rewrite length_insert| |by rewrite Hc].
    rewrite Hl. f_equal. f_equal. rewrite list_fmap_insert. simpl. symmetry. apply list_insert_id.
    by rewrite list_lookup_fmap, Ei.
  - assert (Hlen : (S (List.length q) ≤ if is_management i then MANAGEMENT_QUEUE_LIMIT else WORK_QUEUE_LIMIT)%nat).
    { destruct (is_management i); simpl in Eq; rewrite Eq in *; done. }
    split.
    + cbn. by rewrite length_insert.
    + destruct (is_management i); cbn; [done|lia].
    + destruct (is_management i); cbn; [lia|done].
    + cbn [happen events set_worker set_queue workers closed]. rewrite legal_snoc, Hl, Hc. cbn.
      rewrite legal_cons. cbn. rewrite list_lookup_fmap, Ei. cbn.
      rewrite bool_decide_true by done. cbn. by rewrite list_fmap_insert.
    + cbn. by rewrite Hc.
    + intros m. cbn [happen events set_worker set_queue flushes].
      change (queue_of m (happen _ _)) with (queue_of m (set_queue (is_management i) q s)).
      rewrite queue_set_queue, called_app, Hf. cbn.
      destruct (is_management i), m; cbn in *; rewrite ?Eq, <-?(assoc_L (++)), ?app_nil_r; done.
    + cbn [happen reader set_worker set_queue events]. intros Hr.
      rewrite responded_app. unfold responded at 2. cbn. rewrite app_nil_r. by apply Hs.
Qed.

Lemma finish_ok i r mem s : io_ok s → io_ok (worker_finish i r mem s).
Proof.
  intros Hok. unfold worker_finish. destruct (workers s !! i) as [[|f|]|] eqn:Ei; [done| |done..].
  pose proof (open_while_busy _ _ _ Hok Ei) as Hc. specialize (Hc ltac:(done)). destruct Hok as [Hw H1 H2 Hl Hcl Hf Hs].
  set (es := Returned i (payload r) :: _).
  assert (Hes : ∀ w, w = Receiving ∨ w = Ended →
    legal (events s ++ es) plugin_start = Some (false, phase_of <$> <[i := w]> (workers s))).
  { intros w Hw'. rewrite legal_snoc, Hl, Hc. unfold es. cbn. rewrite legal_cons. cbn.
    rewrite list_lookup_fmap, Ei. cbn.
    assert (Hi : (i < 5)%nat) by (rewrite <-Hw; by eapply lookup_lt_Some).
    destruct (releasable (payload r)); rewrite ?legal_cons; cbn.
    - rewrite list_lookup_insert_eq by (by rewrite length_fmap, Hw). rewrite bool_decide_true by done. cbn.
      rewrite legal_nil, list_insert_insert_eq, list_fmap_insert. by destruct Hw' as [->| ->].
    - rewrite legal_nil, list_fmap_insert. by destruct Hw' as [->| ->]. }
  assert (Hcalled : ∀ m, called_frames m (events s ++ es) = called_frames m (events s)).
  { intros m. rewrite called_app. unfold es. destruct (releasable _); cbn; by rewrite app_nil_r. }
  assert (Hresp : responded (events s ++ es) = responded (events s)).
  { rewrite responded_app. unfold es, responded. destruct (releasable _); cbn; by rewrite app_nil_r. }
  cbn [happen reader]. destruct (reader s) eqn:Er; split;
    cbn -[called_frames sent_frames responded read_bytes legal es]; try done;
    rewrite ?length_insert; try done; try (by rewrite Hc).
  - rewrite legal_snoc, (Hes Receiving) by (by left). cbn. rewrite legal_cons. cbn.
    rewrite list_lookup_fmap, list_lookup_insert_eq by (by eapply lookup_lt_Some). cbn.
    rewrite bool_decide_true by done. cbn. by rewrite Hc.
  - intros m. rewrite called_app, Hcalled. cbn. rewrite app_nil_r. apply Hf.
  - intros _. rewrite responded_app, Hresp, Hs by done. unfold read_bytes, responded. cbn.
    rewrite join_app. cbn. by rewrite <-!(assoc_L (++)).
  - rewrite (Hes Ended) by (by right). by rewrite Hc.
  - intros m. rewrite Hcalled. apply Hf.
  - congruence.
Qed.

Lemma push_ok s : io_ok s → io_ok (push s).
Proof.
  intros [Hw H1 H2 Hl Hcl Hf Hs]. unfold push. destruct (sending s) as [[m f]|]; [|by split].
  destruct (queue_alive m s); cbn [negb].
  - destruct (Nat.ltb_spec (List.length (queue_of m s)) (queue_limit m)) as [Hlt|]; [|by split].
    split; try done.
    + destruct m; cbn in *; [done|]. rewrite length_app. cbn. unfold queue_limit in Hlt. lia.
    + destruct m; cbn in *; [|done]. rewrite length_app. cbn. unfold queue_limit in Hlt. lia.
    + intros m'. cbn [set_queue set_writer flushes events]. rewrite queue_set_queue, sent_app, Hf.
      destruct m, m'; cbn; by rewrite <-?(assoc_L (++)), ?app_nil_r.
  - split; try done. intros m'. cbn -[sent_frames called_frames]. rewrite sent_app, Hf. cbn. by rewrite app_nil_r.
Qed.

Lemma read_ok n s : io_ok s → io_ok (read n s).
Proof.
  intros [Hw H1 H2 Hl Hcl Hf Hs]. unfold read. destruct (reader s) eqn:Er; cbn [negb]; [|split; try done; congruence].
  specialize (Hs eq_refl).
  assert (Hgen : ∀ r rest, current s ++ mjoin (responses s) = r ++ mjoin rest →
    io_ok (set_reader rest (drop n r) true (reads s ++ [Some (take n r)]) s)).
  { intros r rest E. split; try done. intros _. cbn -[responded read_bytes]. rewrite Hs, E.
    unfold read_bytes. cbn. rewrite omap_app, join_app. cbn.
    rewrite app_nil_r, <-!(assoc_L (++)). f_equal. by rewrite (assoc_L (++)), take_drop. }
  destruct (current s) as [|b c] eqn:Ec, (responses s) as [|r rs] eqn:Ers; try by apply Hgen.
  destruct (existsb _ _); [split; try done; intros _; by rewrite Ec, Ers|].
  split; try done. intros _. cbn -[responded read_bytes]. rewrite Hs.
  unfold read_bytes. cbn. by rewrite omap_app, join_app, !app_nil_r.
Qed.

Lemma act_ok l s : io_ok s → io_ok (act l s).
Proof.
  intros Hok. destruct l as [i|i r mem|bytes| | |n| | |]; cbn [act];
    [by apply take_ok|by apply finish_ok| | |by apply push_ok|by apply read_ok|..].
  - unfold write. destruct (sending s), (writer s); try done. by destruct Hok.
  - unfold flush. destruct (sending s), (buffer s), (writer s); try done.
    destruct (decode_wire_frame _); destruct Hok as [Hw H1 H2 Hl Hcl Hf Hs]; split; try done.
    intros m. cbn -[sent_frames called_frames]. rewrite sent_app, Hf. cbn. by rewrite app_nil_r.
  - destruct (sending s); [done|by destruct Hok].
  - destruct Hok; by split.
  - destruct Hok as [Hw H1 H2 Hl Hcl Hf Hs]; split; try done. cbn. intros Hc. by destruct (Hcl Hc).
Qed.

(** The plugin is open exactly while someone owns it. *)
Definition settled (s : io) : Prop :=
  closed s = negb (connection s) && forallb (λ w, bool_decide (w = Ended)) (workers s).

Lemma settle_ok s : io_ok s → io_ok (settle s) ∧ settled (settle s).
Proof.
  intros Hok. unfold settle, settled.
  destruct (negb (connection s) && forallb _ (workers s)) eqn:Eq; cbn [andb].
  2: { split; [done|]. rewrite Eq. destruct (closed s) eqn:E; [|done].
       apply (ok_closed _ Hok) in E as [Ec E]. rewrite <-Eq, Ec. cbn [negb andb]. symmetry.
       apply forallb_forall. intros w Hw%list_elem_of_In. rewrite Forall_forall in E.
       apply E in Hw as ->. done. }
  destruct (closed s) eqn:E; cbn [negb]; [split; [done|]; by rewrite E, Eq|].
  apply andb_true_iff in Eq as [Ec Ea].
  destruct Hok as [Hw H1 H2 Hl Hcl Hf Hs]. split; [|cbn; by rewrite Ea]. split; try done.
  - cbn. rewrite legal_snoc, Hl, E. cbn. rewrite legal_cons. cbn.
    assert (Hi : forallb (λ p, bool_decide (p = Idle)) (phase_of <$> workers s) = true).
    { apply forallb_forall. intros p Hp%list_elem_of_In. apply list_elem_of_fmap in Hp as (w & -> & Hw').
      rewrite forallb_forall in Ea. apply list_elem_of_In, Ea, bool_decide_eq_true in Hw' as ->. done. }
    by rewrite Hi.
  - cbn. intros _. split; [done|]. apply Forall_forall. intros w Hw'. rewrite forallb_forall in Ea.
    by apply list_elem_of_In, Ea, bool_decide_eq_true in Hw'.
  - intros m. cbn -[sent_frames called_frames]. rewrite called_app. cbn. rewrite app_nil_r. apply Hf.
  - cbn -[responded read_bytes]. intros Hr. rewrite responded_app. unfold responded at 2. cbn. rewrite app_nil_r. by apply Hs.
Qed.

Lemma run_ok ls s : io_ok s → settled s → io_ok (run ls s) ∧ settled (run ls s).
Proof.
  revert s. induction ls as [|l ls IH]; intros s Hok Hs; [done|].
  destruct (settle_ok (act l s) (act_ok l s Hok)) as [H1 H2]. by apply IH.
Qed.

Lemma reached_ok ls : io_ok (run ls new_io) ∧ settled (run ls new_io).
Proof. apply run_ok; [apply new_io_ok|done]. Qed.


Lemma worker_index s i w : io_ok s → workers s !! i = Some w → (i < 5)%nat.
Proof. intros Hok Hi. rewrite <-(ok_workers _ Hok). by eapply lookup_lt_Some. Qed.

Lemma step_settled l s : settled s → connection (act l s) = true → step l s = act l s.
Proof. intros _ Hc. unfold step, settle. by rewrite Hc. Qed.

(** A worker with nothing left to wait for ends, whatever it was doing. *)
Lemma worker_ends i r mem s :
  io_ok s → (i < 5)%nat → writer s = false → reader s = false → connection s = false →
  let s' := run [Take i; Finish i r mem] s in
  io_ok s' ∧ workers s' = <[i := Ended]> (workers s) ∧ writer s' = false ∧ reader s' = false ∧
  connection s' = false ∧ settled s'.
Proof.
  intros Hok Hi Hw Hr Hc.
  assert (Hset : ∀ s, workers (settle s) = workers s ∧ writer (settle s) = writer s ∧
    reader (settle s) = reader s ∧ (connection s = false → connection (settle s) = false)).
  { intros t. unfold settle. destruct (_ && _); [|done]. by split_and!. }
  destruct (settle_ok (act (Take i) s) (act_ok _ _ Hok)) as [Hok1 _].
  destruct (settle_ok (act (Finish i r mem) (settle (act (Take i) s))) (act_ok _ _ Hok1)) as [Hok2 Hs2].
  split; [exact Hok2|]. cbn [run fold_left step] in *. unfold step in *.
  assert (H1 : writer (act (Take i) s) = false ∧ reader (act (Take i) s) = false ∧
    connection (act (Take i) s) = false ∧
    (workers (act (Take i) s) = <[i := Ended]> (workers s) ∨
     ∃ f, workers (act (Take i) s) = <[i := Invoking f]> (workers s))).
  { cbn [act]. unfold worker_take. destruct (lookup_lt_is_Some_2 (workers s) i) as [x Hx].
    { by rewrite (ok_workers _ Hok). }
    rewrite Hx. destruct x as [|f|].
    - destruct (queue_of _ s) as [|f q]; rewrite ?Hw.
      + split_and!; try done. by left.
      + split_and!; [done..|]. right. by exists f.
    - split_and!; try done. right. exists f. symmetry. by apply list_insert_id.
    - split_and!; try done. left. symmetry. by apply list_insert_id. }
  set (s1 := settle (act (Take i) s)) in *.
  destruct (Hset (act (Take i) s)) as (Ew & Ewr & Er & Ec). fold s1 in Ew, Ewr, Er, Ec.
  destruct H1 as (Hw1 & Hr1 & Hc1 & Hwk). specialize (Ec Hc1).
  assert (H2 : workers (act (Finish i r mem) s1) = <[i := Ended]> (workers s) ∧
    writer (act (Finish i r mem) s1) = false ∧ reader (act (Finish i r mem) s1) = false ∧
    connection (act (Finish i r mem) s1) = false).
  { cbn [act]. unfold worker_finish. rewrite Ew. rewrite Hr1 in Er. rewrite Hw1 in Ewr.
    destruct Hwk as [E|(f & E)]; rewrite E, list_lookup_insert_eq by (by rewrite (ok_workers _ Hok)).
    - split_and!; congruence.
    - cbn [happen reader]. rewrite Er. cbn [set_worker happen workers writer reader connection].
      rewrite Ew, E, list_insert_insert_eq. done. }
  destruct (Hset (act (Finish i r mem) s1)) as (Ew2 & Ewr2 & Er2 & Ec2).
  destruct H2 as (H21 & H22 & H23 & H24). split_and!; try done; congruence || auto.
Qed.

(** A plugin with a running worker is not closed. *)
Lemma settle_live t i x : workers t !! i = Some x → x ≠ Ended → settle t = t.
Proof.
  intros Hi Hx. unfold settle. destruct (forallb _ _) eqn:E; [|by rewrite andb_false_r].
  rewrite forallb_forall in E. apply list_elem_of_lookup_2, list_elem_of_In, E, bool_decide_eq_true in Hi. done.
Qed.

Lemma management_take s t f q :
  (management_worker < List.length (workers s))%nat →
  workers t = <[management_worker := Receiving]> (workers s) → management t = f :: q → work t = work s →
  called_frames true (events t) = called_frames true (events s) →
  let t' := step (Take management_worker) t in
  workers t' = <[management_worker := Invoking f]> (workers s) ∧ management t' = q ∧ work t' = work s ∧
  called_frames true (events t') = called_frames true (events s) ++ [f].
Proof.
  intros Hlen Hwt Hmt Hwk Hcalled. unfold step. cbn [act]. unfold worker_take.
  rewrite Hwt, list_lookup_insert_eq by done. cbn [is_management management_worker Nat.eqb queue_of]. rewrite Hmt.
  erewrite settle_live.
  - cbn -[called_frames]. rewrite Hwt, called_app, Hcalled, Hwk. split_and!; try done.
    by rewrite list_insert_insert_eq.
  - cbn. rewrite Hwt, list_insert_insert_eq. by apply list_lookup_insert_eq.
  - done.
Qed.

(** Every worker runs once more. *)
Definition wind_down (r : AbiCallResult) (mem : list byte) : list label :=
  [0; 1; 2; 3; 4]%nat ≫= λ i, [Take i; Finish i r mem].

Lemma wind_down_ends r mem s :
  io_ok s → writer s = false → reader s = false → connection s = false →
  closed (run (wind_down r mem) s) = true.
Proof.
  intros Hok Hw Hr Hc. unfold wind_down. cbn [mbind list_bind].
  assert (Happ : ∀ a b s, run (a ++ b) s = run b (run a s)) by (intros; apply fold_left_app).
  assert (Hend : ∀ i s, (i < 5)%nat →
    io_ok s ∧ writer s = false ∧ reader s = false ∧ connection s = false →
    let s' := run [Take i; Finish i r mem] s in
    (io_ok s' ∧ writer s' = false ∧ reader s' = false ∧ connection s' = false) ∧
    workers s' = <[i := Ended]> (workers s) ∧ settled s').
  { intros i t Hi (H1 & H2 & H3 & H4). destruct (worker_ends i r mem t H1 Hi H2 H3 H4) as (?&?&?&?&?&?).
    by split_and!. }
  rewrite !Happ. assert (Hall : io_ok s ∧ writer s = false ∧ reader s = false ∧ connection s = false) by done.
  destruct (Hend 0%nat s ltac:(lia) Hall) as (H1 & W1 & _).
  destruct (Hend 1%nat _ ltac:(lia) H1) as (H2 & W2 & _).
  destruct (Hend 2%nat _ ltac:(lia) H2) as (H3 & W3 & _).
  destruct (Hend 3%nat _ ltac:(lia) H3) as (H4 & W4 & _).
  destruct (Hend 4%nat _ ltac:(lia) H4) as (H5 & W5 & S5).
  assert (Hnil : ∀ x, run [] x = x) by done. rewrite Hnil, S5, W5, W4, W3, W2, W1. destruct H5 as (_ & _ & _ & ->).
  pose proof (ok_workers _ Hok) as Hlen. destruct (workers s) as [|a [|b [|c [|d [|e [|]]]]]]; try done.
Qed.

(** ** Properties *)

(** C11: However the threads are scheduled and whatever the plugin answers, the
    calls it sees are legal: a worker calls it only when it owes it nothing,
    every payload that has to be released is released exactly once, by the
    worker that got it and before its next call; and the plugin is closed at
    most once, as soon as the connection is dropped and the last worker has
    ended, when no call is inside it, and is not touched after that. *)
Theorem v2_calls_legal ls :
  let s := run ls new_io in
  legal (events s) plugin_start = Some (closed s, phase_of <$> workers s) ∧
  closed s = negb (connection s) && forallb (λ w, bool_decide (w = Ended)) (workers s).
Proof. intros s. destruct (reached_ok ls) as [Hok Hs]. split; [by apply ok_legal|exact Hs]. Qed.


(** Management is never behind work: whatever fills the work queue and
    whatever the four work workers do, the first waiting management frame is the
    next one that the management worker calls the plugin with. *)
Theorem management_not_blocked ls f q r mem :
  let s := run ls new_io in
  management s = f :: q → workers s !! management_worker ≠ Some Ended → reader s = true →
  ∃ ls', Forall (λ l, l = Take management_worker ∨ l = Finish management_worker r mem) ls' ∧
    let s' := run ls' s in
    workers s' = <[management_worker := Invoking f]> (workers s) ∧ management s' = q ∧
    work s' = work s ∧ called_frames true (events s') = called_frames true (events s) ++ [f].
Proof.
  intros s Hm Hw Hr. destruct (reached_ok ls) as [Hok _]. fold s in Hok.
  assert (Hlen : (management_worker < List.length (workers s))%nat).
  { rewrite (ok_workers _ Hok). unfold management_worker. lia. }
  destruct (lookup_lt_is_Some_2 (workers s) management_worker Hlen) as [[|g|] Hx]; [| |congruence].
  - exists [Take management_worker]. split; [apply Forall_singleton; by left|]. cbn [run fold_left].
    apply management_take; try done. symmetry. by apply list_insert_id.
  - exists [Finish management_worker r mem; Take management_worker].
    split; [apply Forall_cons; split; [by right|]; apply Forall_singleton; by left|]. cbn [run fold_left].
    assert (E : step (Finish management_worker r mem) s = act (Finish management_worker r mem) s).
    { unfold step. eapply settle_live; [|by apply (not_eq_sym (y:=Receiving))]. cbn [act]. unfold worker_finish.
      rewrite Hx. cbn [happen reader]. rewrite Hr. by apply list_lookup_insert_eq. }
    rewrite E. cbn [act]. unfold worker_finish. rewrite Hx. cbn [happen reader]. rewrite Hr.
    apply management_take; try done. cbn -[called_frames]. rewrite !called_app.
    destruct (releasable _); cbn; by rewrite !app_nil_r.
Qed.

(** A connection that is given up is closed: once its transport and its owner
    are gone, the plugin is closed after every worker has run once more, whatever
    is still queued and whatever the plugin answers. *)
Theorem dropped_connection_closes ls r mem :
  let s := run ls new_io in
  writer s = false → reader s = false → connection s = false →
  let s' := run (wind_down r mem) s in
  closed s' = true ∧ legal (events s') plugin_start = Some (true, phase_of <$> workers s').
Proof.
  intros s Hw Hr Hc s'. destruct (reached_ok ls) as [Hok Hset]. fold s in Hok, Hset.
  assert (E : closed s' = true) by by apply wind_down_ends.
  split; [done|]. destruct (run_ok (wind_down r mem) s Hok Hset) as [Hok' _]. fold s' in Hok'.
  rewrite <-E. by apply ok_legal.
Qed.

(** The transport reads exactly what the workers responded, in order; but a
    call that failed responds nothing, which it reads as the end of the stream
    while the connection is open and workers are running. *)
Theorem failed_callback_ends_stream ls i f r mem n :
  let s := run ls new_io in
  reader s = true →
  responded (events s) = read_bytes s ++ current s ++ mjoin (responses s) ∧
  (workers s !! i = Some (Invoking f) → status r ≠ 0%N → current s = [] → responses s = [] →
   let s' := run [Finish i r mem; Read n] s in
   reads s' = reads s ++ [Some []] ∧ closed s' = false ∧ workers s' !! i = Some Receiving).
Proof.
  intros s Hr. destruct (reached_ok ls) as [Hok Hset]. fold s in Hok, Hset.
  split; [by apply ok_stream|]. intros Hi Hst Hcur Hres.
  assert (Hlt : (i < List.length (workers s))%nat) by (by eapply lookup_lt_Some).
  assert (Hinv : invoke_response r mem = []).
  { unfold invoke_response. destruct (valid_payload _); [|done]. by rewrite (proj2 (N.eqb_neq _ _) Hst). }
  assert (Hc : closed s = false) by by eapply open_while_busy.
  assert (Hkeep : ∀ t, workers t !! i = Some Receiving → settle t = t).
  { intros t Hl. by apply (settle_live t i Receiving). }
  set (s1 := act (Finish i r mem) s).
  assert (H1 : workers s1 !! i = Some Receiving ∧ reader s1 = true ∧ current s1 = [] ∧
    responses s1 = [[]] ∧ reads s1 = reads s ∧ closed s1 = false).
  { unfold s1. cbn [act]. unfold worker_finish. rewrite Hi. cbn [happen reader]. rewrite Hr, Hinv.
    cbn. rewrite Hcur, Hres. split_and!; try done. by rewrite list_lookup_insert_eq. }
  destruct H1 as (W1 & R1 & C1 & Rs1 & Rd1 & Cl1).
  assert (E : run [Finish i r mem; Read n] s = set_reader [] [] true (reads s1 ++ [Some []]) s1).
  { cbn [run fold_left]. unfold step at 2. fold s1. clearbody s1. rewrite (Hkeep s1 W1).
    unfold step. cbn [act]. unfold read. rewrite R1, C1, Rs1. cbn [negb]. rewrite Hkeep by done.
    by rewrite take_nil, drop_nil. }
  rewrite E. cbn [set_reader reads closed workers]. by rewrite Rd1.
Qed.

End lemmas.

(** ** Witnesses *)

Module Sample.
Export Abi.Sample.

Definition work_frame : frame := [x00].
Definition management_frame : frame := [x01].
Definition send (f : frame) : list label := [Write f; Flush; Push].

(** The work workers are all inside the plugin and frames of both kinds wait. *)
Definition busy : list label :=
  (replicate 6 work_frame ≫= send) ++ [Take 0%nat; Take 1%nat; Take 2%nat; Take 3%nat] ++ send management_frame.

Definition failure : AbiCallResult := mkCallResult 1 (mkBuffer None 0).

End Sample.

Section witnesses.
Import Plugins.Sample Sample.

Lemma management_not_blocked_witness :
  work (run busy new_io) = [work_frame; work_frame] ∧
  ∃ ls', let s' := run ls' (run busy new_io) in
    workers s' !! management_worker = Some (Invoking management_frame) ∧ work s' = [work_frame; work_frame].
Proof.
  split; [by vm_compute|].
  destruct (management_not_blocked busy management_frame [] failure []) as (ls' & _ & Hw & _ & Hk & _);
    [by vm_compute|by vm_compute|by vm_compute|].
  exists ls'. cbv zeta. rewrite Hw, Hk. clear. split; vm_compute; reflexivity.
Defined.

Lemma dropped_connection_closes_witness :
  closed (run (wind_down failure []) (run (busy ++ [DropWriter; DropReader; DropConnection]) new_io)) = true.
Proof.
  apply (dropped_connection_closes (busy ++ [DropWriter; DropReader; DropConnection]) failure []);
    by vm_compute.
Defined.

Lemma failed_callback_ends_stream_witness :
  let s := run busy new_io in
  reads (run [Finish 0%nat failure []; Read 4%nat] s) = [Some []] ∧ connection s = true.
Proof.
  split; [|by vm_compute].
  destruct (failed_callback_ends_stream busy 0%nat work_frame failure [] 4%nat) as [_ H]; [by vm_compute|].
  destruct H as [H _]; [by vm_compute..|]. rewrite H. by vm_compute.
Defined.

End witnesses.
