(* ===== verification/AbiPlugin.v ===== *)
(** * Loading ABI plugins

    [crates/mutsuki-service-runtime/src/abi_plugin.rs and
    abi_plugin/connection.rs]: an artifact is staged, its library opened with
    the transport of its manifest, initialized, compared with its manifest and
    registered.  [DeferredRuntimeClient] of lib.rs, which the callbacks of the
    plugin reach the Core through, is here too. *)

From stdpp Require Import sorting.
From S2P Require Import Prelude Text BTreeMap Value ConfigTypes Frame Fs ServiceUnit Plugins Supervisor Catalog Boot.
From S2P Require Import Abi AbiQueues.

(** ** The order of strings *)

(** [Vec<String>::sort]. *)
Definition text_le (a b : text) : Prop := text_compare a b ≠ Gt.

#[export] Instance text_le_dec : RelDecision text_le.
Proof.
  intros a b. unfold Decision, text_le.
  destruct (text_compare a b); [left; discriminate|left; discriminate|right; by intros []].
Defined.

#[export] Instance text_le_total : Total text_le.
Proof. intros a b. unfold text_le. rewrite (text_compare_antisym a b). by destruct (text_compare a b); [left|left|right]. Qed.

#[export] Instance text_le_antisym : AntiSymm (=) text_le.
Proof.
  intros a b. unfold text_le. rewrite (text_compare_antisym a b). intros H1 H2.
  apply text_compare_eq. by destruct (text_compare a b).
Qed.

#[export] Instance text_le_trans : Transitive text_le.
Proof.
  intros a b c. unfold text_le. intros H1 H2.
  destruct (text_compare a b) eqn:Eab; [apply text_compare_eq in Eab as ->; done| |done].
  destruct (text_compare b c) eqn:Ebc; [apply text_compare_eq in Ebc as <-; by rewrite Eab| |done].
  by rewrite (text_compare_trans a b c).
Qed.

Definition sort_texts (l : list text) : list text := merge_sort text_le l.

Lemma sort_texts_eq l k : sort_texts l = sort_texts k ↔ l ≡ₚ k.
Proof.
  unfold sort_texts. split.
  - intros E. by rewrite <-(merge_sort_Permutation text_le l), <-(merge_sort_Permutation text_le k), E.
  - intros E. apply (Sorted_unique text_le); [apply Sorted_merge_sort, _..|].
    by rewrite !(merge_sort_Permutation text_le).
Qed.

(** ** The deferred client *)

(** What the Core's client, task submitter, resource gateway and resource
    registry are asked for; an operation with its arguments, and its answer. *)
Class CoreServices : Type := {
  ClientOp : Type; ClientAnswer : Type;
  SubmitOp : Type; SubmitAnswer : Type;
  PlanOp : Type; PlanAnswer : Type;
  RegistryOp : Type; RegistryAnswer : Type;
}.

Section deferred.
Context `{CoreServices} `{AbiSdk}.

Abbreviation TaskSubmitter := (SubmitOp → RuntimeResult SubmitAnswer).
Abbreviation ResourcePlanGateway := (PlanOp → RuntimeResult PlanAnswer).
Abbreviation ResourceRegistryGateway := (RegistryOp → RuntimeResult RegistryAnswer).
Abbreviation RuntimeClientRef := (ClientOp → RuntimeResult ClientAnswer).

(** Four [OnceLock]s. *)
Record DeferredRuntimeClient : Type := mkDeferred {
  d_runtime : option RuntimeClientRef;
  d_submitter : option TaskSubmitter;
  d_gateway : option ResourcePlanGateway;
  d_registry : option ResourceRegistryGateway;
}.

Definition deferred_new : DeferredRuntimeClient := mkDeferred None None None None.

(** [client_of] is the sdk's [TaskSubmitterRuntimeClient]; [None] is a panic. *)
Definition bind (client_of : TaskSubmitter → RuntimeClientRef) (submitter : TaskSubmitter)
    (gateway : ResourcePlanGateway) (registry : ResourceRegistryGateway) (d : DeferredRuntimeClient)
    : option DeferredRuntimeClient :=
  match d_runtime d with
  | Some _ => None
  | None =>
      match d_submitter d with
      | Some _ => None
      | None =>
          match d_gateway d with
          | Some _ => None
          | None =>
              match d_registry d with
              | Some _ => None
              | None => Some (mkDeferred (Some (client_of submitter)) (Some submitter) (Some gateway) (Some registry))
              end
          end
      end
  end.

Definition deferred_not_bound : RuntimeFailure :=
  mkFailure ERR_RUNTIME_HOST_FAILED (lit "mutsuki.service.runtime") (lit "runtime_client.not_bound") [].

Definition deferred_client (d : DeferredRuntimeClient) : RuntimeResult RuntimeClientRef :=
  ok_or (d_runtime d) deferred_not_bound.
Definition deferred_submitter (d : DeferredRuntimeClient) : RuntimeResult TaskSubmitter :=
  ok_or (d_submitter d) deferred_not_bound.
Definition deferred_gateway (d : DeferredRuntimeClient) : RuntimeResult ResourcePlanGateway :=
  ok_or (d_gateway d) deferred_not_bound.
Definition deferred_registry (d : DeferredRuntimeClient) : RuntimeResult ResourceRegistryGateway :=
  ok_or (d_registry d) deferred_not_bound.

(** The operations of each trait are passed on alike. *)
Definition client_op (op : ClientOp) (d : DeferredRuntimeClient) : RuntimeResult ClientAnswer :=
  let? c := deferred_client d in c op.
(** A waker that cannot be registered is dropped; [op] registers it. *)
Definition register_waker (op : ClientOp) (d : DeferredRuntimeClient) : option (RuntimeResult ClientAnswer) :=
  match deferred_client d with Ok c => Some (c op) | Err _ => None end.
Definition submit_op (op : SubmitOp) (d : DeferredRuntimeClient) : RuntimeResult SubmitAnswer :=
  let? s := deferred_submitter d in s op.
Definition plan_op (op : PlanOp) (d : DeferredRuntimeClient) : RuntimeResult PlanAnswer :=
  let? g := deferred_gateway d in g op.
Definition registry_op (op : RegistryOp) (d : DeferredRuntimeClient) : RuntimeResult RegistryAnswer :=
  let? r := deferred_registry d in r op.

End deferred.

(** ** Connections *)

Inductive AbiConnection : Type :=
| V1 (c : V1Connection)
| V2 (api : AbiPluginTable) (s : io).

(** What is left of a connection that is dropped: the calls of a version 1
    plugin, or the machine of a version 2 plugin without transport and owner. *)
Inductive dropped : Type :=
| NeverOpened (calls : list ffi)
| DroppedV1 (calls : list ffi)
| DroppedV2 (s : io).

(** The manifest, the handshake and the Core's wrappers. *)
Class AbiHost `{CoreRuntime} `{AbiSdk} : Type := {
  manifest_eq_dec :: EqDecision PluginManifest;
  provides_resource_providers : PluginManifest → list text;
  (* [set_artifact r m] is [m] with the artifact of [r] *)
  set_artifact : PluginManifest → PluginManifest → PluginManifest;
  ProtocolHello : Type;
  debug_jsonl : ProtocolHello;
  binary : ProtocolHello;
  ProtocolHelloAck : Type;
  validate_for : ProtocolHelloAck → ProtocolHello → result unit text;
  (* the manifest and the resource provider ids of the initialized plugin *)
  ack_plugin : ProtocolHelloAck → option (PluginManifest * list text);
  initialize_request : ProtocolHello → option json → WireRequest ProtocolHelloAck;
  (* [BinaryTransport]: its construction, and an initialization, which runs the
     machine through some labels; it does not own the connection *)
  with_limits : io → result unit text;
  transport_initialize : option json → io → RuntimeResult ProtocolHelloAck * list label;
  transport_owns json s : Forall (λ l, l ≠ DropConnection) (transport_initialize json s).2;
  (* a transport that has returned is not inside a flush *)
  transport_idle json s : sending s = None → sending (run (transport_initialize json s).2 s) = None;
  failure_text : RuntimeFailure → text;
  (* runners and resource providers over the connection *)
  abi_loaded : PluginManifest → list RunnerDescriptor → list text → AbiConnection → LoadedPlugin;
}.

Section plugin.
Context `{AbiHost}.

Definition hello (c : AbiConnection) : ProtocolHello :=
  match c with V1 _ => debug_jsonl | V2 _ _ => binary end.

Definition initialize (config : option json) (c : AbiConnection)
    : RuntimeResult ProtocolHelloAck * AbiConnection :=
  match c with
  | V1 c => let '(r, c) := v1_request (initialize_request debug_jsonl config) c in (r, V1 c)
  | V2 api s => let '(r, ls) := transport_initialize config s in (r, V2 api (run ls s))
  end.

Definition drop_connection (c : AbiConnection) : dropped :=
  match c with
  | V1 c => DroppedV1 (v1_drop c)
  | V2 _ s => DroppedV2 (run [DropWriter; DropReader; DropConnection] s)
  end.

Definition open_connection (unsupported : option text * option text → text) (m : PluginManifest)
    (staged : text) (w : world) : ServiceRuntimeResult AbiConnection * dropped :=
  match select_transport unsupported m with
  | Err e => (Err e, NeverOpened [])
  | Ok JsonlV1 =>
      match v1_open (plugin_id m) staged w with
      | (Err e, t) => (Err e, NeverOpened t)
      | (Ok c, t) => (Ok (V1 c), NeverOpened t)
      end
  | Ok BinaryV2 =>
      match v2_open (plugin_id m) staged w with
      | (Err e, t) => (Err e, NeverOpened t)
      | (Ok (api, s), t) =>
          match with_limits s with
          | Err e => (Err (abi_load_error (plugin_id m) e), drop_connection (V2 api s))
          | Ok _ => (Ok (V2 api s), NeverOpened t)
          end
      end
  end.

(** ** Loading *)

Definition validate_initialized_plugin (r : PluginRecord) (guest : PluginManifest * list text)
    : ServiceRuntimeResult unit :=
  let id := plugin_id (manifest r) in
  if negb (bool_decide (set_artifact (manifest r) guest.1 = manifest r)) then
    Err (AbiPlugin id (lit "plugin.toml capability manifest differs from guest handshake"))
  else if negb (bool_decide (sort_texts (provides_resource_providers (manifest r)) = sort_texts guest.2)) then
    Err (AbiPlugin id (lit "resource provider ids differ from guest handshake"))
  else Ok tt.

(** The handshake, up to the surface that is registered. *)
Definition handshake (r : PluginRecord) (h : ProtocolHello) (ack : RuntimeResult ProtocolHelloAck)
    : ServiceRuntimeResult (PluginManifest * list text) :=
  let id := plugin_id (manifest r) in
  let? ack := map_err (λ e, Core (failure_text e)) ack in
  let? _ := map_err (λ e, AbiPlugin id (lit "invalid Wire handshake: " ++ e)) (validate_for ack h) in
  let? initialized := ok_or (ack_plugin ack)
                        (AbiPlugin id (lit "Wire handshake omitted initialized plugin surface")) in
  let? _ := validate_initialized_plugin r initialized in
  Ok initialized.

(** [load_abi_plugin_blocking], with what becomes of the connection when it fails. *)
Definition load_abi_plugin_blocking (unsupported : option text * option text → text) (r : PluginRecord)
    (c : ServiceConfig) (plugin_config : json) (w : world)
    : ServiceRuntimeResult LoadedPlugin * world * option dropped :=
  match resolved_artifact r with
  | None => (Err (AbiPlugin (plugin_id (manifest r)) (lit "validated artifact path is missing")), w, None)
  | Some source =>
      match stage_artifact c r source w with
      | (Err e, w) => (Err e, w, None)
      | (Ok staged, w) =>
          match open_connection unsupported (manifest r) staged w with
          | (Err e, d) => (Err e, w, Some d)
          | (Ok conn, _) =>
              let '(ack, conn) := initialize (Some plugin_config) conn in
              match handshake r (hello conn) ack with
              | Err e => (Err e, w, Some (drop_connection conn))
              | Ok (_, providers) =>
                  (Ok (abi_loaded (manifest r) (provides_runners (manifest r)) providers conn), w, None)
              end
          end
      end
  end.

End plugin.

(** ** Lemmas *)

Lemma bind_once `{CoreServices} `{AbiSdk} client_of submitter gateway registry d :
  bind client_of submitter gateway registry deferred_new = Some d →
  (∀ op, client_op op deferred_new = Err deferred_not_bound) ∧
  (∀ op, client_op op d = client_of submitter op) ∧ (∀ op, submit_op op d = submitter op) ∧
  (∀ op, plan_op op d = gateway op) ∧ (∀ op, registry_op op d = registry op) ∧
  (∀ f s g r, bind f s g r d = None).
Proof. by intros [= <-]. Qed.

Section lemmas.
Context `{AbiHost}.

(** How a connection that was opened from a staged library may look. *)
Definition opened_from (staged : text) (w : world) (c : AbiConnection) : Prop :=
  match c with
  | V1 c =>
      library_new staged w = Ok (v1_library c) ∧
      v1_session ABI_ENTRY_SYMBOL (v1_library c) (v1_trace c) ∧
      table_version (v1_api c) = ABI_TRANSPORT_VERSION ∧ has_close (v1_api c) = true
  | V2 api s =>
      (∃ library f, library_new staged w = Ok library ∧ entry library ABI_V2_ENTRY_SYMBOL = Ok f ∧
         api = f [EntryCall ABI_V2_ENTRY_SYMBOL]) ∧
      table_version api = ABI_V2_TRANSPORT_VERSION ∧ has_close api = true ∧
      (∃ ls, s = run ls new_io) ∧ sending s = None
  end.

(** What is left of a failed load owes the plugin nothing but its close. *)
Definition let_go (d : dropped) : Prop :=
  match d with
  | NeverOpened t => t = [] ∨ ∃ symbol api, t = EntryCall symbol :: close_rejected api
  | DroppedV1 t => ∃ library t', t = t' ++ [CloseCall] ∧ v1_session ABI_ENTRY_SYMBOL library t'
  | DroppedV2 s => ∀ r mem, closed (run (wind_down r mem) s) = true
  end.

Lemma v2_open_spec plugin staged w :
  match v2_open plugin staged w with
  | (Ok (api, s), t) => opened_from staged w (V2 api s)
  | (Err _, t) => let_go (NeverOpened t)
  end.
Proof.
  unfold v2_open. destruct (library_new staged w) as [g|] eqn:El; [|by left].
  destruct (entry g ABI_V2_ENTRY_SYMBOL) as [f|] eqn:Ef; [|by left].
  destruct (table_invalid _ _) eqn:E; [right; eauto|]. unfold table_invalid in E. bool_props.
  split_and!; try done; [by exists g, f|by exists []].
Qed.

Lemma v1_open_spec plugin staged w :
  match v1_open plugin staged w with
  | (Ok c, t) => opened_from staged w (V1 c)
  | (Err _, t) => let_go (NeverOpened t)
  end.
Proof.
  destruct (v1_open plugin staged w) as [[c|e] t] eqn:E.
  - destruct (v1_open_session _ _ _ _ _ E) as (_ & Hs & Hc & Hv & _ & _ & Hl). by split_and!.
  - unfold v1_open in E. destruct (library_new staged w) as [g|]; [|simplify_eq; by left].
    destruct (entry g ABI_ENTRY_SYMBOL) as [f|]; [|simplify_eq; by left].
    destruct (table_invalid _ _); simplify_eq. right. eauto.
Qed.

Lemma settle_keeps t :
  writer (settle t) = writer t ∧ reader (settle t) = reader t ∧
  (connection t = false → connection (settle t) = false).
Proof. unfold settle. by destruct (_ && _). Qed.

(** Dropping a connection drops its transport, then its share of the plugin. *)
Lemma drop_all s :
  sending s = None →
  let s' := run [DropWriter; DropReader; DropConnection] s in
  writer s' = false ∧ reader s' = false ∧ connection s' = false.
Proof.
  intros Hs s'. unfold s'. cbn [run fold_left]. unfold step.
  set (s1 := settle (act DropWriter s)). set (s2 := settle (act DropReader s1)).
  assert (W1 : writer s1 = false).
  { unfold s1. destruct (settle_keeps (act DropWriter s)) as [-> _]. cbn [act]. by rewrite Hs. }
  assert (W2 : writer s2 = false ∧ reader s2 = false).
  { unfold s2. destruct (settle_keeps (act DropReader s1)) as (-> & -> & _). done. }
  destruct (settle_keeps (act DropConnection s2)) as (-> & -> & Hc). split_and!; [apply W2..|by apply Hc].
Qed.

Lemma drop_let_go staged w c : opened_from staged w c → let_go (drop_connection c).
Proof.
  destruct c as [c|api s]; cbn [opened_from drop_connection let_go].
  - intros (_ & Hs & _ & Hc). exists (v1_library c), (v1_trace c). split; [|done]. unfold v1_drop. by rewrite Hc.
  - intros (_ & _ & _ & (ls & ->) & Hsend) r mem.
    destruct (reached_ok ls) as [Hok Hset].
    destruct (run_ok [DropWriter; DropReader; DropConnection] _ Hok Hset) as [Hok' _].
    destruct (drop_all _ Hsend) as (Hw & Hr & Hc). exact (wind_down_ends r mem _ Hok' Hw Hr Hc).
Qed.

Lemma initialize_opened staged w cfg c : opened_from staged w c → opened_from staged w (initialize cfg c).2.
Proof.
  destruct c as [c|api s]; simpl.
  - intros (Hl & Hs & Hv & Hc).
    destruct (v1_request_session ABI_ENTRY_SYMBOL (initialize_request debug_jsonl cfg) c Hs) as (Hs' & Hl' & Ha').
    destruct (v1_request _ c) as [r c']. simpl in *. by rewrite Hl', Ha' in *.
  - intros (Ho & Hv & Hc & (ls & ->) & Hsend). pose proof (transport_idle cfg _ Hsend) as Hi.
    destruct (transport_initialize cfg _) as [r ls']. simpl in *. split_and!; try done.
    exists (ls ++ ls'). unfold run. by rewrite fold_left_app.
Qed.

Lemma open_connection_spec u m staged w :
  match open_connection u m staged w with
  | (Ok c, _) => opened_from staged w c ∧
      select_transport u m = Ok (match c with V1 _ => JsonlV1 | V2 _ _ => BinaryV2 end)
  | (Err _, d) => let_go d
  end.
Proof.
  unfold open_connection. destruct (select_transport u m) as [[|]|e]; [| |by left].
  - pose proof (v1_open_spec (plugin_id m) staged w) as Hs.
    by destruct (v1_open _ _ _) as [[c|e] t].
  - pose proof (v2_open_spec (plugin_id m) staged w) as Hs.
    destruct (v2_open _ _ _) as [[[api s]|e] t]; [|done].
    destruct (with_limits s); [done|]. by eapply drop_let_go.
Qed.

Lemma handshake_ok r h ack guest :
  handshake r h ack = Ok guest →
  set_artifact (manifest r) guest.1 = manifest r ∧ guest.2 ≡ₚ provides_resource_providers (manifest r) ∧
  ∃ a, ack = Ok a ∧ is_ok (validate_for a h) = true ∧ ack_plugin a = Some guest.
Proof.
  unfold handshake. destruct ack as [a|e]; [|done]. cbn [map_err rbind].
  destruct (validate_for a h) as [[]|] eqn:Ev; [|done]. cbn [map_err rbind].
  destruct (ack_plugin a) as [g|] eqn:Ea; [|done]. cbn [ok_or rbind]. unfold validate_initialized_plugin.
  destruct (bool_decide _) eqn:Em; [|done]. cbn [negb]. destruct (bool_decide (sort_texts _ = _)) eqn:Ep; [|done].
  cbn [negb rbind]. intros [= <-]. bool_props. apply sort_texts_eq in Ep. split_and!; [done|by symmetry|].
  exists a. by rewrite Ev.
Qed.

(** ** Properties *)

(** C10: A plugin that is loaded is the plugin that is installed: its library is
    the staged copy, opened with the transport that the manifest selects and in
    that transport's version; what it said of itself in a valid handshake is the
    manifest, apart from the artifact; one runner is registered for each that
    the manifest declares, and the resource providers are those it declares. *)
Theorem loaded_plugin_is_declared u r c cfg w plugin w' d :
  load_abi_plugin_blocking u r c cfg w = (Ok plugin, w', d) →
  ∃ source conn guest providers ack,
    let staged := path_join (staging_dir c r) (file_name source) in
    resolved_artifact r = Some source ∧ opened_from staged w' conn ∧
    select_transport u (manifest r) = Ok (match conn with V1 _ => JsonlV1 | V2 _ _ => BinaryV2 end) ∧
    is_ok (validate_for ack (hello conn)) = true ∧ ack_plugin ack = Some (guest, providers) ∧
    set_artifact (manifest r) guest = manifest r ∧
    providers ≡ₚ provides_resource_providers (manifest r) ∧
    plugin = abi_loaded (manifest r) (provides_runners (manifest r)) providers conn ∧
    (∀ q, q ≠ staged → files w' !! q = files w !! q).
Proof.
  unfold load_abi_plugin_blocking. destruct (resolved_artifact r) as [source|]; [|done].
  destruct (stage_artifact c r source w) as [[staged|e] w1] eqn:Es; [|done].
  destruct (stage_spec _ _ _ _ _ _ Es) as (Hq & _ & -> & _).
  pose proof (open_connection_spec u (manifest r) (path_join (staging_dir c r) (file_name source)) w1) as Ho.
  destruct (open_connection _ _ _ _) as [[conn|e] d']; [|done]. destruct Ho as [Ho Ht].
  pose proof (initialize_opened _ _ (Some cfg) _ Ho) as Hi.
  assert (Hk : match (initialize (Some cfg) conn).2, conn with V1 _, V1 _ | V2 _ _, V2 _ _ => True | _, _ => False end).
  { destruct conn; simpl; [by destruct (v1_request _ _)|by destruct (transport_initialize _ _)]. }
  destruct (initialize (Some cfg) conn) as [ack conn']. simpl in Hi, Hk.
  destruct (handshake r (hello conn') ack) as [[guest providers]|e] eqn:Eh; [|done].
  intros [= <- <- <-]. apply handshake_ok in Eh as (Hm & Hp & a & -> & Hv & Ha).
  exists source, conn', guest, providers, a. split_and!; try done. rewrite Ht. by destruct conn, conn'.
Qed.

(** A load that fails leaves nothing open: at most the staged copy was
    written, a refused function table was closed if it could be, and a
    connection that was open is closed, for version 2 as soon as each of its
    workers has run once more. *)
Theorem failed_load_lets_go u r c cfg w e w' d :
  load_abi_plugin_blocking u r c cfg w = (Err e, w', d) →
  match d with Some d => let_go d | None => True end ∧
  (∀ q, (∀ source, resolved_artifact r = Some source → q ≠ path_join (staging_dir c r) (file_name source)) →
     files w' !! q = files w !! q).
Proof.
  unfold load_abi_plugin_blocking. destruct (resolved_artifact r) as [source|]; [|by intros [= <- <- <-]].
  destruct (stage_artifact c r source w) as [res w1] eqn:Es.
  destruct (stage_spec _ _ _ _ _ _ Es) as (Hq & _ & Hres).
  assert (Hq' : ∀ q, (∀ source', Some source = Some source' → q ≠ path_join (staging_dir c r) (file_name source')) →
    files w1 !! q = files w !! q) by (intros q Hne; by apply Hq, Hne).
  destruct res as [staged|e']; [|intros [= <- <- <-]; done].
  pose proof (open_connection_spec u (manifest r) staged w1) as Ho.
  destruct (open_connection _ _ _ _) as [[conn|e'] d']; [|intros [= <- <- <-]; done]. destruct Ho as [Ho _].
  pose proof (initialize_opened _ _ (Some cfg) _ Ho) as Hi.
  destruct (initialize (Some cfg) conn) as [ack conn']. simpl in Hi.
  destruct (handshake r (hello conn') ack) as [[guest providers]|e'] eqn:Eh; [done|].
  intros [= <- <- <-]. split; [|done]. by eapply drop_let_go.
Qed.

End lemmas.

(** ** Witnesses *)

Module Sample.
Import Plugins.Sample Boot.Sample.
Export AbiQueues.Sample.

Definition guest_manifest : plugin :=
  mkPlugin (lit "echo") (lit "mutsuki-plugin-v1") SAbi (lit "built/echo.so") (lit "sha256:none") (s_backends abi_plugin).

#[export] Instance plugin_eq_dec : EqDecision plugin.
Proof. solve_decision. Defined.

#[export, refine] Instance host : AbiHost := {|
  manifest_eq_dec := plugin_eq_dec : EqDecision PluginManifest;
  provides_resource_providers _ := [lit "b"; lit "a"];
  set_artifact r m := mkPlugin (s_id m) (s_version m) (s_artifact r) (s_path r) (s_hash r) (s_backends m);
  ProtocolHello := bool; debug_jsonl := false; binary := true;
  ProtocolHelloAck := plugin * list text;
  validate_for _ _ := Ok tt; ack_plugin a := Some a;
  initialize_request _ _ := (guest_manifest, [lit "a"; lit "b"]);
  with_limits _ := Ok tt;
  transport_initialize _ _ := (Err (mkFailure [] [] [] []), []);
  failure_text := code;
  abi_loaded m _ _ _ := m;
|}.
Proof. all: by intros. Defined.

Definition disk : world :=
  mkWorld {[lit "/p/echo/echo.so" := [x01; x02]]} ∅ ∅ ∅ (λ _, None) 255 7.

Definition loaded : ServiceRuntimeResult LoadedPlugin * world * option dropped :=
  load_abi_plugin_blocking (λ _, []) record config JNull disk.

(** An installed manifest that the library does not agree with. *)
Definition other_record : PluginRecord :=
  mkPluginRecord (lit "/p/echo/plugin.toml")
    (mkPlugin (lit "echo") (lit "mutsuki-plugin-v2") SAbi (lit "echo.so") (s_hash abi_plugin) (s_backends abi_plugin)
     : PluginManifest) None (Some (lit "/p/echo/echo.so")).

Definition refused : ServiceRuntimeResult LoadedPlugin * world * option dropped :=
  load_abi_plugin_blocking (λ _, []) other_record config JNull disk.

End Sample.

Section witnesses.
Import Plugins.Sample Boot.Sample AbiPlugin.Sample.

Lemma loaded_plugin_is_declared_witness :
  loaded.1.1 = Ok (manifest record) ∧
  ∃ guest providers, set_artifact (manifest record) guest = manifest record ∧
    providers ≡ₚ provides_resource_providers (manifest record).
Proof.
  split; [by vm_compute|]. destruct loaded as [[r w'] d] eqn:E.
  assert (Er : r = Ok (manifest record)) by (change r with (r, w', d).1.1; rewrite <-E; by vm_compute).
  subst r. destruct (loaded_plugin_is_declared _ _ _ _ _ _ _ _ E)
    as (source & conn & guest & providers & ack & _ & _ & _ & _ & _ & Hm & Hp & _).
  by exists guest, providers.
Defined.

Lemma failed_load_lets_go_witness :
  is_ok refused.1.1 = false ∧
  match refused.2 with Some d => let_go d | None => False end.
Proof.
  split; [by vm_compute|]. destruct refused as [[r w'] d] eqn:E.
  destruct r as [x|e]; [apply (f_equal (λ x, is_ok x.1.1)) in E; by vm_compute in E|].
  destruct (failed_load_lets_go _ _ _ _ _ _ _ _ E) as [Hd _].
  destruct d as [d|]; [exact Hd|]. apply (f_equal (λ x, bool_decide (is_Some x.2))) in E. by vm_compute in E.
Defined.

End witnesses.
