(* ===== verification/Fixture.v ===== *)
(** * The fixture plugin and its benchmark twin

    [fixtures/abi-plugin/src/lib.rs] is the plugin that the ABI tests and the
    benchmarks load as a library; [crates/mutsuki-service-benchmarks/src/lib.rs]
    is the same runner linked in, and [src/bin/benchmark_runner.rs] the same
    runner as a process that reads requests from its standard input.  A
    benchmark compares the three, so that their results have to agree.  The
    contracts and the sdk are an interface. *)

From S2P Require Import Prelude Text BTreeMap Value Plugins EventSource LogTail.
From S2P Require Import Abi.
From Stdlib Require HexadecimalN HexadecimalFacts.

(** ** Identifiers *)

Definition PLUGIN_ID : text := lit "mutsuki.test.abi-fixture".
Definition RUNNER_ID : text := lit "mutsuki.test.abi-fixture.runner".
Definition PROVIDER_ID : text := lit "mutsuki.test.abi-fixture.resource".
Definition LEGACY_ECHO_PROTOCOL : text := lit "mutsuki.test.abi.echo".

(** [FIXTURE_PROTOCOLS] of the plugin. *)
Definition ABI_FIXTURE_PROTOCOLS : list text :=
  [LEGACY_ECHO_PROTOCOL; lit "runner.noop"; lit "runner.echo"; lit "runner.calibrated-cpu"; lit "runner.wait";
   lit "runner.resource"; lit "runner.fault"].

(** [FIXTURE_PROTOCOLS] of the benchmarks. *)
Definition FIXTURE_PROTOCOLS : list text :=
  [lit "runner.noop"; lit "runner.echo"; lit "runner.calibrated-cpu"; lit "runner.wait"; lit "runner.resource";
   lit "runner.fault"].

(** ** The calibrated work *)

(** One turn of the loop, on 64-bit words: [wrapping_mul], [wrapping_add], and
    the exclusive or with the word shifted right. *)
Definition checksum_turn (value : N) : N :=
  let value := wrap 64 (wrap 64 (value * 6364136223846793005) + 1442695040888963407) in
  N.lxor value (N.shiftr value 33).

Definition checksum_word (seed iterations : N) : N := N.iter iterations checksum_turn seed.

(** [{value:016x}]. *)
Definition calibrated_checksum_with_iterations (seed iterations : N) : text :=
  pad_zero 16 (show_hex (checksum_word seed iterations)).
Definition calibrated_checksum (seed : N) : text := calibrated_checksum_with_iterations seed 4096.

(** ** Tasks and results

    What the runners read of a task, and what they build. *)

Record Task : Type := mkTask { t_task_id : text; t_protocol_id : text; t_payload : json }.

Record EntryCompletion {R : Type} : Type := mkCompletion {
  ec_entry_id : text; ec_task_id : text; ec_result : option R; ec_error : option RuntimeFailure;
}.
Arguments EntryCompletion : clear implicits.
Arguments mkCompletion {R}.

Definition Value_get (v : json) (k : text) : option json :=
  match v with JObject m => bget m k | _ => None end.
Definition as_u64 (v : json) : option N := match v with JNumber (PosInt n) => Some n | _ => None end.

(** [RuntimeError::new]. *)
Definition runtime_error (code source route : text) : RuntimeFailure := mkFailure code source route [].

Class RunnerSdk `{AbiSdk} : Type := {
  RunnerResult : Type;
  result_completed : text → RunnerResult;
  set_output : option json → RunnerResult → RunnerResult;
  RunnerContext : Type;
  WorkBatch : Type;
  (* entry id and task id of each entry *)
  batch_entries : WorkBatch → list (text * text);
  row_payload_tasks : WorkBatch → result (list Task) RuntimeFailure;
  CompletionBatch : Type;
  from_results : WorkBatch → list (EntryCompletion RunnerResult) → CompletionBatch;
  map_work_batch_entries :
    WorkBatch → (Task → result RunnerResult RuntimeFailure) → RuntimeResult CompletionBatch;
}.

Section fixture.
Context `{RunnerSdk}.

(** The output of every protocol but the legacy echo. *)
Definition calibrated_output (checksum : N → N → text) (payload : json) : json :=
  let seed := default 1297435713%N (v ← Value_get payload (lit "seed"); as_u64 v) in
  let iterations := default 4096%N (v ← Value_get payload (lit "iterations"); as_u64 v) in
  jobj [(lit "checksum", JString (checksum seed iterations))].

Definition resource_output (payload : json) : json :=
  jobj [(lit "resource_id", default JNull (Value_get payload (lit "resource_ref")));
        (lit "version", default JNull (Value_get payload (lit "version")))].

Definition with_output (task : Task) (output : json) : RunnerResult :=
  set_output (Some output) (result_completed (t_task_id task)).

(** [fixture_result] of crates/mutsuki-service-benchmarks/src/lib.rs. *)
Definition fixture_result (task : Task) : RuntimeResult RunnerResult :=
  let p := t_protocol_id task in
  let? output :=
    if text_eqb p (lit "runner.noop") then Ok (jobj [(lit "status", JString (lit "ok"))])
    else if text_eqb p (lit "runner.echo") then Ok (jobj [(lit "echo", t_payload task)])
    else if text_eqb p (lit "runner.calibrated-cpu")
    then Ok (calibrated_output calibrated_checksum_with_iterations (t_payload task))
    else if text_eqb p (lit "runner.wait") then Ok (jobj [(lit "resumed", JBool true)])
    else if text_eqb p (lit "runner.resource") then Ok (resource_output (t_payload task))
    else if text_eqb p (lit "runner.fault")
    then Err (runtime_error (lit "fixture.failure") PLUGIN_ID (lit "fixture.requested_failure"))
    else Err (runtime_error ERR_RUNTIME_HOST_FAILED PLUGIN_ID (lit "fixture.unsupported_protocol." ++ p)) in
  Ok (with_output task output).

(** [fixture_result] of the plugin, with the [calibrated_checksum] it has
    itself. *)
Definition abi_calibrated_checksum (seed iterations : N) : text :=
  pad_zero 16 (show_hex (N.iter iterations checksum_turn seed)).

Definition abi_fixture_result (task : Task) : RuntimeResult RunnerResult :=
  let p := t_protocol_id task in
  if text_eqb p LEGACY_ECHO_PROTOCOL then Ok (result_completed (t_task_id task))
  else
    let? output :=
      if text_eqb p (lit "runner.noop") then Ok (jobj [(lit "status", JString (lit "ok"))])
      else if text_eqb p (lit "runner.echo") then Ok (jobj [(lit "echo", t_payload task)])
      else if text_eqb p (lit "runner.calibrated-cpu")
      then Ok (calibrated_output abi_calibrated_checksum (t_payload task))
      else if text_eqb p (lit "runner.wait") then Ok (jobj [(lit "resumed", JBool true)])
      else if text_eqb p (lit "runner.resource") then Ok (resource_output (t_payload task))
      else if text_eqb p (lit "runner.fault")
      then Err (runtime_error (lit "fixture.failure") PLUGIN_ID (lit "fixture.requested_failure"))
      else Err (runtime_error ERR_RUNTIME_HOST_FAILED PLUGIN_ID (lit "fixture.unsupported_protocol." ++ p)) in
    Ok (with_output task output).

(** ** Batches *)

(** [run_batch] of the plugin. *)
Definition abi_run_batch (batch : WorkBatch) : RuntimeResult CompletionBatch :=
  map_work_batch_entries batch abi_fixture_result.

(** The completion of one entry; an entry without a task panics. *)
Definition complete_entry (tasks : btree Task) (entry : text * text)
    : caught (EntryCompletion RunnerResult) :=
  match bget tasks entry.2 with
  | None => Panicked (Some (lit "batch task"))
  | Some task =>
      Returned
        match fixture_result task with
        | Ok result => mkCompletion entry.1 entry.2 (Some result) None
        | Err error => mkCompletion entry.1 entry.2 None (Some error)
        end
  end.

(** A panic in the closure of a [map] ends the whole collection. *)
Fixpoint map_caught {A B} (f : A → caught B) (l : list A) : caught (list B) :=
  match l with
  | [] => Returned []
  | a :: l =>
      match f a with
      | Panicked p => Panicked p
      | Returned b => match map_caught f l with Panicked p => Panicked p | Returned bs => Returned (b :: bs) end
      end
  end.

(** [run_batch] of the benchmarks. *)
Definition run_batch (batch : WorkBatch) : caught (RuntimeResult CompletionBatch) :=
  match row_payload_tasks batch with
  | Err e => Returned (Err e)
  | Ok tasks =>
      let tasks := bcollect ((λ t, (t_task_id t, t)) <$> tasks) in
      match map_caught (complete_entry tasks) (batch_entries batch) with
      | Panicked p => Panicked p
      | Returned results => Returned (Ok (from_results batch results))
      end
  end.

End fixture.

(** ** The resource provider of the plugin

    The answers of [FixtureProvider]; [PlanReceipt] and [ResourceRef] with the
    fields in which two answers can differ. *)

Record PlanReceipt : Type := mkReceipt { rc_plan_id : text; rc_status : text; rc_output : json }.
Record ResourceRef : Type := mkResourceRef {
  rr_kind_id : text; rr_slot_id : text; rr_ref_id : text; rr_provider_id : text; rr_schema : text;
  rr_generation : N; rr_version : N; rr_size_hint : option N;
}.

Definition receipt (plan_id : text) (output : json) : PlanReceipt :=
  mkReceipt plan_id (lit "completed") output.

Definition resource_ref (kind_id schema : text) (size : N) : ResourceRef :=
  mkResourceRef kind_id (lit "fixture") (kind_id ++ lit ":fixture") PROVIDER_ID schema 1 1 (Some size).

(** [ResourcePlanGateway] and [ResourceProviderGateway]: a plan is its id, an
    operation or the bytes to write. *)
Inductive provider_call : Type :=
| CollectReadPlan | SnapshotReadPlan | OpenStreamPlan
| ExecuteExportPlan (plan_id : text)
| CommitWritePlan (plan_id : text) (bytes : list byte)
| ExecuteCommandPlan (plan_id operation : text)
| ExecuteCommandBatch | ExecuteSagaPlan
| CreateBlobResource (schema : text) (bytes : list byte)
| CreateCowStateResource (kind_id schema : text) (bytes : list byte)
| CreateCapabilityResource (kind_id schema : text).

Inductive provider_answer : Type :=
| Bytes (bytes : list byte)
| Receipt (r : PlanReceipt)
| Resource (r : ResourceRef).

Definition unsupported (ERR_RESOURCE_UNSUPPORTED route : text) : RuntimeFailure :=
  runtime_error ERR_RESOURCE_UNSUPPORTED PLUGIN_ID route.

Definition fixture_provider (err : text) (call : provider_call) : RuntimeResult provider_answer :=
  match call with
  | CollectReadPlan => Ok (Bytes (utf8 (lit "fixture-resource")))
  | SnapshotReadPlan => Err (unsupported err (lit "snapshot"))
  | OpenStreamPlan => Err (unsupported err (lit "stream"))
  | ExecuteExportPlan plan_id => Ok (Receipt (receipt plan_id (JString (lit "fixture-resource"))))
  | CommitWritePlan plan_id bytes =>
      Ok (Receipt (receipt plan_id (jobj [(lit "bytes", jnum (len bytes))])))
  | ExecuteCommandPlan plan_id operation =>
      Ok (Receipt (receipt plan_id (jobj [(lit "operation", JString operation)])))
  | ExecuteCommandBatch => Err (unsupported err (lit "command_batch"))
  | ExecuteSagaPlan => Err (unsupported err (lit "saga"))
  | CreateBlobResource schema bytes => Ok (Resource (resource_ref (lit "blob") schema (len bytes)))
  | CreateCowStateResource kind_id schema bytes => Ok (Resource (resource_ref kind_id schema (len bytes)))
  | CreateCapabilityResource kind_id schema => Ok (Resource (resource_ref kind_id schema 0))
  end.

(** ** Building the plugin

    The fields of the manifest that the code changes after the builder has made
    it; [index 0] panics when there is no entry. *)

Record PluginBackend : Type := mkBackend { pb_codec_id : option text; pb_bridge_id : option text }.
Record CodecDescriptor : Type := mkCodecDescriptor {
  cd_codec_id : text; cd_media_type : text; cd_version : text;
}.
Record BridgeDescriptor : Type := mkBridge { bd_bridge_id : text; bd_codec_ids : list text }.
Record Provides {D E : Type} : Type := mkProvides {
  pr_runners : list D; pr_backends : list PluginBackend; pr_codecs : list CodecDescriptor;
  pr_bridges : list BridgeDescriptor; pr_host_extensions : list E;
}.
Arguments Provides : clear implicits.
Arguments mkProvides {D E}. Arguments pr_runners {D E}. Arguments pr_backends {D E}.
Arguments pr_codecs {D E}. Arguments pr_bridges {D E}. Arguments pr_host_extensions {D E}.

Inductive AbiVersion : Type := AbiV1 | AbiV2.

(** The sdk's builders: a runner descriptor from its ids and protocols, and what
    a plugin with a runner and perhaps a provider provides. *)
Class PluginSdk `{AbiSdk} : Type := {
  Descriptor : Type;
  descriptor_build : text → text → text → Descriptor;
  set_accepted_protocols : list text → Descriptor → Descriptor;
  Extension : Type;
  build_provides : text → Descriptor → option text → Provides Descriptor Extension;
}.

Definition update_first {A} (f : A → A) (l : list A) : caught (list A) :=
  match l with [] => Panicked (Some (lit "index out of bounds")) | a :: l => Returned (f a :: l) end.

Section plugin.
Context `{PluginSdk}.

(** [FixtureRunner::new] of the plugin. *)
Definition fixture_descriptor : Descriptor :=
  set_accepted_protocols ABI_FIXTURE_PROTOCOLS
    (descriptor_build RUNNER_ID PLUGIN_ID (hd [] ABI_FIXTURE_PROTOCOLS)).

(** A built plugin: its manifest's artifact and what it provides. *)
Record BuiltPlugin : Type := mkPlugin {
  bp_path : text; bp_sha256 : text; bp_provides : Provides Descriptor Extension;
}.

(** The version 1 names in the order of the assignments; the first missing entry
    panics. *)
Definition name_v1 (p : Provides Descriptor Extension) : caught (Provides Descriptor Extension) :=
  match update_first (λ _, mkBackend (Some ABI_CODEC_ID) (Some ABI_BRIDGE_ID)) (pr_backends p),
        update_first (λ _, mkCodecDescriptor ABI_CODEC_ID (lit "application/x-ndjson")
                             (show_N ABI_TRANSPORT_VERSION)) (pr_codecs p),
        update_first (λ _, mkBridge ABI_BRIDGE_ID [ABI_CODEC_ID]) (pr_bridges p) with
  | Returned backends, Returned codecs, Returned bridges =>
      Returned (mkProvides (pr_runners p) backends codecs bridges (pr_host_extensions p))
  | _, _, _ => Panicked (Some (lit "index out of bounds"))
  end.

Definition build_plugin (path sha256 : text) (version : AbiVersion) (include_provider : bool)
    : caught BuiltPlugin :=
  let provides := build_provides PLUGIN_ID fixture_descriptor (if include_provider then Some PROVIDER_ID else None) in
  match version with
  | AbiV2 => Returned (mkPlugin path sha256 provides)
  | AbiV1 =>
      match name_v1 provides with
      | Returned provides => Returned (mkPlugin path sha256 provides)
      | Panicked p => Panicked p
      end
  end.

Definition create_plugin (config : json) (version : AbiVersion) : RuntimeResult (caught BuiltPlugin) :=
  if negb (bool_decide ((v ← Value_get config (lit "fixture"); as_bool v) = Some true))
  then Err (runtime_error ERR_RUNTIME_HOST_FAILED PLUGIN_ID (lit "fixture.config_required"))
  else
    let include_provider :=
      negb (bool_decide ((v ← Value_get config (lit "benchmark_runner_only"); as_bool v) = Some true)) in
    Ok (build_plugin (lit "fixture") (lit "sha256:fixture") version include_provider).

Definition fixture_manifest (path sha256 : text) : caught BuiltPlugin := build_plugin path sha256 AbiV2 true.
Definition fixture_manifest_v1 (path sha256 : text) : caught BuiltPlugin := build_plugin path sha256 AbiV1 true.
Definition benchmark_manifest (path sha256 : text) : caught BuiltPlugin := build_plugin path sha256 AbiV2 false.

(** [fixture_manifest_for]: the same runner without what only a library has. *)
Definition fixture_manifest_for (path sha256 : text) : caught BuiltPlugin :=
  match benchmark_manifest path sha256 with
  | Panicked p => Panicked p
  | Returned m => Returned (mkPlugin path sha256 (mkProvides (pr_runners (bp_provides m)) [] [] [] []))
  end.

End plugin.

(** ** The runner process

    [src/bin/benchmark_runner.rs]: a line of the input is a request, and its
    response is written and flushed before the next line is read.  Whatever
    cannot be decoded, accepted or encoded ends the process. *)

Class RunnerWire `{RunnerSdk} : Type := {
  HelloAck : Type;
  Hello : Type;
  accept_hello : Hello → result HelloAck text;
  Opcode : Type;
  opcode_initialize : Opcode; opcode_run_batch : Opcode; opcode_cancel_runner : Opcode;
  opcode_dispose_runner : Opcode;
  encode_ack : N → Opcode → HelloAck → result (list byte) text;
  encode_completion : N → Opcode → RuntimeResult CompletionBatch → result (list byte) text;
  encode_unit : N → Opcode → result (list byte) text;
}.

(** [AnyWireRequest], with the other operations as one. *)
Inductive AnyWireRequest `{RunnerWire} : Type :=
| Initialize (hello : Hello)
| RunBatch (batch : WorkBatch)
| CancelRunner | DisposeRunner
| Unsupported.

Class RunnerDecoder `{RunnerWire} : Type :=
  decode_jsonl_any_request : list byte → result (N * AnyWireRequest) text.

Section process.
Context `{RunnerDecoder}.

Definition expect {A} (message : text) (r : result A text) : caught A :=
  match r with Ok a => Returned a | Err e => Panicked (Some (message ++ lit ": " ++ e)) end.

(** The bytes written for one line. *)
Definition answer_line (line : list byte) : caught (list byte) :=
  match expect (lit "decode Runtime Wire request") (decode_jsonl_any_request line) with
  | Panicked p => Panicked p
  | Returned (request_id, request) =>
      let encoded := expect (lit "encode Runtime Wire response") in
      match request with
      | Initialize hello =>
          match expect (lit "accept Runtime Wire hello") (accept_hello hello) with
          | Panicked p => Panicked p
          | Returned ack => encoded (encode_ack request_id opcode_initialize ack)
          end
      | RunBatch batch =>
          match run_batch batch with
          | Panicked p => Panicked p
          | Returned r => encoded (encode_completion request_id opcode_run_batch r)
          end
      | CancelRunner => encoded (encode_unit request_id opcode_cancel_runner)
      | DisposeRunner => encoded (encode_unit request_id opcode_dispose_runner)
      | Unsupported => Panicked (Some (lit "unsupported benchmark Runner operation"))
      end
  end.

(** [split(b'\n')]: the pieces between newlines; nothing after the last. *)
Fixpoint split_lines (piece : list byte) (input : list byte) : list (list byte) :=
  match input with
  | [] => match piece with [] => [] | _ => [reverse piece] end
  | b :: input => if Byte.eqb b x0a then reverse piece :: split_lines [] input else split_lines (b :: piece) input
  end.

(** The loop: what was written, and whether the process ended with its input. *)
Fixpoint runner_loop (lines : list (list byte)) (written : list byte) : list byte * caught unit :=
  match lines with
  | [] => (written, Returned tt)
  | [] :: lines => runner_loop lines written
  | line :: lines =>
      match answer_line line with
      | Panicked p => (written, Panicked p)
      | Returned response => runner_loop lines (written ++ response)
      end
  end.

Definition runner_main (input : list byte) : list byte * caught unit := runner_loop (split_lines [] input) [].

End process.

(** ** The checksum *)

Lemma wrap_lt v : (wrap 64 v < 2 ^ 64)%N.
Proof. apply N.mod_lt. done. Qed.

(** An exclusive or of two words is a word. *)
Lemma lxor_lt a b n : (a < 2 ^ n → b < 2 ^ n → N.lxor a b < 2 ^ n)%N.
Proof.
  intros Ha Hb. destruct (decide (N.lxor a b = 0)%N) as [->|Hne]; [apply N.neq_0_lt_0, N.pow_nonzero; done|].
  apply N.log2_lt_pow2; [lia|]. eapply N.le_lt_trans; [apply N.log2_lxor|].
  assert (Hl : ∀ x, (x < 2 ^ n → x ≠ 0 → N.log2 x < n)%N) by (intros x ? ?; apply N.log2_lt_pow2; lia).
  destruct (decide (a = 0)%N) as [->|Ha0]; destruct (decide (b = 0)%N) as [->|Hb0]; simpl.
  - done.
  - rewrite N.max_r by apply N.le_0_l. auto.
  - rewrite N.max_l by apply N.le_0_l. auto.
  - apply N.max_lub_lt; auto.
Qed.

Lemma checksum_turn_lt v : (checksum_turn v < 2 ^ 64)%N.
Proof.
  unfold checksum_turn. apply lxor_lt; [apply wrap_lt|].
  eapply N.le_lt_trans; [|apply (wrap_lt (wrap 64 (v * 6364136223846793005) + 1442695040888963407))].
  rewrite N.shiftr_div_pow2. apply N.Div0.div_le_upper_bound. change (2 ^ 33)%N with 8589934592%N. lia.
Qed.

(** The word can be told from its exclusive or with its upper part. *)
Lemma xor_shift_inv x : (x < 2 ^ 64)%N → let y := N.lxor x (N.shiftr x 33) in x = N.lxor y (N.shiftr y 33).
Proof.
  intros Hx y. subst y. rewrite N.shiftr_lxor, N.shiftr_shiftr.
  assert (N.shiftr x (33 + 33) = 0)%N as ->.
  { rewrite N.shiftr_div_pow2. apply N.div_small. eapply N.lt_trans; [exact Hx|]. done. }
  rewrite N.lxor_0_r, N.lxor_assoc, N.lxor_nilpotent. by rewrite N.lxor_0_r.
Qed.

(** The multiplier is odd, so that it has an inverse. *)
Lemma multiply_add_inj x y : (x < 2 ^ 64 → y < 2 ^ 64 →
  wrap 64 (wrap 64 (x * 6364136223846793005) + 1442695040888963407) =
  wrap 64 (wrap 64 (y * 6364136223846793005) + 1442695040888963407) → x = y)%N.
Proof.
  unfold wrap. set (m := (2 ^ 64)%N). set (a := 6364136223846793005%N). set (c := 1442695040888963407%N).
  rewrite !N.Div0.add_mod_idemp_l. intros Hx Hy E.
  assert (Hinv : ∀ z, (z < m)%N →
    (((z * a + c) mod m * 13877824140714322085 + (m - c) * 13877824140714322085) mod m = z)%N).
  { intros z Hz. rewrite <-N.Div0.add_mod_idemp_l, N.Div0.mul_mod_idemp_l, N.Div0.add_mod_idemp_l.
    replace ((z * a + c) * 13877824140714322085 + (m - c) * 13877824140714322085)%N
      with (z + (z * 4787856489426250814 + 13877824140714322085) * m)%N.
    - rewrite N.Div0.mod_add. by apply N.mod_small.
    - assert (c <= m)%N by (unfold c, m; lia).
      assert (Ha : (a * 13877824140714322085 = 1 + 4787856489426250814 * m)%N) by reflexivity. nia. }
  rewrite <-(Hinv x Hx), <-(Hinv y Hy). by rewrite E.
Qed.

Lemma checksum_turn_inj x y : (x < 2 ^ 64 → y < 2 ^ 64 → checksum_turn x = checksum_turn y → x = y)%N.
Proof.
  unfold checksum_turn. intros Hx Hy E. apply multiply_add_inj; [done..|].
  etransitivity; [apply xor_shift_inv, wrap_lt|]. etransitivity; [|symmetry; apply xor_shift_inv, wrap_lt].
  by rewrite E.
Qed.

Lemma checksum_word_lt seed n : (seed < 2 ^ 64 → checksum_word seed n < 2 ^ 64)%N.
Proof.
  intros Hs. unfold checksum_word. destruct (decide (n = 0)%N) as [->|Hn]; [done|].
  replace n with (N.succ (N.pred n)) by lia. rewrite N.iter_succ. apply checksum_turn_lt.
Qed.

Lemma checksum_word_inj x y n : (x < 2 ^ 64 → y < 2 ^ 64 → checksum_word x n = checksum_word y n → x = y)%N.
Proof.
  intros Hx Hy. unfold checksum_word. induction n as [|n IH] using N.peano_ind; [done|].
  rewrite !N.iter_succ. intros E. apply IH.
  apply checksum_turn_inj; [by apply (checksum_word_lt x)|by apply (checksum_word_lt y)|done].
Qed.

(** ** Hexadecimal digits *)

Definition hex_digit (c : N) : N := if (c <? 58)%N then c - 48 else c - 87.
Definition hex_value (acc : N) (t : text) : N := fold_left (λ acc c, 16 * acc + hex_digit c)%N t acc.

Lemma hex_value_acc d p : hex_value (Npos p) (hex_text d) = Npos (Pos.of_hex_uint_acc d p).
Proof.
  revert p. induction d; intros p; cbn [hex_text hex_value fold_left Pos.of_hex_uint_acc]; [done|..].
  all: rewrite <-IHd; unfold hex_value; f_equal; simpl hex_digit; lia.
Qed.

Lemma hex_value_text d : hex_value 0 (hex_text d) = N.of_hex_uint d.
Proof.
  induction d; cbn [hex_text]; [done|exact IHd|..].
  all: unfold N.of_hex_uint; cbn [Pos.of_hex_uint]; rewrite <-hex_value_acc; reflexivity.
Qed.

Lemma hex_value_show v : hex_value 0 (show_hex v) = v.
Proof. unfold show_hex. rewrite hex_value_text. apply HexadecimalN.Unsigned.of_to. Qed.

Lemma hex_value_pad n t : hex_value 0 (pad_zero n t) = hex_value 0 t.
Proof.
  unfold pad_zero. induction (n - List.length t) as [|k IH]; [done|exact IH].
Qed.

Lemma hex_value_ge t : ∀ acc, (acc * 16 ^ len t <= hex_value acc t)%N.
Proof.
  induction t as [|c t IH]; intros acc; [unfold hex_value; simpl; rewrite len_nil; lia|].
  rewrite len_cons, N.add_1_l, N.pow_succ_r'. unfold hex_value. simpl. etransitivity; [|apply IH]. nia.
Qed.

(** A number is written without a leading zero. *)
Lemma show_hex_head v c t : show_hex v = c :: t → v ≠ 0%N → (1 <= hex_digit c)%N.
Proof.
  unfold show_hex. intros E Hv.
  assert (Hd : ∀ d, N.to_hex_uint v ≠ Hexadecimal.D0 d).
  { intros d Hd. pose proof (HexadecimalN.Unsigned.to_of (N.to_hex_uint v)) as Hu.
    rewrite HexadecimalN.Unsigned.of_to in Hu. rewrite Hd in Hu.
    destruct (Hexadecimal.nzhead (Hexadecimal.D0 d)) as [| | | | | | | | | | | | | | | |] eqn:En;
      try (rewrite HexadecimalFacts.unorm_nzhead in Hu by (by rewrite En); rewrite En in Hu; try discriminate Hu;
           by apply HexadecimalFacts.nzhead_nonzero in En).
    apply HexadecimalFacts.unorm_0 in En. rewrite En in Hu. injection Hu as ->.
    pose proof (HexadecimalN.Unsigned.of_to v) as Hz. rewrite Hd in Hz. by symmetry in Hz. }
  destruct (N.to_hex_uint v); simpl in E; try discriminate E; injection E as <- _; try done. by destruct (Hd u).
Qed.

Lemma show_hex_len v n : (v < 16 ^ n)%N → v ≠ 0%N → (len (show_hex v) <= n)%N.
Proof.
  intros Hv Hz. destruct (show_hex v) as [|c t] eqn:E; [rewrite len_nil; lia|]. rewrite len_cons.
  pose proof (show_hex_head v c t E Hz) as Hc. pose proof (hex_value_show v) as Hs. rewrite E in Hs.
  change (hex_value (hex_digit c) t = v) in Hs.
  pose proof (hex_value_ge t (hex_digit c)) as Hg. rewrite Hs in Hg.
  assert (Ht : (16 ^ len t < 16 ^ n)%N) by nia. apply N.pow_lt_mono_r_iff in Ht; lia.
Qed.

Lemma pad_length n t : (List.length t ≤ n)%nat → List.length (pad_zero n t) = n.
Proof. intros. unfold pad_zero. rewrite length_app, length_replicate. lia. Qed.

(** ** Batches and the process *)

Section lemmas.
Context `{RunnerDecoder}.

Lemma map_caught_returned {A B} (f : A → caught B) l bs :
  map_caught f l = Returned bs ↔ Forall2 (λ a b, f a = Returned b) l bs.
Proof.
  revert bs. induction l as [|a l IH]; intros bs; simpl.
  - split; [by intros [= <-]; constructor|by inversion 1].
  - destruct (f a) as [b|p] eqn:E.
    2: { split; [done|]. inversion 1; congruence. }
    destruct (map_caught f l) as [rest|p] eqn:El.
    + split; [intros [= <-]; constructor; [done|by apply IH]|].
      inversion 1 as [|? b' ? bs' Hb Hr]; subst. apply IH in Hr. congruence.
    + split; [done|]. inversion 1 as [|? b' ? bs' Hb Hr]; subst. by apply IH in Hr.
Qed.

Lemma map_caught_panicked {A B} (f : A → caught B) l a p :
  a ∈ l → f a = Panicked p → ∃ q, map_caught f l = Panicked q.
Proof.
  induction l as [|b l IH]; [by intros ?%not_elem_of_nil|]. intros [->|Hin]%elem_of_cons Ha; simpl.
  - rewrite Ha. by eexists.
  - destruct (IH Hin Ha) as [q Hq]. rewrite Hq. destruct (f b); by eexists.
Qed.

Lemma forall_choice {A B} (R : A → B → Prop) l : Forall (λ a, ∃ b, R a b) l → ∃ bs, Forall2 R l bs.
Proof.
  induction 1 as [|a l [b Hb] Hl [bs IH]]; [by exists []|]. exists (b :: bs). by constructor.
Qed.

(** The last value of a key, whatever the map was collected from. *)
(** What a line adds to the output of a process that goes on. *)
Definition response_of (line : list byte) : list byte :=
  match line with
  | [] => []
  | _ => match answer_line line with Returned r => r | Panicked _ => [] end
  end.

Lemma split_lines_cons piece l input :
  x0a ∉ l → split_lines piece (l ++ x0a :: input) = (reverse piece ++ l) :: split_lines [] input.
Proof.
  revert piece. induction l as [|b l IH]; intros piece Hl; simpl.
  - by rewrite app_nil_r.
  - destruct (Byte.eqb b x0a) eqn:E.
    + apply Byte.byte_dec_bl in E as ->. set_solver.
    + rewrite IH by set_solver. rewrite reverse_cons, <-app_assoc. done.
Qed.

Lemma split_lines_join ls :
  Forall (λ l, x0a ∉ l) ls → split_lines [] (ls ≫= λ l, l ++ [x0a]) = ls.
Proof.
  induction 1 as [|l ls Hl Hls IH]; [done|]. rewrite bind_cons, <-app_assoc. cbn [app].
  by rewrite split_lines_cons, IH.
Qed.

Lemma runner_loop_good good rest written :
  Forall (λ l, l = [] ∨ ∃ r, answer_line l = Returned r) good →
  runner_loop (good ++ rest) written = runner_loop rest (written ++ (good ≫= response_of)).
Proof.
  intros Hg. revert written. induction Hg as [|l good Hl Hg IH]; intros written; [by rewrite app_nil_r|].
  rewrite bind_cons. cbn [app]. destruct l as [|b l]; [exact (IH written)|]. destruct Hl as [|[r Hr]]; [done|].
  transitivity (runner_loop (good ++ rest) (written ++ r)); [simpl; by rewrite Hr|].
  rewrite IH, <-app_assoc. simpl. by rewrite Hr.
Qed.

End lemmas.

(** ** Properties *)

Section properties.
Context `{RunnerDecoder}.

(** The work of the calibrated fixture cannot be skipped or confused: the
    checksum of a 64-bit seed is always sixteen digits, and after any number of
    rounds two seeds have the same checksum only if they are the same seed. *)
Theorem checksum_distinguishes s1 s2 n :
  (s1 < 2 ^ 64)%N → (s2 < 2 ^ 64)%N →
  List.length (calibrated_checksum_with_iterations s1 n) = 16%nat ∧
  (calibrated_checksum_with_iterations s1 n = calibrated_checksum_with_iterations s2 n → s1 = s2).
Proof.
  intros Hs1 Hs2. unfold calibrated_checksum_with_iterations. split.
  - apply pad_length. pose proof (checksum_word_lt s1 n Hs1) as Hw.
    destruct (decide (checksum_word s1 n = 0%N)) as [->|Hz]; [vm_compute; lia|].
    assert (Hl : (len (show_hex (checksum_word s1 n)) <= 16)%N) by (apply show_hex_len; [exact Hw|done]).
    unfold len in Hl. lia.
  - intros E. apply (checksum_word_inj s1 s2 n Hs1 Hs2).
    rewrite <-(hex_value_show (checksum_word s1 n)), <-(hex_value_show (checksum_word s2 n)).
    by rewrite <-(hex_value_pad 16 (show_hex (checksum_word s1 n))), E, hex_value_pad.
Qed.

(** The runner that is linked in and the runner of the library do the same
    work: every task gets the same result from both, except on the legacy echo
    protocol, which only the library completes; and a protocol that neither
    lists is refused by both. *)
Theorem fixtures_agree (task : Task) :
  (if text_eqb (t_protocol_id task) LEGACY_ECHO_PROTOCOL
   then abi_fixture_result task = Ok (result_completed (t_task_id task)) ∧ is_ok (fixture_result task) = false
   else abi_fixture_result task = fixture_result task) ∧
  (t_protocol_id task ∉ ABI_FIXTURE_PROTOCOLS →
   abi_fixture_result task =
     Err (runtime_error ERR_RUNTIME_HOST_FAILED PLUGIN_ID
            (lit "fixture.unsupported_protocol." ++ t_protocol_id task))).
Proof.
  unfold abi_fixture_result. split.
  - destruct (text_eqb (t_protocol_id task) LEGACY_ECHO_PROTOCOL) eqn:E; [|reflexivity].
    apply text_eqb_eq in E. unfold fixture_result. rewrite E. split; reflexivity.
  - intros Hn. unfold ABI_FIXTURE_PROTOCOLS in Hn. rewrite !not_elem_of_cons in Hn.
    destruct Hn as (? & ? & ? & ? & ? & ? & ? & _).
    by rewrite !text_eqb_neq.
Qed.

(** A batch is completed entry by entry: when every entry has its task, the
    batch has one completion per entry in their order, under the ids of the
    entry, with the result or the error of a task with that id and never both;
    an entry without a task makes the runner panic. *)
Theorem batch_completed batch tasks :
  row_payload_tasks batch = Ok tasks →
  ((∀ e, e ∈ batch_entries batch → e.2 ∈ t_task_id <$> tasks) →
   ∃ results, run_batch batch = Returned (Ok (from_results batch results)) ∧
     Forall2 (λ e c, ec_entry_id c = e.1 ∧ ec_task_id c = e.2 ∧
       ∃ task, task ∈ tasks ∧ t_task_id task = e.2 ∧
         match fixture_result task with
         | Ok r => ec_result c = Some r ∧ ec_error c = None
         | Err x => ec_result c = None ∧ ec_error c = Some x
         end) (batch_entries batch) results) ∧
  (∀ e, e ∈ batch_entries batch → e.2 ∉ t_task_id <$> tasks → ∃ p, run_batch batch = Panicked p).
Proof.
  intros Ht. unfold run_batch. rewrite Ht. set (m := bcollect ((λ t, (t_task_id t, t)) <$> tasks)).
  assert (Hm : ∀ k t, bget m k = Some t → t ∈ tasks ∧ t_task_id t = k).
  { intros k t Hk. apply bcollect_elem in Hk. apply list_elem_of_fmap in Hk as (t' & [= -> ->] & Hin). done. }
  assert (Hs : ∀ k, k ∈ t_task_id <$> tasks → is_Some (bget m k)).
  { intros k Hk. apply bcollect_some. by rewrite <-list_fmap_compose. }
  split.
  - intros Hall.
    assert (Hr : ∃ results, Forall2 (λ e c, complete_entry m e = Returned c) (batch_entries batch) results).
    { apply forall_choice, Forall_forall. intros e He. unfold complete_entry.
      destruct (Hs e.2 (Hall e He)) as [t ->]. by eexists. }
    destruct Hr as [results Hr]. exists results. rewrite (proj2 (map_caught_returned _ _ _) Hr). split; [done|].
    eapply Forall2_impl; [exact Hr|]. intros e c. unfold complete_entry.
    destruct (bget m e.2) as [t|] eqn:E; [|done]. apply Hm in E as [Hin Hid]. intros [= <-].
    split_and!; [by destruct (fixture_result t)..|]. exists t. split_and!; [done|done|].
    by destruct (fixture_result t).
  - intros e He Hn. destruct (map_caught_panicked (complete_entry m) (batch_entries batch) e
      (Some (lit "batch task")) He) as [q ->]; [|by exists q].
    unfold complete_entry. destruct (bget m e.2) as [t|] eqn:E; [|done]. apply Hm in E as [Hin Hid].
    destruct Hn. rewrite <-Hid. by apply list_elem_of_fmap_2.
Qed.

(** The runner process answers in order: given lines of requests, it writes
    exactly the responses of the lines before the first that it cannot answer,
    one after the other, skips empty lines, and runs to the end of its input
    unless there is such a line. *)
Theorem runner_answers_in_order good bad :
  Forall (λ l, x0a ∉ l) (good ++ bad) →
  Forall (λ l, l = [] ∨ ∃ r, answer_line l = Returned r) good →
  match bad with
  | [] => runner_main (good ≫= λ l, l ++ [x0a]) = (good ≫= response_of, Returned tt)
  | l :: _ => ∀ p, l ≠ [] → answer_line l = Panicked p →
      runner_main ((good ++ bad) ≫= λ l, l ++ [x0a]) = (good ≫= response_of, Panicked p)
  end.
Proof.
  intros Hl Hg. unfold runner_main. destruct bad as [|l bad].
  - rewrite app_nil_r in Hl. rewrite split_lines_join by done.
    rewrite <-(app_nil_r good) at 1. by rewrite runner_loop_good.
  - intros p Hne Hp. rewrite split_lines_join by done. rewrite runner_loop_good by done.
    destruct l as [|b l]; [done|]. simpl. by rewrite Hp.
Qed.

End properties.

(** ** Witnesses *)

Module Sample.
Import Plugins.Sample Abi.Sample.

(** Results are a task id and an output, batches are the entries with the rows,
    and a wire request is the task id of a batch of one. *)
#[export] Instance sample_runner_sdk : RunnerSdk := {|
  RunnerResult := text * option json;
  result_completed id := (id, None); set_output o r := (r.1, o);
  RunnerContext := unit;
  WorkBatch := list (text * text) * list Task;
  batch_entries := fst; row_payload_tasks b := Ok b.2;
  CompletionBatch := list (EntryCompletion (text * option json));
  from_results _ l := l;
  map_work_batch_entries b f :=
    Ok ((λ t, match f t with
              | Ok r => mkCompletion (t_task_id t) (t_task_id t) (Some r) None
              | Err e => mkCompletion (t_task_id t) (t_task_id t) None (Some e)
              end) <$> b.2);
|}.

#[export] Instance sample_runner_wire : RunnerWire := {|
  HelloAck := unit; Hello := unit; accept_hello _ := Ok tt;
  Opcode := byte; opcode_initialize := "i"%byte; opcode_run_batch := "r"%byte;
  opcode_cancel_runner := "c"%byte; opcode_dispose_runner := "d"%byte;
  encode_ack _ o _ := Ok [o; x0a]; encode_completion _ o _ := Ok [o; x0a]; encode_unit _ o := Ok [o; x0a];
|}.

#[export] Instance sample_runner_decoder : RunnerDecoder := λ line,
  match line with
  | [b] =>
      if Byte.eqb b "i"%byte then Ok (1%N, Initialize tt)
      else if Byte.eqb b "r"%byte
      then Ok (2%N, RunBatch ([(lit "e1", lit "t1")], [mkTask (lit "t1") (lit "runner.noop") JNull]))
      else if Byte.eqb b "d"%byte then Ok (3%N, DisposeRunner)
      else Ok (4%N, Unsupported)
  | _ => Err (lit "not a request")
  end.

Definition echo_task : Task := mkTask (lit "t1") (lit "runner.echo") (JString (lit "hi")).
Definition sample_batch : WorkBatch := ([(lit "e1", lit "t1")], [echo_task]).
End Sample.

Section witnesses.
Import Plugins.Sample Abi.Sample Sample.

Lemma checksum_distinguishes_witness :
  List.length (calibrated_checksum_with_iterations 1297435713 3) = 16%nat ∧
  calibrated_checksum_with_iterations 1297435713 3 ≠ calibrated_checksum_with_iterations 7 3.
Proof.
  destruct (checksum_distinguishes 1297435713 7 3) as [Hl Hi]; [reflexivity..|].
  split; [exact Hl|]. intros E. specialize (Hi E). discriminate Hi.
Defined.

Lemma batch_completed_witness :
  ∃ results, run_batch sample_batch = Returned (Ok (from_results sample_batch results)) ∧
    List.length results = 1%nat.
Proof.
  destruct (proj1 (batch_completed sample_batch [echo_task] eq_refl)) as (results & Hr & Hf).
  - intros e He. apply elem_of_cons in He as [->|He]; [constructor|by apply not_elem_of_nil in He].
  - exists results. split; [exact Hr|]. symmetry. apply (Forall2_length _ _ _ Hf).
Defined.

Lemma runner_answers_in_order_witness :
  runner_main ["i"%byte; x0a; x0a; "r"%byte; x0a; "d"%byte; x0a]
  = (["i"%byte; x0a; "r"%byte; x0a; "d"%byte; x0a], Returned tt).
Proof.
  refine (eq_trans _ (eq_trans (runner_answers_in_order [["i"%byte]; []; ["r"%byte]; ["d"%byte]] [] _ _) _));
    [vm_compute; reflexivity| | |vm_compute; reflexivity].
  - repeat constructor; vm_compute; intros Hx;
      repeat (apply elem_of_cons in Hx as [Hx|Hx]; [discriminate Hx|]); by apply not_elem_of_nil in Hx.
  - repeat (apply Forall_cons_2; [first [left; reflexivity | right; eexists; vm_compute; reflexivity]|]).
    apply Forall_nil_2.
Defined.

End witnesses.

(** The builtin fixture and the library on the legacy protocol. *)
Lemma legacy_echo_differs :
  let task := mkTask (lit "t1") LEGACY_ECHO_PROTOCOL JNull in
  abi_fixture_result (H0:=Sample.sample_runner_sdk) task = Ok (lit "t1", None) ∧
  is_ok (fixture_result (H0:=Sample.sample_runner_sdk) task) = false.
Proof. by vm_compute. Qed.
