(* ===== verification/BenchSetup.v ===== *)
(** * What the benchmarks set up

    [crates/mutsuki-service-benchmarks]: the configurations of the benchmark
    services (src/main.rs, src/bin/benchmark_service.rs,
    src/bin/control_ipc_bench.rs), the plugins that src/main.rs installs for the
    host to find, the echo handler, and the arguments of the benchmark service. *)

From S2P Require Import Prelude Text BTreeMap Value Control ConfigTypes Frame Fs Plugins ConfigLoad.
From S2P Require Import EventSource LogTail Abi.
From S2P Require Import Fixture.

(** ** Configurations *)

(** What the two benchmark services have in common: every directory below
    [root], the fixture plugin selected, no console, and a token. *)
Definition service_config (c : ServiceConfig) (profile_name instance root ipc_name_ token : text)
    (plugin_config : json) (graceful : N) : ServiceConfig :=
  let below name := path_join root name in
  mkServiceConfig
    (mkServiceSection profile_name instance root (below (lit "data")) (below (lit "logs")) (below (lit "plugins"))
       (below (lit "run")))
    (core c)
    (mkIpcSection (ipc_enabled (ipc c)) (ipc_transport (ipc c)) (ipc_codec (ipc c)) ipc_name_ (Some token)
       (tcp_debug_addr (ipc c)) (sec_max_frame_bytes (ipc c)) (sec_max_payload_bytes (ipc c))
       (sec_max_jsonl_line_bytes (ipc c)) (sec_max_in_flight (ipc c)) (sec_idle_timeout_ms (ipc c))
       (sec_request_timeout_ms (ipc c)))
    (mkPluginsSection [mkSelection PLUGIN_ID true plugin_config] [below (lit "installed")] (below (lit "disabled")))
    (mkRunnersSection (restart (runners c)) (max_restart_per_minute (runners c)) graceful (env_allowlist (runners c)))
    (mkObserveSection false (observe_json (observe c)) (log_file (observe c)) (panic_file (observe c)))
    (security c).

(** [start_runtime] of src/main.rs, for a deployment by name. *)
Definition bench_config (c : ServiceConfig) (deployment root : text) (pid : N) : ServiceConfig :=
  let name := lit "benchmark-" ++ deployment in
  service_config c name name root (lit "mb" ++ show_N pid) (lit "benchmark-control-token")
    (jobj [(lit "fixture", JBool true); (lit "benchmark_runner_only", JBool true)]) 250.

(** [main] of src/bin/benchmark_service.rs. *)
Record ServiceArgs : Type := mkServiceArgs {
  sa_root : text; sa_ready : text; sa_stop : text; sa_token : text; sa_instance : text;
}.
Definition benchmark_service_config (c : ServiceConfig) (args : ServiceArgs) (pid : N) : ServiceConfig :=
  service_config c (lit "distributed-benchmark") (sa_instance args) (sa_root args)
    (sa_instance args ++ lit "-" ++ show_N pid) (sa_token args)
    (jobj [(lit "fixture", JBool true); (lit "benchmark_service_only", JBool true)]) 500.

Definition service_parse_args (values : list text) : result ServiceArgs text :=
  match values with
  | [] => Err (lit "missing root")
  | [_] => Err (lit "missing ready path")
  | [_; _] => Err (lit "missing stop path")
  | [_; _; _] => Err (lit "missing token")
  | [_; _; _; _] => Err (lit "missing instance")
  | [root; ready; stop; token; instance] => Ok (mkServiceArgs root ready stop token instance)
  | _ => Err (lit "unexpected argument")
  end.

(** [start_echo_server] of src/bin/control_ipc_bench.rs. *)
Definition echo_config (c : ServiceConfig) (windows : bool) (codec : IpcCodec) (root : text) (pid : N)
    : ServiceConfig :=
  let s := service c in
  mkServiceConfig
    (mkServiceSection (profile s) (instance_id s) (home_dir s) (data_dir s) (log_dir s) (plugin_dir s) root)
    (core c)
    (mkIpcSection true (if windows then NamedPipe else UnixSocket) codec
       (lit "control-ipc-bench-" ++ show_N pid) (Some (lit "bench-token")) (tcp_debug_addr (ipc c))
       (2 * 1024 * 1024) (1024 * 1024) (1024 * 1024) 128 60000 30000)
    (plugins c) (runners c) (observe c) (security c).

(** [EchoHandler]: the parameters come back. *)
#[export] Instance EchoHandler : ControlHandler unit := λ request st,
  (st, mkResponse true (Some (req_params request)) None).

(** ** Installing plugins *)

Inductive target_os : Type := OsWindows | OsMacos | OsOther.

Definition platform_abi_name (os : target_os) : text :=
  match os with
  | OsWindows => lit "mutsuki_service_abi_fixture.dll"
  | OsMacos => lit "libmutsuki_service_abi_fixture.dylib"
  | OsOther => lit "libmutsuki_service_abi_fixture.so"
  end.
Definition platform_process_name (os : target_os) : text :=
  match os with
  | OsWindows => lit "mutsuki-benchmark-runner.exe"
  | _ => lit "mutsuki-benchmark-runner"
  end.

(** Only the root has no parent. *)
Definition current_binary_dir (current_exe : result text text) : result text text :=
  let? exe := current_exe in
  if text_eqb exe (lit "/") then Err (lit "benchmark executable has no parent directory") else Ok (parent exe).

(** Hashing, TOML, and the manifest of the contracts for an artifact kind and
    what a built plugin provides. *)
Class BenchInstall `{Contracts} `{PluginSdk} : Type := {
  sha256_hex : list byte → text;
  plugin_to_toml : PluginToml → result text text;
  built_manifest : ArtifactType → BuiltPlugin → PluginManifest;
}.

Section install.
Context `{BenchInstall}.
Variable os : target_os.

Definition write_plugin (directory : text) (plugin : PluginToml) (w : world) : result unit text * world :=
  match plugin_to_toml plugin with
  | Err e => (Err e, w)
  | Ok content =>
      let '(r, w) := fs_write (path_join directory (lit "plugin.toml")) (utf8 content) w in
      (map_err io_text r, w)
  end.

Definition missing_fixture (what path : text) : text :=
  what ++ lit " " ++ path ++ lit " is missing; run the benchmark script so fixtures are built first".

(** A manifest that cannot be built, a directory list without an entry, and an
    artifact that cannot be read back after it was copied are panics. *)
Definition install_abi_plugin (config : ServiceConfig) (current_exe : result text text) (w : world)
    : caught (result unit text) * world :=
  match current_binary_dir current_exe with
  | Err e => (Returned (Err e), w)
  | Ok binaries =>
      let source := path_join binaries (platform_abi_name os) in
      if negb (is_file w source) then (Returned (Err (missing_fixture (lit "ABI fixture") source)), w)
      else
        match dynamic_dirs (plugins config) with
        | [] => (Panicked (Some (lit "index out of bounds")), w)
        | installed :: _ =>
            let plugin_dir := path_join installed (lit "abi") in
            match create_dir_all plugin_dir w with
            | (Err e, w) => (Returned (Err (io_text e)), w)
            | (Ok _, w) =>
                let artifact := path_join plugin_dir (platform_abi_name os) in
                match fs_copy source artifact w with
                | (Err e, w) => (Returned (Err (io_text e)), w)
                | (Ok _, w) =>
                    match faults w (OpRead artifact), files w !! artifact with
                    | None, Some bytes =>
                        match benchmark_manifest (platform_abi_name os) (lit "sha256:" ++ sha256_hex bytes) with
                        | Panicked p => (Panicked p, w)
                        | Returned built =>
                            let '(r, w) := write_plugin plugin_dir (mkPluginToml (built_manifest AAbi built) None) w in
                            (Returned r, w)
                        end
                    | _, _ => (Panicked (Some (lit "called `Result::unwrap()` on an `Err` value")), w)
                    end
                end
            end
        end
  end.

Definition process_spec (process : text) : ExternalRuntimeSpec :=
  mkRuntimeSpec process [] [] None (lit "jsonl-stdio").

Definition install_process_plugin (config : ServiceConfig) (current_exe : result text text) (w : world)
    : caught (result unit text) * world :=
  match current_binary_dir current_exe with
  | Err e => (Returned (Err e), w)
  | Ok binaries =>
      let process := path_join binaries (platform_process_name os) in
      if negb (is_file w process) then (Returned (Err (missing_fixture (lit "Rust process fixture") process)), w)
      else
        match dynamic_dirs (plugins config) with
        | [] => (Panicked (Some (lit "index out of bounds")), w)
        | installed :: _ =>
            let plugin_dir := path_join installed (lit "rust-process") in
            match create_dir_all plugin_dir w with
            | (Err e, w) => (Returned (Err (io_text e)), w)
            | (Ok _, w) =>
                match fixture_manifest_for (platform_process_name os) (lit "sha256:benchmark-process") with
                | Panicked p => (Panicked p, w)
                | Returned built =>
                    let '(r, w) := write_plugin plugin_dir
                      (mkPluginToml (built_manifest AProcess built) (Some (process_spec process))) w in
                    (Returned r, w)
                end
            end
        end
  end.

End install.

(** ** What is promised about the interfaces *)

Class BenchInstallOk `{BenchInstall} : Prop := {
  sha256_shape bytes : (text_len (sha256_hex bytes) = 64)%N ∧ forallb lower_hex (sha256_hex bytes) = true;
  manifest_type a b : artifact_type (built_manifest a b) = a;
  manifest_artifact a b : artifact_path (built_manifest a b) = bp_path b ∧ artifact_sha256 (built_manifest a b) = bp_sha256 b;
  manifest_id a b : plugin_id (built_manifest a b) = PLUGIN_ID;
  manifest_version a b : api_version (built_manifest a b) = lit "mutsuki-plugin-v1";
  manifest_backends a b : plugin_backends (built_manifest a b) =
    (λ p, (DAbi, pb_codec_id p, pb_bridge_id p)) <$> pr_backends (bp_provides b);
  (* a built plugin offers itself as an ABI plugin of the second version *)
  built_backends id d : pr_backends (build_provides id d None) = [mkBackend (Some ABI_V2_CODEC_ID) (Some ABI_V2_BRIDGE_ID)];
  default_compatible a : is_compatible_with_artifact (default_for_artifact a) a = true;
  artifact_kinds : AAbi ≠ ANative ∧ AProcess ≠ ANative ∧ AProcess ≠ AAbi;
}.

(** A file system without links, as the scan sees it. *)
Definition view_of (w : world) : fs_view := {|
  v_exists := exists_ w; v_is_dir p := bool_decide (p ∈ dirs w); v_is_file := is_file w;
  v_read_dir dir :=
    Ok (Ok <$> List.filter (λ p, text_eqb (parent p) dir && negb (text_eqb p dir))
                 (elements (dom (files w) ∪ dirs w)));
  v_canonicalize p := Ok p; v_read p := ok_or (files w !! p) no_such_file;
|}.

Definition library_of (os : target_os) : text :=
  match os with OsWindows => lit "dll" | OsMacos => lit "dylib" | OsOther => lit "so" end.

(** ** Paths *)

(** A directory that is named in full. *)
Definition plain_dir (d : text) : Prop := d ≠ [] ∧ last d ≠ Some 47%N.

Lemma join_plain d n : plain_dir d → 47%N ∉ n → path_join d n = d ++ 47%N :: n.
Proof.
  intros [Hne Hl] Hn. unfold path_join. assert (is_absolute n = false) as ->.
  { unfold is_absolute, starts_with. change (lit "/") with [47%N].
    destruct n as [|c n]; [done|]. cbn [strip_prefix].
    apply not_elem_of_cons in Hn as [Hc _]. destruct (N.eqb_spec 47 c); [congruence|done]. }
  assert (is_empty d = false) as -> by (by destruct d).
  assert (ends_with (lit "/") d = false) as ->; [|done].
  unfold ends_with. change (reverse (lit "/")) with [47%N]. unfold starts_with.
  destruct (reverse d) as [|c r] eqn:E; [done|]. cbn [strip_prefix].
  destruct (N.eqb_spec 47 c) as [<-|]; [|done]. destruct Hl.
  by rewrite <-(reverse_involutive d), E, reverse_cons, last_snoc.
Qed.

Section joined.
Context (d n : text) (Hd : plain_dir d) (Hn : 47%N ∉ n).

Lemma file_name_join : file_name (path_join d n) = n.
Proof. unfold file_name. by rewrite join_plain, split_name_dir. Qed.

Lemma parent_join : parent (path_join d n) = d.
Proof.
  unfold parent. rewrite join_plain, split_name_dir by done. cbn [fst].
  rewrite text_eqb_neq.
  - rewrite length_app, Nat.add_sub. apply take_app_length.
  - destruct Hd as [Hne _]. destruct d as [|c d']; [done|]. intros E. by destruct d'.
Qed.

Lemma split_on_plain t : 47%N ∉ t → split_on 47 t = [t].
Proof.
  induction t as [|c t IH]; [done|]. intros [Hc Ht]%not_elem_of_cons. cbn [split_on]. rewrite IH by done.
  by rewrite (proj2 (N.eqb_neq c 47)) by congruence.
Qed.

Lemma split_on_nonempty t : split_on 47 t ≠ [].
Proof. destruct t as [|c t]; [done|]. cbn [split_on]. destruct (split_on 47 t) as [|part rest]; [done|]. by case_match. Qed.

Lemma split_on_app a : split_on 47 (a ++ 47%N :: n) = split_on 47 a ++ [n].
Proof.
  induction a as [|c a IH]; [cbn [app split_on]; by rewrite split_on_plain|].
  cbn [app split_on]. rewrite IH. pose proof (split_on_nonempty a).
  destruct (split_on 47 a) as [|part rest]; [done|]. simpl. by case_match.
Qed.

Lemma is_prefix_app (l k : list text) : is_prefix l (l ++ k) = true.
Proof. induction l as [|x l IH]; [done|]. simpl. by rewrite text_eqb_refl. Qed.

Lemma starts_with_join : path_starts_with (path_join d n) d = true.
Proof.
  unfold path_starts_with. rewrite join_plain by done. apply andb_true_iff. split.
  - destruct Hd as [Hne _]. destruct d as [|c d']; [done|]. apply Bool.eqb_true_iff. unfold is_absolute, starts_with.
    change (lit "/") with [47%N]. cbn [app strip_prefix]. by destruct (47 =? c)%N.
  - unfold components. rewrite split_on_app. pose proof (split_on_nonempty d).
    destruct (split_on 47 d) as [|first rest]; [done|]. cbn [app].
    rewrite List.filter_app, app_assoc. apply is_prefix_app.
Qed.
End joined.

Lemma plain_join d n x c : plain_dir d → n = x ++ [c] → 47%N ∉ n → plain_dir (path_join d n).
Proof.
  intros Hd -> Hn. rewrite join_plain by done. split; [by destruct d|].
  rewrite last_app. simpl. change (47%N :: x ++ [c]) with ((47%N :: x) ++ [c]). rewrite last_snoc.
  intros [= ->]. apply Hn. apply elem_of_app. right. by left.
Qed.

(** ** Properties *)

Section properties.
Context `{BenchInstallOk} `{!AbiSdkOk}.
Variable (os : target_os) (unsupported : option text * option text → text) (parse : text → result PluginToml text).
Hypothesis parse_written : ∀ p content, plugin_to_toml p = Ok content → parse content = Ok p.
Hypothesis toml_scalar : ∀ p content, plugin_to_toml p = Ok content → wf_text content.

Lemma abi_name_plain : (47%N ∉ platform_abi_name os) ∧ extension (platform_abi_name os) = Some (library_of os).
Proof. split; [apply (bool_decide_eq_true_1 _)|]; destruct os; vm_compute; reflexivity. Qed.

Lemma write_plugin_ok dir plugin w w' : write_plugin dir plugin w = (Ok tt, w') →
  ∃ content, plugin_to_toml plugin = Ok content ∧ faults w (OpWrite (path_join dir (lit "plugin.toml"))) = None ∧
    w' = set_files (<[path_join dir (lit "plugin.toml") := utf8 content]> (files w)) w.
Proof.
  unfold write_plugin, fs_write. intros Hw. destruct (plugin_to_toml plugin) as [content|]; [|done].
  destruct (faults w _) as [[e [part|]]|]; try done. injection Hw as <-. by exists content.
Qed.

Lemma manifest_read dir p content w :
  plain_dir dir → plugin_to_toml p = Ok content →
  files w !! path_join dir (lit "plugin.toml") = Some (utf8 content) →
  read_plugin_manifest parse (view_of w) (path_join dir (lit "plugin.toml")) = Ok p.
Proof.
  intros Hd Hp Hf. unfold read_plugin_manifest, v_read_to_string. cbn [v_read view_of]. rewrite Hf. cbn [ok_or rbind].
  rewrite from_utf8_utf8 by by eapply toml_scalar. cbn [ok_or map_err rbind]. by rewrite (parse_written _ _ Hp).
Qed.

(** The manifest that the library is installed with is accepted. *)
Lemma built_valid a built : validate_manifest (built_manifest a built) None = Ok tt.
Proof. unfold validate_manifest, deployment_of. rewrite manifest_version, manifest_type, default_compatible. done. Qed.

Lemma contract_resolved sha built : benchmark_manifest (platform_abi_name os) sha = Returned built →
  ∃ c, resolve_abi_contract unsupported (built_manifest AAbi built) = Ok c.
Proof.
  unfold benchmark_manifest, build_plugin. intros [= <-]. unfold resolve_abi_contract. rewrite abi_inventory.
  rewrite manifest_type, bool_decide_eq_true_2, manifest_backends by done. cbn [bp_provides].
  rewrite built_backends. cbn. rewrite bool_decide_eq_true_2 by done.
  destruct (bool_decide _ && bool_decide _); [by eexists|]. cbn.
  rewrite !bool_decide_eq_true_2 by done. by eexists.
Qed.

Abbreviation toml_path dir := (path_join dir (lit "plugin.toml")).
Abbreviation scanned := (scan_entry unsupported sha256_hex (library_of os) parse).

Lemma toml_plain : 47%N ∉ lit "plugin.toml".
Proof. apply (bool_decide_eq_true_1 _). by vm_compute. Qed.

(** A directory with a written manifest, up to the check of a library. *)
Lemma scan_installed dir p content w disabled :
  plain_dir dir → dir ∈ dirs w → plugin_to_toml p = Ok content →
  files w !! toml_path dir = Some (utf8 content) →
  plugin_id (pt_manifest p) ∉ disabled → validate_manifest (pt_manifest p) (pt_runtime p) = Ok tt →
  artifact_type (pt_manifest p) ≠ ANative →
  scanned (view_of w) disabled dir =
  if bool_decide (artifact_type (pt_manifest p) = AAbi)
  then match validate_abi_artifact unsupported sha256_hex (library_of os) (view_of w) (toml_path dir) (pt_manifest p) with
       | Err e => Diagnosed (mkDiagnostic (toml_path dir) (Some (plugin_id (pt_manifest p)))
                               (Some (deployment_of (pt_manifest p))) (loader_error_text e))
       | Ok path => Found (mkPluginRecord (toml_path dir) (pt_manifest p) (pt_runtime p) (Some path))
       end
  else Found (mkPluginRecord (toml_path dir) (pt_manifest p) (pt_runtime p) None).
Proof.
  intros Hd Hdir Hp Hf Hdis Hv Hn. unfold scan_entry.
  assert (Hm : manifest_path_of (view_of w) dir = toml_path dir).
  { unfold manifest_path_of. cbn [v_is_dir view_of]. by rewrite bool_decide_eq_true_2. }
  rewrite Hm, file_name_join by (done || apply toml_plain). rewrite text_eqb_refl. cbn [negb orb v_exists view_of].
  assert (exists_ w (toml_path dir) = true) as ->.
  { unfold exists_. by rewrite Hf, bool_decide_eq_true_2 by done. }
  cbn [negb]. rewrite (manifest_read dir p content w Hd Hp Hf).
  by rewrite (bool_decide_eq_false_2 (plugin_id (pt_manifest p) ∈ disabled)), Hv,
    (bool_decide_eq_false_2 (artifact_type (pt_manifest p) = ANative)) by done.
Qed.

(** A library in its directory under the declared hash. *)
Lemma installed_valid dir bytes built w :
  plain_dir dir → files w !! path_join dir (platform_abi_name os) = Some bytes →
  benchmark_manifest (platform_abi_name os) (lit "sha256:" ++ sha256_hex bytes) = Returned built →
  validate_abi_artifact unsupported sha256_hex (library_of os) (view_of w) (toml_path dir) (built_manifest AAbi built)
  = Ok (path_join dir (platform_abi_name os)).
Proof.
  intros Hd Hf. assert (Hstrip : strip_prefix (lit "sha256:") (lit "sha256:" ++ sha256_hex bytes) = Some (sha256_hex bytes))
    by reflexivity.
  remember (lit "sha256:" ++ sha256_hex bytes) as sha eqn:Hsha. intros Hb. pose proof abi_name_plain as [Hplain Hext].
  destruct (contract_resolved _ _ Hb) as [c Hc]. unfold benchmark_manifest, build_plugin in Hb. injection Hb as <-.
  unfold validate_abi_artifact. rewrite Hc. cbn [rbind].
  rewrite (proj1 (manifest_artifact AAbi _)), (proj2 (manifest_artifact AAbi _)). cbn [bp_path bp_sha256].
  assert (is_absolute (platform_abi_name os) || is_empty (trim (platform_abi_name os)) = false) as ->
    by (destruct os; vm_compute; reflexivity).
  cbn [v_canonicalize view_of map_err rbind v_is_file v_read]. rewrite parent_join by (done || apply toml_plain).
  assert (is_file w (path_join dir (platform_abi_name os)) = true) as ->.
  { unfold is_file. by rewrite Hf, bool_decide_eq_true_2 by done. }
  cbn [negb]. rewrite starts_with_join by done. cbn [negb].
  assert (extension (path_join dir (platform_abi_name os)) = Some (library_of os)) as ->.
  { rewrite <-Hext. unfold extension. rewrite file_name_join by done.
    assert (file_name (platform_abi_name os) = platform_abi_name os) as ->; [by destruct os; vm_compute|done]. }
  rewrite bool_decide_eq_true_2 by done. cbn [negb].
  rewrite Hstrip. destruct (sha256_shape bytes) as [-> ->]. cbn [N.eqb negb orb]. rewrite Hf. cbn [ok_or map_err rbind].
  by rewrite <-Hsha, text_eqb_refl.
Qed.

(** C17: the library that the benchmark installs is found and trusted by the host:
    after a successful installation the scan of its directory yields exactly the
    plugin it was built as, its artifact resolved to the copy in that directory,
    whose hash is the one the manifest declares; and the copy is the fixture. *)
Theorem installed_abi_found config exe installed rest disabled w w' :
  dynamic_dirs (plugins config) = installed :: rest → plain_dir installed → PLUGIN_ID ∉ disabled →
  install_abi_plugin os config exe w = (Returned (Ok tt), w') →
  let dir := path_join installed (lit "abi") in
  let artifact := path_join dir (platform_abi_name os) in
  ∃ binaries built bytes,
    current_binary_dir exe = Ok binaries ∧ files w !! path_join binaries (platform_abi_name os) = Some bytes ∧
    files w' !! artifact = Some bytes ∧
    scan_entry unsupported sha256_hex (library_of os) parse (view_of w') disabled dir
    = Found (mkPluginRecord (path_join dir (lit "plugin.toml")) (built_manifest AAbi built) None (Some artifact)).
Proof.
  intros Hdirs Hplain Hdis Hi. cbv zeta. set (dir := path_join installed (lit "abi")).
  set (artifact := path_join dir (platform_abi_name os)).
  assert (Hd : plain_dir dir).
  { apply (plain_join _ _ (lit "ab") 105); [done|done|]. apply (bool_decide_eq_true_1 _). by vm_compute. }
  unfold install_abi_plugin in Hi. rewrite Hdirs in Hi.
  destruct (current_binary_dir exe) as [binaries|]; [|done]. cbv zeta in Hi.
  destruct (negb (is_file w _)); [done|]. fold dir in Hi. fold artifact in Hi.
  unfold create_dir_all in Hi. destruct (faults w (OpCreateDir dir)) as [[]|]; [done|].
  unfold fs_copy in Hi. cbn [faults files] in Hi.
  destruct (faults w (OpRead (path_join binaries _))) as [[]|]; [done|].
  destruct (files w !! path_join binaries (platform_abi_name os)) as [bytes|] eqn:Hsrc; [|done].
  unfold fs_write in Hi. cbn [faults files] in Hi.
  destruct (faults w (OpWrite artifact)) as [[e [part|]]|]; [done..|]. cbn [faults files set_files] in Hi.
  destruct (faults w (OpRead artifact)) as [[]|]; [done|]. rewrite lookup_insert_eq in Hi.
  destruct (benchmark_manifest _ _) as [built|] eqn:Hbuilt; [|done].
  destruct (write_plugin dir _ _) as [r w2] eqn:Hw. injection Hi as -> ->.
  apply write_plugin_ok in Hw as (content & Hc & _ & ->).
  exists binaries, built, bytes. split; [done|]. split; [done|].
  pose proof abi_name_plain as [Hname _].
  assert (Hne : toml_path dir ≠ artifact).
  { intros E. apply (f_equal file_name) in E. unfold artifact in E.
    rewrite !file_name_join in E by (done || apply toml_plain). by destruct os. }
  match goal with |- files ?w1 !! _ = _ ∧ _ => set (w' := w1) end.
  assert (Ha : files w' !! artifact = Some bytes) by (unfold w'; simpl; by rewrite lookup_insert_ne, lookup_insert_eq).
  split; [exact Ha|].
  rewrite (scan_installed dir (mkPluginToml (built_manifest AAbi built) None) content w' disabled); cbn [pt_manifest pt_runtime].
  - rewrite manifest_type, bool_decide_eq_true_2 by done. by rewrite (installed_valid dir bytes built w').
  - done.
  - unfold w'. simpl. set_solver.
  - done.
  - unfold w'. simpl. by rewrite lookup_insert_eq.
  - by rewrite manifest_id.
  - apply built_valid.
  - rewrite manifest_type. apply artifact_kinds.
Qed.

(** The runner process that the benchmark installs is found by the host as an
    external plugin: the scan of its directory yields the manifest with the
    runtime that starts the executable next to the benchmark, which was there,
    over the JSONL link, without arguments and without secrets. *)
Theorem installed_process_found config exe installed rest disabled w w' :
  dynamic_dirs (plugins config) = installed :: rest → plain_dir installed → PLUGIN_ID ∉ disabled →
  install_process_plugin os config exe w = (Returned (Ok tt), w') →
  let dir := path_join installed (lit "rust-process") in
  ∃ binaries built,
    current_binary_dir exe = Ok binaries ∧
    let process := path_join binaries (platform_process_name os) in
    is_file w process = true ∧
    scanned (view_of w') disabled dir
    = Found (mkPluginRecord (toml_path dir) (built_manifest AProcess built) (Some (process_spec process)) None).
Proof.
  intros Hdirs Hplain Hdis Hi. cbv zeta. set (dir := path_join installed (lit "rust-process")).
  assert (Hd : plain_dir dir).
  { apply (plain_join _ _ (lit "rust-proces") 115); [done|done|]. apply (bool_decide_eq_true_1 _). by vm_compute. }
  unfold install_process_plugin in Hi. rewrite Hdirs in Hi.
  destruct (current_binary_dir exe) as [binaries|]; [|done]. cbv zeta in Hi.
  destruct (is_file w _) eqn:Hsrc; [|done]. cbn [negb] in Hi. fold dir in Hi.
  unfold create_dir_all in Hi. destruct (faults w (OpCreateDir dir)) as [[]|]; [done|].
  destruct (fixture_manifest_for _ _) as [built|] eqn:Hbuilt; [|done].
  destruct (write_plugin dir _ _) as [r w2] eqn:Hw. injection Hi as -> ->.
  apply write_plugin_ok in Hw as (content & Hc & _ & ->).
  exists binaries, built. split; [done|]. split; [done|].
  match type of Hc with plugin_to_toml ?p0 = _ => set (p := p0) in * end.
  rewrite (scan_installed dir p content _ disabled Hd); cbn [pt_manifest pt_runtime p].
  - rewrite manifest_type, bool_decide_eq_false_2; [done|]. apply artifact_kinds.
  - simpl. set_solver.
  - done.
  - simpl. by rewrite lookup_insert_eq.
  - by rewrite manifest_id.
  - unfold validate_manifest, deployment_of. by rewrite manifest_version, manifest_type, default_compatible.
  - rewrite manifest_type. apply artifact_kinds.
Qed.

End properties.

(** ** Witnesses *)

Module Sample.
Import Plugins.Sample Abi.Sample.

#[export] Instance plugin_eq_dec : EqDecision plugin.
Proof. solve_decision. Defined.

#[export] Instance bench_sdk : PluginSdk := {|
  Descriptor := text; descriptor_build _ id _ := id; set_accepted_protocols _ d := d; Extension := text;
  build_provides _ d _ :=
    mkProvides [d] [Fixture.mkBackend (Some ABI_V2_CODEC_ID) (Some ABI_V2_BRIDGE_ID)] [] [] [];
|}.

Definition bench_manifest (a : artifact) (b : BuiltPlugin) : plugin :=
  Plugins.Sample.mkPlugin PLUGIN_ID (lit "mutsuki-plugin-v1") a (bp_path b) (bp_sha256 b)
    ((λ p, (KAbi, pb_codec_id p, pb_bridge_id p)) <$> pr_backends (bp_provides b)).

Definition abi_toml : PluginToml :=
  mkPluginToml (bench_manifest SAbi (Fixture.mkPlugin (platform_abi_name OsOther) (lit "sha256:" ++ zeros)
    (build_provides PLUGIN_ID fixture_descriptor None))) None.
Definition process_toml : PluginToml :=
  mkPluginToml (bench_manifest SProcess (Fixture.mkPlugin (platform_process_name OsOther) (lit "sha256:benchmark-process")
    (mkProvides [fixture_descriptor] [] [] [] []))) (Some (process_spec (lit "/bin/mutsuki-benchmark-runner"))).

(** Two manifests can be written, and are told apart by their text. *)
Definition is_process (p : PluginToml) : bool :=
  match pt_runtime p with
  | Some (mkRuntimeSpec command [] [] None link) =>
      bool_decide (pt_manifest p = pt_manifest process_toml)
      && text_eqb command (lit "/bin/mutsuki-benchmark-runner") && text_eqb link (lit "jsonl-stdio")
  | _ => false
  end.
Definition is_abi (p : PluginToml) : bool :=
  match pt_runtime p with None => bool_decide (pt_manifest p = pt_manifest abi_toml) | Some _ => false end.

#[export] Instance bench_install : BenchInstall := {|
  sha256_hex _ := zeros;
  plugin_to_toml p := if is_abi p then Ok (lit "abi") else if is_process p then Ok (lit "process") else Err (lit "toml");
  built_manifest := bench_manifest;
|}.

#[export] Instance bench_install_ok : BenchInstallOk.
Proof. split; try done. by intros []. Qed.

Definition parse_sample (t : text) : result PluginToml text :=
  if text_eqb t (lit "abi") then Ok abi_toml else Ok process_toml.

Lemma parse_sample_written p content : plugin_to_toml p = Ok content → parse_sample content = Ok p.
Proof.
  destruct p as [m [[command args env cwd link]|]]; simpl.
  - unfold is_abi, is_process. simpl. repeat case_match; try done. intros [= <-]. bool_props. subst.
    repeat match goal with E : text_eqb _ _ = true |- _ => apply text_eqb_eq in E; subst end. done.
  - unfold is_abi, is_process. simpl. case_bool_decide as E; [|done]. intros [= <-]. by rewrite E.
Qed.

Lemma sample_scalar p content : plugin_to_toml p = Ok content → wf_text content.
Proof. simpl. repeat case_match; intros [= <-]; by repeat constructor. Qed.

Definition config : ServiceConfig := bench_config (default_config false None) (lit "abi") (lit "/tmp/msh1") 7.
Definition built : world :=
  mkWorld {[lit "/bin/libmutsuki_service_abi_fixture.so" := [x7f]; lit "/bin/mutsuki-benchmark-runner" := [x01]]}
    ∅ ∅ ∅ (λ _, None) 0 7.
End Sample.

Section witnesses.
Import Plugins.Sample Abi.Sample Sample.

Lemma installed_abi_found_witness :
  ∃ w' r, install_abi_plugin OsOther config (Ok (lit "/bin/mutsuki-benchmarks")) built = (Returned (Ok tt), w') ∧
    scan_entry (λ _, []) sha256_hex (lit "so") parse_sample (view_of w') [] (lit "/tmp/msh1/installed/abi") = Found r.
Proof.
  destruct (install_abi_plugin OsOther config (Ok (lit "/bin/mutsuki-benchmarks")) built) as [r w'] eqn:E.
  assert (Hr : r = Returned (Ok tt)).
  { apply (f_equal fst) in E. simpl in E. rewrite <-E. vm_compute. reflexivity. }
  subst r.
  destruct (installed_abi_found OsOther (λ _, []) parse_sample parse_sample_written sample_scalar config
    (Ok (lit "/bin/mutsuki-benchmarks")) (lit "/tmp/msh1/installed") [] [] built w' eq_refl) as (b & m & bytes & _ & _ & _ & H);
    [split; discriminate|apply not_elem_of_nil|exact E|].
  exists w'. eexists. split; [reflexivity|exact H].
Defined.

Lemma installed_process_found_witness :
  ∃ w' r, install_process_plugin OsOther config (Ok (lit "/bin/mutsuki-benchmarks")) built = (Returned (Ok tt), w') ∧
    scan_entry (λ _, []) sha256_hex (lit "so") parse_sample (view_of w') [] (lit "/tmp/msh1/installed/rust-process") = Found r.
Proof.
  destruct (install_process_plugin OsOther config (Ok (lit "/bin/mutsuki-benchmarks")) built) as [r w'] eqn:E.
  assert (Hr : r = Returned (Ok tt)).
  { apply (f_equal fst) in E. simpl in E. rewrite <-E. vm_compute. reflexivity. }
  subst r.
  destruct (installed_process_found OsOther (λ _, []) parse_sample parse_sample_written sample_scalar config
    (Ok (lit "/bin/mutsuki-benchmarks")) (lit "/tmp/msh1/installed") [] [] built w' eq_refl) as (b & m & _ & _ & H);
    [split; discriminate|apply not_elem_of_nil|exact E|].
  exists w'. eexists. split; [reflexivity|exact H].
Defined.

End witnesses.
