(* ===== verification/Float64.v ===== *)
(** * Numbers of the benchmarks

    [f64] as the benchmarks of crates/mutsuki-service-benchmarks use it: binary64
    with every operation rounded to nearest even, on the Standard Library's
    [SpecFloat]; conversions from and to integers, [ceil], [max], the order of
    [total_cmp], and sorting by it. *)

From S2P Require Import Prelude Text Value.
From stdpp Require Import sorting.
From Stdlib Require Import SpecFloat.

Definition f64 : Type := spec_float.

Definition fadd : f64 → f64 → f64 := SFadd 53 1024.
Definition fsub : f64 → f64 → f64 := SFsub 53 1024.
Definition fmul : f64 → f64 → f64 := SFmul 53 1024.
Definition fdiv : f64 → f64 → f64 := SFdiv 53 1024.
Definition fleb : f64 → f64 → bool := SFleb.
Definition fltb : f64 → f64 → bool := SFltb.

(** [as f64] of an unsigned integer. *)
Definition f64_of_N (n : N) : f64 := binary_normalize 53 1024 (Z.of_N n) 0 false.
(** A decimal literal: the quotient of two exact integers is rounded once. *)
Definition literal (num den : N) : f64 := fdiv (f64_of_N num) (f64_of_N den).

(** [f64::abs]. *)
Definition fabs : f64 → f64 := SFabs.

(** [f64::max]: a NaN loses. *)
Definition fmax (x y : f64) : f64 :=
  match x, y with
  | S754_nan, _ => y
  | _, S754_nan => x
  | _, _ => if fltb x y then y else x
  end.

(** [f64::ceil]. *)
Definition fceil (x : f64) : f64 :=
  match x with
  | S754_finite s m e =>
      if (0 <=? e)%Z then x
      else
        let q := Z.shiftr (Zpos m) (- e) in
        let exact := (Z.shiftl q (- e) =? Zpos m)%Z in
        if exact then x
        else if s then match q with Z0 => S754_zero true | _ => binary_normalize 53 1024 (- q) 0 true end
             else binary_normalize 53 1024 (q + 1) 0 false
  | _ => x
  end.

(** [as usize]: truncated, saturating, zero for a NaN. *)
Definition as_usize (x : f64) : N :=
  match x with
  | S754_finite false m e => N.min usize_max (Z.to_N (Z.shiftl (Zpos m) e))
  | S754_infinity false => usize_max
  | _ => 0
  end.

(** [to_bits]. *)
Definition f64_bits (x : f64) : N :=
  let sign (s : bool) : N := (if s then 2 ^ 63 else 0)%N in
  match x with
  | S754_zero s => sign s
  | S754_infinity s => (sign s + 0x7FF0000000000000)%N
  | S754_nan => 0x7FF8000000000000%N
  | S754_finite s m e =>
      if (Npos m <? 2 ^ 52)%N then (sign s + Npos m)%N
      else (sign s + (Z.to_N (e + 1075) * 2 ^ 52 + (Npos m - 2 ^ 52)))%N
  end.

(** [total_cmp] compares the bits as signed integers, negative numbers
    reversed. *)
Definition total_key (x : f64) : Z :=
  let b := f64_bits x in
  if (b <? 2 ^ 63)%N then Z.of_N b else (- (Z.of_N (b - 2 ^ 63)) - 1)%Z.
Definition total_le (x y : f64) : Prop := (total_key x ≤ total_key y)%Z.

#[export] Instance total_le_dec x y : Decision (total_le x y).
Proof. unfold total_le. apply _. Defined.
#[export] Instance total_le_total : Total total_le.
Proof. intros x y. unfold total_le. lia. Qed.
#[export] Instance total_le_trans : Transitive total_le.
Proof. intros x y z. unfold total_le. lia. Qed.

(** [sort_by(f64::total_cmp)] and [sort_unstable] on integers. *)
Definition sort_f64 (l : list f64) : list f64 := merge_sort total_le l.
Definition sort_N (l : list N) : list N := merge_sort N.le l.

(** A number of a JSON value is finite. *)
Definition json_f64 (x : f64) : json :=
  match x with
  | S754_nan | S754_infinity _ => JNull
  | _ => JNumber (Float (f64_bits x))
  end.

(** ** Lemmas *)

#[export] Instance N_le_total : Total N.le.
Proof. intros x y. lia. Qed.

Lemma sort_f64_perm l : sort_f64 l ≡ₚ l.
Proof. apply merge_sort_Permutation. Qed.
Lemma sort_f64_sorted l : StronglySorted total_le (sort_f64 l).
Proof. apply (StronglySorted_merge_sort _). Qed.
Lemma sort_N_perm l : sort_N l ≡ₚ l.
Proof. apply merge_sort_Permutation. Qed.
Lemma sort_N_sorted l : StronglySorted N.le (sort_N l).
Proof. apply (StronglySorted_merge_sort _). Qed.

(** Positions of a sorted list are in the order of their values. *)
Lemma sorted_lookup {A} (R : A → A → Prop) `{!Reflexive R} l i j x y :
  StronglySorted R l → (i ≤ j)%nat → l !! i = Some x → l !! j = Some y → R x y.
Proof.
  intros Hs. revert i j. induction Hs as [|a l Hs IH Ha]; intros i j Hij Hi Hj; [done|].
  destruct i as [|i], j as [|j]; simpl in *; try lia.
  - by simplify_eq.
  - injection Hi as <-. rewrite Forall_forall in Ha. by eapply Ha, list_elem_of_lookup_2.
  - eapply IH; [|done..]. lia.
Qed.
