(* ===== verification/BenchStats.v ===== *)
(** * What the benchmarks compute

    [crates/mutsuki-service-benchmarks/src/main.rs]: the statistics and the
    report.  Measured times are arguments. *)

From stdpp Require Import sorting.
From S2P Require Import Prelude Text BTreeMap Value Plugins Float64 ConfigTypes.

(** ** src/main.rs: percentiles and distributions *)

(** [None] is a panic: an empty slice has no element. *)
Definition percentile (values : list f64) (p : f64) : option f64 :=
  let n := len values in
  values !! N.to_nat (N.min (as_usize (fceil (fmul (f64_of_N n) p)) - 1) (n - 1)).

Definition distribution (values : list f64) (unit : text) : option json :=
  let sorted := sort_f64 values in
  median ← percentile sorted (literal 1 2);
  let deviations := sort_f64 ((λ value, fabs (fsub value median)) <$> sorted) in
  p95 ← percentile sorted (literal 95 100);
  p99 ← percentile sorted (literal 99 100);
  mad ← percentile deviations (literal 1 2);
  min ← sorted !! 0%nat;
  max ← last sorted;
  Some (jobj [(lit "median", json_f64 median); (lit "p95", json_f64 p95); (lit "p99", json_f64 p99);
              (lit "mad", json_f64 mad); (lit "min", json_f64 min); (lit "max", json_f64 max);
              (lit "unit", JString unit); (lit "sample_count", jnum (len sorted));
              (lit "samples", to_array json_f64 sorted)]).

(** ** The report *)

Record Sample : Type := mkSample {
  startup_ns : f64; health_ipc_ns : f64; echo_e2e_ns : f64; concurrent_wave_ns : f64;
  concurrent_wave_tasks : N; sustained_inflight_ns : f64; sustained_inflight_tasks : N;
  reload_ns : f64; shutdown_ns : f64;
}.

Record Args : Type := mkArgs { mode : text; warmup : N; samples : N; output : text }.

(** Programs that are run (whether they succeeded, and their output), hashing,
    and the machine. *)
Record machine : Type := mkMachine {
  run_command : text → list text → option (bool * text);
  sha256_hex : list byte → text;
  json_to_vec : json → list byte;
  macos : bool; os_name : text; arch_name : text; process_id : N; parallelism : option N;
}.

Section report.
Variable m : machine.

Definition canonical_hash (value : json) : text := sha256_hex m (json_to_vec m value).

Definition command_output (program : text) (args : list text) : text :=
  match run_command m program args with
  | Some (true, stdout) => trim stdout
  | _ => lit "unknown"
  end.

(** [str::lines]. *)
Definition strip_return (line : text) : text :=
  match reverse line with 13%N :: rest => reverse rest | _ => line end.
Definition lines (t : text) : list text :=
  let parts := split_on 10 t in
  strip_return <$> (match last parts with Some [] => take (List.length parts - 1) parts | _ => parts end).

Definition find_map {A B} (f : A → option B) (l : list A) : option B := head (omap f l).

Definition environment (args : Args) : json :=
  let target := default (lit "unknown")
                  (find_map (strip_prefix (lit "host: ")) (lines (command_output (lit "rustc") [lit "-vV"]))) in
  let cpu_model := if macos m then command_output (lit "sysctl") [lit "-n"; lit "machdep.cpu.brand_string"]
                   else command_output (lit "uname") [lit "-m"] in
  let ram_bytes := if macos m
                   then default 1%N (parse_unsigned u64_max (command_output (lit "sysctl") [lit "-n"; lit "hw.memsize"]))
                   else 1%N in
  jobj [(lit "cpu_model", JString (if is_empty cpu_model then lit "unknown" else cpu_model));
        (lit "cpu_topology", JString (lit "logical=" ++ show_N (default 1%N (parallelism m))));
        (lit "ram_bytes", jnum ram_bytes); (lit "os", JString (os_name m));
        (lit "kernel", JString (command_output (lit "uname") [lit "-sr"]));
        (lit "architecture", JString (arch_name m)); (lit "target_triple", JString target);
        (lit "toolchains", jobj [(lit "rustc", JString (command_output (lit "rustc") [lit "--version"]));
                                 (lit "cargo", JString (command_output (lit "cargo") [lit "--version"]))]);
        (lit "release_profile", jobj [(lit "name", JString (lit "release")); (lit "lto", JBool false);
                                      (lit "codegen_units", jnum 16)]);
        (lit "power_mode", JString (lit "local-unspecified"));
        (lit "virtualization", JString (lit "local-unspecified"));
        (lit "runner_configuration", jobj [(lit "mode", JString (mode args)); (lit "warmup", jnum (warmup args));
                                           (lit "samples", jnum (samples args));
                                           (lit "ipc", JString (lit "platform-default"))])].

(** The observations of each metric, in the order of the report. *)
Definition metrics_of (values : list Sample) : list (text * list f64) :=
  [(lit "startup", startup_ns <$> values); (lit "health-ipc", health_ipc_ns <$> values);
   (lit "echo-e2e", echo_e2e_ns <$> values); (lit "concurrent-wave", concurrent_wave_ns <$> values);
   (lit "sustained-inflight", sustained_inflight_ns <$> values); (lit "reload", reload_ns <$> values);
   (lit "shutdown", shutdown_ns <$> values)].

Definition nanos_per_second : f64 := f64_of_N 1000000000.

(** Tasks per second; a time that is not positive counts as none. *)
Definition throughput_of (tasks elapsed_ns : f64) : f64 :=
  if fleb elapsed_ns (f64_of_N 0) then f64_of_N 0 else fdiv (fmul tasks nanos_per_second) elapsed_ns.

Definition correctness (passed : bool) (counters : json) : json :=
  jobj [(lit "passed", JBool passed); (lit "counters", counters)].

Definition metric_case (failures : list text) (deployment : text) (values : list Sample)
    (metric : text * list f64) : option json :=
  let '(name, observations) := metric in
  latency ← distribution observations (lit "ns");
  metrics ←
    (if text_eqb name (lit "concurrent-wave") || text_eqb name (lit "sustained-inflight") then
       let tasks := f64_of_N (default 0%N
         ((if text_eqb name (lit "concurrent-wave") then concurrent_wave_tasks else sustained_inflight_tasks)
            <$> head values)) in
       throughput ← distribution (throughput_of tasks <$> observations) (lit "tasks/s");
       Some (jobj [(lit "latency_ns", latency); (lit "throughput_tasks_per_s", throughput);
                   (lit "tasks", json_f64 tasks)])
     else Some (jobj [(lit "latency_ns", latency)]));
  Some (jobj [(lit "case_id", JString (lit "service-host." ++ deployment ++ lit "." ++ name));
              (lit "measurement_mode", JString (lit "time"));
              (lit "dimensions", jobj [(lit "deployment", JString deployment); (lit "operation", JString name)]);
              (lit "metrics", metrics);
              (lit "correctness", correctness (bool_decide (failures = [])) (JObject []))]).

Definition process_cpu_case (failures : list text) (cpu_ns : f64) : option json :=
  cpu ← distribution [cpu_ns] (lit "ns");
  Some (jobj [(lit "case_id", JString (lit "service-host.process-cpu"));
              (lit "measurement_mode", JString (lit "system"));
              (lit "dimensions", jobj [(lit "scope", JString (lit "complete-suite"))]);
              (lit "metrics", jobj [(lit "cpu_time_ns", cpu)]);
              (lit "correctness", correctness (bool_decide (failures = [])) (JObject []))]).

(** The cases: seven per deployment, then the CPU time of the process. *)
Definition report_cases (all : btree (list Sample)) (failures : list text) (cpu_ns : f64)
    : option (list json) :=
  cases ← mapM (λ e, mapM (metric_case failures e.1 e.2) (metrics_of e.2)) all;
  cpu ← process_cpu_case failures cpu_ns;
  Some (mjoin cases ++ [cpu]).

Definition build_report (args : Args) (all : btree (list Sample)) (fixture_hashes : btree text)
    (failures : list text) (cpu_ns : f64) : option json :=
  let revision := command_output (lit "git") [lit "rev-parse"; lit "HEAD"] in
  let dirty := negb (is_empty (command_output (lit "git") [lit "status"; lit "--porcelain"])) in
  let revisions :=
    jobj [(lit "MutsukiServiceHost",
           jobj [(lit "revision", JString revision); (lit "dirty", JBool dirty);
                 (lit "remote", JString (lit "https://github.com/sena-nana/MutsukiServiceHost.git"))])] in
  let revision_lock_hash := canonical_hash revisions in
  let env := environment args in
  let environment_id := canonical_hash env in
  let passed := bool_decide (failures = []) in
  cases ← report_cases all failures cpu_ns;
  Some (jobj
    [(lit "schema_version", JString (lit "mutsuki.performance.report/v1"));
     (lit "suite_version", JString (lit "service-host-performance/v1"));
     (lit "workload_version", JString (lit "runner-fixtures/v1"));
     (lit "report_id", JString (lit "service-host-" ++ mode args ++ lit "-" ++ show_N (process_id m)));
     (lit "generated_at", JString (command_output (lit "date") [lit "-u"; lit "+%Y-%m-%dT%H:%M:%SZ"]));
     (lit "revision_lock_hash", JString revision_lock_hash); (lit "repository_revisions", revisions);
     (lit "environment_id", JString environment_id); (lit "environment", env);
     (lit "feature_set", to_array JString [lit "actual-ipc"; lit "builtin"; lit "abi"; lit "rust-process-jsonl";
                                           lit "lifecycle-reload"]);
     (lit "deployment", JString (lit "service-host-matrix"));
     (lit "measurement_boundary", JString (lit "ServiceRuntime start through authenticated IPC, Core task completion, reload and graceful shutdown"));
     (lit "sampling", jobj [(lit "warmup_iterations", jnum (warmup args));
                            (lit "samples_per_process", jnum (samples args)); (lit "process_runs", jnum 1)]);
     (lit "cases", JArray cases);
     (lit "correctness", correctness passed (jobj [(lit "failures", jnum (len failures))]));
     (lit "gates", JArray [jobj [(lit "gate_id", JString (lit "service-host.correctness")); (lit "passed", JBool passed);
                                 (lit "actual", jnum (len failures)); (lit "limit", jnum 0);
                                 (lit "unit", JString (lit "failures"))]]);
     (lit "metadata", jobj [(lit "fixture_output_hashes", JObject ((λ e, (e.1, JString e.2)) <$> fixture_hashes));
                            (lit "fixture_checks", jnum (len fixture_hashes)); (lit "case_count", jnum (len cases));
                            (lit "failures", to_array JString failures);
                            (lit "public_runner_gate", JString (lit "correctness-only"))])]).

End report.

(** ** Lemmas *)

Lemma sort_f64_nonempty l : l ≠ [] → sort_f64 l ≠ [].
Proof.
  intros Hne E. pose proof (sort_f64_perm l) as Hp. rewrite E in Hp. by apply Permutation_nil in Hp.
Qed.

Lemma percentile_some l p : l ≠ [] → ∃ x, percentile l p = Some x ∧ x ∈ l.
Proof.
  intros Hl%len_pos. unfold percentile.
  destruct (lookup_below l (N.min (as_usize (fceil (fmul (f64_of_N (len l)) p)) - 1) (len l - 1))) as [x Hx]; [lia|].
  exists x. split; [done|]. by eapply list_elem_of_lookup_2.
Qed.

(** The rank of the code and the exact rank [ceil (n * num / den)], for a sample
    of up to a thousand. *)
Definition rank (n : N) (p : f64) : N := N.min (as_usize (fceil (fmul (f64_of_N n) p)) - 1) (n - 1).
Definition exact_rank (n num den : N) : N := ((n * num + (den - 1)) / den - 1)%N.

Definition ranks_exact (n : N) : bool :=
  (rank n (literal 1 2) =? exact_rank n 1 2)%N && (rank n (literal 95 100) =? exact_rank n 95 100)%N
  && (rank n (literal 99 100) =? exact_rank n 99 100)%N.

Lemma ranks_exact_1000 : forallb (λ n, ranks_exact (N.of_nat n)) (seq 1 1000) = true.
Proof. vm_compute. reflexivity. Qed.

Lemma ranks_exact_le n : (1 <= n <= 1000)%N →
  rank n (literal 1 2) = exact_rank n 1 2 ∧ rank n (literal 95 100) = exact_rank n 95 100 ∧
  rank n (literal 99 100) = exact_rank n 99 100.
Proof.
  intros Hn. pose proof ranks_exact_1000 as Hall. rewrite forallb_forall in Hall.
  specialize (Hall (N.to_nat n)). rewrite N2Nat.id in Hall. unfold ranks_exact in Hall.
  rewrite !andb_true_iff, !N.eqb_eq in Hall. destruct Hall as [[H1 H2] H3]; [|done].
  apply in_seq. lia.
Qed.

Lemma exact_ranks_ordered n : (1 <= n)%N →
  (exact_rank n 1 2 <= exact_rank n 95 100 <= exact_rank n 99 100)%N ∧ (exact_rank n 99 100 <= n - 1)%N.
Proof.
  intros Hn. unfold exact_rank.
  pose proof (N.Div0.mul_div_le (n * 1 + (2 - 1)) 2). pose proof (N.Div0.mul_div_le (n * 95 + (100 - 1)) 100).
  pose proof (N.Div0.mul_div_le (n * 99 + (100 - 1)) 100).
  assert ((n * 1 + (2 - 1)) / 2 <= (n * 95 + (100 - 1)) / 100)%N by (apply N.div_le_lower_bound; lia).
  assert ((n * 95 + (100 - 1)) / 100 <= (n * 99 + (100 - 1)) / 100)%N by (apply N.div_le_lower_bound; lia).
  split; [split|]; lia.
Qed.

#[export] Instance total_le_refl : Reflexive total_le.
Proof. intros x. unfold total_le. lia. Qed.

(** What a distribution reports. *)
Record summary : Type := mkSummary {
  su_median : f64; su_p95 : f64; su_p99 : f64; su_mad : f64; su_min : f64; su_max : f64; su_sorted : list f64;
}.

Definition summary_value (s : summary) (unit : text) : json :=
  jobj [(lit "median", json_f64 (su_median s)); (lit "p95", json_f64 (su_p95 s)); (lit "p99", json_f64 (su_p99 s));
        (lit "mad", json_f64 (su_mad s)); (lit "min", json_f64 (su_min s)); (lit "max", json_f64 (su_max s));
        (lit "unit", JString unit); (lit "sample_count", jnum (len (su_sorted s)));
        (lit "samples", to_array json_f64 (su_sorted s))].

(** ** Properties of the distributions *)

(** Comparing two floating-point terms must not compute them. *)
#[local] Opaque literal fmul fdiv fsub fceil fabs f64_of_N.

Lemma distribution_figures values unit :
  (distribution values unit = None ↔ values = []) ∧
  (values ≠ [] → ∃ s, distribution values unit = Some (summary_value s unit) ∧
     su_sorted s ≡ₚ values ∧ StronglySorted total_le (su_sorted s) ∧
     (∀ x, x ∈ values → total_le (su_min s) x ∧ total_le x (su_max s)) ∧
     (su_median s ∈ values ∧ su_p95 s ∈ values ∧ su_p99 s ∈ values ∧ su_min s ∈ values ∧ su_max s ∈ values) ∧
     ((len values <= 1000)%N →
        su_sorted s !! N.to_nat (exact_rank (len values) 1 2) = Some (su_median s) ∧
        su_sorted s !! N.to_nat (exact_rank (len values) 95 100) = Some (su_p95 s) ∧
        su_sorted s !! N.to_nat (exact_rank (len values) 99 100) = Some (su_p99 s) ∧
        total_le (su_median s) (su_p95 s) ∧ total_le (su_p95 s) (su_p99 s))).
Proof.
  assert (Hmain : values ≠ [] → ∃ s, distribution values unit = Some (summary_value s unit) ∧
    su_sorted s = sort_f64 values ∧ percentile (sort_f64 values) (literal 1 2) = Some (su_median s) ∧
    percentile (sort_f64 values) (literal 95 100) = Some (su_p95 s) ∧
    percentile (sort_f64 values) (literal 99 100) = Some (su_p99 s) ∧
    sort_f64 values !! 0%nat = Some (su_min s) ∧ last (sort_f64 values) = Some (su_max s)).
  { intros Hne. assert (Hs : sort_f64 values ≠ []).
    { intros E. pose proof (sort_f64_perm values) as Hp. rewrite E in Hp. by apply Permutation_nil in Hp. }
    destruct (percentile_some (sort_f64 values) (literal 1 2) Hs) as (md & Hmd & _).
    destruct (percentile_some (sort_f64 values) (literal 95 100) Hs) as (p95 & H95 & _).
    destruct (percentile_some (sort_f64 values) (literal 99 100) Hs) as (p99 & H99 & _).
    assert (Hd : sort_f64 ((λ value, fabs (fsub value md)) <$> sort_f64 values) ≠ []).
    { intros E. pose proof (sort_f64_perm ((λ value, fabs (fsub value md)) <$> sort_f64 values)) as Hp.
      rewrite E in Hp. apply Permutation_nil in Hp. by apply fmap_nil_inv in Hp. }
    destruct (percentile_some _ (literal 1 2) Hd) as (mad & Hmad & _).
    destruct (sort_f64 values) as [|lo rest] eqn:E; [done|].
    destruct (last (lo :: rest)) as [hi|] eqn:Eh; [|by apply last_None in Eh].
    exists (mkSummary md p95 p99 mad lo hi (lo :: rest)). split_and!; try done.
    unfold distribution. rewrite E, Hmd. cbn [mbind option_bind]. by rewrite H95, H99, Hmad, Eh. }
  split.
  { split; [|by intros ->]. intros Hn. destruct values as [|x values]; [done|].
    destruct Hmain as (s & Hs & _); [done|congruence]. }
  intros Hne. destruct (Hmain Hne) as (s & Hs & Hso & Hmd & H95 & H99 & Hlo & Hhi). exists s. rewrite Hso.
  pose proof (sort_f64_perm values) as Hp. pose proof (sort_f64_sorted values) as Hst.
  assert (Hlen : len (sort_f64 values) = len values) by (unfold len; by rewrite Hp).
  split; [exact Hs|]. do 2 (split; [done|]). split; [|split].
  - intros x Hx. rewrite <-Hp in Hx. apply list_elem_of_lookup in Hx as [i Hi].
    rewrite last_lookup in Hhi. pose proof (lookup_lt_Some _ _ _ Hi). split.
    + apply (sorted_lookup total_le _ 0 i _ _ Hst); [lia|done|done].
    + apply (sorted_lookup total_le _ i (pred (length (sort_f64 values))) _ _ Hst); [lia|done|done].
  - rewrite <-Hp. unfold percentile in *. rewrite last_lookup in Hhi.
    split_and!; by eapply list_elem_of_lookup_2.
  - intros Hle. pose proof (len_pos _ Hne) as Hpos.
    destruct (ranks_exact_le (len values)) as (R1 & R2 & R3); [lia|].
    destruct (exact_ranks_ordered (len values)) as [[O1 O2] _]; [lia|].
    unfold percentile in Hmd, H95, H99. rewrite Hlen in Hmd, H95, H99.
    unfold rank in R1, R2, R3. rewrite R1 in Hmd. rewrite R2 in H95. rewrite R3 in H99.
    split_and!; try done; (eapply (sorted_lookup total_le); [exact Hst| |eassumption..]; lia).
Qed.

(** A distribution of some observations, by position in their order. *)
Lemma distribution_run values unit : values ≠ [] → ∃ s, distribution values unit = Some (summary_value s unit) ∧
  su_sorted s = sort_f64 values ∧ percentile (sort_f64 values) (literal 1 2) = Some (su_median s) ∧
  percentile (sort_f64 values) (literal 95 100) = Some (su_p95 s) ∧
  percentile (sort_f64 values) (literal 99 100) = Some (su_p99 s) ∧
  sort_f64 values !! 0%nat = Some (su_min s) ∧ last (sort_f64 values) = Some (su_max s).
Proof.
  intros Hne. pose proof (sort_f64_nonempty values Hne) as Hs.
  destruct (percentile_some (sort_f64 values) (literal 1 2) Hs) as (md & Hmd & _).
  destruct (percentile_some (sort_f64 values) (literal 95 100) Hs) as (p95 & H95 & _).
  destruct (percentile_some (sort_f64 values) (literal 99 100) Hs) as (p99 & H99 & _).
  destruct (percentile_some (sort_f64 ((λ value, fabs (fsub value md)) <$> sort_f64 values)) (literal 1 2))
    as (mad & Hmad & _).
  { apply sort_f64_nonempty. by intros E%fmap_nil_inv. }
  destruct (sort_f64 values) as [|lo rest] eqn:E; [done|].
  destruct (last (lo :: rest)) as [hi|] eqn:Eh; [|by apply last_None in Eh].
  exists (mkSummary md p95 p99 mad lo hi (lo :: rest)). split_and!; try done.
  unfold distribution. rewrite E, Hmd. cbn [mbind option_bind]. by rewrite H95, H99, Hmad, Eh.
Qed.

Lemma distribution_none values unit : distribution values unit = None ↔ values = [].
Proof.
  split; [|by intros ->]. intros Hn. destruct values as [|x values]; [done|].
  destruct (distribution_run (x :: values) unit) as (s & Hs & _); [done|congruence].
Qed.

Theorem distribution_sound values unit :
  (distribution values unit = None ↔ values = []) ∧
  (values ≠ [] → ∃ s, distribution values unit = Some (summary_value s unit) ∧
     su_sorted s ≡ₚ values ∧ StronglySorted total_le (su_sorted s) ∧
     (∀ x, x ∈ values → total_le (su_min s) x ∧ total_le x (su_max s)) ∧
     (su_median s ∈ values ∧ su_p95 s ∈ values ∧ su_p99 s ∈ values ∧ su_min s ∈ values ∧ su_max s ∈ values) ∧
     ((len values <= 1000)%N →
        su_sorted s !! N.to_nat (exact_rank (len values) 1 2) = Some (su_median s) ∧
        su_sorted s !! N.to_nat (exact_rank (len values) 95 100) = Some (su_p95 s) ∧
        su_sorted s !! N.to_nat (exact_rank (len values) 99 100) = Some (su_p99 s) ∧
        total_le (su_median s) (su_p95 s) ∧ total_le (su_p95 s) (su_p99 s))).
Proof.
  split; [apply distribution_none|].
  intros Hne. destruct (distribution_run values unit Hne) as (s & Hs & Hso & Hmd & H95 & H99 & Hlo & Hhi). exists s. rewrite Hso.
  pose proof (sort_f64_perm values) as Hp. pose proof (sort_f64_sorted values) as Hst.
  assert (Hlen : len (sort_f64 values) = len values) by (unfold len; by rewrite Hp).
  split; [exact Hs|]. do 2 (split; [done|]). split; [|split].
  - intros x Hx. rewrite <-Hp in Hx. apply list_elem_of_lookup in Hx as [i Hi].
    rewrite last_lookup in Hhi. pose proof (lookup_lt_Some _ _ _ Hi). split.
    + apply (sorted_lookup total_le _ 0 i _ _ Hst); [lia|done|done].
    + apply (sorted_lookup total_le _ i (pred (length (sort_f64 values))) _ _ Hst); [lia|done|done].
  - rewrite <-Hp. unfold percentile in *. rewrite last_lookup in Hhi.
    split_and!; by eapply list_elem_of_lookup_2.
  - intros Hle. pose proof (len_pos _ Hne) as Hpos.
    destruct (ranks_exact_le (len values)) as (R1 & R2 & R3); [lia|].
    destruct (exact_ranks_ordered (len values)) as [[O1 O2] _]; [lia|].
    unfold percentile in Hmd, H95, H99. rewrite Hlen in Hmd, H95, H99.
    unfold rank in R1, R2, R3. rewrite R1 in Hmd. rewrite R2 in H95. rewrite R3 in H99.
    split_and!; try done; (eapply (sorted_lookup total_le); [exact Hst| |eassumption..]; lia).
Qed.

Lemma distribution_sound_witness :
  ∃ s, distribution [f64_of_N 9; literal 1 2; f64_of_N 3] (lit "ns") = Some (summary_value s (lit "ns")) ∧
       total_le (su_median s) (su_p95 s).
Proof.
  destruct (distribution_sound [f64_of_N 9; literal 1 2; f64_of_N 3] (lit "ns")) as [_ H].
  destruct H as (s & Hs & _ & _ & _ & _ & Hr); [discriminate|].
  destruct Hr as (_ & _ & _ & Hle & _); [vm_compute; discriminate|]. exists s. split; [exact Hs|exact Hle].
Defined.

(** ** Properties of the report *)

Definition case_field (k : text) (c : json) : option json :=
  match c with JObject m => bget m k | _ => None end.

Definition metric_names : list text :=
  [lit "startup"; lit "health-ipc"; lit "echo-e2e"; lit "concurrent-wave"; lit "sustained-inflight";
   lit "reload"; lit "shutdown"].

Lemma metrics_of_names values : (metrics_of values).*1 = metric_names.
Proof. reflexivity. Qed.

(** The identity of a case and whether it counts as correct. *)
Definition case_summary (c : json) : option json * option json :=
  (case_field (lit "case_id") c, case_field (lit "correctness") c).
Definition correct_value (failures : list text) : json :=
  jobj [(lit "passed", JBool (bool_decide (failures = []))); (lit "counters", JObject [])].

Lemma metric_case_nil failures d values name : metric_case failures d values (name, []) = None.
Proof. reflexivity. Qed.

Lemma metric_case_some failures d values name obs : obs ≠ [] →
  ∃ c, metric_case failures d values (name, obs) = Some c ∧
       case_summary c = (Some (JString (lit "service-host." ++ d ++ lit "." ++ name)), Some (correct_value failures)).
Proof.
  intros Hne. unfold metric_case.
  destruct (distribution obs (lit "ns")) as [latency|] eqn:El; [|by apply distribution_none in El].
  cbn [mbind option_bind]. destruct (text_eqb name (lit "concurrent-wave") || text_eqb name (lit "sustained-inflight")).
  - match goal with |- context [distribution (?f <$> obs) ?u] => destruct (distribution (f <$> obs) u) as [th|] eqn:Et end;
      [|by apply distribution_none, fmap_nil_inv in Et].
    cbn [mbind option_bind]. eexists. split; [reflexivity|reflexivity].
  - cbn [mbind option_bind]. eexists. split; [reflexivity|reflexivity].
Qed.

Lemma metric_case_none failures d values metric : metric_case failures d values metric = None ↔ metric.2 = [].
Proof.
  destruct metric as [name obs]. split; [|by simpl; intros ->].
  intros Hn. destruct obs as [|x obs]; [done|].
  by destruct (metric_case_some failures d values name (x :: obs)) as (c & Hc & _); [|rewrite Hc in Hn].
Qed.

Lemma deployment_cases_none failures d values :
  mapM (metric_case failures d values) (metrics_of values) = None ↔ values = [].
Proof.
  rewrite mapM_None, Exists_exists. split.
  - intros (metric & Hin & Hnone%metric_case_none). destruct values as [|v values]; [done|].
    unfold metrics_of in Hin. rewrite !elem_of_cons, elem_of_nil in Hin.
    by destruct_or?; simplify_eq.
  - intros ->. eexists. split; [apply elem_of_cons; by left|reflexivity].
Qed.

Definition case_values (failures : list text) (d : text) : list (option json * option json) :=
  (λ name, (Some (JString (lit "service-host." ++ d ++ lit "." ++ name)), Some (correct_value failures)))
    <$> metric_names.

Lemma deployment_cases_values failures d values cases :
  mapM (metric_case failures d values) (metrics_of values) = Some cases →
  case_summary <$> cases = case_values failures d.
Proof.
  unfold case_values. rewrite <-(metrics_of_names values), mapM_Some. generalize (metrics_of values) as ms.
  intros ms. induction 1 as [|[name obs] c ms cs Hc _ IH]; [done|]. rewrite !fmap_cons, IH. f_equal.
  destruct (decide (obs = [])) as [->|Hne]; [done|].
  destruct (metric_case_some failures d values name obs Hne) as (c' & Hc' & Hs). by simplify_eq.
Qed.

Lemma report_cases_none all failures cpu_ns : report_cases all failures cpu_ns = None ↔ ∃ d, (d, []) ∈ all.
Proof.
  unfold report_cases, process_cpu_case.
  destruct (distribution [cpu_ns] (lit "ns")) as [cpu|] eqn:Ec; [|by apply distribution_none in Ec].
  cbn [mbind option_bind]. transitivity (mapM (λ e : text * list Sample, mapM (metric_case failures e.1 e.2) (metrics_of e.2)) all = None).
  { by destruct (mapM _ all). }
  rewrite mapM_None, Exists_exists. split.
  - intros ([d values] & Hin & Hn). apply deployment_cases_none in Hn. simpl in Hn. subst. by exists d.
  - intros [d Hd]. exists (d, []). split; [done|]. by apply deployment_cases_none.
Qed.

(** A report is complete and says whether the run was correct: it can be made
    exactly if every deployment has a sample, and then holds, for every
    deployment in order, one case for each of the seven metrics, and at the end
    the case of the CPU time; each case counts as passed exactly if no
    deployment reported a failure. *)
Theorem report_complete all failures cpu_ns :
  (report_cases all failures cpu_ns = None ↔ ∃ d, (d, []) ∈ all) ∧
  ∀ cases, report_cases all failures cpu_ns = Some cases →
    case_summary <$> cases = (all ≫= λ e, case_values failures e.1)
      ++ [(Some (JString (lit "service-host.process-cpu")), Some (correct_value failures))] ∧
    len cases = (7 * len all + 1)%N.
Proof.
  split; [apply report_cases_none|]. unfold report_cases, process_cpu_case. intros cases Hcases.
  destruct (mapM (λ e : text * list Sample, mapM (metric_case failures e.1 e.2) (metrics_of e.2)) all)
    as [cs|] eqn:E; cbn [mbind option_bind] in Hcases; [|done].
  destruct (distribution [cpu_ns] (lit "ns")) as [cpu|] eqn:Ec; [|by apply distribution_none in Ec].
  cbn [mbind option_bind] in Hcases. injection Hcases as <-. apply mapM_Some in E.
  assert (Hs : case_summary <$> mjoin cs = all ≫= λ e, case_values failures e.1).
  { induction E as [|[d values] c all cs Hc _ IH]; [done|]. change (mjoin (c :: cs)) with (c ++ mjoin cs).
    rewrite fmap_app, IH. rewrite bind_cons. f_equal. by eapply deployment_cases_values. }
  rewrite fmap_app, Hs. split; [reflexivity|].
  clear E. assert (Hm : length (mjoin cs) = (7 * length all)%nat).
  { apply (f_equal length) in Hs. rewrite length_fmap in Hs. rewrite Hs. clear. induction all as [|e all IH]; [done|].
    rewrite bind_cons, length_app, IH. change (length (case_values failures e.1)) with 7%nat. simpl. lia. }
  unfold len. rewrite length_app, Hm. simpl. lia.
Qed.

Definition sample_run : Sample :=
  mkSample (f64_of_N 5) (f64_of_N 7) (f64_of_N 9) (f64_of_N 2000) 256 (f64_of_N 4000) 512 (f64_of_N 3) (f64_of_N 4).

Lemma report_complete_witness :
  ∃ cases, report_cases [(lit "abi", [sample_run]); (lit "builtin", [sample_run])] [] (f64_of_N 77) = Some cases ∧
           len cases = 15%N.
Proof.
  destruct (report_complete [(lit "abi", [sample_run]); (lit "builtin", [sample_run])] [] (f64_of_N 77)) as [Hnone H].
  destruct (report_cases [(lit "abi", [sample_run]); (lit "builtin", [sample_run])] [] (f64_of_N 77)) as [cases|] eqn:E.
  - destruct (H cases eq_refl) as [_ Hlen]. exists cases. split; [reflexivity|exact Hlen].
  - destruct (proj1 Hnone eq_refl) as [d Hd]. rewrite !elem_of_cons, elem_of_nil in Hd.
    destruct Hd as [Hd|[Hd|[]]]; discriminate Hd.
Defined.
