(* ===== verification/DriverBench.v ===== *)
(** * The driver benchmark

    [crates/mutsuki-service-runtime/examples/core_driver_benchmark.rs]: the CPU
    time of an idle Core runtime and the time from a submission to the completion
    of its task, once with a runtime that is polled every ten milliseconds and
    once with one that is driven by events.  The runtime and the clocks answer as
    functions of a state of their own. *)

From S2P Require Import Prelude Text BTreeMap Value Float64.
From S2P Require BenchStats.

(** ** The Core runtime and the machine *)

Class DriverContracts : Type := {
  RunnerPurity : Type; Pure : RunnerPurity;
  ExecutionClass : Type; Cpu : ExecutionClass;
  InvocationMode : Type; SyncExclusive : InvocationMode;
  RunnerConcurrency : Type; Exclusive : RunnerConcurrency;
  RunnerBatchCapability : Type; batch_default : RunnerBatchCapability;
  RunnerPayloadCapability : Type; payload_default : RunnerPayloadCapability;
  RunnerResourceCapability : Type; resources_default : RunnerResourceCapability;
  RunnerOrderingCapability : Type; ordering_default : RunnerOrderingCapability;
  RunnerControlCapability : Type; control_default : RunnerControlCapability;
  RuntimeProfileMode : Type; FullDev : RuntimeProfileMode;
  ObservabilityProfile : Type; observability_default : ObservabilityProfile;
  Binding : Type; PluginDeployment : Type;
  (* [HostRuntimeConfig] with its defaults but for [event_driven] and
     [tick_interval], in milliseconds *)
  HostRuntimeConfig : Type; host_config : bool → N → HostRuntimeConfig;
  Task : Type; task_new : text → text → json → Task; task_id : Task → text;
  RunnerResult : Type; result_completed : text → RunnerResult;
  TaskStatus : Type; is_completed : TaskStatus → bool;
}.

Section contracts.
Context `{DriverContracts}.

Record RunnerDescriptor : Type := mkDescriptor {
  runner_id : text; plugin_id : text; plugin_generation : N; accepted_protocol_ids : list text;
  purity : RunnerPurity; execution_class : ExecutionClass; invocation_mode : InvocationMode;
  concurrency : RunnerConcurrency; input_schema : json; output_schema : json;
  batch : RunnerBatchCapability; payload : RunnerPayloadCapability; resources : RunnerResourceCapability;
  ordering : RunnerOrderingCapability; control : RunnerControlCapability;
  metadata : btree text; contract_surfaces : list text;
}.

Record RuntimeProfile : Type := mkProfile {
  profile_id : text; profile_mode : RuntimeProfileMode; enabled_plugins : list text;
  bindings : btree Binding; plugin_deployments : btree PluginDeployment;
  observability : ObservabilityProfile; allow_dynamic_registration : bool; allow_hot_reload : bool;
}.

Inductive HostRuntimeCommand : Type := TickOnce | SubmitTask (task : Task).

Record DriveState : Type := mkDrive { current_step : N; timed_wakeups : N }.

End contracts.

(** Times are nanoseconds on their clock. *)
Class DriverHost `{DriverContracts} (St : Type) : Type := {
  PluginManifest : Type; runner_manifest : text → list RunnerDescriptor → PluginManifest;
  Runner : Type; native_runner : RunnerDescriptor → (Task → RunnerResult) → Runner;
  RuntimeBootstrapper : Type;
  bootstrapper_new : RuntimeBootstrapper;
  register_manifest : PluginManifest → RuntimeBootstrapper → RuntimeBootstrapper;
  register_runner : Runner → RuntimeBootstrapper → RuntimeBootstrapper;
  HostRuntime : Type;
  into_host_runtime : RuntimeBootstrapper → RuntimeProfile → HostRuntimeConfig → St →
    result HostRuntime text * St;
  drive_state : HostRuntime → St → result DriveState text * St;
  dispatch : HostRuntime → HostRuntimeCommand → St → result unit text * St;
  task_status : HostRuntime → text → St → option TaskStatus * St;
  drop_runtime : HostRuntime → St → St;
  wall_clock : St → N * St;
  cpu_clock : St → N * St;
  sleep : N → St → St;
  yield_now : St → St;
}.

(** ** Programs that may panic *)

Inductive ending (A : Type) : Type := Value (a : A) | Panicked (why : text) | OutOfFuel.
Arguments Value {A} a.
Arguments Panicked {A} why.
Arguments OutOfFuel {A}.

Definition prog (St A : Type) : Type := St → ending A * St.

#[export] Instance prog_ret {St} : MRet (prog St) := λ A a st, (Value a, st).
#[export] Instance prog_bind {St} : MBind (prog St) := λ A B f m st,
  match m st with
  | (Value a, st) => f a st
  | (Panicked why, st) => (Panicked why, st)
  | (OutOfFuel, st) => (OutOfFuel, st)
  end.

Section prog.
Context {St : Type}.
Definition panic {A} (why : text) : prog St A := λ st, (Panicked why, st).
Definition out_of_fuel {A} : prog St A := λ st, (OutOfFuel, st).
Definition ask {A} (m : St → A * St) : prog St A := λ st, let '(a, st) := m st in (Value a, st).
Definition tell (m : St → St) : prog St unit := λ st, (Value tt, m st).
(** [expect]: the message without what the error prints. *)
Definition expect {A} (why : text) (m : St → result A text * St) : prog St A := λ st,
  let '(r, st) := m st in match r with Ok a => (Value a, st) | Err _ => (Panicked why, st) end.
End prog.

(** ** Durations *)

(** [Duration::as_secs_f64] of a number of nanoseconds. *)
Definition as_secs_f64 (ns : N) : f64 :=
  fadd (f64_of_N (ns / 10 ^ 9)) (fdiv (f64_of_N (ns mod 10 ^ 9)) (f64_of_N (10 ^ 9))).
Definition from_millis (ms : N) : N := (ms * 10 ^ 6)%N.

(** ** The benchmark *)

Definition PLUGIN_ID : text := lit "bench.event-driver".
Definition RUNNER_ID : text := lit "bench.event-driver.runner".
Definition PROTOCOL_ID : text := lit "bench.event-driver.work".

(** Values of type [usize] for the index of the 95th percentile. *)
Definition p95_index (n : N) : N :=
  N.min (as_usize (fceil (fmul (f64_of_N n) (literal 95 100))) - 1) (n - 1).

(** The figures of the measured times, in microseconds; [None] is a panic: there
    are none.  The sum of times does not depend on the sign of the zero it
    starts from. *)
Definition latency_report (samples : N) (measured : list f64) : option json :=
  let micros := sort_f64 measured in
  let sum := foldl fadd (f64_of_N 0) micros in
  p95 ← micros !! N.to_nat (p95_index (len micros));
  max ← last micros;
  Some (jobj [(lit "samples", jnum samples);
              (lit "average_us", json_f64 (fdiv sum (f64_of_N (len micros))));
              (lit "p95_us", json_f64 p95); (lit "max_us", json_f64 max)]).

Definition show_bool (b : bool) : text := if b then lit "true" else lit "false".
Definition latency_task_id (event_driven : bool) (index : N) : text :=
  lit "latency-" ++ show_bool event_driven ++ lit "-" ++ show_N index.

Section bench.
Context `{DriverHost St}.

Definition descriptor : RunnerDescriptor :=
  mkDescriptor RUNNER_ID PLUGIN_ID 1 [PROTOCOL_ID] Pure Cpu SyncExclusive Exclusive (JObject []) (JObject [])
    batch_default payload_default resources_default ordering_default control_default []
    [lit "runner:" ++ RUNNER_ID].

Definition profile : RuntimeProfile :=
  mkProfile (lit "bench") FullDev [PLUGIN_ID] [] [] observability_default false false.

Definition runtime (event_driven : bool) : prog St HostRuntime :=
  let runner := descriptor in
  let bootstrapper := register_manifest (runner_manifest PLUGIN_ID [runner]) bootstrapper_new in
  let bootstrapper :=
    register_runner (native_runner runner (λ task, result_completed (task_id task))) bootstrapper in
  expect (lit "benchmark runtime") (into_host_runtime bootstrapper profile (host_config event_driven 10)).

(** [Instant::elapsed]. *)
Definition elapsed (started : N) : prog St N := now ← ask wall_clock; mret (now - started)%N.

Fixpoint tick_for (fuel : nat) (rt : HostRuntime) (started duration : N) : prog St unit :=
  match fuel with
  | O => out_of_fuel
  | S fuel =>
      spent ← elapsed started;
      if (spent <? duration)%N then
        _ ← expect (lit "legacy fixed poll tick") (dispatch rt TickOnce);
        tick_for fuel rt started duration
      else mret tt
  end.

Definition idle_sample (fuel : nat) (event_driven : bool) (duration : N) : prog St json :=
  rt ← runtime event_driven;
  before ← expect (lit "driver state") (drive_state rt);
  wall_started ← ask wall_clock;
  cpu_started ← ask cpu_clock;
  _ ← (if event_driven then tell (sleep duration) else tick_for fuel rt wall_started duration);
  cpu_now ← ask cpu_clock;
  wall ← elapsed wall_started;
  after ← expect (lit "driver state") (drive_state rt);
  _ ← tell (drop_runtime rt);
  mret (jobj [(lit "wall_ms", json_f64 (fmul (as_secs_f64 wall) (f64_of_N 1000)));
              (lit "process_cpu_ms", json_f64 (fmul (as_secs_f64 (cpu_now - cpu_started)) (f64_of_N 1000)));
              (lit "logical_ticks", jnum (current_step after - current_step before));
              (lit "timed_wakeups", jnum (timed_wakeups after - timed_wakeups before))]).

(** [while started.elapsed() < 1s]. *)
Fixpoint wait_until_completed (fuel : nat) (rt : HostRuntime) (id : text) (started : N) : prog St unit :=
  match fuel with
  | O => out_of_fuel
  | S fuel =>
      spent ← elapsed started;
      if (spent <? 10 ^ 9)%N then
        status ← ask (task_status rt id);
        if match status with Some status => is_completed status | None => false end then mret tt
        else _ ← tell yield_now; wait_until_completed fuel rt id started
      else panic (lit "task " ++ id ++ lit " did not complete")
  end.

Definition wait_completed (fuel : nat) (rt : HostRuntime) (id : text) : prog St unit :=
  started ← ask wall_clock;
  wait_until_completed fuel rt id started.

Definition latency_sample (fuel : nat) (event_driven : bool) (rt : HostRuntime) (index : N) : prog St f64 :=
  let id := latency_task_id event_driven index in
  started ← ask wall_clock;
  _ ← expect (lit "submit benchmark task") (dispatch rt (SubmitTask (task_new id PROTOCOL_ID (JObject []))));
  _ ← (if event_driven then mret tt
       else _ ← tell (sleep (from_millis 10));
            expect (lit "legacy fixed poll tick") (dispatch rt TickOnce));
  _ ← wait_completed fuel rt id;
  spent ← elapsed started;
  mret (fmul (as_secs_f64 spent) (f64_of_N 1000000)).

Fixpoint measure (fuel : nat) (event_driven : bool) (rt : HostRuntime) (indices : list nat) : prog St (list f64) :=
  match indices with
  | [] => mret []
  | index :: indices =>
      spent ← latency_sample fuel event_driven rt (N.of_nat index);
      rest ← measure fuel event_driven rt indices;
      mret (spent :: rest)
  end.

(** [Vec::with_capacity] takes no more than [isize::MAX] bytes. *)
Definition latency_samples (fuel : nat) (event_driven : bool) (samples : N) : prog St json :=
  rt ← runtime event_driven;
  if (2 ^ 63 <=? samples * 8)%N then panic (lit "capacity overflow")
  else
    measured ← measure fuel event_driven rt (seq 0 (N.to_nat samples));
    match latency_report samples measured with
    | None => panic (lit "index out of bounds")
    | Some report => _ ← tell (drop_runtime rt); mret report
    end.

(** [main]: the environment variables with a valid value, the platform, and
    the report that is printed. *)
Definition idle_ms_of (env : text → option text) : N :=
  default 2000%N (env (lit "MUTSUKI_BENCH_IDLE_MS") ≫= parse_unsigned u64_max).
Definition samples_of (env : text → option text) : N :=
  N.max (default 30%N (env (lit "MUTSUKI_BENCH_SAMPLES") ≫= parse_unsigned usize_max)) 1.

Definition driver_report (os arch : text) (idle_ms samples : N) (idle latency : json * json) : json :=
  jobj [(lit "schema", JString (lit "mutsuki.service-host.issue12.driver-benchmark.v1"));
        (lit "platform", jobj [(lit "os", JString os); (lit "arch", JString arch)]);
        (lit "configuration",
         jobj [(lit "legacy_poll_interval_ms", jnum 10); (lit "idle_duration_ms", jnum idle_ms);
               (lit "latency_samples", jnum samples);
               (lit "legacy_latency_phase", JString (lit "submit immediately after a poll; wait for next 10ms tick"))]);
        (lit "idle", jobj [(lit "fixed_poll", idle.1); (lit "event_driven", idle.2)]);
        (lit "submit_to_completed_latency",
         jobj [(lit "fixed_poll", latency.1); (lit "event_driven", latency.2)])].

Definition main (fuel : nat) (env : text → option text) (os arch : text) : prog St json :=
  let idle_ms := idle_ms_of env in
  let samples := samples_of env in
  idle_poll ← idle_sample fuel false (from_millis idle_ms);
  idle_event ← idle_sample fuel true (from_millis idle_ms);
  latency_poll ← latency_samples fuel false samples;
  latency_event ← latency_samples fuel true samples;
  mret (driver_report os arch idle_ms samples (idle_poll, idle_event) (latency_poll, latency_event)).

End bench.

(** ** Lemmas *)

Lemma p95_index_exact n : (1 <= n <= 1000)%N → p95_index n = BenchStats.exact_rank n 95 100.
Proof. intros Hn. by destruct (BenchStats.ranks_exact_le n Hn) as (_ & Hr & _). Qed.

#[local] Existing Instance BenchStats.total_le_refl.

(** Comparing two floating-point terms must not compute them. *)
#[local] Opaque literal fmul fdiv fadd fceil f64_of_N as_secs_f64.

(** A reading of the clock takes time, and nothing turns the clock back. *)
Record advancing `{DriverHost St} (clock : St → N) : Prop := {
  adv_wall st : (wall_clock st).1 = clock st ∧ (clock st < clock (wall_clock st).2)%N;
  adv_boot b p c st : (clock st <= clock (into_host_runtime b p c st).2)%N;
  adv_drive rt st : (clock st <= clock (drive_state rt st).2)%N;
  adv_dispatch rt c st : (clock st <= clock (dispatch rt c st).2)%N;
  adv_status rt id st : (clock st <= clock (task_status rt id st).2)%N;
  adv_drop rt st : (clock st <= clock (drop_runtime rt st))%N;
  adv_cpu st : (clock st <= clock (cpu_clock st).2)%N;
  adv_sleep n st : (clock st <= clock (sleep n st))%N;
  adv_yield st : (clock st <= clock (yield_now st))%N;
}.

(** What the report says about [n] measured times. *)
Definition figures (n : N) (v : json) : Prop :=
  ∃ measured p95 max, len measured = n ∧ p95 ∈ measured ∧ max ∈ measured ∧ total_le p95 max ∧
    (∀ x, x ∈ measured → total_le x max) ∧
    ((n <= 1000)%N → sort_f64 measured !! N.to_nat (BenchStats.exact_rank n 95 100) = Some p95) ∧
    v = jobj [(lit "samples", jnum n);
              (lit "average_us", json_f64 (fdiv (foldl fadd (f64_of_N 0) (sort_f64 measured)) (f64_of_N n)));
              (lit "p95_us", json_f64 p95); (lit "max_us", json_f64 max)].

Lemma latency_report_figures measured : measured ≠ [] →
  ∃ v, latency_report (len measured) measured = Some v ∧ figures (len measured) v.
Proof.
  intros Hne. pose proof (sort_f64_perm measured) as Hp. pose proof (sort_f64_sorted measured) as Hst.
  assert (Hlen : len (sort_f64 measured) = len measured) by (unfold len; by rewrite Hp).
  pose proof (len_pos _ Hne) as Hpos.
  destruct (lookup_below (sort_f64 measured) (p95_index (len measured))) as [p95 H95];
    [rewrite Hlen; unfold p95_index; lia|].
  destruct (last (sort_f64 measured)) as [max|] eqn:Hmax.
  2: { apply last_None in Hmax. rewrite Hmax in Hlen. unfold len in *. simpl in Hlen. lia. }
  assert (Hall : ∀ x, x ∈ measured → total_le x max).
  { intros x Hx. rewrite <-Hp in Hx. apply list_elem_of_lookup in Hx as [i Hi]. rewrite last_lookup in Hmax.
    pose proof (lookup_lt_Some _ _ _ Hi).
    eapply (sorted_lookup total_le _ i (pred (length (sort_f64 measured))) _ _ Hst); [lia|done..]. }
  assert (Hin : p95 ∈ measured) by (rewrite <-Hp; by eapply list_elem_of_lookup_2).
  unfold latency_report. cbv zeta. rewrite Hlen, H95, Hmax. cbn [mbind option_bind].
  eexists. split; [done|]. exists measured, p95, max. split_and!; auto.
  - rewrite <-Hp. rewrite last_lookup in Hmax. by eapply list_elem_of_lookup_2.
  - intros Hle. rewrite <-p95_index_exact by lia. done.
Qed.

Section proofs.
Context `{DriverHost St} (clock : St → N) (Hadv : advancing clock).

(** Run from [st], the program does not run out of fuel; what it returns
    satisfies [Q], and the clock was not turned back. *)
Definition ends {A} (m : prog St A) (Q : A → Prop) (st : St) : Prop :=
  match m st with
  | (Value a, st') => Q a ∧ (clock st <= clock st')%N
  | (Panicked _, _) => True
  | (OutOfFuel, _) => False
  end.

Lemma ends_ret {A} (a : A) (Q : A → Prop) st : Q a → ends (mret a) Q st.
Proof. intros Hq. split; [done|lia]. Qed.

Lemma ends_panic {A} why (Q : A → Prop) st : ends (panic why) Q st.
Proof. done. Qed.

Lemma ends_bind {A B} (m : prog St A) (f : A → prog St B) (P : A → Prop) (Q : B → Prop) st :
  ends m P st → (∀ a st', P a → (clock st <= clock st')%N → ends (f a) Q st') → ends (m ≫= f) Q st.
Proof.
  unfold ends, mbind, prog_bind. destruct (m st) as [[a|why|] st1]; [|done..].
  intros [Hp Hc] Hf. specialize (Hf a st1 Hp Hc). destruct (f a st1) as [[b|why|] st2]; [|done..].
  destruct Hf. split; [done|lia].
Qed.

Lemma ends_ask {A} (m : St → A * St) st :
  (clock st <= clock (m st).2)%N → ends (ask m) (λ a, a = (m st).1) st.
Proof. unfold ends, ask. by destruct (m st). Qed.

Lemma ends_expect {A} why (m : St → result A text * St) st :
  (clock st <= clock (m st).2)%N → ends (expect why m) (λ _, True) st.
Proof. unfold ends, expect. by destruct (m st) as [[a|e] st']. Qed.

Lemma ends_tell (m : St → St) st : (clock st <= clock (m st))%N → ends (tell m) (λ _, True) st.
Proof. done. Qed.

Lemma ends_any {A} (m : prog St A) (Q : A → Prop) st : ends m Q st → ends m (λ _, True) st.
Proof. unfold ends. destruct (m st) as [[a|why|] st']; [|done..]. by intros [_ Hc]. Qed.

Lemma ends_wall st : ends (ask wall_clock) (λ now, now = clock st) st.
Proof.
  destruct (adv_wall _ Hadv st) as [Hn Hlt]. pose proof (ends_ask wall_clock st) as He. rewrite Hn in He. apply He. lia.
Qed.

Lemma ends_elapsed started st : ends (elapsed started) (λ spent, spent = (clock st - started)%N) st.
Proof. eapply ends_bind; [apply ends_wall|]. intros now st' -> _. by apply ends_ret. Qed.

(** After a reading of the clock it is later. *)
Lemma elapsed_later {B} started (f : N → prog St B) (Q : B → Prop) st :
  (∀ st', (clock st < clock st')%N → ends (f (clock st - started)%N) Q st') → ends (spent ← elapsed started; f spent) Q st.
Proof.
  intros Hf. destruct (adv_wall _ Hadv st) as [Hn Hlt]. unfold elapsed.
  unfold ends, mbind, prog_bind, ask, mret, prog_ret. destruct (wall_clock st) as [now st1]. simpl in Hn, Hlt. subst.
  specialize (Hf st1 Hlt). unfold ends in Hf. destruct (f _ st1) as [[b|why|] st2]; [|done..].
  destruct Hf. split; [done|lia].
Qed.

Lemma ends_runtime event_driven st : ends (runtime event_driven) (λ _, True) st.
Proof. apply ends_expect, (adv_boot _ Hadv). Qed.

Lemma ends_tick_for rt started duration fuel st :
  (0 < fuel)%nat → (started + duration < clock st + N.of_nat fuel)%N →
  ends (tick_for fuel rt started duration) (λ _, True) st.
Proof.
  revert st. induction fuel as [|fuel IH]; intros st Hf Hb; [lia|]. apply elapsed_later. intros st1 Hc.
  destruct (N.ltb_spec (clock st - started) duration); [|by apply ends_ret].
  eapply ends_bind; [apply ends_expect, (adv_dispatch _ Hadv)|]. intros _ st2 _ Hc2. apply IH; lia.
Qed.

(** The task was seen to be completed. *)
Definition seen_completed (rt : HostRuntime) (id : text) : Prop :=
  ∃ st status, (task_status rt id st).1 = Some status ∧ is_completed status = true.

Lemma ends_wait_until rt id started fuel st :
  (0 < fuel)%nat → (started + 10 ^ 9 < clock st + N.of_nat fuel)%N →
  ends (wait_until_completed fuel rt id started) (λ _, seen_completed rt id) st.
Proof.
  revert st. induction fuel as [|fuel IH]; intros st Hf Hb; [lia|]. apply elapsed_later. intros st1 Hc.
  destruct (N.ltb_spec (clock st - started) (10 ^ 9)); [|apply ends_panic].
  eapply ends_bind; [apply ends_ask, (adv_status _ Hadv)|]. intros status st2 Hs Hc2.
  assert (Hagain : ends (_ ← tell yield_now; wait_until_completed fuel rt id started)
    (λ _, seen_completed rt id) st2).
  { eapply ends_bind; [apply ends_tell, (adv_yield _ Hadv)|]. intros _ st3 _ Hc3. apply IH; lia. }
  destruct status as [status|]; [|done]. destruct (is_completed status) eqn:Hd; [|done].
  apply ends_ret. by exists st1, status.
Qed.

Lemma ends_wait rt id fuel st :
  (10 ^ 9 < N.of_nat fuel)%N → ends (wait_completed fuel rt id) (λ _, seen_completed rt id) st.
Proof.
  intros Hf. eapply ends_bind; [apply ends_wall|]. intros started st' -> Hc. apply ends_wait_until; lia.
Qed.

Lemma ends_idle fuel event_driven duration st :
  (duration < N.of_nat fuel)%N → ends (idle_sample fuel event_driven duration) (λ _, True) st.
Proof.
  intros Hf. eapply ends_bind; [apply ends_runtime|]. intros rt st1 _ _.
  eapply ends_bind; [apply ends_expect, (adv_drive _ Hadv)|]. intros before st2 _ _.
  eapply ends_bind; [apply ends_wall|]. intros started st3 -> Hc3.
  eapply ends_bind; [apply ends_ask, (adv_cpu _ Hadv)|]. intros cpu st4 _ Hc4.
  eapply (ends_bind _ _ (λ _, True)).
  { destruct event_driven; [apply ends_tell, (adv_sleep _ Hadv)|apply ends_tick_for; lia]. }
  intros _ st5 _ _. eapply ends_bind; [apply ends_ask, (adv_cpu _ Hadv)|]. intros cpu' st6 _ _.
  eapply ends_bind; [apply ends_elapsed|]. intros wall st7 _ _.
  eapply ends_bind; [apply ends_expect, (adv_drive _ Hadv)|]. intros after st8 _ _.
  eapply ends_bind; [apply ends_tell, (adv_drop _ Hadv)|]. intros _ st9 _ _. by apply ends_ret.
Qed.

Lemma ends_latency fuel event_driven rt index st :
  (10 ^ 9 < N.of_nat fuel)%N →
  ends (latency_sample fuel event_driven rt index) (λ _, seen_completed rt (latency_task_id event_driven index)) st.
Proof.
  intros Hf. unfold latency_sample. cbv zeta. eapply ends_bind; [apply ends_wall|]. intros started st1 _ _.
  eapply ends_bind; [apply ends_expect, (adv_dispatch _ Hadv)|]. intros _ st2 _ _.
  eapply (ends_bind _ _ (λ _, True)).
  { destruct event_driven; [by apply ends_ret|].
    eapply ends_bind; [apply ends_tell, (adv_sleep _ Hadv)|]. intros _ st3 _ _.
    apply ends_expect, (adv_dispatch _ Hadv). }
  intros _ st3 _ _. eapply ends_bind; [by apply ends_wait|]. intros u st4 Hs _.
  eapply ends_bind; [apply ends_elapsed|]. intros spent st5 _ _. by apply ends_ret.
Qed.

Lemma ends_measure fuel event_driven rt indices st :
  (10 ^ 9 < N.of_nat fuel)%N →
  ends (measure fuel event_driven rt indices)
    (λ measured, length measured = length indices ∧
       Forall (λ i, seen_completed rt (latency_task_id event_driven (N.of_nat i))) indices) st.
Proof.
  intros Hf. revert st. induction indices as [|i indices IH]; intros st; simpl; [by apply ends_ret|].
  eapply ends_bind; [by apply ends_latency|]. intros spent st1 Hi _.
  eapply ends_bind; [apply IH|]. intros rest st2 [Hl Hall] _. apply ends_ret.
  split; [simpl; by rewrite Hl|by constructor].
Qed.

(** The report on [samples] tasks that were each seen to be completed. *)
Definition reported (event_driven : bool) (samples : N) (v : json) : Prop :=
  figures samples v ∧
  ∃ rt, ∀ i, (i < samples)%N → seen_completed rt (latency_task_id event_driven i).

Lemma ends_samples fuel event_driven samples st :
  (10 ^ 9 < N.of_nat fuel)%N → (1 <= samples)%N →
  ends (latency_samples fuel event_driven samples) (reported event_driven samples) st.
Proof.
  intros Hf Hs. eapply ends_bind; [apply ends_runtime|]. intros rt st1 _ _. case_match; [apply ends_panic|].
  eapply ends_bind; [by apply ends_measure|]. intros measured st2 [Hl Hseen] _.
  assert (Hlen : len measured = samples) by (unfold len; rewrite Hl, length_seq; lia).
  destruct (latency_report_figures measured) as (v & Hv & Hfig).
  { intros ->. unfold len in Hlen. simpl in Hlen. lia. }
  rewrite Hlen in Hv, Hfig. rewrite Hv. eapply ends_bind; [apply ends_tell, (adv_drop _ Hadv)|].
  intros _ st3 _ _. apply ends_ret. split; [done|]. exists rt. intros i Hi.
  rewrite Forall_forall in Hseen. specialize (Hseen (N.to_nat i)). rewrite N2Nat.id in Hseen.
  apply Hseen, elem_of_seq. lia.
Qed.

Lemma ends_main fuel env os arch st :
  (from_millis (idle_ms_of env) < N.of_nat fuel)%N → (10 ^ 9 < N.of_nat fuel)%N →
  ends (main fuel env os arch)
    (λ v, ∃ idle poll event, v = driver_report os arch (idle_ms_of env) (samples_of env) idle (poll, event) ∧
       reported false (samples_of env) poll ∧ reported true (samples_of env) event) st.
Proof.
  intros Hidle Hf. assert (Hs : (1 <= samples_of env)%N) by (unfold samples_of; lia).
  eapply ends_bind; [by apply ends_idle|]. intros idle1 st1 _ _.
  eapply ends_bind; [by apply ends_idle|]. intros idle2 st2 _ _.
  eapply ends_bind; [by apply ends_samples|]. intros poll st3 Hp _.
  eapply ends_bind; [by apply ends_samples|]. intros event st4 He _.
  apply ends_ret. by exists (idle1, idle2), poll, event.
Qed.

End proofs.

(** ** Properties *)


(** ** A concrete runtime

    It completes every task at once; its state is the clock. *)
#[local] Instance unit_contracts : DriverContracts := {|
  Pure := tt; Cpu := tt; SyncExclusive := tt; Exclusive := tt; batch_default := tt; payload_default := tt;
  resources_default := tt; ordering_default := tt; control_default := tt; FullDev := tt;
  observability_default := tt; Binding := unit; PluginDeployment := unit; host_config _ _ := tt;
  task_new id _ _ := id; task_id id := id; result_completed id := id; is_completed (done : bool) := done;
|}.

#[local] Instance prompt_host : DriverHost N := {|
  runner_manifest _ _ := tt; native_runner _ _ := tt; bootstrapper_new := tt;
  register_manifest _ b := b; register_runner _ b := b;
  into_host_runtime _ _ _ now := (Ok tt, (now + 5000000)%N);
  drive_state _ now := (Ok (mkDrive now 0), now);
  dispatch _ _ now := (Ok tt, (now + 400000)%N);
  task_status _ _ now := (Some true, now);
  drop_runtime _ now := now;
  wall_clock now := (now, (now + 100)%N); cpu_clock now := (now, now);
  sleep ns now := (now + ns)%N; yield_now now := now;
|}.

Lemma prompt_advancing : advancing (λ now : N, now).
Proof. split; intros; simpl; lia. Qed.

Definition bench_env (name : text) : option text :=
  if text_eqb name (lit "MUTSUKI_BENCH_IDLE_MS") then Some (lit "1")
  else if text_eqb name (lit "MUTSUKI_BENCH_SAMPLES") then Some (lit "2") else None.

(** A run needs little fuel: here three ticks fill the idle millisecond. *)
Example prompt_bench_reports :
  match (main 4 bench_env (lit "linux") (lit "x86_64") 0%N).1 with Value _ => true | _ => false end = true ∧
  match (main 3 bench_env (lit "linux") (lit "x86_64") 0%N).1 with OutOfFuel => true | _ => false end = true.
Proof. split; vm_compute; reflexivity. Qed.

