(* ===== verification/ControlBench.v ===== *)
(** * The benchmark of the control interface

    [crates/mutsuki-service-benchmarks/src/bin/control_ipc_bench.rs]: the cases of
    a run, what a case measures, the percentiles, the gates and the verdict.
    Measured times and counters are arguments. *)

From stdpp Require Import sorting.
From S2P Require Import Prelude Text BTreeMap Value Float64 ConfigTypes.

Inductive BenchMode : Type := OneShotJsonl | PersistentJsonl | PersistentBinary.

Definition as_str (m : BenchMode) : text :=
  match m with
  | OneShotJsonl => lit "one-shot-jsonl"
  | PersistentJsonl => lit "persistent-jsonl"
  | PersistentBinary => lit "persistent-binary"
  end.

Definition codec_of (m : BenchMode) : IpcCodec :=
  match m with OneShotJsonl | PersistentJsonl => Jsonl | PersistentBinary => Binary end.

(** [usize::div_ceil]. *)
Definition div_ceil (a b : N) : N := ((a + b - 1) / b)%N.

Definition percentile (sorted : list N) (pct : N) : N :=
  match sorted with
  | [] => 0
  | _ => nth (N.to_nat (div_ceil (N.min pct 100 * (len sorted - 1))%N 100)) sorted 0%N
  end.

Record CaseResult : Type := mkCase {
  case_id : text; case_mode : text; in_flight : N; payload_bytes : N; requests : N;
  p50_ns : N; p95_ns : N; p99_ns : N; throughput_rps : f64; allocated_bytes_per_request : f64;
  connections_per_request : f64;
}.

Record GateResult : Type := mkGate {
  gate_id : text; gate_passed : bool; actual : f64; limit : f64; gate_unit : text;
}.

Record Report : Type := mkReport {
  schema : text; transport_name : text; cases : list CaseResult; gates : list GateResult; passed : bool;
}.

(** The counter of the allocator: every allocation counts with its size, a
    reallocation with its new size, and nothing is taken off. *)
Inductive allocation : Type :=
| Alloc (size : N) (ok : bool) | Dealloc (size : N) | Realloc (new_size : N) (ok : bool).
Definition count_allocation (allocated : N) (a : allocation) : N :=
  match a with
  | Alloc size true | Realloc size true => wrap 64 (allocated + size)
  | _ => allocated
  end.

Definition case_name (mode : BenchMode) (in_flight payload_bytes : N) : text :=
  lit "control-ipc/" ++ as_str mode ++ lit "/inflight-" ++ show_N in_flight ++ lit "/payload-"
  ++ show_N payload_bytes.

(** What a case measured: the latency and the outcome of every request in order,
    the seconds it took, the counter of the allocator before and after, and the
    connections it opened. *)
Record measured : Type := mkMeasured {
  ms_requests : list (N * result unit text); ms_elapsed : f64; ms_alloc_before : N; ms_alloc_after : N;
  ms_connections : N;
}.

(** The first failed request ends the case. *)
Definition latencies (rs : list (N * result unit text)) : result (list N) text :=
  collect_results ((λ r : N * result unit text, rmap (λ _, r.1) r.2) <$> rs).

(** The end of [run_case]: [requests] is the number of requests it was asked for. *)
Definition case_result (mode : BenchMode) (in_flight payload_bytes requests : N) (m : measured)
    : result CaseResult text :=
  let? times := latencies (ms_requests m) in
  let allocated := (ms_alloc_after m - ms_alloc_before m)%N in   (* [saturating_sub] *)
  let sorted := sort_N times in
  let count := f64_of_N requests in
  Ok {| case_id := case_name mode in_flight payload_bytes; case_mode := as_str mode; in_flight := in_flight;
        payload_bytes := payload_bytes; requests := requests;
        p50_ns := percentile sorted 50; p95_ns := percentile sorted 95; p99_ns := percentile sorted 99;
        throughput_rps := fdiv count (fmax (ms_elapsed m) (literal 1 1000000000));
        allocated_bytes_per_request := fdiv (f64_of_N allocated) count;
        connections_per_request :=
          fdiv (f64_of_N (match mode with OneShotJsonl => requests | _ => ms_connections m end)) count |}.

(** ** The cases of a run *)

Definition in_flights (smoke : bool) : list N := if smoke then [1%N] else [1%N; 16%N; 64%N].
Definition payloads (smoke : bool) : list N := if smoke then [64%N] else [64%N; (4 * 1024)%N; (64 * 1024)%N].
Definition requests_per_case (smoke : bool) : N := if smoke then 32 else 256.
Definition warmup_per_case (smoke : bool) : N := if smoke then 4 else 32.

Definition effective_inflight (mode : BenchMode) (in_flight : N) : N :=
  match mode with PersistentBinary => in_flight | _ => N.min 1 in_flight end.

Definition skipped (smoke : bool) (mode : BenchMode) (in_flight : N) : bool :=
  match mode with OneShotJsonl | PersistentJsonl => (1 <? in_flight)%N && negb smoke | _ => false end.

(** The arguments of the calls of [run_case], in their order. *)
Definition case_plan (smoke : bool) : list (BenchMode * N * N) :=
  mode ← [OneShotJsonl; PersistentJsonl; PersistentBinary];
  in_flight ← in_flights smoke;
  if skipped smoke mode in_flight then []
  else (λ payload, (mode, effective_inflight mode in_flight, payload)) <$> payloads smoke.

(** ** Gates *)

Definition reduction_gate (id : text) (reduction bound : f64) : GateResult :=
  mkGate id (fleb bound reduction) reduction bound (lit "relative_reduction").
Definition connections_gate (id : text) (c : CaseResult) : GateResult :=
  let bound := literal 5 100 in
  mkGate id (fleb (connections_per_request c) bound) (connections_per_request c) bound
    (lit "connections/request").

(** [1.0 - binary / oneshot]. *)
Definition relative_reduction (binary oneshot : f64) : f64 := fsub (f64_of_N 1) (fdiv binary oneshot).

Definition p95_reduction (oneshot binary : CaseResult) : f64 :=
  relative_reduction (f64_of_N (p95_ns binary)) (f64_of_N (N.max (p95_ns oneshot) 1)).

(** What a request allocates beyond its payload, twice. *)
Definition overhead (payload : N) (least : f64) (c : CaseResult) : f64 :=
  fmax (fsub (allocated_bytes_per_request c) (fmul (f64_of_N 2) (f64_of_N payload))) least.
Definition overhead_reduction (payload : N) (oneshot binary : CaseResult) : f64 :=
  relative_reduction (overhead payload (f64_of_N 0) binary) (overhead payload (f64_of_N 1) oneshot).

Definition evaluate_gates (cases : list CaseResult) : list GateResult :=
  let by_id := bcollect ((λ c, (case_id c, c)) <$> cases) in
  let short :=
    match bget by_id (lit "control-ipc/one-shot-jsonl/inflight-1/payload-64"),
          bget by_id (lit "control-ipc/persistent-binary/inflight-1/payload-64") with
    | Some oneshot, Some binary =>
        [reduction_gate (lit "p95.persistent-binary.vs.oneshot-jsonl.short") (p95_reduction oneshot binary)
           (literal 40 100);
         connections_gate (lit "connections-per-request.persistent-binary.short") binary]
    | _, _ => []
    end in
  let overheads :=
    omap (λ payload,
      oneshot ← bget by_id (lit "control-ipc/one-shot-jsonl/inflight-1/payload-" ++ show_N payload);
      binary ← bget by_id (lit "control-ipc/persistent-binary/inflight-1/payload-" ++ show_N payload);
      Some (reduction_gate
              (lit "allocated-overhead.persistent-binary.vs.oneshot-jsonl.payload-" ++ show_N payload)
              (overhead_reduction payload oneshot binary) (literal 30 100))) [64%N; 4096%N; 65536%N] in
  let wide :=
    match bget by_id (lit "control-ipc/persistent-binary/inflight-16/payload-64") with
    | Some binary => [connections_gate (lit "connections-per-request.persistent-binary.inflight-16") binary]
    | None => []
    end in
  short ++ overheads ++ wide.

Definition default_transport_name (windows : bool) : text :=
  if windows then lit "named-pipe" else lit "unix-socket".

Definition ipc_report (windows : bool) (cases : list CaseResult) : Report :=
  let gates := evaluate_gates cases in
  mkReport (lit "mutsuki.servicehost.control-ipc.perf/v1") (default_transport_name windows) cases gates
    (forallb gate_passed gates).

(** The arguments of the program: any argument [smoke], and the argument behind
    the first [--output]. *)
Definition is_smoke (args : list text) : bool := List.existsb (λ a, text_eqb a (lit "smoke")) args.
Fixpoint output_argument (args : list text) : option text :=
  match args with
  | a :: ((b :: _) as rest) => if text_eqb a (lit "--output") then Some b else output_argument rest
  | _ => None
  end.
Definition output_path (args : list text) : text :=
  default (lit (if is_smoke args then "target/mutsuki-benchmarks/control-ipc-smoke.json"
                else "target/mutsuki-benchmarks/control-ipc-issue16.json")) (output_argument args).

(** [main] after its arguments: the cases in order, until one fails; whether
    the process exits with a failure. *)
Definition ipc_main (windows smoke : bool) (run_case : BenchMode → N → N → N → N → result CaseResult text)
    : result (Report * bool) text :=
  let? cases := collect_results
    ((λ '(mode, in_flight, payload), run_case mode in_flight payload (requests_per_case smoke) (warmup_per_case smoke))
       <$> case_plan smoke) in
  let report := ipc_report windows cases in
  Ok (report, negb (passed report)).

(** ** Lemmas *)

(** Comparing two floating-point terms must not compute them. *)
#[local] Opaque literal fmul fdiv fsub fceil fabs f64_of_N.

Lemma rank_bound n p : (n ≠ 0 → div_ceil (N.min p 100 * (n - 1)) 100 <= n - 1)%N.
Proof. intros Hn. unfold div_ceil. apply N.lt_succ_r, N.Div0.div_lt_upper_bound. nia. Qed.

Lemma rank_mono n p q : (p <= q)%N → (div_ceil (N.min p 100 * (n - 1)) 100 <= div_ceil (N.min q 100 * (n - 1)) 100)%N.
Proof. intros Hpq. unfold div_ceil. apply N.Div0.div_le_mono. nia. Qed.

Lemma percentile_lookup l p : l ≠ [] →
  l !! N.to_nat (div_ceil (N.min p 100 * (len l - 1)) 100) = Some (percentile l p).
Proof.
  intros Hl. pose proof (len_pos l Hl). pose proof (rank_bound (len l) p).
  destruct (lookup_below l (div_ceil (N.min p 100 * (len l - 1)) 100)) as [x Hx]; [lia|].
  rewrite Hx. f_equal. unfold percentile. destruct l; [done|]. symmetry. by apply nth_lookup_Some.
Qed.

Lemma percentile_in l p : l ≠ [] → percentile l p ∈ l.
Proof. intros Hl. by eapply list_elem_of_lookup_2, percentile_lookup. Qed.

Lemma percentile_mono l p q : StronglySorted N.le l → (p <= q)%N → (percentile l p <= percentile l q)%N.
Proof.
  intros Hs Hpq. destruct (decide (l = [])) as [->|Hl]; [done|].
  pose proof (rank_mono (len l) p q Hpq).
  eapply (sorted_lookup N.le l _ _ _ _ Hs); [|by apply percentile_lookup..]. lia.
Qed.

Lemma percentile_ends l x : StronglySorted N.le l → x ∈ l →
  (percentile l 0 <= x <= percentile l 100)%N.
Proof.
  intros Hs Hx. assert (Hl : l ≠ []) by (intros ->; by apply elem_of_nil in Hx).
  pose proof (len_pos l Hl). apply list_elem_of_lookup in Hx as [i Hi].
  pose proof (lookup_lt_Some _ _ _ Hi) as Hlt. split.
  - eapply (sorted_lookup N.le l _ _ _ _ Hs); [|by apply (percentile_lookup l 0)|exact Hi].
    rewrite N.min_l, N.mul_0_l by done. unfold div_ceil. change ((0 + 100 - 1) / 100)%N with 0%N. simpl. lia.
  - eapply (sorted_lookup N.le l _ _ _ _ Hs); [|exact Hi|by apply (percentile_lookup l 100)].
    unfold div_ceil. rewrite N.min_l, N.mul_comm by done.
    assert ((len l - 1 <= ((len l - 1) * 100 + 100 - 1) / 100)%N) by (apply N.div_le_lower_bound; lia).
    unfold len in *. lia.
Qed.

Lemma latencies_ok rs times : latencies rs = Ok times ↔ Forall (λ r, is_ok r.2 = true) rs ∧ times = rs.*1.
Proof.
  unfold latencies. rewrite collect_results_ok. split.
  - revert times. induction rs as [|[t [u|e]] rs IH]; intros [|x times] H; simpl in *; simplify_eq; try done.
    destruct (IH times) as [H1 ->]; [done|]. split; [by constructor|done].
  - intros [H ->]. induction H as [|[t [u|e]] rs Hr _ IH]; [done| |done]. csimpl. by rewrite IH.
Qed.

(** The first failure of a mapped function. *)
Lemma collect_fmap_err {A B E} (f : A → result B E) l e :
  collect_results (f <$> l) = Err e ↔
  ∃ before after x, l = before ++ x :: after ∧ f x = Err e ∧ Forall (λ y, is_ok (f y) = true) before.
Proof.
  rewrite collect_results_err. split.
  - intros (before & after & H & Hb). apply fmap_app_inv in H as (l1 & l2 & -> & H & ->).
    destruct l2 as [|x l2]; [discriminate|]. injection H as Hx _. exists l1, l2, x.
    by rewrite Forall_fmap in Hb.
  - intros (before & after & x & -> & Hx & Hb). rewrite fmap_app, fmap_cons, Hx.
    do 2 eexists. split; [reflexivity|]. by rewrite Forall_fmap.
Qed.

Lemma latencies_err rs e : latencies rs = Err e ↔
  ∃ before after t, rs = before ++ (t, Err e) :: after ∧ Forall (λ r, is_ok r.2 = true) before.
Proof.
  unfold latencies. rewrite collect_fmap_err. split.
  - intros (before & after & [t [u|e']] & -> & [= <-] & Hb). exists before, after, t. split; [done|].
    eapply Forall_impl; [exact Hb|]. intros r. simpl. by rewrite rmap_is_ok.
  - intros (before & after & t & -> & Hb). exists before, after, (t, Err e). split_and!; [done..|].
    eapply Forall_impl; [exact Hb|]. intros r. simpl. by rewrite rmap_is_ok.
Qed.

(** Half of a sorted list is within its median. *)
Lemma median_half l : StronglySorted N.le l →
  (length l ≤ 2 * length (filter (λ x, x <= percentile l 50)%N l))%nat.
Proof.
  intros Hs. destruct (decide (l = [])) as [->|Hl]; [simpl; lia|]. pose proof (len_pos l Hl).
  set (r := N.to_nat (div_ceil (N.min 50 100 * (len l - 1)) 100)).
  assert (Hr : l !! r = Some (percentile l 50)) by by apply percentile_lookup.
  assert (Hlow : Forall (λ x, x <= percentile l 50)%N (take (S r) l)).
  { apply Forall_lookup. intros i x [Hi Hx]%lookup_take_Some.
    eapply (sorted_lookup N.le l i r _ _ Hs); [lia|done|done]. }
  rewrite <-(take_drop (S r) l) at 2. rewrite filter_app, length_app, (filter_forall _ (take (S r) l)) by done.
  rewrite length_take. pose proof (lookup_lt_Some _ _ _ Hr).
  assert ((len l - 1 <= 2 * N.of_nat r)%N); [|unfold len in *; lia].
  unfold r, div_ceil. rewrite N2Nat.id.
  pose proof (N.div_mod (N.min 50 100 * (len l - 1) + 100 - 1) 100 ltac:(done)).
  pose proof (N.mod_lt (N.min 50 100 * (len l - 1) + 100 - 1) 100 ltac:(done)). lia.
Qed.

(** The latencies of a case: it has a result exactly if every request
    succeeded (the first failure is the error of the case), and then its
    percentiles are in order, each is a measured latency, none exceeds the
    greatest one, and half of the requests were answered within the median. *)
Theorem case_latencies mode in_flight payload_bytes requests m :
  (∀ e, case_result mode in_flight payload_bytes requests m = Err e ↔
     ∃ before after t, ms_requests m = before ++ (t, Err e) :: after ∧ Forall (λ r, is_ok r.2 = true) before) ∧
  ∀ c, case_result mode in_flight payload_bytes requests m = Ok c →
    Forall (λ r, is_ok r.2 = true) (ms_requests m) ∧
    (p50_ns c <= p95_ns c <= p99_ns c)%N ∧
    (ms_requests m ≠ [] → Forall (λ p, p ∈ (ms_requests m).*1) [p50_ns c; p95_ns c; p99_ns c]) ∧
    (∀ worst, (∀ r, r ∈ ms_requests m → r.1 <= worst)%N → p99_ns c <= worst)%N ∧
    (length (ms_requests m) <= 2 * length (filter (λ r, r.1 <= p50_ns c)%N (ms_requests m)))%nat.
Proof.
  unfold case_result. split.
  { intros e. rewrite rbind_err, latencies_err. split; [|by left].
    intros [H|(times & _ & H)]; [exact H|discriminate]. }
  intros c (times & [Hok ->]%latencies_ok & [= <-])%rbind_ok. simpl.
  set (rs := ms_requests m). pose proof (sort_N_perm rs.*1) as Hp. pose proof (sort_N_sorted rs.*1) as Hs.
  assert (Hmem : ∀ x, x ∈ sort_N rs.*1 ↔ x ∈ rs.*1) by (intros x; by rewrite Hp).
  split; [done|]. split; [split; apply percentile_mono; [done|lia|done|lia]|]. split; [|split].
  - intros Hne. assert (Hn : sort_N rs.*1 ≠ []).
    { intros E. rewrite E in Hp. apply Permutation_nil in Hp. by apply fmap_nil_inv in Hp. }
    do 3 (constructor; [by apply Hmem, percentile_in|]). constructor.
  - intros worst Hw. destruct (decide (sort_N rs.*1 = [])) as [->|Hn]; [apply N.le_0_l|].
    pose proof (percentile_in _ 99 Hn) as Hin. apply Hmem in Hin.
    apply list_elem_of_fmap in Hin as (r & -> & Hr). by apply Hw.
  - pose proof (median_half _ Hs) as Hhalf.
    set (md := percentile (sort_N rs.*1) 50) in *. clearbody md. rewrite Hp in Hhalf.
    rewrite length_fmap, filter_fmap_length in Hhalf. exact Hhalf.
Qed.
(** ** The verdict *)

Lemma case_result_id mode i p n m c : case_result mode i p n m = Ok c → case_id c = case_name mode i p.
Proof. by intros (times & _ & [= <-])%rbind_ok. Qed.

Section verdict.
Variables (windows smoke : bool) (measure : BenchMode → N → N → measured).

Definition run (mode : BenchMode) (i p n warmup : N) : result CaseResult text :=
  case_result mode i p n (measure mode i p).

(** The case of given arguments, when it could be measured. *)
Definition case_of (e : BenchMode * N * N) : result CaseResult text :=
  case_result e.1.1 e.1.2 e.2 (requests_per_case smoke) (measure e.1.1 e.1.2 e.2).

Lemma run_case_of e :
  (let '(mode, in_flight, payload) := e in
   run mode in_flight payload (requests_per_case smoke) (warmup_per_case smoke)) = case_of e.
Proof. by destruct e as [[mode i] p]. Qed.

Lemma run_plan :
  ((λ '(mode, in_flight, payload),
     run mode in_flight payload (requests_per_case smoke) (warmup_per_case smoke)) <$> case_plan smoke)
  = case_of <$> case_plan smoke.
Proof. apply list_fmap_ext. intros _ e _. apply run_case_of. Qed.

Lemma ipc_main_ok report failed : ipc_main windows smoke run = Ok (report, failed) →
  case_of <$> case_plan smoke = Ok <$> cases report ∧ report = ipc_report windows (cases report) ∧
  failed = negb (passed report).
Proof.
  intros (cs & Hc & [= <- <-])%rbind_ok. apply collect_results_ok in Hc. simpl. split_and!; [|done..].
  by rewrite <-Hc, run_plan.
Qed.

Lemma plan_ids_nodup : NoDup ((λ e, case_name e.1.1 e.1.2 e.2) <$> case_plan smoke).
Proof. destruct smoke; vm_compute; apply (bool_decide_eq_true_1 _); vm_compute; reflexivity. Qed.

(** The case with a given identity. *)
Lemma find_case cs e c :
  case_of <$> case_plan smoke = Ok <$> cs → e ∈ case_plan smoke → case_of e = Ok c →
  bget (bcollect ((λ c, (case_id c, c)) <$> cs)) (case_name e.1.1 e.1.2 e.2) = Some c.
Proof.
  intros Hcs He Hc. assert (Hids : case_id <$> cs = (λ e, case_name e.1.1 e.1.2 e.2) <$> case_plan smoke).
  { clear He Hc. revert cs Hcs. induction (case_plan smoke) as [|e' plan IH]; intros [|c' cs] Hcs; try done.
    injection Hcs as Hc' Hcs. rewrite !fmap_cons, (IH _ Hcs). f_equal.
    by eapply case_result_id. }
  apply bget_collect.
  { rewrite <-list_fmap_compose. change (fst ∘ _) with case_id. rewrite Hids. apply plan_ids_nodup. }
  apply list_elem_of_fmap. exists c. rewrite <-(case_result_id _ _ _ _ _ _ Hc). split; [done|].
  assert (Hin : Ok c ∈ (Ok (E:=text) <$> cs)).
  { rewrite <-Hcs, <-Hc. by apply list_elem_of_fmap_2. }
  by apply list_elem_of_fmap in Hin as (c' & [= ->] & ?).
Qed.

Lemma plan_case cs e : case_of <$> case_plan smoke = Ok <$> cs → e ∈ case_plan smoke → ∃ c, case_of e = Ok c.
Proof.
  intros Hcs He. apply (list_elem_of_fmap_2 case_of) in He. rewrite Hcs in He.
  apply list_elem_of_fmap in He as (c & Hc & _). by exists c.
Qed.

Lemma no_case cs id : case_of <$> case_plan smoke = Ok <$> cs →
  id ∉ ((λ e, case_name e.1.1 e.1.2 e.2) <$> case_plan smoke) →
  bget (bcollect ((λ c, (case_id c, c)) <$> cs)) id = None.
Proof.
  intros Hcs Hid. destruct (bget _ id) as [c|] eqn:E; [|done]. destruct Hid.
  apply bcollect_elem, list_elem_of_fmap in E as (c' & [= -> ->] & Hin).
  assert (Hok : Ok c' ∈ (case_of <$> case_plan smoke)) by (rewrite Hcs; by apply list_elem_of_fmap_2).
  apply list_elem_of_fmap in Hok as (e & He & Hin'). apply list_elem_of_fmap. exists e. split; [|done].
  by eapply case_result_id.
Qed.

(** The gates of a run, from its cases. *)
Definition short_gates (c : BenchMode → N → N → CaseResult) : list GateResult :=
  [reduction_gate (lit "p95.persistent-binary.vs.oneshot-jsonl.short")
     (p95_reduction (c OneShotJsonl 1 64) (c PersistentBinary 1 64))%N (literal 40 100);
   connections_gate (lit "connections-per-request.persistent-binary.short") (c PersistentBinary 1 64)%N].
Definition overhead_gate (c : BenchMode → N → N → CaseResult) (payload : N) : GateResult :=
  reduction_gate (lit "allocated-overhead.persistent-binary.vs.oneshot-jsonl.payload-" ++ show_N payload)
    (overhead_reduction payload (c OneShotJsonl 1%N payload) (c PersistentBinary 1%N payload)) (literal 30 100).
Definition wide_gates (c : BenchMode → N → N → CaseResult) : list GateResult :=
  if smoke then []
  else [connections_gate (lit "connections-per-request.persistent-binary.inflight-16") (c PersistentBinary 16 64)%N].

Lemma gates_of_cases cs c : case_of <$> case_plan smoke = Ok <$> cs →
  (∀ e, e ∈ case_plan smoke → case_of e = Ok (c e.1.1 e.1.2 e.2)) →
  evaluate_gates cs = short_gates c ++ (overhead_gate c <$> payloads smoke) ++ wide_gates c.
Proof.
  intros Hcs Hc.
  pose proof (λ e He, find_case cs e _ Hcs He (Hc e He)) as Hfind.
  pose proof (λ id, no_case cs id Hcs) as Hnone. clear Hcs Hc.
  unfold evaluate_gates.
  set (by_id := bcollect ((λ c0, (case_id c0, c0)) <$> cs)) in *. clearbody by_id.
  assert (Hone : ∀ p, p ∈ payloads smoke →
    bget by_id (case_name OneShotJsonl 1%N p) = Some (c OneShotJsonl 1%N p) ∧
    bget by_id (case_name PersistentBinary 1%N p) = Some (c PersistentBinary 1%N p)).
  { intros p Hp. split; apply (Hfind (_, _, _)); destruct smoke; cbn in Hp |- *; set_solver. }
  f_equal; [|f_equal].
  - destruct (Hone 64%N) as [H1 H2]; [destruct smoke; cbn; set_solver|].
    change (lit "control-ipc/one-shot-jsonl/inflight-1/payload-64") with (case_name OneShotJsonl 1 64).
    change (lit "control-ipc/persistent-binary/inflight-1/payload-64") with (case_name PersistentBinary 1 64).
    by rewrite H1, H2.
  - set (f := λ payload : N, _).
    assert (Hsome : ∀ p, p ∈ payloads smoke → f p = Some (overhead_gate c p)).
    { intros p Hp. destruct (Hone p Hp) as [H1 H2]. unfold f.
      change (lit "control-ipc/one-shot-jsonl/inflight-1/payload-" ++ show_N p) with (case_name OneShotJsonl 1 p).
      change (lit "control-ipc/persistent-binary/inflight-1/payload-" ++ show_N p)
        with (case_name PersistentBinary 1 p).
      by rewrite H1; cbn [mbind option_bind]; rewrite H2. }
    assert (Hno : ∀ p, case_name OneShotJsonl 1 p ∉ ((λ e, case_name e.1.1 e.1.2 e.2) <$> case_plan smoke) → f p = None).
    { intros p Hp. unfold f.
      change (lit "control-ipc/one-shot-jsonl/inflight-1/payload-" ++ show_N p) with (case_name OneShotJsonl 1 p).
      by rewrite (Hnone _ Hp). }
    clearbody f. destruct smoke; cbn [omap list_omap].
    + rewrite (Hsome 64%N), (Hno 4096%N), (Hno 65536%N); [reflexivity| | |cbn; set_solver];
        apply (bool_decide_eq_true_1 _); vm_compute; reflexivity.
    + by rewrite !Hsome by (cbn; set_solver).
  - unfold wide_gates. destruct smoke.
    + rewrite Hnone; [done|]. apply (bool_decide_eq_true_1 _); vm_compute; reflexivity.
    + change (lit "control-ipc/persistent-binary/inflight-16/payload-64") with (case_name PersistentBinary 16 64).
      pose proof (Hfind (PersistentBinary, 16%N, 64%N)) as H16. cbn [fst snd] in H16.
      rewrite H16; [done|]. cbn. set_solver.
Qed.

(** The verdict of the benchmark: it ends in the error of the first case, in
    the order of the plan, that cannot be measured; otherwise its report has
    exactly the cases of the plan, and it passes exactly if the persistent
    binary session is at least 40 % faster at the 95th percentile than a
    connection per request, allocates at least 30 % less beyond the payload for
    every payload that was measured, and keeps to a twentieth of a connection per
    request, with one request in flight and, unless it is a smoke run, with
    sixteen. *)
Theorem ipc_verdict :
  (∀ e, ipc_main windows smoke run = Err e ↔
     ∃ before after x, case_plan smoke = before ++ x :: after ∧ case_of x = Err e ∧
       Forall (λ y, is_ok (case_of y) = true) before) ∧
  ∀ report failed, ipc_main windows smoke run = Ok (report, failed) →
    ∃ c : BenchMode → N → N → CaseResult,
      (∀ e, e ∈ case_plan smoke → case_of e = Ok (c e.1.1 e.1.2 e.2)) ∧
      cases report = ((λ e, c e.1.1 e.1.2 e.2) <$> case_plan smoke) ∧
      (failed = false ↔
        (fleb (literal 40 100) (p95_reduction (c OneShotJsonl 1 64) (c PersistentBinary 1 64)) = true ∧
         fleb (connections_per_request (c PersistentBinary 1 64)) (literal 5 100) = true ∧
         (∀ payload, payload ∈ payloads smoke →
            fleb (literal 30 100)
              (overhead_reduction payload (c OneShotJsonl 1 payload) (c PersistentBinary 1 payload)) = true) ∧
         (smoke = false → fleb (connections_per_request (c PersistentBinary 16 64)) (literal 5 100) = true))%N).
Proof.
  split.
  { intros e. unfold ipc_main. rewrite rbind_err, run_plan, collect_fmap_err. split; [|by left].
    by intros [H|(cs & _ & H)]. }
  intros report failed (Hcs & Hreport & ->)%ipc_main_ok.
  destruct (plan_case _ (OneShotJsonl, 1%N, 64%N) Hcs) as [dummy _]; [destruct smoke; cbn; set_solver|].
  set (c := λ mode i p, match case_of (mode, i, p) with Ok c => c | Err _ => dummy end).
  assert (Hc : ∀ e, e ∈ case_plan smoke → case_of e = Ok (c e.1.1 e.1.2 e.2)).
  { intros e He. destruct (plan_case _ e Hcs He) as [c' Hc']. unfold c. destruct e as [[mode i] p]. simpl.
    by rewrite Hc'. }
  exists c. split; [done|]. clearbody c. split.
  { assert (Hall : collect_results (case_of <$> case_plan smoke) = Ok ((λ e, c e.1.1 e.1.2 e.2) <$> case_plan smoke)).
    { apply collect_results_ok. rewrite <-list_fmap_compose. apply list_fmap_ext.
      intros i e He. simpl. by eapply Hc, list_elem_of_lookup_2. }
    by rewrite (proj2 (collect_results_ok _ _) Hcs) in Hall; injection Hall. }
  rewrite negb_false_iff, Hreport. cbn [passed ipc_report]. rewrite (gates_of_cases _ _ Hcs Hc).
  rewrite !forallb_app, !andb_true_iff. cbn [forallb short_gates reduction_gate connections_gate gate_passed].
  rewrite !andb_true_iff, (forallb_forall _ (overhead_gate c <$> payloads smoke)).
  assert (Hover : (∀ g, In g (overhead_gate c <$> payloads smoke) → gate_passed g = true) ↔
    ∀ payload, payload ∈ payloads smoke → fleb (literal 30 100)
      (overhead_reduction payload (c OneShotJsonl 1%N payload) (c PersistentBinary 1%N payload)) = true).
  { setoid_rewrite <-list_elem_of_In. split.
    - intros Hg p Hp. apply (Hg (overhead_gate c p)). by apply list_elem_of_fmap_2.
    - intros Hg g (p & -> & Hp)%list_elem_of_fmap. by apply Hg. }
  rewrite Hover. clear Hover. unfold wide_gates.
  destruct smoke; cbn [forallb connections_gate gate_passed]; rewrite ?andb_true_iff; split.
  - intros ((Hp & Hn & _) & Ho & _). by split_and!.
  - intros (Hp & Hn & Ho & _). by split_and!.
  - intros ((Hp & Hn & _) & Ho & Hw & _). by split_and!.
  - intros (Hp & Hn & Ho & Hw). specialize (Hw eq_refl). by split_and!.
Qed.
End verdict.

Lemma case_latencies_witness :
  let m := mkMeasured [(30, Ok tt); (10, Ok tt); (20, Ok tt)]%N (literal 6 100) 0 600 1 in
  ∃ c, case_result PersistentBinary 1 64 3 m = Ok c ∧ (p50_ns c <= p95_ns c)%N.
Proof.
  intros m. destruct (case_latencies PersistentBinary 1 64 3 m) as [_ H].
  destruct (case_result PersistentBinary 1 64 3 m) as [c|e] eqn:E; [|vm_compute in E; discriminate].
  destruct (H c eq_refl) as (_ & [Hle _] & _). exists c. split; [reflexivity|exact Hle].
Defined.

(** A session that needs a tenth of the time and of the memory. *)
Definition sample_measure (mode : BenchMode) (i p : N) : measured :=
  match mode with
  | PersistentBinary => mkMeasured (replicate 32 (10, Ok tt)%N) (literal 1 1000) 0 (2 * p * 32 + 320) 1
  | _ => mkMeasured (replicate 32 (100, Ok tt)%N) (literal 1 100) 0 (2 * p * 32 + 3200) 1
  end%N.

Lemma ipc_verdict_witness :
  ∃ report, ipc_main false true (run sample_measure) = Ok (report, false) ∧
  ∃ c : BenchMode → N → N → CaseResult,
    fleb (connections_per_request (c PersistentBinary 1 64)%N) (literal 5 100) = true.
Proof.
  destruct (ipc_verdict false true sample_measure) as [_ H].
  destruct (ipc_main false true (run sample_measure)) as [[report failed]|e] eqn:E; [|vm_compute in E; discriminate].
  destruct (H report failed eq_refl) as (c & _ & _ & Hiff).
  assert (Hf : failed = false).
  { apply (f_equal (λ r, match r with Ok (_, f) => f | Err _ => true end)) in E. simpl in E. rewrite <-E.
    vm_compute. reflexivity. }
  subst failed. destruct (proj1 Hiff eq_refl) as (_ & Hn & _). exists report. split; [reflexivity|]. exists c. exact Hn.
Defined.
