(* ===== verification/BenchLoad.v ===== *)
(** * The load of a case of the control benchmark

    [run_case] of [crates/mutsuki-service-benchmarks/src/bin/control_ipc_bench.rs]:
    the warmup, the requests that are made one after the other, and the requests
    of a persistent session, each on a task of its own, at most [in_flight] of
    them at a time.  The tasks are a state machine, whose theorems hold for every
    order in which the answers come in.  What the case measured is made into its
    result by [case_result] ([ControlBench]). *)

From stdpp Require Import sorting.
From S2P Require Import Prelude Text Float64 ControlBench.

(** ** The spawned requests *)

(** What joining a task gives: the error of a task that panicked, or the
    latency with the answer of its request. *)
Abbreviation joined := (result (N * result unit text) text).

Inductive load_task : Type := Asked | Finished (r : joined).

(** The permits of the semaphore, the handles in the order they were spawned,
    the latencies of the handles that were joined, and the end of the loops. *)
Record load_state : Type := mkLoad {
  l_permits : nat; l_tasks : list load_task; l_latencies : list N; l_result : option (result unit text);
}.

Definition load_start (in_flight : nat) : load_state := mkLoad in_flight [] [] None.

Inductive load_label : Type :=
| Spawn                               (* a permit is acquired, the task spawned *)
| Finish (i : nat) (r : joined)       (* the task ends and drops its permit *)
| Join.                               (* the next handle is awaited, or none is left *)

Definition spawn_request (total : nat) (s : load_state) : option load_state :=
  match l_result s, l_permits s with
  | None, S permits =>
      if (length (l_tasks s) <? total)%nat
      then Some (mkLoad permits (l_tasks s ++ [Asked]) (l_latencies s) None) else None
  | _, _ => None
  end.

(** A task goes on when [run_case] has returned: nothing aborts it. *)
Definition finish_request (i : nat) (r : joined) (s : load_state) : option load_state :=
  match l_tasks s !! i with
  | Some Asked => Some (mkLoad (S (l_permits s)) (<[i := Finished r]> (l_tasks s)) (l_latencies s) (l_result s))
  | _ => None
  end.

(** [let (ns, result) = handle.await?; result?; latencies.push(ns)]. *)
Definition join_request (total : nat) (s : load_state) : option load_state :=
  let ends r := Some (mkLoad (l_permits s) (l_tasks s) (l_latencies s) (Some r)) in
  match l_result s with
  | Some _ => None
  | None =>
      if (length (l_tasks s) <? total)%nat then None
      else
        match l_tasks s !! length (l_latencies s) with
        | None => ends (Ok tt)
        | Some Asked => None
        | Some (Finished (Err e)) | Some (Finished (Ok (_, Err e))) => ends (Err e)
        | Some (Finished (Ok (ns, Ok _))) =>
            Some (mkLoad (l_permits s) (l_tasks s) (l_latencies s ++ [ns]) None)
        end
  end.

Definition load_step (total : nat) (lb : load_label) (s : load_state) : option load_state :=
  match lb with
  | Spawn => spawn_request total s
  | Finish i r => finish_request i r s
  | Join => join_request total s
  end.

Fixpoint load_run (total : nat) (ls : list load_label) (s : load_state) : option load_state :=
  match ls with
  | [] => Some s
  | lb :: ls => s' ← load_step total lb s; load_run total ls s'
  end.

(** ** A case *)

(** [ControlSession::connect] sets the counter to one, and nothing counts a
    further connection. *)
Definition connection_count : N := 1.

(** What the server, the connections and the clock answer. *)
Record case_env : Type := mkCaseEnv {
  e_server : result unit text;
  e_warm : nat → result unit text;
  e_warm_session : result unit text * result unit text;      (* connect, close *)
  e_oneshot : nat → N * result unit text;
  e_session : result unit text * result unit text;
  e_schedule : list load_label;
  e_elapsed : f64; e_alloc_before : N; e_alloc_after : N;
}.

Definition run_warmup (mode : BenchMode) (warmup : nat) (env : case_env) : result unit text :=
  let ask := rmap (λ _, tt) (collect_results (e_warm env <$> seq 0 warmup)) in
  match mode with
  | OneShotJsonl => ask
  | _ =>
      let? _ := (e_warm_session env).1 in
      let? _ := ask in
      (e_warm_session env).2
  end.

(** The requests with their latencies; [None] while the tasks of a session have
    not come to an end.  All of them have been joined when the session is closed,
    so that no task shares it any more. *)
Definition run_load (mode : BenchMode) (in_flight total : nat) (env : case_env)
    : option (result (list (N * result unit text)) text) :=
  match mode with
  | OneShotJsonl => Some (Ok (e_oneshot env <$> seq 0 total))
  | _ =>
      match (e_session env).1 with
      | Err e => Some (Err e)
      | Ok _ =>
          s ← load_run total (e_schedule env) (load_start in_flight);
          r ← l_result s;
          Some (let? _ := r in
                let? _ := (e_session env).2 in
                Ok ((λ ns, (ns, Ok tt)) <$> l_latencies s))
      end
  end.

Definition run_case (mode : BenchMode) (in_flight payload_bytes requests warmup : N) (env : case_env)
    : option (result CaseResult text) :=
  match (let? _ := e_server env in run_warmup mode (N.to_nat warmup) env) with
  | Err e => Some (Err e)
  | Ok _ =>
      measured ← run_load mode (N.to_nat in_flight) (N.to_nat requests) env;
      Some (let? answers := measured in
            case_result mode in_flight payload_bytes requests
              (mkMeasured answers (e_elapsed env) (e_alloc_before env) (e_alloc_after env) connection_count))
  end.

(** ** Lemmas *)

#[local] Opaque literal fmul fdiv fsub fceil fabs f64_of_N.

Definition is_asked (t : load_task) : bool := match t with Asked => true | Finished _ => false end.
Definition asked (ts : list load_task) : nat := length (List.filter is_asked ts).

Definition answered (ns : N) : load_task := Finished (Ok (ns, Ok tt)).

(** The error that joining a task ends the case with. *)
Definition join_error (r : joined) : option text :=
  match r with Err e | Ok (_, Err e) => Some e | Ok (_, Ok _) => None end.

Lemma asked_app l1 l2 : asked (l1 ++ l2) = (asked l1 + asked l2)%nat.
Proof. unfold asked. by rewrite List.filter_app, length_app. Qed.

Lemma asked_spawn ts : asked (ts ++ [Asked]) = S (asked ts).
Proof. rewrite asked_app. unfold asked at 2. simpl. lia. Qed.

Lemma asked_finish ts i r : ts !! i = Some Asked → S (asked (<[i:=Finished r]> ts)) = asked ts.
Proof.
  intros Hi. rewrite <-(take_drop_middle ts i Asked Hi) at 2. rewrite insert_take_drop by by eapply lookup_lt_Some.
  rewrite !asked_app. unfold asked. simpl. lia.
Qed.

Lemma asked_answered l : asked (answered <$> l) = 0%nat.
Proof. by induction l. Qed.

(** The handles that were joined succeeded; while requests are still spawned
    none is joined. *)
Record load_inv (total in_flight : nat) (s : load_state) : Prop := {
  li_permits : (l_permits s + asked (l_tasks s))%nat = in_flight;
  li_spawned : (length (l_tasks s) <= total)%nat;
  li_joined : ∃ rest, l_tasks s = (answered <$> l_latencies s) ++ rest ∧
    match l_result s with
    | None => True
    | Some (Ok _) => rest = []
    | Some (Err e) => ∃ r rest', rest = Finished r :: rest' ∧ join_error r = Some e
    end;
  li_all : l_latencies s ≠ [] ∨ l_result s ≠ None → length (l_tasks s) = total;
}.

(** Spawning, finishing and joining use up a budget. *)
Definition load_budget (total : nat) (s : load_state) : nat :=
  (2 * (total - length (l_tasks s)) + asked (l_tasks s) + (total - length (l_latencies s))
   + (match l_result s with Some _ => 0 | None => 1 end))%nat.

Lemma load_start_inv total in_flight : load_inv total in_flight (load_start in_flight).
Proof. split; simpl; [unfold asked; simpl; lia|lia| |by intros [|]]. by exists []. Qed.

Lemma spawn_inv total n s s' : load_inv total n s → spawn_request total s = Some s' →
  load_inv total n s' ∧ (load_budget total s' < load_budget total s)%nat.
Proof.
  intros [Hp Hs (rest & Ht & _) Ha]. unfold spawn_request, load_budget. intros H.
  destruct (l_result s) eqn:Er; [done|]. destruct (l_permits s) as [|p] eqn:Ep; [done|].
  destruct (Nat.ltb_spec (length (l_tasks s)) total); [|done]. injection H as <-. simpl.
  assert (Hl : l_latencies s = []).
  { destruct (l_latencies s); [done|]. exfalso. assert (length (l_tasks s) = total) by (apply Ha; by left). lia. }
  rewrite length_app, asked_spawn. simpl. split; [|lia].
  split; simpl; rewrite ?length_app, ?asked_spawn; simpl; [lia|lia| |].
  - exists (rest ++ [Asked]). by rewrite Ht, <-app_assoc.
  - rewrite Hl. by intros [|].
Qed.

Lemma finish_inv total n i r s s' : load_inv total n s → finish_request i r s = Some s' →
  load_inv total n s' ∧ (load_budget total s' < load_budget total s)%nat.
Proof.
  intros [Hp Hs (rest & Ht & Hr) Ha]. unfold finish_request, load_budget. intros H.
  destruct (l_tasks s !! i) as [[]|] eqn:Ei; [|done..]. injection H as <-. simpl.
  pose proof (asked_finish _ _ r Ei). rewrite length_insert. split; [|lia].
  split; simpl; rewrite ?length_insert; [lia|done| |done].
  rewrite Ht in Ei. destruct (decide (i < length (answered <$> l_latencies s))%nat) as [Hi|Hi].
  { rewrite lookup_app_l in Ei by done. apply list_lookup_fmap_Some in Ei as (x & [=] & _). }
  apply Nat.nlt_ge in Hi. rewrite lookup_app_r in Ei by done.
  exists (<[i - length (answered <$> l_latencies s) := Finished r]> rest)%nat.
  rewrite Ht, insert_app_r_alt by done. split; [done|].
  destruct (l_result s) as [[u|e]|]; [by subst| |done].
  destruct Hr as (r' & rest' & -> & He).
  destruct (i - length _)%nat as [|k]; [done|]. simpl. by eauto.
Qed.

Lemma join_inv total n s s' : load_inv total n s → join_request total s = Some s' →
  load_inv total n s' ∧ (load_budget total s' < load_budget total s)%nat.
Proof.
  intros [Hp Hs (rest & Ht & Hr) Ha]. unfold join_request, load_budget. intros H.
  destruct (l_result s) eqn:Er; [done|].
  destruct (Nat.ltb_spec (length (l_tasks s)) total) as [|Hall]; [done|].
  assert (Hn : length (l_tasks s) = total) by lia.
  rewrite Ht in H at 1. rewrite lookup_app_r, length_fmap, Nat.sub_diag in H by by rewrite length_fmap.
  destruct rest as [|[|[[ns [[]|e]]|e]] rest]; simpl in H; simplify_eq; simpl.
  - split; [|lia]. by split; simpl; eauto.
  - assert (Hlen := f_equal length Ht). rewrite length_app, length_fmap in Hlen. simpl in Hlen.
    rewrite length_app. simpl. split; [|lia]. split; simpl; [done..| |done].
    exists rest. by rewrite fmap_app, <-app_assoc.
  - split; [|lia]. split; simpl; [done..| |done]. eexists. split; [done|]. by eauto.
  - split; [|lia]. split; simpl; [done..| |done]. eexists. split; [done|]. by eauto.
Qed.

Lemma load_step_inv total n lb s s' : load_inv total n s → load_step total lb s = Some s' →
  load_inv total n s' ∧ (load_budget total s' < load_budget total s)%nat.
Proof. destruct lb; [apply spawn_inv|apply finish_inv|apply join_inv]. Qed.

Lemma load_run_inv total n ls s s' : load_inv total n s → load_run total ls s = Some s' →
  load_inv total n s' ∧ (length ls + load_budget total s' <= load_budget total s)%nat.
Proof.
  revert s. induction ls as [|lb ls IH]; intros s Hi; simpl; [intros [= ->]; by split|].
  intros (s1 & H1 & H2)%bind_Some. destruct (load_step_inv _ _ _ _ _ Hi H1) as [Hi1 Hb].
  destruct (IH _ Hi1 H2). split; [done|lia].
Qed.

(** Without an unanswered request, the loops go on. *)
Lemma load_progress total n s : load_inv total n s → n ≠ 0%nat → l_result s = None → asked (l_tasks s) = 0%nat →
  is_Some (load_step total Spawn s) ∨ is_Some (load_step total Join s).
Proof.
  intros [Hp Hs (rest & Ht & _) _] Hn Hr Ha. simpl. unfold spawn_request, join_request. rewrite Hr.
  destruct (Nat.ltb_spec (length (l_tasks s)) total) as [|Hall].
  - left. destruct (l_permits s); [lia|]. by eexists.
  - right. rewrite Ht at 1. rewrite lookup_app_r, length_fmap, Nat.sub_diag by by rewrite length_fmap.
    destruct rest as [|[|[[ns [[]|e]]|e]] rest]; simpl; try by eexists.
    rewrite Ht, asked_app in Ha. unfold asked at 2 in Ha. simpl in Ha. lia.
Qed.

Lemma load_stuck total ls s : total ≠ 0%nat → load_run total ls (load_start 0) = Some s → s = load_start 0.
Proof.
  intros Ht. destruct ls as [|lb ls]; simpl; [by intros [= <-]|].
  intros (s1 & H1 & _)%bind_Some. destruct lb as [| |]; simpl in H1; try done.
  unfold join_request in H1. simpl in H1. destruct (Nat.ltb_spec 0 total); [done|lia].
Qed.

Lemma run_case_measured mode i p n w env c : run_case mode i p n w env = Some (Ok c) →
  ∃ answers, run_load mode (N.to_nat i) (N.to_nat n) env = Some (Ok answers) ∧
    case_result mode i p n
      (mkMeasured answers (e_elapsed env) (e_alloc_before env) (e_alloc_after env) connection_count) = Ok c.
Proof.
  unfold run_case. intros H. destruct (rbind _ _); [|done].
  apply bind_Some in H as ([answers|e] & Hl & [= H]). by exists answers.
Qed.

(** ** Properties *)

(** The load on a session, in every order in which its requests are answered:
    at most [in_flight] requests are made at a time, and a permit is never lost;
    the loops end after a bounded number of steps, and while they have not ended
    they can go on or wait for an answer, unless nothing may be in flight, when
    they wait for ever.  The case then has the latencies of all its requests in
    the order they were made, or ends with the first failure in that order. *)
Theorem load_measured total in_flight ls s :
  load_run total ls (load_start in_flight) = Some s →
  (l_permits s + asked (l_tasks s))%nat = in_flight ∧ (length (l_tasks s) <= total)%nat ∧
  (length ls <= 3 * total + 1)%nat ∧
  (l_result s = None → in_flight ≠ 0%nat → asked (l_tasks s) = 0%nat →
     is_Some (load_step total Spawn s) ∨ is_Some (load_step total Join s)) ∧
  (in_flight = 0%nat → total ≠ 0%nat → l_result s = None) ∧
  (∀ u, l_result s = Some (Ok u) →
     l_tasks s = answered <$> l_latencies s ∧ length (l_latencies s) = total) ∧
  (∀ e, l_result s = Some (Err e) →
     ∃ r rest, l_tasks s = (answered <$> l_latencies s) ++ Finished r :: rest ∧ join_error r = Some e ∧
       length (l_tasks s) = total).
Proof.
  intros Hrun. destruct (load_run_inv _ _ _ _ _ (load_start_inv total in_flight) Hrun) as [Hi Hb].
  pose proof (load_progress _ _ _ Hi) as Hgo. destruct Hi as [Hp Hs (rest & Ht & Hr) Ha].
  split_and!; [done|done| |auto| | |].
  - unfold load_budget in Hb. simpl in Hb. unfold asked in Hb at 2. simpl in Hb. lia.
  - intros -> H0. by rewrite (load_stuck _ _ _ H0 Hrun).
  - intros u Hu. rewrite Hu in Hr, Ha. subst rest. rewrite app_nil_r in Ht. split; [done|].
    assert (Hn : length (l_tasks s) = total) by by apply Ha; right. by rewrite <-Hn, Ht, length_fmap.
  - intros e He. rewrite He in Hr, Ha. destruct Hr as (r & rest' & -> & Hj). exists r, rest'. split_and!; [done..|].
    by apply Ha; right.
Qed.

(** A session keeps to the limit of the gates for connections in every run of
    the benchmark, whatever it did: the counter that is read is never raised. *)
Theorem session_gate_holds mode in_flight payload smoke env id c :
  mode ≠ OneShotJsonl →
  run_case mode in_flight payload (requests_per_case smoke) (warmup_per_case smoke) env = Some (Ok c) →
  gate_passed (connections_gate id c) = true.
Proof.
  intros Hm (answers & _ & (times & _ & [= <-])%rbind_ok)%run_case_measured.
  cbn [connections_gate gate_passed connections_per_request ms_connections].
  destruct mode; [done| |]; destruct smoke; by vm_compute.
Qed.

(** Three requests, two at a time, answered in the reverse order. *)
Definition sample_schedule : list load_label :=
  [Spawn; Spawn; Finish 1 (Ok (20, Ok tt)); Spawn; Finish 2 (Ok (30, Ok tt)); Finish 0 (Ok (10, Ok tt));
   Join; Join; Join; Join]%N.

Lemma load_measured_witness :
  ∃ s, load_run 3 sample_schedule (load_start 2) = Some s ∧ l_result s = Some (Ok tt) ∧
    l_tasks s = answered <$> [10; 20; 30]%N ∧ length sample_schedule = (3 * 3 + 1)%nat.
Proof.
  destruct (load_run 3 sample_schedule (load_start 2)) as [s|] eqn:E; [|vm_compute in E; discriminate E].
  destruct (load_measured 3 2 sample_schedule s E) as (_ & _ & _ & _ & _ & Hok & _).
  vm_compute in E. injection E as <-. eexists. split; [reflexivity|]. split; [reflexivity|].
  split; [|reflexivity]. exact (proj1 (Hok tt eq_refl)).
Defined.

Definition sample_env : case_env :=
  let answers (i : nat) (r : N) := Finish i (Ok (r, Ok tt)) in
  mkCaseEnv (Ok tt) (λ _, Ok tt) (Ok tt, Ok tt) (λ _, (1%N, Ok tt)) (Ok tt, Ok tt)
    (concat ((λ i, [Spawn; answers i (N.of_nat i)]) <$> seq 0 32) ++ replicate 33 Join)
    (f64_of_N 1) 0 0.

Lemma session_gate_holds_witness :
  ∃ c, run_case PersistentBinary 1 64 (requests_per_case true) (warmup_per_case true) sample_env = Some (Ok c) ∧
    gate_passed (connections_gate (lit "connections") c) = true.
Proof.
  destruct (run_case PersistentBinary 1 64 (requests_per_case true) (warmup_per_case true) sample_env)
    as [[c|e]|] eqn:E; [|vm_compute in E; discriminate E..].
  exists c. split; [reflexivity|].
  exact (session_gate_holds PersistentBinary 1 64 true sample_env (lit "connections") c ltac:(discriminate) E).
Defined.
