(* ===== verification/BenchClient.v ===== *)
(** * The client side of the benchmarks

    [crates/mutsuki-service-benchmarks/src/main.rs]: requests over the control
    interface, the fixtures and what is expected of them, waves and sustained
    load, one sample, and the main loop.  The server is a function of its own
    state; times are read off that state. *)

From S2P Require Import Prelude Text BTreeMap Value Control ConfigTypes Frame Fs Plugins Supervisor Catalog Boot.
From S2P Require Import Deployment EventSource LogTail Serde Payloads Tasks Runtime Params.
From S2P Require Import Float64 Responses.
From S2P Require Fixture BenchStats.

(** Results with the state of the server. *)
Definition eff (St A : Type) : Type := St → result A text * St.

Section eff.
Context {St : Type}.
Definition eret {A} (a : A) : eff St A := λ st, (Ok a, st).
Definition efail {A} (e : text) : eff St A := λ st, (Err e, st).
Definition elift {A} (r : result A text) : eff St A := λ st, (r, st).
Definition ebind {A B} (m : eff St A) (f : A → eff St B) : eff St B := λ st,
  let '(r, st) := m st in match r with Ok a => f a st | Err e => (Err e, st) end.
End eff.

Declare Scope eff_scope.
Delimit Scope eff_scope with eff.
Notation "'do!' x := a 'in' b" := (ebind a (λ x, b))
  (at level 10, x name, a at level 100, b at level 200) : eff_scope.
#[local] Open Scope eff_scope.

(** Constructors of the contracts crate, and formatting. *)
Class BenchContracts `{TaskCore} : Type := {
  Task : Type;
  task_new : text → text → json → Task;       (* id, protocol, payload *)
  one_batch : text → Task → TaskBatch;                (* [TaskBatch::one] *)
  mk_batch : text → list Task → TaskBatch;         (* no tick, no resource plan *)
  btree_to_string : btree json → option text; (* [serde_json::to_string] *)
  hash_value : json → text;                   (* [canonical_hash] *)
  debug_expected : option json → text;
  debug_answer : result json text → text;
}.

(** [serde_json::Value] equality.  Floats are compared by their bits, which is the
    same unless both are zeros; no expected output has one. *)
Definition number_eqb (a b : number) : bool :=
  match a, b with
  | PosInt n, PosInt m => (n =? m)%N
  | NegInt x, NegInt y => (x =? y)%Z
  | Float x, Float y => (x =? y)%N
  | _, _ => false
  end.

Fixpoint json_eqb (a b : json) : bool :=
  match a, b with
  | JNull, JNull => true
  | JBool x, JBool y => Bool.eqb x y
  | JNumber x, JNumber y => number_eqb x y
  | JString s, JString t => text_eqb s t
  | JArray l, JArray k =>
      (fix go l k := match l, k with
                     | [], [] => true
                     | x :: l, y :: k => json_eqb x y && go l k
                     | _, _ => false
                     end) l k
  | JObject l, JObject k =>
      (fix go (l k : list (text * json)) :=
         match l, k with
         | [], [] => true
         | (i, x) :: l, (j, y) :: k => text_eqb i j && json_eqb x y && go l k
         | _, _ => false
         end) l k
  | _, _ => false
  end.

Lemma number_eqb_eq a b : number_eqb a b = true ↔ a = b.
Proof.
  destruct a, b; simpl; rewrite ?N.eqb_eq, ?Z.eqb_eq; split; congruence.
Qed.

Lemma json_eqb_eq a b : json_eqb a b = true ↔ a = b.
Proof.
  revert b. induction a as [|x|x|x|l IH|m IH] using json_ind_nested; intros b; destruct b as [|y|y|y|k|k];
    simpl; try (split; [done|congruence]).
  - rewrite Bool.eqb_true_iff. split; congruence.
  - rewrite number_eqb_eq. split; congruence.
  - rewrite text_eqb_eq. split; congruence.
  - transitivity (l = k); [|split; congruence].
    revert k. induction IH as [|x l Hx _ IHl]; intros [|y k]; simpl; try (split; [done|congruence]).
    rewrite andb_true_iff, Hx, IHl. split; [by intros [-> ->]|by intros [= -> ->]].
  - transitivity (m = k); [|split; congruence].
    revert k. induction IH as [|[i x] m Hx _ IHm]; intros [|[j y] k]; simpl in *; try (split; [done|congruence]).
    rewrite !andb_true_iff, text_eqb_eq, Hx, IHm. split; [by intros [[-> ->] ->]|by intros [= -> -> ->]].
Qed.

Section client.
Context `{TaskCore} `{!ParamContracts TaskBatch} `{!BenchContracts}.
Context {St : Type} (request : ControlMethod → json → St → result ControlResponse text * St).

Definition checked_request (m : ControlMethod) (params : json) : eff St json := λ st,
  let '(r, st) := request m params st in
  (match r with
   | Err e => Err e
   | Ok response =>
       if resp_ok response then Ok (default JNull (resp_result response))
       else Err match resp_error response with
                | Some e => code e ++ lit ": " ++ message e
                | None => lit "control request failed without an error"
                end
   end, st).

(** [serde_json::from_value]. *)
Definition read {A} (c : codec A) (v : json) : eff St A := elift (map_err de_error_text (dec c v)).

Definition submit (batch : TaskBatch) : eff St (TaskSubmitBatchResponse TaskHandle) :=
  do! submitted := checked_request TaskSubmitBatch (params_value (TaskSubmitBatchParam batch)) in
  read (c_submit_response handle_codec) submitted.

Definition wait (ids : list text) (timeout_ms : N) : eff St TaskWaitResponse :=
  do! v := checked_request TaskWait
             (jobj [(lit "ids", to_array JString ids); (lit "timeout_ms", jnum timeout_ms)]) in
  read c_wait_response v.

(** ** One fixture *)

Definition execute_fixture (protocol : text) (payload : json) (task_id : text) : eff St json :=
  do! submitted := submit (one_batch (lit "batch-" ++ task_id) (task_new task_id protocol payload)) in
  if negb (len (sr_handles submitted) =? 1)%N
  then efail (lit "submission returned an unexpected handle count")
  else
    do! wait := wait [task_id] 5000 in
    match wr_outcomes wait with
    | [] => efail (lit "task wait returned no outcomes")
    | outcome :: _ =>
        let status := ov_status outcome in
        if wr_timed_out wait && text_eqb status (lit "pending")
        then efail (lit "task " ++ task_id ++ lit " timed out in state pending")
        else if text_eqb status (lit "completed") then eret (default JNull (ov_output outcome))
        else if text_eqb status (lit "failed") || text_eqb status (lit "cancelled")
                || text_eqb status (lit "expired") || text_eqb status (lit "dead_letter")
        then efail (default [] (ov_error_code outcome) ++ lit ":" ++ default [] (ov_reason outcome) ++ lit ":"
                    ++ default [] (btree_to_string (ov_evidence outcome)))
        else efail (lit "task " ++ task_id ++ lit " ended in unexpected state " ++ status)
    end.

(** ** Load *)

Definition wait_task_ids (ids : list text) : eff St unit :=
  match ids with
  | [] => eret tt
  | _ =>
      do! wait := wait ids 10000 in
      if negb (len (wr_outcomes wait) =? len ids)%N
      then efail (lit "task wait returned " ++ show_N (len (wr_outcomes wait)) ++ lit " outcomes, expected "
                  ++ show_N (len ids))
      else
        match List.find (λ o, negb (text_eqb (ov_status o) (lit "completed"))) (wr_outcomes wait) with
        | Some o => efail (lit "task " ++ ov_task_id o ++ lit " ended in state " ++ ov_status o)
        | None =>
            if wr_timed_out wait then efail (lit "task wait timed out with pending work") else eret tt
        end
  end.

Definition load_id (prefix : text) (index : N) : text := prefix ++ lit "-" ++ show_N index.
Definition echo_payload (label : text) (index : N) : json :=
  jobj [(lit "message", JString label); (lit "sequence", jnum index)].
Fixpoint nrange (next : N) (k : nat) : list N :=
  match k with O => [] | S k => next :: nrange (next + 1) k end.
Definition indices (n : N) : list N := nrange 0 (N.to_nat n).   (* [0..n] *)

Definition run_task_wave (prefix : text) (tasks : N) : eff St unit :=
  let ids := load_id prefix <$> indices tasks in
  let batch_tasks :=
    (λ index, task_new (load_id prefix index) (lit "runner.echo") (echo_payload (lit "wave") index))
      <$> indices tasks in
  do! submitted := submit (mk_batch (lit "batch-" ++ prefix) batch_tasks) in
  if negb (len (sr_handles submitted) =? tasks)%N
  then efail (lit "wave submitted " ++ show_N (len (sr_handles submitted)) ++ lit " handles, expected "
              ++ show_N tasks)
  else wait_task_ids ids.

Definition submit_sustained (prefix : text) (index : N) : eff St unit :=
  let task_id := load_id prefix index in
  do! submitted := submit (one_batch (lit "batch-" ++ task_id)
                     (task_new task_id (lit "runner.echo") (echo_payload (lit "sustained") index))) in
  if negb (len (sr_handles submitted) =? 1)%N
  then efail (lit "sustained submit returned unexpected handle count") else eret tt.

(** The inner loop: submits until [inflight] tasks are outstanding or none is
    left.  [remaining] is the number of tasks that are left. *)
Fixpoint submit_more (remaining : nat) (prefix : text) (inflight next_id : N) (outstanding : list text)
    : eff St (N * list text) :=
  match remaining with
  | O => eret (next_id, outstanding)
  | S remaining =>
      if (len outstanding <? inflight)%N then
        do! _ := submit_sustained prefix next_id in
        submit_more remaining prefix inflight (next_id + 1) (outstanding ++ [load_id prefix next_id])
      else eret (next_id, outstanding)
  end.

(** The outer loop; [None] when the fuel is used up. *)
Fixpoint sustained_loop (fuel : nat) (prefix : text) (total_tasks inflight next_id : N)
    (outstanding : list text) (st : St) : option (result unit text * St) :=
  if (next_id <? total_tasks)%N || match outstanding with [] => false | _ => true end then
    match fuel with
    | O => None
    | S fuel =>
        match (do! more := submit_more (N.to_nat (total_tasks - next_id)) prefix inflight next_id outstanding in
               do! _ := wait_task_ids more.2 in eret more.1) st with
        | (Err e, st) => Some (Err e, st)
        | (Ok next_id, st) => sustained_loop fuel prefix total_tasks inflight next_id [] st
        end
    end
  else Some (Ok tt, st).

Definition run_sustained_inflight (fuel : nat) (prefix : text) (total_tasks inflight : N)
    : St → option (result unit text * St) :=
  sustained_loop fuel prefix total_tasks inflight 0 [].

(** ** The fixture suite *)

Definition accounts : Type := btree text * list text.   (* hashes, failures *)

(** Protocol, payload and expected output; without one, a failure is expected. *)
Definition fixtures : list (text * json * option json) :=
  [(lit "runner.noop", JObject [], Some (jobj [(lit "status", JString (lit "ok"))]));
   (lit "runner.echo", jobj [(lit "message", JString (lit "mutsuki")); (lit "sequence", jnum 1)],
      Some (jobj [(lit "echo", jobj [(lit "message", JString (lit "mutsuki")); (lit "sequence", jnum 1)])]));
   (lit "runner.calibrated-cpu", jobj [(lit "seed", jnum 1297435713)],
      Some (jobj [(lit "checksum", JString (Fixture.calibrated_checksum 1297435713))]));
   (lit "runner.wait", jobj [(lit "wake_key", JString (lit "fixture-wake"))],
      Some (jobj [(lit "resumed", JBool true)]));
   (lit "runner.resource", jobj [(lit "resource_ref", JString (lit "fixture-resource")); (lit "version", jnum 1)],
      Some (jobj [(lit "resource_id", JString (lit "fixture-resource")); (lit "version", jnum 1)]));
   (lit "runner.fault", jobj [(lit "fault", JString (lit "error"))], None)].

Definition failure_value : json :=
  jobj [(lit "error", jobj [(lit "code", JString (lit "fixture.failure")); (lit "retryable", JBool false)])].

Definition judge (name protocol : text) (expected : option json) (answer : result json text) (acc : accounts)
    : accounts :=
  let key := name ++ lit ":" ++ protocol in
  let failed := (acc.1, acc.2 ++ [name ++ lit " " ++ protocol ++ lit " expected " ++ debug_expected expected
                                  ++ lit ", got " ++ debug_answer answer]) in
  match answer, expected with
  | Ok output, Some e =>
      if json_eqb e output then (bset key (hash_value output) acc.1, acc.2) else failed
  | Err error, None =>
      if contains (lit "fixture.failure") error then (bset key (hash_value failure_value) acc.1, acc.2) else failed
  | _, _ => failed
  end.

Fixpoint verify_from (name : text) (index : N) (l : list (text * json * option json)) (acc : accounts)
    : St → accounts * St :=
  match l with
  | [] => λ st, (acc, st)
  | (protocol, payload, expected) :: l => λ st,
      let task_id := lit "fixture-" ++ name ++ lit "-" ++ show_N index in
      let '(answer, st) := execute_fixture protocol payload task_id st in
      verify_from name (index + 1) l (judge name protocol expected answer acc) st
  end.

Definition verify_fixtures (name : text) (acc : accounts) : eff St accounts := λ st,
  let '(acc, st) := verify_from name 0 fixtures acc st in (Ok acc, st).

(** ** One sample *)

Inductive BenchDeployment : Type := Builtin | Abi | RustProcess.
Definition ALL : list BenchDeployment := [Builtin; Abi; RustProcess].
Definition name_of (d : BenchDeployment) : text :=
  match d with
  | Builtin => lit "builtin" | Abi => lit "abi" | RustProcess => lit "rust-process-jsonl"
  end.

Context (start_runtime : BenchDeployment → eff St unit) (shutdown : St → St) (clock : St → N).

Definition timed {A} (m : eff St A) : eff St (A * f64) := λ st,
  let '(r, st') := m st in (rmap (λ a, (a, f64_of_N (clock st' - clock st))) r, st').

Definition ECHO_HASH : text := lit "e410c601945ccfb5b6f145d04ad4e2c8ae402ab6f96119acba08ba33349d67b3".

(** The load of a sample ends: see [sustained_waves]. *)
Definition sustained_load (prefix : text) (total_tasks inflight : N) : eff St unit := λ st,
  default (Err [], st) (run_sustained_inflight (S (N.to_nat total_tasks)) prefix total_tasks inflight st).

Definition run_sample (d : BenchDeployment) (run_fixture_suite : bool) (acc : accounts)
    : eff St (BenchStats.Sample * accounts) :=
  do! startup := timed (start_runtime d) in
  do! health := timed (checked_request HealthCheck JNull) in
  do! echo := timed (execute_fixture (lit "runner.echo") (echo_payload (lit "mutsuki") 1) (lit "measured-echo")) in
  let echo_hash := hash_value echo.1 in
  let acc := if text_eqb echo_hash ECHO_HASH then acc
             else (acc.1, acc.2 ++ [name_of d ++ lit " echo hash " ++ echo_hash]) in
  let wave_tasks := 256%N in
  do! wave := timed (run_task_wave (lit "wave") wave_tasks) in
  let sustained_tasks := 512%N in
  do! sustained := timed (sustained_load (lit "sustained") sustained_tasks 128) in
  do! acc := (if run_fixture_suite then verify_fixtures (name_of d) acc else eret acc) in
  do! reload := timed (checked_request PluginReload JNull) in
  do! stop := timed (λ st, (Ok tt, shutdown st)) in
  eret ({| BenchStats.startup_ns := startup.2; BenchStats.health_ipc_ns := health.2;
           BenchStats.echo_e2e_ns := echo.2; BenchStats.concurrent_wave_ns := wave.2;
           BenchStats.concurrent_wave_tasks := wave_tasks; BenchStats.sustained_inflight_ns := sustained.2;
           BenchStats.sustained_inflight_tasks := sustained_tasks; BenchStats.reload_ns := reload.2;
           BenchStats.shutdown_ns := stop.2 |}, acc).

(** ** The main loop

    A failed run is a panic with the message, and ends the program. *)

Definition or_panic {A} (what : text) (m : eff St A) : eff St A := λ st,
  let '(r, st) := m st in (map_err (λ error, what ++ lit " failed: " ++ error) r, st).

Fixpoint run_warmups (n : nat) (d : BenchDeployment) (acc : accounts) : eff St accounts :=
  match n with
  | O => eret acc
  | S n =>
      do! r := or_panic (name_of d ++ lit " warmup") (run_sample d false acc) in
      run_warmups n d r.2
  end.

(** The first sample runs the fixture suite. *)
Fixpoint run_samples (n : nat) (first : bool) (d : BenchDeployment) (acc : accounts)
    : eff St (list BenchStats.Sample * accounts) :=
  match n with
  | O => eret ([], acc)
  | S n =>
      do! r := or_panic (name_of d ++ lit " sample") (run_sample d first acc) in
      do! rest := run_samples n false d r.2 in
      eret (r.1 :: rest.1, rest.2)
  end.

Fixpoint run_deployments (args : BenchStats.Args) (ds : list BenchDeployment)
    (all : btree (list BenchStats.Sample)) (acc : accounts) : eff St (btree (list BenchStats.Sample) * accounts) :=
  match ds with
  | [] => eret (all, acc)
  | d :: ds =>
      do! acc := run_warmups (N.to_nat (BenchStats.warmup args)) d acc in
      do! r := run_samples (N.to_nat (BenchStats.samples args)) true d acc in
      run_deployments args ds (bset (name_of d) r.1 all) r.2
  end.

(** How the program ends: the report it wrote to the output, if it got that far,
    and whether it panicked. *)
Definition bench_main (m : BenchStats.machine) (args : BenchStats.Args) (cpu_ns : f64) (st : St)
    : option (text * json) * bool :=
  match run_deployments args ALL [] ([], []) st with
  | (Err _, _) => (None, true)
  | (Ok (all, (hashes, failures)), _) =>
      match BenchStats.build_report m args all hashes failures cpu_ns with
      | None => (None, true)
      | Some report => (Some (BenchStats.output args, report), negb (bool_decide (failures = [])))
      end
  end.

End client.

(** ** Arguments *)

(** An unusable argument is a panic, with (the start of) its message. *)
Fixpoint scan_args (fuel : nat) (arguments : list text) (mode : text) (warmup samples : option N) (output : text)
    : result (text * option N * option N * text) text :=
  match fuel, arguments with
  | S fuel, argument :: rest =>
      let value := match rest with v :: _ => Ok v | [] => Err (argument ++ lit " value") end in
      let number (label : text) := let? v := value in ok_or (parse_unsigned usize_max v) label in
      if text_eqb argument (lit "--mode") then
        let? v := value in scan_args fuel (tail rest) v warmup samples output
      else if text_eqb argument (lit "--warmup") then
        let? n := number (lit "warmup integer") in scan_args fuel (tail rest) mode (Some n) samples output
      else if text_eqb argument (lit "--samples") then
        let? n := number (lit "samples integer") in scan_args fuel (tail rest) mode warmup (Some n) output
      else if text_eqb argument (lit "--output") then
        let? v := value in scan_args fuel (tail rest) mode warmup samples v
      else Err (lit "unknown argument " ++ argument)
  | _, _ => Ok (mode, warmup, samples, output)
  end.

Definition parse_args (arguments : list text) : result BenchStats.Args text :=
  let? r := scan_args (List.length arguments) arguments (lit "smoke") None None
              (lit "target/mutsuki-benchmarks/service-host-smoke.json") in
  let '(mode, warmup, samples, output) := r in
  let? defaults :=
    if text_eqb mode (lit "smoke") then Ok (0, 1)%N
    else if text_eqb mode (lit "reference") then Ok (1, 5)%N
    else Err (lit "mode must be smoke or reference") in
  Ok (BenchStats.mkArgs mode (default defaults.1 warmup) (N.max (default defaults.2 samples) 1) output).

(** ** Lemmas *)

Lemma nrange_app next a b : nrange next (a + b) = nrange next a ++ nrange (next + N.of_nat a) b.
Proof.
  revert next. induction a as [|a IH]; intros next; simpl; [f_equal; lia|].
  rewrite IH. do 3 f_equal. lia.
Qed.
Lemma nrange_length next k : List.length (nrange next k) = k.
Proof. revert next. induction k as [|k IH]; intros next; simpl; [done|]. by rewrite IH. Qed.
Lemma nrange_take next k n : take k (nrange next n) = nrange next (k `min` n).
Proof.
  revert next n. induction k as [|k IH]; intros next [|n]; simpl; [done..|]. by rewrite IH.
Qed.
Lemma nrange_drop next k n : drop k (nrange next n) = nrange (next + N.of_nat k) (n - k).
Proof.
  revert next n. induction k as [|k IH]; intros next [|n]; simpl; try done; [by rewrite N.add_0_r|].
  rewrite IH. f_equal. lia.
Qed.

(** [slice::chunks]: pieces of [k] elements, the last one with what is left. *)
Fixpoint chunks_fuel {A} (fuel k : nat) (l : list A) : list (list A) :=
  match fuel, l with
  | S fuel, _ :: _ => take k l :: chunks_fuel fuel k (drop k l)
  | _, _ => []
  end.
Definition chunks {A} (k : nat) (l : list A) : list (list A) := chunks_fuel (List.length l) k l.

Lemma chunks_join {A} fuel k (l : list A) : k ≠ O → (List.length l ≤ fuel)%nat → mjoin (chunks_fuel fuel k l) = l.
Proof.
  intros Hk. revert l. induction fuel as [|fuel IH]; intros [|x l] Hl; simpl in *; try done; [lia|].
  change (mjoin (?c :: ?cs)) with (c ++ mjoin cs). rewrite IH; [apply take_drop|].
  rewrite length_drop. simpl. lia.
Qed.

Lemma chunks_bound {A} fuel k (l : list A) : Forall (λ c, List.length c ≤ k)%nat (chunks_fuel fuel k l).
Proof.
  revert l. induction fuel as [|fuel IH]; intros [|x l]; simpl; constructor; [|apply IH].
  rewrite length_take. lia.
Qed.

Section iteration.
Context {St A : Type}.

(** [f] for every element, in order, until one fails. *)
Fixpoint eiter (f : A → eff St unit) (l : list A) : eff St unit :=
  match l with [] => eret tt | a :: l => do! _ := f a in eiter f l end.

End iteration.

Lemma ebind_ext {St A B} (m m' : eff St A) (f f' : A → eff St B) st :
  m st = m' st → (∀ a st, f a st = f' a st) → ebind m f st = ebind m' f' st.
Proof. intros Hm Hf. unfold ebind. rewrite Hm. destruct (m' st) as [[a|e] st']; auto. Qed.
Lemma ebind_assoc {St A B C} (m : eff St A) (f : A → eff St B) (g : B → eff St C) st :
  ebind (ebind m f) g st = ebind m (λ a, ebind (f a) g) st.
Proof. unfold ebind. by destruct (m st) as [[a|e] st']. Qed.

Section load.
Context `{TaskCore} `{!ParamContracts TaskBatch} `{!BenchContracts}.
Context {St : Type} (request : ControlMethod → json → St → result ControlResponse text * St).

(** One wave: the tasks are submitted one by one, then all of them awaited. *)
Definition wave_of (prefix : text) (wave : list N) : eff St unit :=
  do! _ := eiter (submit_sustained request prefix) wave in
  wait_task_ids request (load_id prefix <$> wave).

Lemma submit_more_spec remaining prefix inflight next out st :
  let k := (remaining `min` (N.to_nat inflight - List.length out))%nat in
  submit_more request remaining prefix inflight next out st =
  ebind (eiter (submit_sustained request prefix) (nrange next k))
    (λ _, eret ((next + N.of_nat k)%N, out ++ (load_id prefix <$> nrange next k))) st.
Proof.
  revert next out st. induction remaining as [|remaining IH]; intros next out st; cbn zeta.
  { simpl. by rewrite N.add_0_r, app_nil_r. }
  cbn [submit_more]. destruct (len out <? inflight)%N eqn:E.
  - apply N.ltb_lt in E. unfold len in E.
    destruct (N.to_nat inflight - List.length out)%nat as [|room] eqn:Er; [lia|].
    rewrite Nat.min_comm. cbn [Nat.min nrange eiter]. rewrite ebind_assoc. apply ebind_ext; [done|].
    intros _ st'. rewrite IH, length_app. simpl.
    replace (N.to_nat inflight - (List.length out + 1))%nat with room by lia. rewrite (Nat.min_comm room).
    apply ebind_ext; [done|]. intros _ st''. unfold eret. rewrite <-app_assoc. simpl.
    do 3 f_equal. lia.
  - apply N.ltb_ge in E. unfold len in E.
    replace (N.to_nat inflight - List.length out)%nat with O by lia. rewrite Nat.min_0_r. simpl.
    by rewrite N.add_0_r, app_nil_r.
Qed.

Lemma sustained_from fuel fuel' prefix total inflight next st :
  (0 < inflight)%N → let left := N.to_nat (total - next) in (left < fuel)%nat → (left ≤ fuel')%nat →
  sustained_loop request fuel prefix total inflight next [] st
  = Some (eiter (wave_of prefix) (chunks_fuel fuel' (N.to_nat inflight) (nrange next left)) st).
Proof.
  intros Hin. revert fuel' next st. induction fuel as [|fuel IH]; intros fuel' next st left Hf Hf'; [lia|].
  cbn [sustained_loop]. rewrite orb_false_r. destruct (next <? total)%N eqn:E.
  - apply N.ltb_lt in E. destruct left as [|left'] eqn:El; [unfold left in El; lia|].
    destruct fuel' as [|fuel']; [lia|]. cbn [chunks_fuel nrange].
    change (next :: nrange (next + 1) left') with (nrange next (S left')). rewrite nrange_take, nrange_drop.
    cbn [eiter]. fold left. rewrite El.
    set (k := (N.to_nat inflight `min` S left')%nat).
    assert (Hrun : (do! more := submit_more request (S left') prefix inflight next [] in
                    do! _ := wait_task_ids request more.2 in eret more.1) st
                   = ebind (wave_of prefix (nrange next k)) (λ _, eret (next + N.of_nat k)%N) st).
    { unfold wave_of. rewrite ebind_assoc.
      unfold ebind at 1. rewrite submit_more_spec. simpl List.length. rewrite Nat.sub_0_r.
      rewrite (Nat.min_comm (S left')). fold k. unfold ebind.
      by destruct (eiter _ _ st) as [[[]|e] st']. }
    rewrite Hrun. unfold ebind.
    destruct (wave_of prefix (nrange next k) st) as [[[]|e] st'] eqn:Ew; simpl; [|done].
    assert (Hn : (N.to_nat (total - (next + N.of_nat k)) = S left' - N.to_nat inflight)%nat) by (unfold left in El; lia).
    rewrite (IH fuel') by lia. rewrite Hn. f_equal.
    destruct (decide (S left' ≤ N.to_nat inflight)%nat).
    + replace (S left' - N.to_nat inflight)%nat with O by lia. done.
    + do 3 f_equal. lia.
  - apply N.ltb_ge in E. assert (El : left = O) by (unfold left; lia). rewrite El. by destruct fuel'.
Qed.

(** Sustained load is the plan it is meant to be, and comes to an end: with
    room for at least one task, the tasks are cut into pieces of at most
    [inflight] consecutive ones that together are all of them; the pieces run in
    order, each by submitting its tasks one by one and then waiting for exactly
    these, until one request fails.  Without room for a task the loop never ends
    (and sends nothing). *)
Theorem sustained_waves prefix total inflight :
  ((0 < inflight)%N →
     let waves := chunks (N.to_nat inflight) (indices total) in
     mjoin waves = indices total ∧ Forall (λ w, len w <= inflight)%N waves ∧
     ∀ fuel st, (N.to_nat total < fuel)%nat →
       run_sustained_inflight request fuel prefix total inflight st = Some (eiter (wave_of prefix) waves st)) ∧
  (inflight = 0%N → (0 < total)%N → ∀ fuel st, run_sustained_inflight request fuel prefix total inflight st = None).
Proof.
  split.
  - intros Hin waves. unfold waves, chunks, indices. rewrite nrange_length. split; [|split].
    + apply chunks_join; [lia|]. by rewrite nrange_length.
    + eapply Forall_impl; [apply chunks_bound|]. intros w Hw. simpl in Hw. unfold len. lia.
    + intros fuel st Hf. unfold run_sustained_inflight. rewrite (sustained_from fuel (N.to_nat total)); rewrite ?N.sub_0_r; done.
  - intros -> Ht fuel. unfold run_sustained_inflight. induction fuel as [|fuel IH]; intros st;
      cbn [sustained_loop]; rewrite (proj2 (N.ltb_lt _ _) Ht); [done|]. simpl orb.
    unfold ebind. rewrite submit_more_spec. simpl. rewrite Nat.min_0_r. simpl. apply IH.
Qed.

End load.

(** ** The fixture suite *)

(** What an expected output counts as. *)
Definition as_expected (expected : option json) (answer : result json text) : bool :=
  match answer, expected with
  | Ok output, Some e => json_eqb e output
  | Err error, None => contains (lit "fixture.failure") error
  | _, _ => false
  end.

Section suite.
Context `{TaskCore} `{!ParamContracts TaskBatch} `{!BenchContracts}.
Context {St : Type} (request : ControlMethod → json → St → result ControlResponse text * St).

Definition fixture_key (name protocol : text) : text := name ++ lit ":" ++ protocol.

Lemma judge_expected name protocol expected answer acc :
  judge name protocol expected answer acc =
  if as_expected expected answer
  then (bset (fixture_key name protocol) (hash_value (default failure_value expected)) acc.1, acc.2)
  else (acc.1, acc.2 ++ [name ++ lit " " ++ protocol ++ lit " expected " ++ debug_expected expected
                         ++ lit ", got " ++ debug_answer answer]).
Proof.
  unfold judge, as_expected. destruct answer as [output|error], expected as [e|]; simpl; try done.
  destruct (json_eqb e output) eqn:E; [|done]. apply json_eqb_eq in E as ->. done.
Qed.

Lemma fixture_key_inj name p p' : fixture_key name p = fixture_key name p' → p = p'.
Proof. unfold fixture_key. intros E. by apply app_inv_head, (app_inv_head (lit ":")) in E. Qed.

Lemma verify_from_spec name index l acc st acc' st' :
  NoDup (l.*1.*1) → verify_from request name index l acc st = (acc', st') →
  ∃ verdicts,
    Forall2 (λ f v, ∃ id st0 st1 answer, execute_fixture request f.1.1 f.1.2 id st0 = (answer, st1) ∧
                                         v = as_expected f.2 answer) l verdicts ∧
    length acc'.2 = (length acc.2 + length (filter (λ v, v = false) verdicts))%nat ∧
    (∀ protocol, protocol ∉ l.*1.*1 →
       bget acc'.1 (fixture_key name protocol) = bget acc.1 (fixture_key name protocol)) ∧
    ∀ i protocol payload expected, l !! i = Some (protocol, payload, expected) →
      bget acc'.1 (fixture_key name protocol) =
      if default false (verdicts !! i) then Some (hash_value (default failure_value expected))
      else bget acc.1 (fixture_key name protocol).
Proof.
  revert index acc st. induction l as [|[[protocol payload] expected] l IH]; intros index acc st Hnd Hv.
  { injection Hv as <- <-. exists []. split_and!; [constructor|simpl; lia|done|]. intros i; by destruct i. }
  cbn [verify_from] in Hv. rewrite !fmap_cons in Hnd. apply NoDup_cons in Hnd as [Hnin Hnd]. simpl in Hnin.
  destruct (execute_fixture _ _ _ _ st) as [answer st1] eqn:Ee.
  destruct (IH _ _ _ Hnd Hv) as (verdicts & Hl & Hlen & Hother & Hin).
  rewrite judge_expected in Hlen, Hother, Hin.
  exists (as_expected expected answer :: verdicts). split; [constructor; [by eauto 10|done]|]. split; [|split].
  - destruct (as_expected expected answer); simpl in Hlen |- *; [exact Hlen|].
    rewrite length_app in Hlen. simpl in Hlen. rewrite Hlen. lia.
  - intros p Hp. rewrite !fmap_cons, not_elem_of_cons in Hp. destruct Hp as [Hne Hp]. simpl in Hne.
    rewrite Hother by done. destruct (as_expected expected answer); [|done]. simpl.
    rewrite bget_set_ne; [done|]. intros E%fixture_key_inj. congruence.
  - intros [|i] p pl ex Hi; simpl in Hi.
    + injection Hi as <- <- <-. simpl. rewrite Hother by done.
      destruct (as_expected expected answer); [|done]. simpl. by rewrite bget_set_eq.
    + simpl. rewrite (Hin i p pl ex Hi). destruct (verdicts !! i) as [[]|] eqn:Ev; simpl; [done|..];
        (destruct (as_expected expected answer); [|done]; simpl; rewrite bget_set_ne; [done|];
         intros E%fixture_key_inj; subst; destruct Hnin; rewrite list_elem_of_fmap; exists (p, pl);
         split; [done|]; apply list_elem_of_fmap; exists (p, pl, ex); split; [done|]; by eapply list_elem_of_lookup_2).
Qed.

Lemma fixtures_nodup : NoDup (fixtures.*1.*1).
Proof. apply (bool_decide_eq_true_1 _). vm_compute. reflexivity. Qed.

(** The fixture suite accounts for every fixture and never fails as a whole:
    a fixture whose answer is the expected one is recorded under its own key with
    the hash of that output (or of the failure that was expected); every other
    one adds exactly one failure and leaves no hash. *)
Theorem suite_accounts name acc st :
  ∃ acc' st' verdicts, verify_fixtures request name acc st = (Ok acc', st') ∧
    Forall2 (λ f v, ∃ id st0 st1 answer, execute_fixture request f.1.1 f.1.2 id st0 = (answer, st1) ∧
                                         v = as_expected f.2 answer) fixtures verdicts ∧
    length acc'.2 = (length acc.2 + length (filter (λ v, v = false) verdicts))%nat ∧
    ∀ i protocol payload expected, fixtures !! i = Some (protocol, payload, expected) →
      bget acc'.1 (fixture_key name protocol) =
      if default false (verdicts !! i) then Some (hash_value (default failure_value expected))
      else bget acc.1 (fixture_key name protocol).
Proof.
  unfold verify_fixtures. destruct (verify_from request name 0 fixtures acc st) as [acc' st'] eqn:E.
  destruct (verify_from_spec _ _ _ _ _ _ _ fixtures_nodup E) as (verdicts & Hf & Hn & _ & Hb).
  by exists acc', st', verdicts.
Qed.

(** ** The suite against the runners *)

Context `{Fixture.RunnerSdk}.
Variable output_of : Fixture.RunnerResult → json.

(** What a client gets to see of a result: the output, or a text with the code of
    the failure. *)
Definition seen (r : Abi.RuntimeResult Fixture.RunnerResult) (answer : result json text) : Prop :=
  match r with
  | Ok result => answer = Ok (output_of result)
  | Err failure => ∃ t, answer = Err t ∧ contains (Abi.code failure) t = true
  end.

Hypothesis output_of_set : ∀ task output, output_of (Fixture.with_output task output) = output.

Lemma checksum_default seed :
  Fixture.calibrated_checksum seed = Fixture.calibrated_checksum_with_iterations seed 4096.
Proof. reflexivity. Qed.

(** Comparing checksums must not compute them. *)
#[local] Opaque Fixture.calibrated_checksum_with_iterations Fixture.calibrated_checksum.

Lemma calibrated_seed checksum seed :
  Fixture.calibrated_output checksum (jobj [(lit "seed", jnum seed)])
  = jobj [(lit "checksum", JString (checksum seed 4096%N))].
Proof. reflexivity. Qed.

(** The library's copy of the checksum is the same function. *)
Lemma abi_checksum seed iterations :
  Fixture.abi_calibrated_checksum seed iterations = Fixture.calibrated_checksum_with_iterations seed iterations.
Proof. reflexivity. Qed.

(** The runners, on a fixture. *)
Definition is_runner (result : Fixture.Task → Abi.RuntimeResult Fixture.RunnerResult) : Prop :=
  result = Fixture.fixture_result ∨ result = Fixture.abi_fixture_result.

(** What the runners answer on the protocols of the suite. *)
Lemma runner_answers result id : is_runner result →
  (∀ p output, (p, output) ∈
     [(lit "runner.noop", λ _ : json, jobj [(lit "status", JString (lit "ok"))]);
      (lit "runner.echo", λ payload, jobj [(lit "echo", payload)]);
      (lit "runner.calibrated-cpu", Fixture.calibrated_output Fixture.calibrated_checksum_with_iterations);
      (lit "runner.wait", λ _, jobj [(lit "resumed", JBool true)]);
      (lit "runner.resource", Fixture.resource_output)] →
   ∀ payload, let task := Fixture.mkTask id p payload in
     result task = Ok (Fixture.with_output task (output payload))) ∧
  ∀ payload, ∃ e, result (Fixture.mkTask id (lit "runner.fault") payload) = Err e ∧
    Abi.code e = lit "fixture.failure".
Proof.
  intros Hr. split.
  - intros p output Hp payload. rewrite !elem_of_cons, elem_of_nil in Hp.
    destruct Hr as [->| ->]; destruct Hp as [[= -> ->]|[[= -> ->]|[[= -> ->]|[[= -> ->]|[[= -> ->]|[]]]]]];
      reflexivity.
  - intros payload. destruct Hr as [->| ->]; eexists; split; reflexivity.
Qed.

Lemma seen_expected task output answer : seen (Ok (Fixture.with_output task output)) answer →
  as_expected (Some output) answer = true.
Proof. simpl. rewrite output_of_set. intros ->. simpl. by apply json_eqb_eq. Qed.

Lemma runner_expected result f id answer : is_runner result → f ∈ fixtures →
  seen (result (Fixture.mkTask id f.1.1 f.1.2)) answer → as_expected f.2 answer = true.
Proof.
  intros Hr Hf. destruct (runner_answers result id Hr) as [Hok Hfail]. revert f Hf.
  apply (proj1 (Forall_forall (λ f, seen (result (Fixture.mkTask id f.1.1 f.1.2)) answer →
                                    as_expected f.2 answer = true) fixtures)).
  unfold fixtures. repeat (apply Forall_cons_2); [..|apply Forall_nil_2]; cbn [fst snd].
  - rewrite (Hok _ _ ltac:(apply elem_of_cons; left; reflexivity)). apply seen_expected.
  - rewrite (Hok _ _ ltac:(do 1 (apply elem_of_cons; right); apply elem_of_cons; left; reflexivity)).
    apply seen_expected.
  - rewrite (Hok _ _ ltac:(do 2 (apply elem_of_cons; right); apply elem_of_cons; left; reflexivity)).
    rewrite calibrated_seed, checksum_default. apply seen_expected.
  - rewrite (Hok _ _ ltac:(do 3 (apply elem_of_cons; right); apply elem_of_cons; left; reflexivity)).
    apply seen_expected.
  - rewrite (Hok _ _ ltac:(do 4 (apply elem_of_cons; right); apply elem_of_cons; left; reflexivity)).
    apply seen_expected.
  - destruct (Hfail (jobj [(lit "fault", JString (lit "error"))])) as (e & -> & He).
    intros (t & -> & Ht). simpl. by rewrite <-He.
Qed.

End suite.

(** ** The requests of a sample *)

Section sample.
Context `{TaskCore} `{!ParamContracts TaskBatch} `{!BenchContracts}.
Context {St : Type} (request : ControlMethod → json → St → result ControlResponse text * St).
Context (start_runtime : BenchDeployment → eff St unit) (shutdown : St → St) (clock : St → N).

(** The server with a log of the methods it was asked for. *)
Definition logged_request (m : ControlMethod) (params : json) (st : St * list ControlMethod)
    : result ControlResponse text * (St * list ControlMethod) :=
  let '(r, s) := request m params st.1 in (r, (s, st.2 ++ [m])).
Definition logged_start (d : BenchDeployment) : eff (St * list ControlMethod) unit := λ st,
  let '(r, s) := start_runtime d st.1 in (r, (s, st.2)).
Definition logged_shutdown (st : St * list ControlMethod) : St * list ControlMethod := (shutdown st.1, st.2).

(** On success a computation adds methods as [P] says. *)
Definition logs {A} (P : list ControlMethod → Prop) (m : eff (St * list ControlMethod) A) : Prop :=
  ∀ st a st', m st = (Ok a, st') → ∃ l, st'.2 = st.2 ++ l ∧ P l.

Lemma logs_ret {A} (a : A) : logs (eq []) (eret a).
Proof. intros st a' st' [= _ <-]. exists []. by rewrite app_nil_r. Qed.
Lemma logs_fail {A} P e : logs P (efail (A:=A) e).
Proof. intros st a st' Hr. discriminate. Qed.
Lemma logs_lift {A} (r : result A text) : logs (eq []) (elift r).
Proof. intros st a' st' [= _ <-]. exists []. by rewrite app_nil_r. Qed.

Lemma logs_bind {A B} P Q R (m : eff (St * list ControlMethod) A) (f : A → eff _ B) :
  logs P m → (∀ a, logs Q (f a)) → (∀ l1 l2, P l1 → Q l2 → R (l1 ++ l2)) → logs R (ebind m f).
Proof.
  intros Hm Hf HR st b st' E. unfold ebind in E. destruct (m st) as [[a|e] st1] eqn:Em; [|discriminate].
  destruct (Hm _ _ _ Em) as (l1 & E1 & HP). destruct (Hf _ _ _ _ E) as (l2 & E2 & HQ).
  exists (l1 ++ l2). rewrite E2, E1, app_assoc. auto.
Qed.

(** Two parts with known logs. *)
Lemma logs_seq {A B} l1 l2 (m : eff (St * list ControlMethod) A) (f : A → eff _ B) :
  logs (eq l1) m → (∀ a, logs (eq l2) (f a)) → logs (eq (l1 ++ l2)) (ebind m f).
Proof. intros Hm Hf. eapply logs_bind; [exact Hm|exact Hf|]. by intros ? ? <- <-. Qed.

Lemma logs_checked m params : logs (eq [m]) (checked_request logged_request m params).
Proof.
  intros st a st' E. unfold checked_request, logged_request in E.
  destruct (request m params st.1) as [r s]. injection E as _ <-. by exists [m].
Qed.

Lemma logs_submit batch : logs (eq [TaskSubmitBatch]) (submit logged_request batch).
Proof. apply (logs_seq [_] []); [apply logs_checked|intros; apply logs_lift]. Qed.
Lemma logs_wait ids ms : logs (eq [TaskWait]) (wait logged_request ids ms).
Proof. apply (logs_seq [_] []); [apply logs_checked|intros; apply logs_lift]. Qed.

Create HintDb logs.
#[local] Hint Resolve logs_ret logs_fail logs_lift logs_checked logs_submit logs_wait : logs.

Lemma logs_wait_ids ids : ids ≠ [] → logs (eq [TaskWait]) (wait_task_ids logged_request ids).
Proof.
  intros Hne. destruct ids as [|id ids]; [done|]. apply (logs_seq [_] []); [auto with logs|]. intros w.
  repeat case_match; auto with logs.
Qed.

Lemma logs_execute protocol payload id :
  logs (eq [TaskSubmitBatch; TaskWait]) (execute_fixture logged_request protocol payload id).
Proof.
  apply (logs_seq [_] [_]); [auto with logs|]. intros s. case_match; [auto with logs|].
  apply (logs_seq [_] []); [auto with logs|]. intros w. cbv zeta. repeat case_match; auto with logs.
Qed.

Lemma logs_wave prefix tasks : tasks ≠ 0%N →
  logs (eq [TaskSubmitBatch; TaskWait]) (run_task_wave logged_request prefix tasks).
Proof.
  intros Ht. apply (logs_seq [_] [_]); [auto with logs|]. intros s. case_match; [auto with logs|].
  apply logs_wait_ids. unfold indices. by destruct (N.to_nat tasks) eqn:E; [lia|].
Qed.

Lemma logs_iter {A} (f : A → eff (St * list ControlMethod) unit) (g : A → list ControlMethod) l :
  (∀ a, a ∈ l → logs (eq (g a)) (f a)) → logs (eq (mjoin (g <$> l))) (eiter f l).
Proof.
  induction l as [|a l IH]; intros Hf; [apply logs_ret|]. cbn [eiter].
  change (mjoin (g <$> a :: l)) with (g a ++ mjoin (g <$> l)).
  apply logs_seq; [apply Hf; by left|]. intros _. apply IH. intros b Hb. apply Hf. by right.
Qed.

(** A wave of sustained load. *)
Definition wave_log (wave : list N) : list ControlMethod := replicate (List.length wave) TaskSubmitBatch ++ [TaskWait].

Lemma logs_wave_of prefix wave : wave ≠ [] → logs (eq (wave_log wave)) (wave_of logged_request prefix wave).
Proof.
  intros Hw. apply logs_seq.
  - assert (E : replicate (List.length wave) TaskSubmitBatch = mjoin ((λ _, [TaskSubmitBatch]) <$> wave)).
    { clear. induction wave as [|x wave IH]; [done|]. simpl. by rewrite IH. }
    rewrite E. apply logs_iter. intros index _. apply (logs_seq [_] []); [auto with logs|].
    intros s. case_match; auto with logs.
  - intros _. apply logs_wait_ids. by destruct wave.
Qed.

Lemma chunks_nonempty {A} fuel k (l : list A) c : k ≠ O → c ∈ chunks_fuel fuel k l → c ≠ [].
Proof.
  intros Hk. revert l. induction fuel as [|fuel IH]; intros [|x l] Hc; simpl in Hc;
    try by apply elem_of_nil in Hc.
  apply elem_of_cons in Hc as [->|Hc]; [by destruct k|by eapply IH].
Qed.

Lemma logs_sustained prefix total inflight : (0 < inflight)%N →
  logs (eq (mjoin (wave_log <$> chunks (N.to_nat inflight) (indices total))))
    (sustained_load logged_request prefix total inflight).
Proof.
  intros Hin st a st' E. unfold sustained_load, run_sustained_inflight in E.
  rewrite (sustained_from _ _ (N.to_nat total)) in E by (rewrite ?N.sub_0_r; lia). simpl default in E.
  revert E. rewrite N.sub_0_r.
  assert (Hc : chunks_fuel (N.to_nat total) (N.to_nat inflight) (nrange 0 (N.to_nat total))
               = chunks (N.to_nat inflight) (indices total)).
  { unfold chunks, indices. by rewrite nrange_length. }
  rewrite Hc. intros E. refine (logs_iter _ wave_log _ _ st a st' E).
  intros w Hw. apply logs_wave_of. eapply chunks_nonempty; [|exact Hw]. lia.
Qed.

(** Whether it succeeds or not. *)
Definition attempts {A} (P : list ControlMethod → Prop) (m : eff (St * list ControlMethod) A) : Prop :=
  ∀ st r st', m st = (r, st') → ∃ l, st'.2 = st.2 ++ l ∧ P l.

Lemma attempts_checked m params : attempts (eq [m]) (checked_request logged_request m params).
Proof.
  intros st a st' E. unfold checked_request, logged_request in E.
  destruct (request m params st.1) as [r s]. injection E as _ <-. by exists [m].
Qed.

Lemma attempts_quiet {A} (m : eff (St * list ControlMethod) A) : (∀ st, (m st).2 = st) → attempts (eq []) m.
Proof. intros Hm st r st' E. exists []. rewrite app_nil_r. specialize (Hm st). rewrite E in Hm. by rewrite <-Hm. Qed.

Lemma attempts_bind {A B} P Q R (m : eff (St * list ControlMethod) A) (f : A → eff _ B) :
  attempts P m → (∀ a, attempts Q (f a)) → (∀ l1, P l1 → R l1) → (∀ l1 l2, P l1 → Q l2 → R (l1 ++ l2)) →
  attempts R (ebind m f).
Proof.
  intros Hm Hf HP HR st b st' E. unfold ebind in E. destruct (m st) as [[a|e] st1] eqn:Em.
  - destruct (Hm _ _ _ Em) as (l1 & E1 & Hl1). destruct (Hf _ _ _ _ E) as (l2 & E2 & Hl2).
    exists (l1 ++ l2). rewrite E2, E1, app_assoc. auto.
  - injection E as _ <-. destruct (Hm _ _ _ Em) as (l1 & E1 & Hl1). eauto.
Qed.

(** The two requests of a fixture, or only the first. *)
Definition fixture_log (l : list ControlMethod) : Prop :=
  l = [TaskSubmitBatch] ∨ l = [TaskSubmitBatch; TaskWait].

Lemma attempts_execute protocol payload id :
  attempts fixture_log (execute_fixture logged_request protocol payload id).
Proof.
  assert (Hdec : ∀ A (c : codec A) v, attempts (eq []) (read (St:=St * list ControlMethod) c v)).
  { intros. by apply attempts_quiet. }
  eapply (attempts_bind (eq [TaskSubmitBatch]) (λ l, l = [] ∨ l = [TaskWait])).
  - eapply (attempts_bind _ (eq [])); [apply attempts_checked|intros; apply Hdec|done|by intros ? ? <- <-].
  - intros s. case_match.
    + intros st r st' [= _ <-]. exists []. rewrite app_nil_r. auto.
    + eapply (attempts_bind (eq [TaskWait]) (eq [])).
      * eapply (attempts_bind _ (eq [])); [apply attempts_checked|intros; apply Hdec|done|by intros ? ? <- <-].
      * intros w. apply attempts_quiet. intros st. cbv zeta. by repeat case_match.
      * intros ? <-. by right.
      * intros ? ? <- <-. by right.
  - intros ? <-. by left.
  - intros ? ? <- [->| ->]; [by left|by right].
Qed.

Lemma verify_log name index l acc st acc' st' :
  verify_from logged_request name index l acc st = (acc', st') →
  ∃ logs, st'.2 = st.2 ++ mjoin logs ∧ length logs = length l ∧ Forall fixture_log logs.
Proof.
  revert index acc st. induction l as [|[[protocol payload] expected] l IH]; intros index acc st E; cbn [verify_from] in E.
  { injection E as _ <-. exists []. by rewrite app_nil_r. }
  destruct (execute_fixture _ _ _ _ st) as [answer st1] eqn:Ee.
  destruct (attempts_execute _ _ _ _ _ _ Ee) as (l1 & E1 & Hl1). destruct (IH _ _ _ E) as (ls & E2 & Hlen & Hall).
  exists (l1 :: ls). change (mjoin (l1 :: ls)) with (l1 ++ mjoin ls). rewrite E2, E1, app_assoc.
  split; [done|]. split; [simpl; by rewrite Hlen|by constructor].
Qed.

Lemma logs_timed {A} (c : (St * list ControlMethod) → N) P (m : eff (St * list ControlMethod) A) :
  logs P m → logs P (timed c m).
Proof.
  intros Hm st a st' E. unfold timed in E. destruct (m st) as [[x|e] st1] eqn:Em; simpl in E; [|discriminate].
  injection E as _ <-. eauto.
Qed.

Lemma logs_start d : logs (eq []) (logged_start d).
Proof.
  intros st a st' E. unfold logged_start in E. destruct (start_runtime d st.1). injection E as _ <-.
  exists []. by rewrite app_nil_r.
Qed.

(** The requests of a run of the suite. *)
Definition suite_log (suite : bool) (l : list ControlMethod) : Prop :=
  if suite then ∃ ls, l = mjoin ls ∧ length ls = 6%nat ∧ Forall fixture_log ls else l = [].

Lemma logs_suite (suite : bool) name acc :
  logs (suite_log suite) (if suite then verify_fixtures logged_request name acc else eret acc).
Proof.
  destruct suite; [|by intros st a st' [= _ <-]; exists []; rewrite app_nil_r].
  intros st a st' E. unfold verify_fixtures in E.
  destruct (verify_from logged_request name 0 fixtures acc st) as [acc1 st1] eqn:Ev. injection E as _ <-.
  destruct (verify_log _ _ _ _ _ _ _ Ev) as (ls & E1 & Hl & Hall). exists (mjoin ls). split; [done|]. by exists ls.
Qed.

(** A sample that succeeds made exactly the requests it measures: one health
    check, one echo task that it waited for, one wave of 256 tasks in a single
    submission with one wait, four waves of 128 single submissions with one wait
    each, then, only if it was asked to, every fixture once (an echo whose submission
    fails is not waited for), and at last one reload. *)
Theorem sample_makes_requests d suite acc st s acc' st' :
  run_sample logged_request logged_start logged_shutdown (λ st, clock st.1) d suite acc st = (Ok (s, acc'), st') →
  ∃ l, suite_log suite l ∧
    st'.2 = st.2 ++ [HealthCheck; TaskSubmitBatch; TaskWait; TaskSubmitBatch; TaskWait]
              ++ mjoin (replicate 4 (replicate 128 TaskSubmitBatch ++ [TaskWait])) ++ l ++ [PluginReload].
Proof.
  assert (Hl : logs (λ l, ∃ l', suite_log suite l' ∧
      l = [] ++ [HealthCheck] ++ [TaskSubmitBatch; TaskWait] ++ [TaskSubmitBatch; TaskWait]
            ++ mjoin (wave_log <$> chunks 128 (indices 512)) ++ l' ++ [PluginReload] ++ [])
    (run_sample logged_request logged_start logged_shutdown (λ st, clock st.1) d suite acc)).
  { unfold run_sample.
    assert (Hstep : ∀ A B l P (m : eff (St * list ControlMethod) A) (f : A → eff _ B),
      logs (eq l) m → (∀ a, logs (λ k, ∃ l', suite_log suite l' ∧ k = P l') (f a)) →
      logs (λ k, ∃ l', suite_log suite l' ∧ k = l ++ P l') (ebind m f)).
    { intros A B l P m f Hm Hf. eapply logs_bind; [exact Hm|exact Hf|]. intros l1 l2 <- (l' & Hs & ->). eauto. }
    apply Hstep; [apply logs_timed, logs_start|intros startup].
    apply Hstep; [apply logs_timed; auto with logs|intros health].
    apply Hstep; [apply logs_timed, logs_execute|intros echo].
    apply Hstep; [apply logs_timed; by apply logs_wave|intros wave].
    apply Hstep; [apply logs_timed; by apply logs_sustained|intros sustained].
    eapply logs_bind; [apply logs_suite| |].
    - intros acc1. apply logs_seq; [apply logs_timed; auto with logs|intros reload].
      apply (logs_seq [] []); [|intros; apply logs_ret].
      apply logs_timed. intros st1 a st2 [= _ <-]. exists []. by rewrite app_nil_r.
    - intros l1 l2 Hs <-. eauto. }
  intros E. destruct (Hl _ _ _ E) as (l & -> & l' & Hs & ->). exists l'. split; [done|].
  f_equal.
Qed.
End sample.

(** ** The client against the handler *)

Section handler.
Context `{TaskCore} `{!StateCodec} `{Os} `{!ParamContracts TaskBatch} `{!ParamContractsOk TaskBatch} `{!TaskCoreOk}.
Context `{!BenchContracts}.

(** The control handler of a running service, asked with a token. *)
Definition handler_request (token : text) (m : ControlMethod) (params : json) (s : svc)
    : result ControlResponse text * svc :=
  let '(s, r) := handle_request (mkRequest token m params) s in (Ok r, s).

Lemma handler_checked token m params s v s' : token = f_token (s_fixed s) →
  checked_request (handler_request token) m params s = (Ok v, s') →
  ∃ r, dispatch m params s = (s', r) ∧ resp_ok r = true ∧ v = default JNull (resp_result r).
Proof.
  intros ->. unfold checked_request, handler_request, handle_request. cbn [req_token req_method req_params].
  rewrite text_eqb_refl. cbn [negb]. destruct (dispatch m params s) as [s1 r]. intros Hr.
  exists r. destruct (resp_ok r); [|discriminate]. by simplify_eq.
Qed.

(** A response that carries the value of a codec is read as that value. *)
Lemma read_response {A St} (c : codec A) `{!CodecOk c} (x : A) `{!Serialize A} (st st' : St) y :
  to_value x = enc c x → fit c x → resp_ok (response_ok x) = true →
  read c (default JNull (resp_result (response_ok x))) st = (Ok y, st') → y = norm c x ∧ st' = st.
Proof.
  unfold response_ok. intros -> Hf. destruct (enc c x) as [v|e] eqn:E; [|done]. intros _ Hr.
  unfold read, elift in Hr. simpl in Hr. rewrite (codec_ok _ _ Hf E) in Hr. simpl in Hr. by simplify_eq.
Qed.

Lemma wait_param_value ids ms :
  wait_param (jobj [(lit "ids", to_array JString ids); (lit "timeout_ms", jnum ms)]) = Ok (ids, ms).
Proof. cbn [wait_param serde_requests]. unfold de_wait_param, wait_fields. by read_struct. Qed.

Lemma batch_param_value batch : batch_param (params_value (TaskSubmitBatchParam batch)) = Ok batch.
Proof.
  cbn [batch_param serde_requests]. unfold params_value. cbn [params_entries]. unfold de_batch_param. by read_struct.
Qed.

(** Whether a wait answers with the states of the handles. *)
Lemma wait_loop_states fuel deadline handles rounds i r :
  wait_loop fuel deadline handles rounds i = Some r → resp_ok r = true →
  ∃ h states late, task_states handles h = Ok states ∧ r = task_wait_response states late.
Proof.
  revert i. induction fuel as [|fuel IH]; intros i Hr Hok; simpl in Hr; [done|].
  destruct (wait_round deadline handles (rounds i)) as [r'|] eqn:E; [|eauto]. simplify_eq.
  unfold wait_round in E. repeat case_match; simplify_eq; try done; eauto.
Qed.

Lemma task_wait_states fuel ids ms now rounds host r :
  task_wait fuel ids ms now rounds host = Some r → resp_ok r = true →
  ∃ h0 handles h states late, host = Some h0 ∧ resolve_task_handles h0 ids = Ok handles ∧
    task_states handles h = Ok states ∧ r = task_wait_response states late.
Proof.
  unfold task_wait. intros Hr Hok. destruct ids as [|id ids]; [by simplify_eq|].
  destruct host as [h0|]; [|by simplify_eq].
  destruct (resolve_task_handles h0 (id :: ids)) as [handles|e] eqn:E; [|by simplify_eq; destruct e].
  destruct (wait_loop_states _ _ _ _ _ _ Hr Hok) as (h & states & late & Hs & ->). by exists h0, handles, h, states, late.
Qed.

Lemma outcome_status_norm o : ov_status (norm c_outcome_view o) = ov_status o.
Proof. by destruct o. Qed.

Lemma wait_norm outcomes late :
  norm c_wait_response (mkWaitResponse outcomes late) = mkWaitResponse (norm c_outcome_view <$> outcomes) late.
Proof. reflexivity. Qed.

Lemma view_completed id o : ov_status (to_control_task_outcome id o) = lit "completed" →
  ∃ i output output_ref, o = Some (OutCompleted i output output_ref).
Proof. destruct o as [[]|]; simpl; try discriminate. eauto. Qed.

(** The tasks that a running Core has completed. *)
Definition completed_tasks (ids : list text) (h0 : HostRuntime) : Prop :=
  ∃ handles h states, resolve_task_handles h0 ids = Ok handles ∧ task_states handles h = Ok states ∧
    len states = len ids ∧
    Forall (λ s, ∃ id output output_ref, state_outcome s = Some (OutCompleted id output output_ref)) states.

Lemma wait_completed ids s s' : ids ≠ [] →
  wait_task_ids (handler_request (f_token (s_fixed s))) ids s = (Ok tt, s') →
  s' = s ∧ ∃ h0, i_host (s_inner s) = Some h0 ∧ completed_tasks ids h0.
Proof.
  intros Hne. destruct ids as [|id ids]; [done|]. intros E. cbn [wait_task_ids] in E.
  unfold ebind at 1 in E.
  destruct (wait (handler_request (f_token (s_fixed s))) (id :: ids) 10000 s) as [[w|e] s1] eqn:Ew; [|done].
  unfold wait, ebind in Ew.
  destruct (checked_request _ TaskWait _ s) as [[v|e] s2] eqn:Ec; [|done].
  apply handler_checked in Ec as (r & Hd & Hok & ->); [|done]. cbn [dispatch] in Hd.
  rewrite wait_param_value in Hd. cbn [with_param] in Hd. injection Hd as <- <-.
  unfold handle_task_wait in Hok, Ew. cbn [fst snd] in Hok, Ew.
  destruct (task_wait _ _ _ _ _ _) as [r|] eqn:Et; [|done]. cbn [default] in Hok, Ew.
  destruct (task_wait_states _ _ _ _ _ _ _ Et Hok) as (h0 & handles & h & states & late & Hh & Hres & Hst & ->).
  apply (read_response c_wait_response) in Ew as [-> <-]; [|done|split; [apply outcomes_fit|done]|done].
  rewrite wait_norm in E. cbn [wr_outcomes wr_timed_out] in E.
  destruct (negb _) eqn:Elen; [done|]. destruct (List.find _ _) as [o|] eqn:Efind; [done|].
  apply negb_false_iff, N.eqb_eq in Elen. split; [by destruct late; [|injection E]|].
  exists h0. split; [done|]. exists handles, h, states. split; [done|]. split; [done|].
  split; [rewrite <-Elen; unfold len, outcomes_of; by rewrite !length_fmap|].
  apply Forall_forall. intros st Hin.
  eapply List.find_none in Efind.
  2: { apply list_elem_of_In, list_elem_of_fmap_2, list_elem_of_fmap_2, Hin. }
  apply negb_false_iff, text_eqb_eq in Efind. rewrite outcome_status_norm in Efind. by eapply view_completed.
Qed.


End handler.

(** ** The program *)

Section program.
Context `{TaskCore} `{!ParamContracts TaskBatch} `{!BenchContracts}.
Context {St : Type} (request : ControlMethod → json → St → result ControlResponse text * St).
Context (start_runtime : BenchDeployment → eff St unit) (shutdown : St → St) (clock : St → N).

Lemma parse_args_samples arguments args : parse_args arguments = Ok args →
  (1 <= BenchStats.samples args)%N ∧ (BenchStats.mode args = lit "smoke" ∨ BenchStats.mode args = lit "reference").
Proof.
  unfold parse_args. intros ([[[mode warmup] samples] output] & _ & Hr)%rbind_ok.
  apply rbind_ok in Hr as (defaults & Hd & [= <-]). simpl. split; [lia|].
  destruct (text_eqb mode (lit "smoke")) eqn:E1; [apply text_eqb_eq in E1; by left|].
  destruct (text_eqb mode (lit "reference")) eqn:E2; [apply text_eqb_eq in E2; by right|done].
Qed.

Lemma run_samples_length n first d acc st samples acc' st' :
  run_samples request start_runtime shutdown clock n first d acc st = (Ok (samples, acc'), st') →
  List.length samples = n.
Proof.
  revert first acc st samples acc' st'. induction n as [|n IH]; intros first acc st samples acc' st' E; cbn [run_samples] in E.
  { by injection E as <- _ _. }
  unfold ebind in E. destruct (or_panic _ _ st) as [[r|e] st1]; [|done].
  destruct (run_samples _ _ _ _ n false d r.2 st1) as [[[l acc1]|e] st2] eqn:Er; [|done].
  injection E as <- _ _. simpl. f_equal. by eapply IH.
Qed.

Lemma run_deployments_samples args ds all acc st all' acc' st' :
  run_deployments request start_runtime shutdown clock args ds all acc st = (Ok (all', acc'), st') →
  Forall (λ e, len e.2 = BenchStats.samples args) all →
  Forall (λ e, len e.2 = BenchStats.samples args) all' ∧
  ∃ values, length values = length ds ∧ all' = bextend all (zip (name_of <$> ds) values).
Proof.
  revert all acc st. induction ds as [|d ds IH]; intros all acc st E Hall; cbn [run_deployments] in E.
  { injection E as <- _ _. split; [done|]. by exists []. }
  unfold ebind in E. destruct (run_warmups _ _ _ _ _ d acc st) as [[acc1|e] st1]; [|done].
  destruct (run_samples _ _ _ _ _ true d acc1 st1) as [[[samples acc2]|e] st2] eqn:Es; [|done].
  apply run_samples_length in Es. cbn [fst snd] in E.
  destruct (IH _ _ _ E) as (Hall' & values & Hl & ->).
  { apply Forall_bset; [|done]. simpl. unfold len. rewrite Es. lia. }
  split; [done|]. exists (samples :: values). split; [simpl; by rewrite Hl|done].
Qed.

(** What the benchmark leaves behind: with arguments it accepts, a run that
    cannot be carried out ends in a panic without a report; every other run
    writes a report to the output path it was given, whose cases are those of
    the three deployments with the requested number of samples each (never none),
    and it then panics exactly if a fixture failed.  Making the report itself
    never panics. *)
Theorem main_reports arguments args m cpu_ns st :
  parse_args arguments = Ok args →
  match run_deployments request start_runtime shutdown clock args ALL [] ([], []) st with
  | (Err _, _) => bench_main request start_runtime shutdown clock m args cpu_ns st = (None, true)
  | (Ok (all, (hashes, failures)), _) =>
      all.*1 = [lit "abi"; lit "builtin"; lit "rust-process-jsonl"] ∧
      Forall (λ e, len e.2 = BenchStats.samples args ∧ e.2 ≠ []) all ∧
      ∃ report cases,
        bench_main request start_runtime shutdown clock m args cpu_ns st
        = (Some (BenchStats.output args, report), negb (bool_decide (failures = []))) ∧
        BenchStats.report_cases all failures cpu_ns = Some cases ∧
        BenchStats.case_field (lit "cases") report = Some (JArray cases) ∧
        BenchStats.case_field (lit "correctness") report =
          Some (jobj [(lit "passed", JBool (bool_decide (failures = [])));
                      (lit "counters", jobj [(lit "failures", jnum (len failures))])])
  end.
Proof.
  intros [Hs _]%parse_args_samples. unfold bench_main.
  destruct (run_deployments _ _ _ _ args ALL [] ([], []) st) as [[[all [hashes failures]]|e] st'] eqn:E; [|done].
  apply run_deployments_samples in E as (Hall & values & Hl & Hval); [|constructor].
  assert (Hne : Forall (λ e, len e.2 = BenchStats.samples args ∧ e.2 ≠ []) all).
  { eapply Forall_impl; [exact Hall|]. intros [d v] Hv. simpl in *. split; [done|]. intros ->. unfold len in Hv.
    simpl in Hv. lia. }
  assert (Hkeys : all.*1 = [lit "abi"; lit "builtin"; lit "rust-process-jsonl"]).
  { rewrite Hval. destruct values as [|v1 [|v2 [|v3 [|]]]]; try discriminate Hl. reflexivity. }
  split; [done|]. split; [done|]. unfold BenchStats.build_report.
  destruct (BenchStats.report_cases all failures cpu_ns) as [cases|] eqn:Ec.
  - do 2 eexists. split; [reflexivity|]. split; [done|]. split; reflexivity.
  - apply BenchStats.report_cases_none in Ec as [d Hd]. rewrite Forall_forall in Hne. by destruct (Hne _ Hd).
Qed.
End program.

(** ** Witnesses

    A Core that completes every task at once, behind the control handler, and a
    server that answers as the linked runner does. *)

Module Sample.
Import Plugins.Sample Abi.Sample Fixture.Sample Boot.Sample Supervisor.Sample Deployment.Sample Lifecycle.Sample.

Definition done_snapshot (id : text) : HostTaskSnapshot :=
  mkTaskSnapshot id (lit "runner.echo") Completed 0 None 0 0 None None None None None None None [] None None [] None.

(** A task is an array of its id, protocol and payload, a batch an array of tasks. *)
Definition task_ids (batch : json) : list text :=
  match batch with
  | JArray l => omap (λ t, match t with JArray (JString id :: _) => Some id | _ => None end) l
  | _ => []
  end.

#[export] Instance bench_core : TaskCore := {|
  TaskBatch := json; batch_is_empty b := match b with JArray [] => true | _ => false end;
  RuntimeEvent := text; event_codec := c_string; handle_codec := Tasks.Sample.sample_handle;
  task_snapshots _ := Ok (done_snapshot <$> [lit "wave-1"; lit "wave-0"]);
  task_states hs _ :=
    Ok ((λ h, mkTaskState h (Some Completed) (Some (OutCompleted (h_task_id h) (Some JNull) None))) <$> hs);
  submit_batch b g := (Ok (inl ((λ id, handle_of (done_snapshot id)) <$> task_ids b)), g);
  cancel_task _ g := (Ok tt, g);
  outcome_of _ _ := Ok (inl None);
  begin_drain g := (Ok Draining, g);
  statistics _ := Ok (mkStatistics Tasks.Sample.pool 0 0 0 0 0);
  events_after s l _ := Ok (s, None, s, 0%N, 0%N, false, []);
  host_profile_id _ := lit "default";
  worker_pools _ := Ok ([], Ok (JArray []));
|}.

#[export] Instance bench_core_ok : TaskCoreOk.
Proof.
  split; simpl.
  - unfold Tasks.Sample.sample_handle. solve_codec.
  - apply _.
  - intros b h hs h' [= <- _]. apply Forall_fmap, Forall_forall. done.
  - intros sequence limit h ? ? ? ? ? ? ? [= <- <- <- <- <- <- <-]. constructor.
  - intros h l [= <-]. repeat constructor; done.
Qed.

#[export] Instance bench_params : ParamContracts TaskBatch := {|
  de_kind := @de_kind _ _ Params.Sample.sample_params; kind_to_value k := JString (deployment_debug k);
  de_batch := Ok; batch_to_value b := b;
  de_error_text _ := lit "invalid"; version_of _ := lit "1";
|}.
#[export] Instance bench_params_ok : ParamContractsOk TaskBatch.
Proof. split; [by intros []|done]. Qed.

#[export] Instance bench_contracts : BenchContracts := {|
  Task := json; task_new id protocol payload := JArray [JString id; JString protocol; payload];
  one_batch _ t := JArray [t]; mk_batch _ l := JArray l;
  btree_to_string _ := Some []; hash_value _ := ECHO_HASH; debug_expected _ := []; debug_answer _ := [];
|}.

Definition view (id : text) : TaskOutcomeView := mkOutcomeView id (lit "completed") (Some JNull) None None None [].
Definition handle_for (id : text) : TaskHandle := handle_of (done_snapshot id).

(** A server whose clock advances with every request. *)
Definition sample_server (m : ControlMethod) (params : json) (clock : N) : result ControlResponse text * N :=
  (Ok match m with
      | TaskSubmitBatch =>
          response_ok (mkSubmitResponse
            (handle_for <$> match de_batch_param params with Ok b => task_ids b | Err _ => [] end))
      | TaskWait =>
          response_ok (mkWaitResponse (view <$> match de_wait_param params with Ok (ids, _) => ids | _ => [] end) false)
      | _ => empty_ok
      end, (clock + 10)%N).

Definition output_of_pair (r : text * option json) : json := default JNull r.2.

(** A server that runs each task with the linked runner, and keeps the outcome of
    the last one. *)
Definition outcome_view (id : text) (r : Abi.RuntimeResult (text * option json)) : TaskOutcomeView :=
  match r with
  | Ok (_, output) => mkOutcomeView id (lit "completed") output None None None []
  | Err f => mkOutcomeView id (lit "failed") None None (Some (Abi.route f)) (Some (Abi.code f)) []
  end.
Definition runner_server (m : ControlMethod) (params : json) (last : option TaskOutcomeView)
    : result ControlResponse text * option TaskOutcomeView :=
  match m, last with
  | TaskSubmitBatch, _ =>
      match de_batch_param params with
      | Ok (JArray [JArray [JString id; JString protocol; payload]]) =>
          (Ok (response_ok (mkSubmitResponse [handle_for id])),
           Some (outcome_view id (Fixture.fixture_result
                                    (Fixture.mkTask id protocol payload))))
      | _ => (Ok (response_err (BadRequest [])), last)
      end
  | TaskWait, Some v => (Ok (response_ok (mkWaitResponse [v] false)), last)
  | _, _ => (Ok empty_ok, last)
  end.

Definition sample_start (d : BenchDeployment) : eff N unit := λ clock, (Ok tt, (clock + 1000)%N).

Definition started : option svc :=
  match demo_start (Ok tt) with (Ok s, _, _, _) => Some (Lifecycle.state_ s) | _ => None end.

Definition sample_machine : BenchStats.machine :=
  BenchStats.mkMachine (λ _ _, None) (λ _, lit "0") (λ _, []) false (lit "linux") (lit "x86_64") 7 None.
End Sample.

Section witnesses.
Import Plugins.Sample Abi.Sample Fixture.Sample Boot.Sample Supervisor.Sample Deployment.Sample Lifecycle.Sample Sample.


Lemma sample_makes_requests_witness :
  ∃ s acc' st' l,
    run_sample (logged_request sample_server) (logged_start sample_start) (logged_shutdown id) (λ st, st.1) Builtin
      false ([], []) (0%N, []) = (Ok (s, acc'), st') ∧
    st'.2 = [] ++ [HealthCheck; TaskSubmitBatch; TaskWait; TaskSubmitBatch; TaskWait]
              ++ mjoin (replicate 4 (replicate 128 TaskSubmitBatch ++ [TaskWait])) ++ l ++ [PluginReload].
Proof.
  assert (Hok : is_ok (run_sample (logged_request sample_server) (logged_start sample_start) (logged_shutdown id)
                         (λ st, st.1) Builtin false ([], []) (0%N, [])).1 = true) by (vm_compute; reflexivity).
  destruct (run_sample (logged_request sample_server) (logged_start sample_start) (logged_shutdown id)
              (λ st, st.1) Builtin false ([], []) (0%N, [])) as [[[s acc']|e] st'] eqn:E; [|discriminate Hok].
  destruct (sample_makes_requests sample_server sample_start id id Builtin false ([], []) (0%N, []) s acc' st' E)
    as (l & _ & Hl).
  exists s, acc', st', l. split; [reflexivity|exact Hl].
Defined.

Lemma contains_prefix p t : contains p (p ++ t) = true.
Proof.
  assert (Hs : starts_with p (p ++ t) = true) by (apply starts_with_spec; by exists t).
  destruct (p ++ t); simpl; by rewrite Hs.
Qed.

(** What a client sees of the runner server. *)
Lemma runner_server_answers protocol payload id last :
  ∃ answer last', execute_fixture runner_server protocol payload id last = (answer, last') ∧
    seen output_of_pair
      (Fixture.fixture_result (Fixture.mkTask id protocol payload)) answer.
Proof.
  set (r := Fixture.fixture_result _).
  assert (Hs : submit runner_server (one_batch (lit "batch-" ++ id) (task_new id protocol payload)) last
               = (Ok (mkSubmitResponse [handle_for id]), Some (outcome_view id r))) by reflexivity.
  unfold execute_fixture. unfold ebind at 1. rewrite Hs. cbn [sr_handles]. change (negb (len _ =? 1)%N) with false.
  cbv iota. clearbody r. destruct r as [[i [output|]]|f].
  - exists (Ok output). eexists. split; [|reflexivity]. by destruct output.
  - exists (Ok JNull). eexists. split; reflexivity.
  - do 2 eexists. split; [reflexivity|]. eexists. split; [reflexivity|]. simpl.
    apply contains_prefix.
Qed.


Lemma main_reports_witness :
  ∃ report, bench_main sample_server sample_start id id sample_machine
    (BenchStats.mkArgs (lit "smoke") 0 1 (lit "out.json")) (f64_of_N 5) 0%N = (Some (lit "out.json", report), true).
Proof.
  pose proof (main_reports sample_server sample_start id id
    [lit "--output"; lit "out.json"; lit "--samples"; lit "0"; lit "--mode"; lit "smoke"; lit "--warmup"; lit "0"]
    (BenchStats.mkArgs (lit "smoke") 0 1 (lit "out.json")) sample_machine (f64_of_N 5) 0%N
    ltac:(vm_compute; reflexivity)) as H.
  assert (Hok : is_ok (run_deployments sample_server sample_start id id
    (BenchStats.mkArgs (lit "smoke") 0 1 (lit "out.json")) ALL [] ([], []) 0%N).1 = true)
    by (vm_compute; reflexivity).
  assert (Hf : match (run_deployments sample_server sample_start id id
      (BenchStats.mkArgs (lit "smoke") 0 1 (lit "out.json")) ALL [] ([], []) 0%N).1 with
    | Ok (_, (_, failures)) => len failures | Err _ => 0%N end = 18%N) by (vm_compute; reflexivity).
  destruct (run_deployments sample_server sample_start id id
    (BenchStats.mkArgs (lit "smoke") 0 1 (lit "out.json")) ALL [] ([], []) 0%N)
    as [[[all [hashes failures]]|e] st']; [|discriminate Hok].
  destruct H as (_ & _ & report & cases & Hmain & _). exists report. rewrite Hmain.
  destruct failures as [|f failures]; [discriminate Hf|]. reflexivity.
Defined.
End witnesses.
