(* ===== verification/BenchService.v ===== *)
(** * The services of the benchmarks

    [crates/mutsuki-service-benchmarks]: [start_runtime] of src/main.rs, which
    starts a service for each way to deploy the fixture plugin, and [main] of
    src/bin/benchmark_service.rs, which starts a service, announces it in a file
    and serves until a stop file appears.  Both compose the set-up ([BenchSetup])
    with the life of a service ([Lifecycle]). *)

From S2P Require Import Prelude Text BTreeMap Value Control ConfigTypes Fs Transport Plugins Supervisor Catalog.
From S2P Require Import Frame Boot Deployment EventSource Abi Tasks Runtime Lifecycle Fixture.
From S2P Require Import BenchSetup BenchStats BenchClient.

Section services.
Context `{HostBoot} `{!TaskCore} `{!StateCodec} `{Os} `{!RequestCodec TaskBatch} `{!AbiSdk} `{!PluginSdk} `{!BenchInstall}.

(** [FixtureRunner::new] of the crate, and the loader of ABI plugins. *)
Variable fixture_runner : Descriptor → Runner.
Variable abi : PluginRecord → json → ServiceRuntimeResult LoadedPlugin.

(** The builder both programs start with the linked runner. *)
Definition linked_builder (c : ServiceConfig) (sha256 : text) : caught ServiceRuntimeBuilder :=
  match fixture_manifest_for (lit "<builtin>") sha256 with
  | Panicked p => Panicked p
  | Returned built =>
      match pr_runners (bp_provides built) with
      | [] => Panicked (Some (lit "index out of bounds"))
      | descriptor :: _ =>
          Returned (register_builtin_runner (fixture_runner descriptor)
                      (register_builtin_plugin (built_manifest ANative built) (builder_new c abi)))
      end
  end.

(** A service starts in the surroundings it finds: the scan sees the files that
    were installed for it. *)
Variable surrounded : world → surroundings.

Definition started : Type := (caught (result ServiceRuntime text) * world * os * net)%type.

Definition start_with (b : ServiceRuntimeBuilder) (w : world) (o : os) (n : net) : started :=
  let '(r, w, o, n) := Lifecycle.start (surrounded w) [] b w o n in
  (Returned (map_err service_error_text r), w, o, n).

(** An installation and the start of a service behind it. *)
Definition start_installed (installed : caught (result unit text) * world) (c : ServiceConfig) (o : os) (n : net)
    : started :=
  match installed with
  | (Panicked p, w) => (Panicked p, w, o, n)
  | (Returned (Err e), w) => (Returned (Err e), w, o, n)
  | (Returned (Ok _), w) => start_with (builder_new c abi) w o n
  end.

(** [root]: the temporary directory. *)
Definition start_runtime (platform : target_os) (current_exe : result text text) (default : ServiceConfig)
    (deployment : BenchDeployment) (root : result text text) (process_id : N) (w : world) (o : os) (n : net)
    : started :=
  match root with
  | Err e => (Returned (Err e), w, o, n)
  | Ok root =>
      let c := bench_config default (name_of deployment) root process_id in
      match deployment with
      | Builtin =>
          match linked_builder c (lit "sha256:benchmark-builtin") with
          | Panicked p => (Panicked p, w, o, n)
          | Returned b => start_with b w o n
          end
      | Abi => start_installed (install_abi_plugin platform c current_exe w) c o n
      | RustProcess => start_installed (install_process_plugin platform c current_exe w) c o n
      end
  end.

(** ** The benchmark service *)

Variable to_vec : json → list byte.

Definition announcement (args : ServiceArgs) (c : ServiceConfig) (process_id : N) : json :=
  jobj [(lit "endpoint", JString (ipc_endpoint c)); (lit "token", JString (sa_token args));
        (lit "pid", JNumber (PosInt process_id))].

Definition set_world (w : world) (s : ServiceRuntime) : ServiceRuntime :=
  let st := state_ s in
  mkService (mkSvc (s_fixed st) (s_inner st) (s_sources st) (s_shutdown_tx st) (s_shutdown st) w (s_os st) (s_ambient st))
    (ipc_server s) (link_control_server s) (sockets_ s).

Definition announce (args : ServiceArgs) (c : ServiceConfig) (process_id : N) (s : ServiceRuntime)
    : result unit io_error * ServiceRuntime :=
  match create_dir_all (parent (sa_ready args)) (s_world (state_ s)) with
  | (Err e, w) => (Err e, set_world w s)
  | (Ok _, w) =>
      let '(r, w) := fs_write (sa_ready args) (to_vec (announcement args c process_id)) w in
      (r, set_world w s)
  end.

(** The polls of the stop file: whether it is there, and the requests that are
    served before the next one. *)
Fixpoint serve_until_stop (polls : list (bool * list ControlRequest)) (s : ServiceRuntime)
    : bool * ServiceRuntime :=
  match polls with
  | [] => (false, s)
  | (true, _) :: _ => (true, s)
  | (false, requests) :: polls => serve_until_stop polls (serve requests s)
  end.

Inductive service_run : Type :=
| NotStarted (e : text)
| Ended (r : result unit text) (left_ : remains)
| Serving (s : ServiceRuntime).

(** [main] behind its arguments.  Returning an error drops the service. *)
Definition benchmark_service (default : ServiceConfig) (args : ServiceArgs) (process_id : N) (w : world) (o : os)
    (n : net) (polls : list (bool * list ControlRequest)) : caught service_run :=
  let c := benchmark_service_config default args process_id in
  match linked_builder c (lit "sha256:benchmark-service-builtin") with
  | Panicked p => Panicked p
  | Returned b =>
      match Lifecycle.start (surrounded w) [] b w o n with
      | (Err e, _, _, _) => Returned (NotStarted (service_error_text e))
      | (Ok s, _, _, _) =>
          match announce args c process_id s with
          | (Err e, s) => Returned (Ended (Err (io_text e)) (drop_service s))
          | (Ok _, s) =>
              match serve_until_stop polls s with
              | (true, s) => Returned (Ended (Ok tt) (shutdown_service s))
              | (false, s) => Returned (Serving s)
              end
          end
      end
  end.

Definition service_main (default : ServiceConfig) (arguments : list text) (process_id : N) (w : world) (o : os)
    (n : net) (polls : list (bool * list ControlRequest)) : caught service_run :=
  match service_parse_args arguments with
  | Err e => Returned (NotStarted e)
  | Ok args => benchmark_service default args process_id w o n polls
  end.

End services.

(** ** Lemmas *)

(** A chosen record is a candidate for its selection. *)
Lemma pick_in `{Contracts} inv prefs id candidates r : pick inv prefs id candidates = Ok r → r ∈ candidates.
Proof.
  assert (Hfind : ∀ f l (e : ServiceRuntimeError), ok_or (List.find f l) e = Ok r → r ∈ l).
  { intros f l e. destruct (List.find f l) as [r'|] eqn:E; intros [= ->]. apply find_some in E as [E _].
    by apply list_elem_of_In. }
  unfold pick. destruct (bget prefs id); [by apply Hfind|]. destruct candidates as [|c [|c' l]]; [done| |].
  - intros [= ->]. by apply list_elem_of_here.
  - case_match; [by apply Hfind|done].
Qed.

Lemma chosen_id `{Contracts} inv prefs s r : choose inv prefs s = Ok r → plugin_id (manifest r) = trim (sel_id s).
Proof.
  unfold choose. case_bool_decide; [done|]. intros (c & Hc%pick_in & Hr)%rbind_ok.
  assert (c = r) as -> by (repeat case_match; by simplify_eq).
  unfold candidates_of in Hc. apply list_elem_of_In, filter_In in Hc as [_ Hc]. by apply text_eqb_eq in Hc.
Qed.

Section lemmas.
Context `{HostBoot} `{!TaskCore} `{!StateCodec} `{OsOk} `{!RequestCodec TaskBatch}.

(** A service that was started without a catalog of configured plugins, for one
    selected plugin. *)
Lemma one_selection x b w o n s w' o' n' sel :
  Lifecycle.start x [] b w o n = (Ok s, w', o', n') →
  enabled_selections (configured (plugins (b_config b))) = [sel] →
  (∃ r, c_records (i_catalog (s_inner (state_ s))) = [r] ∧ plugin_id (manifest r) = trim (sel_id sel)) ∧
  f_token (s_fixed (state_ s)) = config_token (b_config b) ∧
  s_sources (state_ s) = start_sources (now x) (event_sources b).
Proof.
  intros (s0 & w1 & Hi & _ & _ & ->)%start_ok Hsel. simpl.
  apply start_inner_ok in Hi as (b' & d & p & h & Hp & _ & _ & _ & Ht & Hs & Hsrc & _).
  unfold prepare_start in Hp. apply rbind_ok in Hp as (b1 & Hb & Hp).
  assert (b1 = b) as ->.
  { unfold install_configured_plugins in Hb. apply rbind_ok in Hb as (l & Hl%resolve_selections_spec & Hb).
    destruct Hl as [_ ->]. rewrite Hsel in Hb. by injection Hb. }
  apply rbind_ok in Hp as ([] & _ & Hp). apply rbind_ok in Hp as (d1 & _ & Hp).
  apply rbind_ok in Hp as (p1 & Hp1 & [= -> -> ->]). split; [|done].
  rewrite Hs. simpl. unfold load_catalog_with_state in Hp1.
  apply rbind_ok in Hp1 as (builtin & _ & Hp1). apply rbind_ok in Hp1 as (inv & _ & Hp1).
  unfold resolve_catalog in Hp1. rewrite Hsel in Hp1. apply rbind_ok in Hp1 as (rs & Hrs & [= <-]).
  simpl in Hrs. apply rbind_ok in Hrs as (r & Hr & [= <-]). exists r. split; [done|]. by eapply chosen_id.
Qed.

Lemma serve_until_stop_fold polls s :
  ∃ rs, (serve_until_stop polls s).2 = serve rs s.
Proof.
  revert s. induction polls as [|[[] rs] polls IH]; intros s; simpl.
  - exists []. by destruct s.
  - exists []. by destruct s.
  - destruct (IH (serve rs s)) as [rs' ->]. exists (rs ++ rs'). unfold serve. simpl. by rewrite fold_left_app.
Qed.

Lemma serve_until_stop_seen polls s :
  (serve_until_stop polls s).1 = List.existsb fst polls.
Proof. revert s. induction polls as [|[[] rs] polls IH]; intros s; [done..|]. simpl. apply IH. Qed.

Lemma set_world_tracks o w s : tracks o (state_ (set_world w s)) ↔ tracks o (state_ s).
Proof. done. Qed.
End lemmas.

(** ** Properties *)

Section properties.
Context `{HostBoot} `{!TaskCore} `{!StateCodec} `{OsOk} `{!RequestCodec TaskBatch} `{!AbiSdk} `{!PluginSdk} `{!BenchInstall}.
Variable fixture_runner : Descriptor → Runner.
Variable abi : PluginRecord → json → ServiceRuntimeResult LoadedPlugin.
Variable surrounded : world → surroundings.
Variable to_vec : json → list byte.

Lemma linked_config c sha b : linked_builder fixture_runner abi c sha = Returned b →
  b_config b = c ∧ event_sources b = [].
Proof.
  unfold linked_builder. intros Hb. destruct (fixture_manifest_for _ _) as [built|]; [|done].
  destruct (pr_runners _); [done|]. by injection Hb as <-.
Qed.

Lemma start_with_ok b w o n s w' o' n' :
  start_with surrounded b w o n = (Returned (Ok s), w', o', n') →
  Lifecycle.start (surrounded w) [] b w o n = (Ok s, w', o', n').
Proof.
  unfold start_with. destruct (Lifecycle.start _ _ _ _ _ _) as [[[r w1] o1] n1].
  intros [= Hr <- <- <-]. by destruct r; simplify_eq/=.
Qed.

Lemma start_installed_ok installed c o n s w' o' n' :
  start_installed abi surrounded installed c o n = (Returned (Ok s), w', o', n') →
  ∃ w1, installed = (Returned (Ok tt), w1) ∧
    Lifecycle.start (surrounded w1) [] (builder_new c abi) w1 o n = (Ok s, w', o', n').
Proof.
  unfold start_installed. destruct installed as [[[[]|e]|p] w1]; [|done..].
  intros Hs%start_with_ok. by exists w1.
Qed.

(** The service of a benchmark, however the fixture plugin is deployed, runs this
    plugin and nothing else: its catalog is one record with the id of the
    fixture, no event source was started, and it answers to the token that the
    benchmark sends; the linked runner, the library and the process differ only
    in the record that was chosen. *)
Theorem benchmark_runs_fixture platform exe default d root pid w o n s w' o' n' :
  start_runtime fixture_runner abi surrounded platform exe default d root pid w o n
    = (Returned (Ok s), w', o', n') →
  (∃ r, c_records (i_catalog (s_inner (state_ s))) = [r] ∧ plugin_id (manifest r) = PLUGIN_ID) ∧
  f_token (s_fixed (state_ s)) = lit "benchmark-control-token" ∧ s_sources (state_ s) = [].
Proof.
  unfold start_runtime. destruct root as [root|e]; [|done].
  set (c := bench_config default (name_of d) root pid). intros Hs.
  assert (∃ b w1, Lifecycle.start (surrounded w1) [] b w1 o n = (Ok s, w', o', n') ∧
    b_config b = c ∧ event_sources b = []) as (b & w1 & Hstart & Hc & Hes).
  { destruct d.
    - destruct (linked_builder _ _ _ _) as [b|] eqn:Hb; [|done]. apply start_with_ok in Hs.
      exists b, w. split; [exact Hs|]. by eapply linked_config.
    - apply start_installed_ok in Hs as (w1 & _ & Hs). by exists (builder_new c abi), w1.
    - apply start_installed_ok in Hs as (w1 & _ & Hs). by exists (builder_new c abi), w1. }
  eapply one_selection in Hstart as (Hr & Ht & Hsrc); [|rewrite Hc; reflexivity].
  rewrite Hc in Ht. rewrite Hes in Hsrc. split; [|done]. simpl in Hr.
  by replace (trim PLUGIN_ID) with PLUGIN_ID in Hr by (by vm_compute).
Qed.

(** The end of a benchmark service: it leaves no process, connection loop, event
    source or Core behind, also when it cannot announce itself; it ends well
    exactly if it was announced, in the file and with the endpoint and token it
    serves, and a stop file was seen; and it goes on serving until then whatever
    requests it gets, so that a client that asks it to shut down is told it
    would, and it does not. *)
Theorem benchmark_service_ends default args pid w o n polls run :
  benchmark_service fixture_runner abi surrounded to_vec default args pid w o n polls = Returned run →
  let c := benchmark_service_config default args pid in
  match run with
  | NotStarted _ => True
  | Ended r left_ =>
      nothing_left o left_ ∧
      (r = Ok tt → List.existsb fst polls = true ∧
         ∃ s requests, left_ = shutdown_service (serve requests s) ∧
           files (s_world (state_ s)) !! sa_ready args = Some (to_vec (announcement args c pid)) ∧
           f_token (s_fixed (state_ s)) = sa_token args)
  | Serving s =>
      List.existsb fst polls = false ∧
      ∃ s0, s = serve (concat (snd <$> polls)) s0 ∧ s_shutdown (state_ s0) = None
  end.
Proof.
  unfold benchmark_service. cbv zeta. set (c := benchmark_service_config default args pid).
  destruct (linked_builder _ _ _ _) as [b|] eqn:Hb; [|done]. apply linked_config in Hb as [Hc _].
  destruct (Lifecycle.start _ _ _ _ _ _) as [[[[s|e] w1] o1] n1] eqn:Hs; [|by intros [= <-]].
  pose proof (start_tracks _ _ _ _ _ _ _ _ _ _ Hs) as [Ht _].
  assert (Htok : f_token (s_fixed (state_ s)) = sa_token args).
  { eapply one_selection in Hs as (_ & -> & _); [|rewrite Hc; reflexivity]. by rewrite Hc. }
  assert (Hno : s_shutdown (state_ s) = None) by (apply start_ok in Hs as (s1 & w2 & _ & _ & _ & ->); done).
  clear Hs. unfold announce.
  destruct (create_dir_all _ _) as [[[]|e] w2]; [|intros [= <-]; split; [by apply drop_leaves_nothing|done]].
  unfold fs_write. destruct (faults w2 _) as [[e [part|]]|].
  1,2: intros [= <-]; split; [by apply drop_leaves_nothing|done].
  set (s0 := set_world _ s). pose proof (serve_until_stop_seen polls s0) as Hseen.
  destruct (serve_until_stop_fold polls s0) as [rs Hrs].
  destruct (serve_until_stop polls s0) as [[] s2] eqn:E; simpl in Hseen, Hrs; subst s2; intros [= <-].
  - split; [by apply shutdown_leaves_nothing, (serve_tracks o rs (state_ s0))|]. intros _. split; [done|].
    exists s0, rs. split; [done|]. split; [|done]. simpl. by rewrite lookup_insert_eq.
  - split; [done|]. exists s0. split; [|done].
    clear -E. assert (Hgo : ∀ s s2, serve_until_stop polls s = (false, s2) → s2 = serve (concat polls.*2) s).
    { clear. induction polls as [|[[] rs] polls IH]; intros s s2; simpl; [intros [= <-]; by destruct s|done|].
      intros ->%IH. unfold serve. simpl. by rewrite fold_left_app. }
    by apply Hgo.
Qed.
End properties.

(** ** Witnesses *)

Section witnesses.
Import Plugins.Sample Boot.Sample Supervisor.Sample Deployment.Sample Tasks.Sample Lifecycle.Sample Abi.Sample.
Import BenchSetup.Sample.

Definition sample_runner (d : @Descriptor _ bench_sdk) : @Runner _ sample_core := d.

Definition bench_start : started :=
  start_runtime sample_runner (load_abi_plugin factories) (λ _, around (Ok tt)) OsOther
    (Ok (lit "/bin/mutsuki-benchmarks")) (default_config false None) Builtin (Ok (lit "/tmp/msh1")) 7 built
    (mkSystem 0 []) demo_net.
Lemma benchmark_runs_fixture_witness :
  ∃ s w' o' n', bench_start = (Returned (Ok s), w', o', n') ∧
    ∃ r, c_records (i_catalog (s_inner (state_ s))) = [r] ∧ plugin_id (manifest r) = PLUGIN_ID.
Proof.
  assert (H : match bench_start.1.1.1 with Returned r => is_ok r | Panicked _ => false end = true)
    by (vm_compute; reflexivity).
  destruct bench_start as [[[[[s|e]|p] w'] o'] n'] eqn:E; [|discriminate H..].
  exists s, w', o', n'. split; [reflexivity|].
  exact (proj1 (benchmark_runs_fixture sample_runner (load_abi_plugin factories) (λ _, around (Ok tt)) OsOther
    (Ok (lit "/bin/mutsuki-benchmarks")) (default_config false None) Builtin (Ok (lit "/tmp/msh1")) 7 built
    (mkSystem 0 []) demo_net s w' o' n' E)).
Defined.

(** The service of a distributed benchmark: it is asked to shut down, goes on,
    and ends when the stop file is there. *)
Definition bench_service (polls : list (bool * list ControlRequest)) : caught service_run :=
  benchmark_service sample_runner (load_abi_plugin factories) (λ _, around (Ok tt)) (λ _, [x7b])
    (default_config false None)
    (mkServiceArgs (lit "/tmp/d") (lit "/tmp/d/ready") (lit "/tmp/d/stop") (lit "secret") (lit "a")) 7 built
    (mkSystem 0 []) demo_net polls.

Definition ends_well (run : caught service_run) : bool :=
  match run with Returned (Ended (Ok _) _) => true | _ => false end.

Lemma benchmark_service_ends_witness :
  let asked := mkRequest (lit "secret") ServiceShutdown JNull in
  ∃ left_, bench_service [(false, [asked]); (true, [])] = Returned (Ended (Ok tt) left_) ∧
    nothing_left (mkSystem 0 []) left_.
Proof.
  intros asked. assert (H : ends_well (bench_service [(false, [asked]); (true, [])]) = true)
    by (vm_compute; reflexivity).
  destruct (bench_service [(false, [asked]); (true, [])]) as [run|p] eqn:E; [|discriminate H].
  destruct run as [e|[[]|e] left_|s]; [discriminate H| |discriminate H..].
  exists left_. split; [reflexivity|].
  exact (proj1 (benchmark_service_ends sample_runner (load_abi_plugin factories) (λ _, around (Ok tt)) (λ _, [x7b])
    (default_config false None)
    (mkServiceArgs (lit "/tmp/d") (lit "/tmp/d/ready") (lit "/tmp/d/stop") (lit "secret") (lit "a")) 7 built
    (mkSystem 0 []) demo_net [(false, [asked]); (true, [])] (Ended (Ok tt) left_) E)).
Defined.
End witnesses.
