(* ===== verification/Windows.v ===== *)
(** * The Windows service

    The [platform] module of [crates/mutsuki-service-daemon/src/lib.rs] that is
    built for Windows: installing, starting and uninstalling through the service
    control manager, with its two polling loops, and the service process that
    reports its state to the manager around a [ServiceRuntime].  The manager
    answers what it likes, and calls take the time they take. *)

From S2P Require Import Prelude Text BTreeMap Value Control ConfigTypes Frame Fs Transport.
From S2P Require Import Plugins Supervisor Catalog Boot Deployment EventSource LogTail Tasks Runtime Lifecycle.
From S2P Require ServiceUnit.

(** ** The service control manager *)

Inductive ServiceState : Type :=
| Stopped | StartPending | StopPending | Running | ContinuePending | PausePending | Paused.

#[export] Instance service_state_eq_dec : EqDecision ServiceState.
Proof. solve_decision. Defined.

Inductive ServiceAccess : Type := CHANGE_CONFIG | QUERY_STATUS | STOP | START | DELETE.

(** [windows_service::Error]. *)
Inductive win_error : Type := Winapi (raw : option Z) (m : text) | OtherError (m : text).

Definition raw_os_error (e : win_error) : option Z :=
  match e with Winapi raw _ => raw | OtherError _ => None end.

Definition ERROR_SERVICE_DOES_NOT_EXIST : Z := 1060.
Definition ERROR_SERVICE_EXISTS : Z := 1073.
Definition ERROR_SERVICE_ALREADY_RUNNING : Z := 1056.

Definition has_code (code : Z) (e : win_error) : bool := bool_decide (raw_os_error e = Some code).

(** What is registered: an automatic service in a process of its own; no
    account means the local system. *)
Record ServiceInfo : Type := mkServiceInfo {
  si_name : text; si_display_name : text; si_executable : list byte;
  si_arguments : list (list byte); si_account : option text;
}.

Record ServiceStatus : Type := mkServiceStatus {
  current_state : ServiceState; accepts_stop : bool;
  exit_code : N; checkpoint : N; wait_hint : N; process_id : option N;
}.

Definition service_status (s : ServiceState) (accepts : bool) : ServiceStatus :=
  mkServiceStatus s accepts 0 0 0 None.

Inductive scm_call : Type :=
| Connect (create : bool)
| CreateService (info : ServiceInfo) (access : list ServiceAccess)
| SetDescription (t : text)
| OpenService (name : text) (access : list ServiceAccess)
| QueryStatus | StopService | StartService | DeleteService
| RegisterHandler (name : text)
| Report (s : ServiceStatus).

(** What the manager answers to a call, given the calls before it (the state
    is that of a query), how long the call takes in milliseconds, and how much
    longer than asked a sleep takes. *)
Class Scm : Type := {
  answer : list scm_call → scm_call → result ServiceState win_error;
  took : list scm_call → N;
  overslept : list scm_call → N;
}.

Record windows : Type := mkWindows { w_disk : world; calls : list scm_call; clock : N }.

Inductive WindowsError : Type :=
| WinBail (m : text)
| WinScm (context : text) (e : win_error)
| WinFile (context : text) (e : io_error)
| WinStart (m : text).

(** Operations that can fail; [None] is a wait that is not over. *)
Definition W (A : Type) : Type := windows → option (result A WindowsError * windows).

Definition wret {A} (a : A) : W A := λ s, Some (Ok a, s).
Definition wfail {A} (e : WindowsError) : W A := λ s, Some (Err e, s).
Definition wthen {A B} (m : W A) (f : A → W B) : W B := λ s,
  match m s with
  | Some (Ok a, s) => f a s
  | Some (Err e, s) => Some (Err e, s)
  | None => None
  end.
(** The result of an operation as a value. *)
Definition wtry {A} (m : W A) : W (result A WindowsError) := λ s,
  match m s with Some (r, s) => Some (Ok r, s) | None => None end.

Declare Scope windows_scope.
Notation "'do!' x ':=' m 'in' k" := (wthen m (fun x => k))
  (at level 10, x pattern, m at level 100, k at level 200) : windows_scope.
Open Scope windows_scope.

Section windows.
Context `{Scm}.

(** A call, with the error as a value. *)
Definition ask (c : scm_call) : W (result ServiceState win_error) := λ s,
  Some (Ok (answer (calls s) c), mkWindows (w_disk s) (calls s ++ [c]) (clock s + took (calls s))).

Definition call (c : scm_call) (context : text) : W ServiceState :=
  do! r := ask c in
  match r with Ok st => wret st | Err e => wfail (WinScm context e) end.

Definition sleep (ms : N) : W unit := λ s,
  Some (Ok tt, mkWindows (w_disk s) (calls s) (clock s + ms + overslept (calls s))).

Definition now_ : W N := λ s, Some (Ok (clock s), s).

Definition on_file (op : world → result unit io_error * world) (context : text) : W unit := λ s,
  let '(r, w) := op (w_disk s) in Some (map_err (WinFile context) r, mkWindows w (calls s) (clock s)).

(** ** Installing *)

Definition ensure_system_scope (scope : ServiceUnit.DaemonScope) : W unit :=
  match scope with
  | ServiceUnit.SystemScope => wret tt
  | ServiceUnit.UserScope => wfail (WinBail (lit "Windows Service supports only system scope"))
  end.

Definition persist_control_token (c : ServiceConfig) : W unit :=
  let token_path := path_join (run_dir (ConfigTypes.service c)) (lit "control.token") in
  do! _ := on_file (create_dir_all (run_dir (ConfigTypes.service c)))
             (lit "failed to create run dir " ++ run_dir (ConfigTypes.service c)) in
  on_file (fs_write token_path (utf8 (config_token c)))
    (lit "failed to write control token " ++ token_path).

Definition service_info (c : ServiceConfig) (l : ServiceUnit.DaemonLaunchOptions) : ServiceInfo :=
  mkServiceInfo (ServiceUnit.windows_service_name c) (ServiceUnit.windows_service_display_name c)
    (ServiceUnit.executable_path l) (ServiceUnit.windows_service_launch_arguments l) None.

Definition manager_context : text := lit "failed to connect to Windows service manager".

Definition install (c : ServiceConfig) (l : ServiceUnit.DaemonLaunchOptions)
    (scope : ServiceUnit.DaemonScope) (service_user : option text) : W unit :=
  do! _ := ensure_system_scope scope in
  do! _ := if ServiceUnit.persist_control_token_ l then persist_control_token c else wret tt in
  do! _ := call (Connect true) manager_context in
  do! r := ask (CreateService (service_info c l) [CHANGE_CONFIG; QUERY_STATUS]) in
  match r with
  | Err e =>
      if has_code ERROR_SERVICE_EXISTS e then
        wfail (WinBail (lit "Windows service " ++ ServiceUnit.windows_service_name c ++ lit " already exists"))
      else wfail (WinScm (lit "failed to create Windows service") e)
  | Ok _ =>
      do! _ := call (SetDescription (lit "MutsukiCore headless service host"))
                 (lit "failed to set Windows service description") in
      wret tt
  end.

(** ** Uninstalling *)

Definition query_context : text := lit "failed to query Windows service status".

Fixpoint wait_until_stopped (fuel : nat) (start timeout : N) : W unit :=
  match fuel with
  | O => λ _, None
  | S fuel =>
      do! t := now_ in
      if (t - start <? timeout)%N then
        do! st := call QueryStatus query_context in
        if bool_decide (st = Stopped) then wret tt
        else do! _ := sleep 250 in wait_until_stopped fuel start timeout
      else wfail (WinBail (lit "Windows service did not stop within " ++ show_N (timeout / 1000) ++ lit "s"))
  end.

Fixpoint wait_until_deleted (fuel : nat) (name : text) (start timeout : N) : W unit :=
  match fuel with
  | O => λ _, None
  | S fuel =>
      do! t := now_ in
      if (t - start <? timeout)%N then
        do! r := ask (OpenService name [QUERY_STATUS]) in
        match r with
        | Ok _ => do! _ := sleep 250 in wait_until_deleted fuel name start timeout
        | Err e =>
            if has_code ERROR_SERVICE_DOES_NOT_EXIST e then wret tt
            else wfail (WinScm (lit "failed to confirm Windows service deletion") e)
        end
      else wfail (WinBail (lit "Windows service " ++ name ++ lit " is marked for deletion but still exists"))
  end.

Definition stopping (st : ServiceState) : bool := bool_decide (st = Stopped ∨ st = StopPending).

(** The end of [uninstall]. *)
Definition delete_and_wait (fuel : nat) (name : text) : W unit :=
  do! _ := call DeleteService (lit "failed to delete Windows service") in
  do! start := now_ in
  wait_until_deleted fuel name start 5000.

Definition uninstall (fuel : nat) (c : ServiceConfig) (scope : ServiceUnit.DaemonScope) : W unit :=
  do! _ := ensure_system_scope scope in
  let name := ServiceUnit.windows_service_name c in
  do! _ := call (Connect false) manager_context in
  do! r := ask (OpenService name [QUERY_STATUS; STOP; DELETE]) in
  match r with
  | Err e =>
      if has_code ERROR_SERVICE_DOES_NOT_EXIST e then wret tt
      else wfail (WinScm (lit "failed to open Windows service") e)
  | Ok _ =>
      do! st := call QueryStatus query_context in
      do! _ :=
        if stopping st then wret tt
        else
          do! _ := call StopService (lit "failed to request Windows service stop") in
          do! start := now_ in
          wait_until_stopped fuel start 15000 in
      delete_and_wait fuel name
  end.

(** ** Starting *)

Definition start (c : ServiceConfig) (scope : ServiceUnit.DaemonScope) : W unit :=
  do! _ := ensure_system_scope scope in
  do! _ := call (Connect false) manager_context in
  do! _ := call (OpenService (ServiceUnit.windows_service_name c) [QUERY_STATUS; START])
             (lit "failed to open Windows service") in
  do! st := call QueryStatus query_context in
  if bool_decide (st = Running) then wret tt
  else
    do! r := ask StartService in
    match r with
    | Ok _ => wret tt
    | Err e =>
        if has_code ERROR_SERVICE_ALREADY_RUNNING e then wret tt
        else wfail (WinScm (lit "failed to start Windows service") e)
    end.

End windows.

(** ** The service process *)

Inductive ServiceControl : Type := Interrogate | StopControl | OtherControl.
Inductive ControlResult : Type := NoError | NotImplemented.

#[export] Instance service_control_eq_dec : EqDecision ServiceControl.
Proof. solve_decision. Defined.

(** The sender of the stop channel is taken by the first stop. *)
Record stop_channel : Type := mkStopChannel { sender_ : bool; sent : bool }.

Definition event_handler (e : ServiceControl) (ch : stop_channel) : ControlResult * stop_channel :=
  match e with
  | Interrogate => (NoError, ch)
  | StopControl => (NoError, if sender_ ch then mkStopChannel false true else ch)
  | OtherControl => (NotImplemented, ch)
  end.

Definition after_events (events : list ServiceControl) : stop_channel :=
  fold_left (λ ch e, (event_handler e ch).2) events (mkStopChannel true false).

(** [run_windows_service]: the configuration is set once per process; the
    dispatcher then calls [service_main] on a thread of its own. *)
Definition run_windows_service (slot : option ServiceConfig) (c : ServiceConfig)
    (dispatcher : text → result unit win_error) : result unit WindowsError * option ServiceConfig :=
  match slot with
  | Some _ => (Err (WinBail (lit "Windows service config was already initialized")), slot)
  | None => (map_err (WinScm (lit "failed to start Windows service dispatcher"))
               (dispatcher (ServiceUnit.windows_service_name c)), Some c)
  end.

Section service.
Context `{Scm} `{HostBoot} `{!TaskCore} `{!StateCodec} `{Os} `{!RequestCodec TaskBatch}.

Definition report (st : ServiceState) (accepts : bool) (context : text) : W unit :=
  do! _ := call (Report (service_status st accepts)) context in wret tt.

(** [let _ = set_service_status(..)]. *)
Definition report_ignored (st : ServiceState) : W unit :=
  do! _ := ask (Report (service_status st false)) in wret tt.

(** From the start of the service to the report of its end.  [requests] and
    [events] are what arrives before the wait looks again, [signal_first] which
    branch of [select] is polled first then. *)
Definition serve_until_stopped (signal_first : bool) (requests : list ControlRequest)
    (events : list ServiceControl) (s : ServiceRuntime) : W remains :=
  do! _ := report Running true (lit "failed to report Windows service running") in
  let s := serve requests s in
  let stop := sent (after_events events) in
  match run_until_shutdown_signal (if stop then Some (lit "windows-service-control") else None) s with
  | None => λ _, None
  | Some r =>
      do! _ := if stop && (signal_first || bool_decide (s_shutdown (state_ s) = None))
               then report_ignored StopPending else wret tt in
      do! _ := report Stopped false (lit "failed to report Windows service stopped") in
      wret r
  end.

(** [run_service], given how the Tokio runtime and the service start. *)
Definition run_service (slot : option ServiceConfig) (tokio : result unit io_error)
    (starts : ServiceConfig → ServiceRuntimeResult ServiceRuntime) (signal_first : bool)
    (requests : list ControlRequest) (events : list ServiceControl) : W remains :=
  match slot with
  | None => wfail (WinBail (lit "Windows service config is not initialized"))
  | Some c =>
      do! _ := call (RegisterHandler (ServiceUnit.windows_service_name c))
                 (lit "failed to register Windows service control handler") in
      do! _ := report StartPending false (lit "failed to report Windows service start pending") in
      do! _ := match tokio with
               | Err e => wfail (WinFile (lit "failed to create Tokio runtime") e)
               | Ok _ => wret tt
               end in
      do! result := wtry match starts c with
                         | Err e => wfail (WinStart (service_error_text e))
                         | Ok s => serve_until_stopped signal_first requests events s
                         end in
      match result with
      | Ok r => wret r
      | Err e => do! _ := report_ignored Stopped in wfail e
      end
  end.

End service.

(** ** Lemmas on waits *)

Section lemmas.
Context `{Scm}.

(** What a history may look like: a service is only deleted when the manager
    said last that it is stopped, or about to be. *)
Definition deletes_stopped (h : list scm_call) : Prop :=
  ∀ a b, h = a ++ DeleteService :: b →
    ∃ a0 st, a = a0 ++ [QueryStatus] ∧ answer a0 QueryStatus = Ok st ∧ (st = Stopped ∨ st = StopPending).

Lemma deletes_snoc h c : c ≠ DeleteService → deletes_stopped h → deletes_stopped (h ++ [c]).
Proof.
  intros Hc Hh a b Hab. destruct b as [|x b' _] using rev_ind.
  - apply app_inj_tail in Hab as [_ E]. congruence.
  - rewrite app_comm_cons, (assoc_L (++)) in Hab. apply app_inj_tail in Hab as [E _]. by apply (Hh a b').
Qed.

Lemma deletes_delete h st :
  answer h QueryStatus = Ok st → st = Stopped ∨ st = StopPending → deletes_stopped h →
  deletes_stopped (h ++ [QueryStatus] ++ [DeleteService]).
Proof.
  intros Ha Hs Hh a b Hab. rewrite (assoc_L (++)) in Hab.
  destruct b as [|x b' _] using rev_ind.
  - apply app_inj_tail in Hab as [<- _]. by exists h, st.
  - rewrite app_comm_cons, (assoc_L (++)) in Hab. apply app_inj_tail in Hab as [E _].
    by apply (deletes_snoc h QueryStatus) in E.
Qed.

Definition says_gone (name : text) (h : list scm_call) : Prop :=
  ∃ h0 access e, h = h0 ++ [OpenService name access] ∧ answer h0 (OpenService name access) = Err e ∧
    has_code ERROR_SERVICE_DOES_NOT_EXIST e = true.

(** The loop looks again while the time is not over; each round takes at least
    the quarter of a second it sleeps. *)
Lemma wait_stopped_spec fuel start timeout s :
  (1 ≤ fuel)%nat → (start + timeout ≤ clock s + 250 * N.of_nat (fuel - 1))%N → deletes_stopped (calls s) →
  ∃ r s', wait_until_stopped fuel start timeout s = Some (r, s') ∧ w_disk s' = w_disk s ∧
    deletes_stopped (calls s') ∧ (clock s ≤ clock s')%N ∧
    match r with
    | Ok _ => ∃ h, calls s' = h ++ [QueryStatus] ∧ answer h QueryStatus = Ok Stopped ∧ deletes_stopped h
    | Err _ => True
    end.
Proof.
  revert s. induction fuel as [|fuel IH]; intros s Hf Ht Hd; [lia|]. simpl.
  unfold wthen at 1, now_. destruct (N.ltb_spec (clock s - start) timeout) as [Hlt|Hge].
  2: { do 2 eexists. by split_and!. }
  assert (Hd1 : deletes_stopped (calls s ++ [QueryStatus])) by (by apply deletes_snoc).
  unfold call, ask, wthen at 1 2. destruct (answer (calls s) QueryStatus) as [st|e] eqn:Ha; simpl.
  - case_bool_decide as Hst; simpl.
    + subst. do 2 eexists. split; [done|]. simpl. split_and!; [done|done|lia|by exists (calls s)].
    + unfold wthen, sleep. simpl.
      edestruct (IH (mkWindows (w_disk s) (calls s ++ [QueryStatus])
        (clock s + took (calls s) + 250 + overslept (calls s ++ [QueryStatus])))) as (r & s' & E & H1 & H2 & H3 & H4);
        simpl; [lia|lia|done|].
      exists r, s'. simpl in *. split_and!; [done..|lia|done].
  - do 2 eexists. split; [done|]. simpl. split_and!; [done|done|lia|done].
Qed.

Lemma wait_deleted_spec fuel name start timeout s :
  (1 ≤ fuel)%nat → (start + timeout ≤ clock s + 250 * N.of_nat (fuel - 1))%N → deletes_stopped (calls s) →
  ∃ r s', wait_until_deleted fuel name start timeout s = Some (r, s') ∧ w_disk s' = w_disk s ∧
    deletes_stopped (calls s') ∧ match r with Ok _ => says_gone name (calls s') | Err _ => True end.
Proof.
  revert s. induction fuel as [|fuel IH]; intros s Hf Ht Hd; [lia|]. simpl.
  unfold wthen at 1, now_. destruct (N.ltb_spec (clock s - start) timeout) as [Hlt|Hge].
  2: { do 2 eexists. by split_and!. }
  set (c := OpenService name [QUERY_STATUS]).
  assert (Hd1 : deletes_stopped (calls s ++ [c])) by (by apply deletes_snoc).
  unfold ask, wthen at 1. destruct (answer (calls s) c) as [st|e] eqn:Ha; simpl.
  - unfold wthen, sleep. simpl.
    edestruct (IH (mkWindows (w_disk s) (calls s ++ [c])
      (clock s + took (calls s) + 250 + overslept (calls s ++ [c])))) as (r & s' & E & H1 & H2 & H3);
      simpl; [lia|lia|done|]. exists r, s'. by split_and!.
  - destruct (has_code _ e) eqn:Ec; do 2 eexists; (split; [done|]); simpl; split_and!; try done.
    by exists (calls s), [QUERY_STATUS], e.
Qed.

(** The host after a call. *)
Definition after (c : scm_call) (s : windows) : windows :=
  mkWindows (w_disk s) (calls s ++ [c]) (clock s + took (calls s)).

Lemma ask_bind {B} c (f : result ServiceState win_error → W B) s :
  wthen (ask c) f s = f (answer (calls s) c) (after c s).
Proof. done. Qed.

Lemma call_bind {B} c ctx (f : ServiceState → W B) s :
  wthen (call c ctx) f s =
    match answer (calls s) c with
    | Ok st => f st (after c s)
    | Err e => Some (Err (WinScm ctx e), after c s)
    end.
Proof. unfold call. unfold wthen at 1. rewrite ask_bind. by destruct (answer (calls s) c). Qed.

Lemma deletes_after c s : c ≠ DeleteService → deletes_stopped (calls s) → deletes_stopped (calls (after c s)).
Proof. apply deletes_snoc. Qed.

(** [gone_or_failed] is what every path of [uninstall] ends in. *)
Definition gone_or_failed (name : text) (s : windows) (m : option (result unit WindowsError * windows)) : Prop :=
  ∃ r s', m = Some (r, s') ∧ w_disk s' = w_disk s ∧ deletes_stopped (calls s') ∧
    match r with Ok _ => says_gone name (calls s') | Err _ => True end.

Lemma gone_err name s e s' :
  w_disk s' = w_disk s → deletes_stopped (calls s') → gone_or_failed name s (Some (Err e, s')).
Proof. intros Hw Hd. do 2 eexists. by split_and!. Qed.

Lemma delete_and_wait_spec fuel name s0 s h st :
  (21 ≤ fuel)%nat → calls s = h ++ [QueryStatus] → answer h QueryStatus = Ok st → st = Stopped ∨ st = StopPending →
  w_disk s = w_disk s0 → deletes_stopped h → gone_or_failed name s0 (delete_and_wait fuel name s).
Proof.
  intros Hf Hc Ha Hs Hw Hh. unfold delete_and_wait. rewrite call_bind.
  assert (Hd : deletes_stopped (calls (after DeleteService s))).
  { simpl. rewrite Hc, <-(assoc_L (++)). by apply (deletes_delete h st). }
  destruct (answer (calls s) DeleteService); [|by apply gone_err].
  unfold wthen, now_.
  destruct (wait_deleted_spec fuel name (clock (after DeleteService s)) 5000 (after DeleteService s))
    as (r & s' & -> & Hw' & Hd' & Hr); [lia|lia|done|].
  exists r, s'. split_and!; [done|by rewrite Hw'|done|done].
Qed.

(** ** What the process reports *)

Definition reported (h : list scm_call) : list ServiceState :=
  omap (λ c, match c with Report s => Some (current_state s) | _ => None end) h.

Lemma reported_snoc h c : reported (h ++ [c]) = reported h ++ reported [c].
Proof. apply omap_app. Qed.

End lemmas.

(** ** Lemmas on the service process *)

Lemma stop_sent events : sent (after_events events) = bool_decide (StopControl ∈ events).
Proof.
  unfold after_events.
  assert (Hgen : ∀ ch, (sender_ ch = negb (sent ch)) →
    sent (fold_left (λ ch e, (event_handler e ch).2) events ch) = sent ch || bool_decide (StopControl ∈ events)).
  { induction events as [|e events IH]; intros ch Hch; cbn [fold_left]; [by rewrite orb_false_r|].
    rewrite IH by (destruct e, ch as [[] []]; simpl in *; congruence).
    destruct e; cbn [event_handler snd].
    - f_equal. apply bool_decide_ext. set_solver.
    - rewrite (bool_decide_true (StopControl ∈ StopControl :: events)) by set_solver. rewrite orb_true_r.
      destruct ch as [[] []]; simpl in *; (reflexivity || congruence).
    - f_equal. apply bool_decide_ext. set_solver. }
  by rewrite Hgen.
Qed.

Section process.
Context `{Scm} `{HostBoot} `{!TaskCore} `{!StateCodec} `{OsOk} `{!RequestCodec TaskBatch}.

(** What a state of the wait says of the requests. *)
Lemma not_asked x catalog b w o n s0 requests :
  (Lifecycle.start x catalog b w o n).1.1.1 = Ok s0 →
  s_shutdown (state_ (serve requests s0)) = None ↔
  Forall (λ r, asks_stop (f_token (s_fixed (state_ s0))) r = false) requests.
Proof.
  destruct (Lifecycle.start x catalog b w o n) as [[[r w'] o'] n'] eqn:Hs. simpl. intros ->.
  pose proof (start_tracks _ _ _ _ _ _ _ _ _ _ Hs) as [_ Hch].
  assert (Hno : s_shutdown (state_ s0) = None)
    by (apply start_ok in Hs as (s1 & w1 & _ & _ & _ & ->); done).
  destruct (serve_channel requests _ Hch) as (_ & _ & Hiff).
  change (state_ (serve requests s0)) with (fold_left (λ st r, (handle r st).1) requests (state_ s0)).
  rewrite Hiff. naive_solver.
Qed.

(** One report, and what it leaves. *)
Lemma report_spec st acc ctx s :
  ∃ r s', report st acc ctx s = Some (r, s') ∧ reported (calls s') = reported (calls s) ++ [st].
Proof.
  unfold report, call, ask, wthen. destruct (answer _ _); simpl; do 2 eexists; (split; [done|]); apply reported_snoc.
Qed.

Lemma report_ignored_spec st s :
  ∃ s', report_ignored st s = Some (Ok tt, s') ∧ reported (calls s') = reported (calls s) ++ [st].
Proof. eexists. split; [done|]. apply reported_snoc. Qed.

Lemma serve_until_stopped_spec first requests events s0 s :
  match serve_until_stopped first requests events s0 s with
  | None => (StopControl ∉ events) ∧ s_shutdown (state_ (serve requests s0)) = None
  | Some (r, s') => ∃ rs, reported (calls s') = reported (calls s) ++ rs ∧
      match r with
      | Ok rem => rem = shutdown_service (serve requests s0) ∧
          (rs = [Running; Stopped] ∧ s_shutdown (state_ (serve requests s0)) ≠ None ∨
           rs = [Running; StopPending; Stopped] ∧ StopControl ∈ events)
      | Err _ => True
      end
  end.
Proof.
  unfold serve_until_stopped. unfold wthen at 1.
  destruct (report_spec Running true (lit "failed to report Windows service running") s) as (r1 & s1 & -> & E1).
  destruct r1 as [[]|e]; [|by eexists].
  rewrite stop_sent. unfold run_until_shutdown_signal.
  set (asked := s_shutdown (state_ (serve requests s0))).
  assert (Hend : ∀ s2 (rem : remains), ∃ r s', wthen (report Stopped false (lit "failed to report Windows service stopped"))
      (λ _, wret rem) s2 = Some (r, s') ∧ reported (calls s') = reported (calls s2) ++ [Stopped] ∧
      (∀ x, r = Ok x → x = rem)).
  { intros s2 rem. unfold wthen.
    destruct (report_spec Stopped false (lit "failed to report Windows service stopped") s2) as (r2 & s3 & -> & E2).
    destruct r2; do 2 eexists; split_and!; try done. naive_solver. }
  case_bool_decide as Hstop; destruct asked as [reason|] eqn:Ea; simpl; [| | |by split]; unfold wthen at 1.
  1: destruct (first || _) eqn:Ef.
  1, 3: rewrite ?orb_true_r; destruct (report_ignored_spec StopPending s1) as (s2 & -> & E2);
    edestruct Hend as (r & s' & -> & E3 & Hr); exists [Running; StopPending; Stopped];
    (split; [by rewrite E3, E2, E1, <-!(assoc_L (++))|]); destruct r; [|done]; split; [by apply Hr|by right].
  all: simpl; edestruct Hend as (r & s' & -> & E3 & Hr); exists [Running; Stopped];
    (split; [by rewrite E3, E1, <-!(assoc_L (++))|]); destruct r; [|done]; split; [by apply Hr|by left].
Qed.

End process.

(** ** Properties *)

Section manager.
Context `{Scm}.

(** C38: uninstalling comes to an end, whatever the service manager answers and
    however slow it is, and when it succeeds the last thing the manager said is
    that there is no such service.  A service is only deleted right after the
    manager reported it as stopped or stopping. *)
Theorem uninstall_leaves_no_service fuel c scope s :
  (61 ≤ fuel)%nat → deletes_stopped (calls s) →
  ∃ r s', uninstall fuel c scope s = Some (r, s') ∧ w_disk s' = w_disk s ∧ deletes_stopped (calls s') ∧
    match r with Ok _ => says_gone (ServiceUnit.windows_service_name c) (calls s') | Err _ => True end.
Proof.
  intros Hf Hd. change (gone_or_failed (ServiceUnit.windows_service_name c) s (uninstall fuel c scope s)).
  unfold uninstall. destruct scope; [by apply gone_err|].
  change (wthen (ensure_system_scope ServiceUnit.SystemScope) ?f s) with (f tt s). cbv beta.
  rewrite call_bind. assert (Hd1 := deletes_after (Connect false) s ltac:(done) Hd).
  destruct (answer (calls s) _); [|by apply gone_err]. set (s1 := after _ s) in *.
  rewrite ask_bind. set (c1 := OpenService _ _). assert (Hd2 := deletes_after c1 s1 ltac:(done) Hd1).
  destruct (answer (calls s1) c1) as [y|e] eqn:Ec.
  2: { destruct (has_code _ e) eqn:Eh; [|by apply gone_err]. do 2 eexists. split; [done|]. split_and!; [done|done|].
       by exists (calls s1), [QUERY_STATUS; STOP; DELETE], e. }
  set (s2 := after c1 s1) in *. rewrite call_bind.
  assert (Hd3 := deletes_after QueryStatus s2 ltac:(done) Hd2).
  destruct (answer (calls s2) QueryStatus) as [st|e] eqn:Est; [|by apply gone_err].
  destruct (stopping st) eqn:Hst.
  { apply bool_decide_eq_true in Hst.
    apply (delete_and_wait_spec fuel _ s (after QueryStatus s2) (calls s2) st); try done; lia. }
  set (s3 := after QueryStatus s2) in *. unfold wthen at 1. rewrite call_bind.
  assert (Hd4 := deletes_after StopService s3 ltac:(done) Hd3).
  destruct (answer (calls s3) StopService); [|by apply gone_err].
  set (s4 := after StopService s3) in *. unfold wthen, now_.
  destruct (wait_stopped_spec fuel (clock s4) 15000 s4) as (r & s5 & -> & Hw5 & Hd5 & _ & Hr); [lia|lia|done|].
  destruct r as [[]|e]; [|by apply gone_err]. destruct Hr as (h & Hc5 & Ha5 & Hh).
  apply (delete_and_wait_spec fuel _ s s5 h Stopped); try done; [lia|by left].
Qed.

(** A registration whose description fails stays registered: installing again
    answers that the service already exists. *)
Lemma install_not_rolled_back c l user s x y e :
  ServiceUnit.persist_control_token_ l = false →
  let create := CreateService (service_info c l) [CHANGE_CONFIG; QUERY_STATUS] in
  let describe := SetDescription (lit "MutsukiCore headless service host") in
  answer (calls s) (Connect true) = Ok x → answer (calls s ++ [Connect true]) create = Ok y →
  answer ((calls s ++ [Connect true]) ++ [create]) describe = Err e →
  ∃ s', install c l ServiceUnit.SystemScope user s =
      Some (Err (WinScm (lit "failed to set Windows service description") e), s') ∧
    calls s' = calls s ++ [Connect true; create; describe].
Proof.
  intros Hp create describe Hx Hy He. unfold install. rewrite Hp.
  change (wthen (ensure_system_scope ServiceUnit.SystemScope) ?f s) with (f tt s). cbv beta.
  change (wthen (wret tt) ?f s) with (f tt s). cbv beta.
  rewrite call_bind, Hx. cbn [calls after]. rewrite ask_bind. cbn [calls after]. fold create. rewrite Hy.
  rewrite call_bind. cbn [calls after]. fold describe. rewrite He. eexists. split; [done|].
  simpl. by rewrite <-!(assoc_L (++)).
Qed.

End manager.

Section properties.
Context `{Scm} `{HostBoot} `{!TaskCore} `{!StateCodec} `{OsOk} `{!RequestCodec TaskBatch}.

(** The service process tells the manager what it does.  Its wait goes on
    only while neither a stop control nor an authorized shutdown request
    arrived.  When it ends well the service was shut down, and its states were
    reported in order, with the pending stop after a stop control; when it ends
    with an error after the Tokio runtime was there, the last state it reported
    is stopped. *)
Theorem windows_service_states x catalog b w o n slot tokio first requests events s :
  let starts c := (Lifecycle.start x catalog (b c) w o n).1.1.1 in
  match run_service slot tokio starts first requests events s with
  | None => ∃ c s0, slot = Some c ∧ starts c = Ok s0 ∧ (StopControl ∉ events) ∧
      Forall (λ r, asks_stop (f_token (s_fixed (state_ s0))) r = false) requests
  | Some (r, s') => ∃ rs, reported (calls s') = reported (calls s) ++ rs ∧
      match r with
      | Ok rem => ∃ c s0, slot = Some c ∧ starts c = Ok s0 ∧ rem = shutdown_service (serve requests s0) ∧
          (rs = [StartPending; Running; Stopped] ∧
             ¬ Forall (λ r, asks_stop (f_token (s_fixed (state_ s0))) r = false) requests ∨
           rs = [StartPending; Running; StopPending; Stopped] ∧ StopControl ∈ events)
      | Err _ => last rs = Some Stopped ∨
          rs = [] ∨ rs = [StartPending] ∧ (¬ is_ok tokio ∨ ∃ e ctx, r = Err (WinScm ctx e))
      end
  end.
Proof.
  cbv zeta. unfold run_service. destruct slot as [c|].
  2: { exists []. split; [by rewrite app_nil_r|]. tauto. }
  rewrite call_bind. set (h := RegisterHandler _).
  assert (E0 : reported (calls (after h s)) = reported (calls s)) by (simpl; by rewrite reported_snoc, app_nil_r).
  destruct (answer (calls s) h) as [x0|e0].
  2: { exists []. split; [by rewrite E0, app_nil_r|]. tauto. }
  unfold wthen at 1.
  destruct (report_spec StartPending false (lit "failed to report Windows service start pending") (after h s))
    as (r1 & s1 & Er1 & E1). rewrite Er1. rewrite E0 in E1. destruct r1 as [[]|e1].
  2: { exists [StartPending]. split; [done|]. right. right. split; [done|]. right.
       revert Er1. unfold report. rewrite call_bind. destruct (answer _ _); [done|]. intros [= <- <-]. eauto. }
  unfold wthen at 1. destruct tokio as [[]|et].
  2: { exists [StartPending]. split; [done|]. right. right. split; [done|]. left. by intros []. }
  unfold wret at 1, wthen at 1, wtry.
  destruct (Lifecycle.start x catalog (b c) w o n).1.1.1 as [s0|es] eqn:Es.
  - pose proof (serve_until_stopped_spec first requests events s0 s1) as Hs.
    destruct (serve_until_stopped first requests events s0 s1) as [[r s']|].
    2: { destruct Hs as [Hstop Ha]. exists c, s0. split_and!; try done. by apply (not_asked x catalog (b c) w o n). }
    destruct Hs as (rs & Er & Hr). destruct r as [rem|e].
    + exists (StartPending :: rs). split; [by rewrite Er, E1, <-(assoc_L (++))|]. exists c, s0.
      destruct Hr as [-> Hrs]. split_and!; try done.
      destruct Hrs as [[-> Ha]|[-> Hin]]; [left|by right]. split; [done|].
      by rewrite <-(not_asked x catalog (b c) w o n s0 requests).
    + unfold wthen. destruct (report_ignored_spec Stopped s') as (s2 & -> & E2).
      exists (StartPending :: rs ++ [Stopped]). split; [by rewrite E2, Er, E1, <-!(assoc_L (++))|].
      left. by rewrite app_comm_cons, last_snoc.
  - unfold wfail at 1. unfold wthen. destruct (report_ignored_spec Stopped s1) as (s2 & -> & E2).
    exists [StartPending; Stopped]. split; [by rewrite E2, E1, <-(assoc_L (++))|]. by left.
Qed.

End properties.

(** ** Witnesses *)

Module Sample.

(** A service that stops when it is told to and is gone once it is deleted. *)
#[export] Instance manager : Scm := {|
  answer h c :=
    match c with
    | OpenService _ _ =>
        if existsb (λ c, match c with DeleteService => true | _ => false end) h
        then Err (Winapi (Some 1060%Z) (lit "no such service")) else Ok Running
    | QueryStatus =>
        if existsb (λ c, match c with StopService => true | _ => false end) h then Ok Stopped else Ok Running
    | _ => Ok Running
    end;
  took _ := 3%N; overslept _ := 1%N;
|}.

Definition fresh : windows := mkWindows (mkWorld ∅ ∅ ∅ ∅ (λ _, None) 255 7) [] 1000.
Definition config : ServiceConfig := default_config true None.
Definition uninstalled := uninstall 61 config ServiceUnit.SystemScope fresh.

End Sample.

Import Sample.

Lemma uninstall_leaves_no_service_witness :
  ∃ r s', Sample.uninstalled = Some (r, s') ∧ is_ok r = true ∧
    match r with
    | Ok _ => says_gone (ServiceUnit.windows_service_name Sample.config) (calls s')
    | Err _ => True
    end.
Proof.
  destruct (uninstall_leaves_no_service 61 Sample.config ServiceUnit.SystemScope Sample.fresh) as (r & s' & E & _ & _ & Hr).
  - lia.
  - intros [|? ?] b Hb; discriminate Hb.
  - exists r, s'. split; [exact E|]. split; [|exact Hr].
    assert (Hok : (λ o, match o with Some (r, _) => is_ok r | None => false end) Sample.uninstalled = true)
      by (vm_compute; reflexivity).
    unfold Sample.uninstalled in Hok. rewrite E in Hok. exact Hok.
Defined.
