(* ===== verification/HostCli.v ===== *)
(** * The host executable

    [crates/mutsuki-service-host/src/main.rs]: from the parsed command line to
    what is done with the loaded configuration, one control request, one
    operation on the installed service, or the service itself in the
    foreground.  Parsing the arguments is [clap]'s.  This is where the daemon
    installer, the configuration and the control handler meet, so it is where
    their composition is stated. *)

From S2P Require Import Prelude Text BTreeMap Value Control ConfigTypes Frame Fs Transport Secrets ConfigLoad.
From S2P Require Import Plugins Supervisor Catalog Boot Deployment EventSource LogTail Serde Tasks Runtime Params.
From S2P Require ServiceUnit Daemon.

(** ** Commands *)

Inductive ScopeArg : Type := ScopeUser | ScopeSystem.

Inductive PluginCommand : Type :=
| PluginListCommand | PluginReloadCommand | PluginSet (id deployment : text) | PluginClear (id : text).
Inductive RunnerCommand : Type :=
| RunnerListCommand | RunnerRestartCommand (id : text) | RunnerStopCommand (id : text).
Inductive EventSourceCommand : Type := SourceListCommand | SourceRestartCommand (id : text).
Inductive TaskCommand : Type :=
| TaskListCommand | TaskCancelCommand (id : text) | TaskOutcomeCommand (id : text).

Inductive Command : Type :=
| Run | Status | Stop | Health
| Install (scope : option ScopeArg) (service_user : option text)
| Uninstall (scope : option ScopeArg)
| Start (scope : option ScopeArg)
| WindowsServiceRun
| Plugin (c : PluginCommand) | Runner (c : RunnerCommand)
| EventSource_ (c : EventSourceCommand) | Task (c : TaskCommand).

Record Cli : Type := mkCli {
  cli_profile : option text; cli_config : option text; cli_home : option text;
  cli_token : option text; command : Command;
}.

Definition from_scope_arg (s : ScopeArg) : ServiceUnit.DaemonScope :=
  match s with ScopeUser => ServiceUnit.UserScope | ScopeSystem => ServiceUnit.SystemScope end.

Definition daemon_scope (windows : bool) (s : option ScopeArg) : ServiceUnit.DaemonScope :=
  from_option from_scope_arg (ServiceUnit.platform_default windows) s.

Definition overrides (cli : Cli) : ConfigOverrides :=
  mkOverrides (cli_profile cli) (cli_config cli) (cli_home cli) (cli_token cli).

(** ** Parameters

    The deployment kinds that only the command line names. *)
Class DeploymentKinds `{Contracts} : Type := {
  DWasm : PluginDeploymentKind; DProcess : PluginDeploymentKind; DPython : PluginDeploymentKind;
}.

Section cli.
Context `{DeploymentKinds} {B : Type} `{!ParamContracts B}.

Definition id_value (id : text) : json := params_value (IdParam id).

Definition parse_deployment (value : text) : result PluginDeploymentKind text :=
  let v := to_ascii_lowercase value in
  if text_eqb v (lit "builtin") then Ok DBuiltin
  else if text_eqb v (lit "abi") then Ok DAbi
  else if text_eqb v (lit "wasm") then Ok DWasm
  else if text_eqb v (lit "process") then Ok DProcess
  else if text_eqb v (lit "python") then Ok DPython
  else Err (lit "unsupported plugin deployment " ++ value).

(** ** What [main] does with the configuration *)

Inductive effect : Type :=
| Foreground (c : ServiceConfig)
| WindowsService (c : ServiceConfig)
| Ask (request : ControlRequest) (client : ControlClientConfig)
| OnDaemon (m : Daemon.M unit) (printed : text)
| Refused (e : text).

(** [request_and_print] up to the client, whose [request] adds the token. *)
Definition request_and_print (c : ServiceConfig) (m : ControlMethod) (params : json) : effect :=
  let client := client_config c in Ask (mkRequest (cc_token client) m params) client.

Definition print_daemon_action (action : text) (c : ServiceConfig) : text :=
  action ++ lit " " ++ ServiceUnit.service_name c.

(** The branches of [main]; [exe] is the answer to [current_exe], [os] the
    platform the daemon crate is built for. *)
Definition perform `{Daemon.Shell} (os : Daemon.unix) (exe : result (list byte) io_error) (cli : Cli)
    (c : ServiceConfig) : effect :=
  match command cli with
  | Run => Foreground c
  | Status => request_and_print c ServiceStatus JNull
  | Stop => request_and_print c ServiceShutdown JNull
  | Health => request_and_print c HealthCheck JNull
  | Install scope user =>
      OnDaemon
        (Daemon.mthen
           (Daemon.mlift (ServiceUnit.from_config exe c (utf8 <$> cli_config cli) (bool_decide (is_Some (cli_token cli)))))
           (λ launch, Daemon.install os c launch (daemon_scope false scope) user))
        (print_daemon_action (lit "installed") c)
  | Uninstall scope =>
      OnDaemon (Daemon.uninstall os c (daemon_scope false scope)) (print_daemon_action (lit "uninstalled") c)
  | Start scope =>
      OnDaemon (Daemon.start os c (daemon_scope false scope)) (print_daemon_action (lit "started") c)
  | WindowsServiceRun => WindowsService c
  | Plugin PluginListCommand => request_and_print c PluginList JNull
  | Plugin PluginReloadCommand => request_and_print c PluginReload JNull
  | Plugin (PluginSet id deployment) =>
      match parse_deployment deployment with
      | Err e => Refused e
      | Ok k => request_and_print c PluginDeploymentSet
                  (jobj [(lit "plugin_id", JString id); (lit "deployment", kind_to_value k)])
      end
  | Plugin (PluginClear id) => request_and_print c PluginDeploymentClear (jobj [(lit "plugin_id", JString id)])
  | Runner RunnerListCommand => request_and_print c RunnerList JNull
  | Runner (RunnerRestartCommand id) => request_and_print c RunnerRestart (id_value id)
  | Runner (RunnerStopCommand id) => request_and_print c RunnerStop (id_value id)
  | EventSource_ SourceListCommand => request_and_print c EventSourceList JNull
  | EventSource_ (SourceRestartCommand id) => request_and_print c EventSourceRestart (id_value id)
  | Task TaskListCommand => request_and_print c TaskList JNull
  | Task (TaskCancelCommand id) => request_and_print c TaskCancel (id_value id)
  | Task (TaskOutcomeCommand id) => request_and_print c Control.TaskOutcome (id_value id)
  end.

(** [main]: the configuration is loaded first, whatever the command. *)
Definition main `{Toml} `{Daemon.Shell} (os_home : option text) (os : Daemon.unix)
    (exe : result (list byte) io_error) (cli : Cli) (w : world) : ConfigResult effect * world :=
  match load false os_home (overrides cli) w with
  | (Err e, w) => (Err e, w)
  | (Ok l, w) => (Ok (perform os exe cli (cfg l)), w)
  end.

End cli.

(** ** Lemmas *)

(** The control crate reads back the parameters written here. *)
Section written.
Context `{DeploymentKinds} {B : Type} `{!ParamContracts B} `{!ParamContractsOk B}.

Lemma id_written id : id_param (id_value id) = Ok id.
Proof. unfold id_value, params_value. cbn [id_param serde_requests params_entries]. unfold de_id_param. by read_struct. Qed.

Lemma deployment_written id k :
  deployment_param (jobj [(lit "plugin_id", JString id); (lit "deployment", kind_to_value k)]) = Ok (id, k).
Proof. cbn [deployment_param serde_requests]. unfold de_deployment_param. by read_struct. Qed.

Lemma clear_written id : deployment_clear_param (jobj [(lit "plugin_id", JString id)]) = Ok id.
Proof. cbn [deployment_clear_param serde_requests]. unfold de_deployment_clear_param. by read_struct. Qed.

End written.

(** The digits of a number have no slash. *)
Lemma hex_text_char d : Forall (λ c, 48 ≤ c)%N (hex_text d).
Proof. induction d; simpl; by repeat constructor. Qed.

Lemma uint_text_char d : Forall (λ c, 48 ≤ c)%N (uint_text d).
Proof. induction d; simpl; by repeat constructor. Qed.

Definition probe_name (w : world) : text :=
  lit ".mutsuki-access-probe-" ++ show_N (pid w) ++ lit "-" ++ show_hex (nanos w).

Lemma probe_name_plain w : 47%N ∉ probe_name w.
Proof.
  unfold probe_name. rewrite !not_elem_of_app. split_and!.
  - vm_compute. intros Hin. ServiceUnit.absurd_in Hin.
  - intros Hin. pose proof (uint_text_char (N.to_uint (pid w))) as Hf.
    eapply Forall_forall in Hf; [|exact Hin]. lia.
  - vm_compute. intros Hin. ServiceUnit.absurd_in Hin.
  - intros Hin. pose proof (hex_text_char (N.to_hex_uint (nanos w))) as Hf.
    eapply Forall_forall in Hf; [|exact Hin]. lia.
Qed.

(** No probe is the control token of any directory. *)
Lemma probe_not_token d c w : path_join d (probe_name w) ≠ Daemon.token_path c.
Proof.
  intros He. destruct (path_join_name d _ (probe_name_plain w)) as (x & _ & E1).
  destruct (path_join_name (run_dir (service c)) (lit "control.token")) as (y & _ & E2).
  { vm_compute. intros Hin. ServiceUnit.absurd_in Hin. }
  unfold Daemon.token_path in He. rewrite He, E2 in E1. by injection E1 as _ E1.
Qed.

(** Checking the directories leaves the token file, the faults and the
    environment as they are. *)
Definition same_for (q : text) (w w' : world) : Prop :=
  files w' !! q = files w !! q ∧ faults w' = faults w ∧ env w' = env w ∧
  nanos w' = nanos w ∧ pid w' = pid w.

Lemma verify_keeps d q w r w' :
  path_join d (probe_name w) ≠ q → verify_directory_access d w = (r, w') → same_for q w w'.
Proof.
  intros Hq. unfold verify_directory_access. destruct (read_dir w d); [|by intros [= _ <-]].
  fold (probe_name w). unfold fs_write, same_for.
  destruct (faults w (OpWrite _)) as [[e [b|]]|]; [|by intros [= _ <-]|].
  - intros [= _ <-]. simpl. by rewrite lookup_insert_ne.
  - unfold remove_file. simpl. rewrite lookup_insert_eq.
    destruct (faults w (OpRemove _)) as [[e o]|]; intros [= _ <-]; simpl;
      by rewrite ?lookup_delete_ne, lookup_insert_ne by done.
Qed.

Lemma ensure_dirs_keeps ds c w r w' :
  ensure_dirs_loop ds w = (r, w') → same_for (Daemon.token_path c) w w'.
Proof.
  revert w. induction ds as [|d ds IH]; intros w; simpl; [by intros [= _ <-]|].
  unfold create_dir_all. destruct (faults w (OpCreateDir d)) as [[e o]|]; [by intros [= _ <-]|].
  destruct (verify_directory_access d _) as [[x|e] w1] eqn:Ev; intros Hr;
    apply (verify_keeps d (Daemon.token_path c)) in Ev as (F1 & F2 & F3 & F4 & F5);
    try (exact (probe_not_token _ _ _)); simpl in *.
  - apply IH in Hr as (G1 & G2 & G3 & G4 & G5). unfold same_for.
    by rewrite G1, G2, G3, G4, G5, F1, F2, F3, F4, F5.
  - injection Hr as _ <-. by split_and!.
Qed.

(** The token that is found in the run directory. *)
Lemma token_found c w t :
  ipc_token (ipc c) = None → env_var w (lit "MUTSUKI_TEST_ALLOW_EMPTY_TOKEN") ≠ Some (lit "1") →
  faults w (OpRead (Daemon.token_path c)) = None → wf_text t → trim t ≠ [] →
  files w !! Daemon.token_path c = Some (utf8 t) →
  ensure_control_token c w = (Ok (with_ipc (set_token (trim t)) c), w).
Proof.
  intros Hn He Hf Hw Ht Hl. unfold ensure_control_token. rewrite Hn, bool_decide_false by done.
  fold (Daemon.token_path c). unfold read_to_string. rewrite Hf, Hl, from_utf8_utf8 by done. simpl.
  by destruct (trim t).
Qed.

(** A platform that installs has a place for the definition. *)
Lemma installs_somewhere `{Daemon.Shell} os c l scope user h x h' :
  Daemon.platform_install os c l scope user h = (Ok x, h') → is_Some (Daemon.definition_path os c scope).
Proof.
  destruct os as [|xml|n]; simpl; [..|done].
  - unfold Daemon.systemd.install, Daemon.mlift. unfold Daemon.mthen at 1.
    destruct (Daemon.systemd.definition_path c scope); by eauto.
  - unfold Daemon.launchd.install, Daemon.mlift. unfold Daemon.mthen at 1.
    destruct (Daemon.launchd.definition_path c scope); by eauto.
Qed.

Lemma installed_token `{Daemon.Shell} os c l scope user h x h' :
  Daemon.install os c l scope user h = (Ok x, h') → ServiceUnit.persist_control_token_ l = true →
  files (Daemon.disk h') !! Daemon.token_path c = Some (utf8 (config_token c)).
Proof.
  intros [(e & _ & [=] & _)|(user' & r1 & h1 & _ & Ht & Hr)]%Daemon.install_steps Hper.
  apply Daemon.token_step in Ht as [_ Hk]. destruct r1 as [y|e]; [|by destruct Hr].
  destruct (installs_somewhere _ _ _ _ _ _ _ _ Hr) as [p Hp].
  destruct (Daemon.definition_paths _ _ _ _ Hp) as (_ & H1 & H2).
  destruct (Daemon.platform_install_spec _ _ _ _ _ _ _ _ _ Hp Hr) as [Hw _].
  destruct (Hw (Daemon.token_path c)) as [-> _]; [congruence..|]. by apply Hk.
Qed.

(** ** Properties *)

Section properties.
Context `{TaskCore} `{!StateCodec} `{Os} `{!DeploymentKinds} `{!ParamContracts TaskBatch} `{!ParamContractsOk TaskBatch}.
Context `{Daemon.Shell}.

(** What a command asks of a service, without encodings. *)
Definition operation (c : Command) : option (svc → svc * ControlResponse) :=
  match c with
  | Status => Some service_status
  | Stop => Some service_shutdown
  | Health => Some health_check
  | Plugin PluginListCommand => Some (λ s, (s, plugin_list s))
  | Plugin PluginReloadCommand => Some plugin_reload
  | Plugin (PluginSet id d) =>
      match parse_deployment d with Ok k => Some (change_deployment id (Some k)) | Err _ => None end
  | Plugin (PluginClear id) => Some (change_deployment id None)
  | Runner RunnerListCommand => Some runner_list
  | Runner (RunnerRestartCommand id) => Some (runner_restart id)
  | Runner (RunnerStopCommand id) => Some (runner_stop id)
  | EventSource_ SourceListCommand => Some (λ s, (s, event_source_list s))
  | EventSource_ (SourceRestartCommand id) => Some (event_source_restart id)
  | Task TaskListCommand => Some (λ s, (s, task_list (i_host (s_inner s))))
  | Task (TaskCancelCommand id) => Some (λ s, on_host (task_cancel id (i_host (s_inner s))) s)
  | Task (TaskOutcomeCommand id) => Some (λ s, (s, task_outcome id (i_host (s_inner s))))
  | _ => None
  end.

(** The commands that inspect. *)
Definition inspects (c : Command) : bool :=
  match c with
  | Status | Health | Plugin PluginListCommand | Runner RunnerListCommand
  | EventSource_ SourceListCommand | Task TaskListCommand | Task (TaskOutcomeCommand _) => true
  | _ => false
  end.

(** C15: what is typed is what the service does.  A command that names an
    operation becomes one request, and a service that loaded the same token
    answers it with exactly that operation on the named plugin, runner, source
    or task; one with another token refuses it and does nothing.  A command
    that inspects changes nothing but the recorded states of the runners, and
    every other command sends no request at all. *)
Theorem command_is_performed os exe cli (c : ServiceConfig) :
  match operation (command cli) with
  | Some op =>
      ∃ request, perform os exe cli c = Ask request (client_config c) ∧
      ∀ s, if text_eqb (config_token c) (f_token (s_fixed s))
           then handle request s = op s ∧ (inspects (command cli) = true → only_refreshed s (op s).1)
           else handle request s = (s, response_err Unauthorized)
  | None => ∀ request client, perform os exe cli c ≠ Ask request client
  end.
Proof.
  assert (Hask : ∀ m params op, (∀ s, dispatch m params s = op s) → (inspects (command cli) = true → is_mutating m = false) →
    ∃ request, request_and_print c m params = Ask request (client_config c) ∧
    ∀ s, if text_eqb (config_token c) (f_token (s_fixed s))
         then handle request s = op s ∧ (inspects (command cli) = true → only_refreshed s (op s).1)
         else handle request s = (s, response_err Unauthorized)).
  { intros m params op Hop Hread. exists (mkRequest (config_token c) m params). split; [done|]. intros s.
    unfold handle, RuntimeControl, handle_request. simpl.
    destruct (text_eqb _ _); simpl; [|done]. rewrite Hop. split; [done|].
    intros Hi. rewrite <-Hop. apply dispatch_read_only. auto. }
  unfold perform. destruct (command cli) as [| | | | | | | |p|r|e|t]; try destruct p; try destruct r; try destruct e;
    try destruct t; simpl; try done.
  all: try (apply Hask; [intros s; cbn [dispatch]; by rewrite ?id_written, ?clear_written|done]).
  destruct (parse_deployment deployment) as [k|e]; simpl; [|done].
  apply Hask; [intros s; cbn [dispatch]; by rewrite deployment_written|done].
Qed.

End properties.

Section tokens.
Context `{Toml} `{Daemon.Shell}.

(** C26: the token an installation persists is the one the installed service
    uses.  When the service that was installed with its token loads its
    configuration, and nothing else names a token, its token is the persisted
    one without surrounding blanks; an override, the environment or a file
    still has precedence; and the token file stays as it was written. *)
Theorem token_handed_over os c l scope user (h h' : Daemon.host) x os_home o s w' :
  Daemon.install os c l scope user h = (Ok x, h') → ServiceUnit.persist_control_token_ l = true →
  load false os_home o (Daemon.disk h') = (Ok s, w') →
  run_dir (service (cfg s)) = run_dir (service c) →
  wf_text (config_token c) → trim (config_token c) ≠ [] →
  faults (Daemon.disk h') (OpRead (Daemon.token_path c)) = None →
  env_var (Daemon.disk h') (lit "MUTSUKI_TEST_ALLOW_EMPTY_TOKEN") ≠ Some (lit "1") →
  files w' !! Daemon.token_path c = Some (utf8 (config_token c)) ∧
  ∃ c0, assemble o (start_config false os_home o (Daemon.disk h')) (Daemon.disk h') = Ok c0 ∧
    config_token (cfg s) =
      default (trim (config_token c))
        (first_some [control_token o; env_var (Daemon.disk h') (control_token_env (security c0)); ipc_token (ipc c0)]).
Proof.
  intros Hi Hper Hl Hrun Hwf Htrim Hf Henv.
  destruct (load_ok _ _ _ _ _ _ Hl) as (c0 & store & sf & c' & w1 & Ha & _ & Hc' & Ht & _ & _ & Hd).
  destruct (override_sections o (Daemon.disk h') c0) as (_ & _ & _ & _ & _ & _ & _ & Etok).
  assert (Hrun' : Daemon.token_path c' = Daemon.token_path c).
  { apply ensure_token_spec in Ht as (_ & Esv & _). unfold Daemon.token_path. by rewrite <-Hrun, Esv. }
  apply (ensure_dirs_keeps _ c) in Hd as (G1 & G2 & G3 & _).
  assert (Hk : files w1 !! Daemon.token_path c = Some (utf8 (config_token c))).
  { rewrite G1. by apply (installed_token _ _ _ _ _ _ _ _ Hi). }
  assert (Etok' : ipc_token (ipc c') =
    first_some [control_token o; env_var (Daemon.disk h') (control_token_env (security c0)); ipc_token (ipc c0)])
    by (by rewrite Hc').
  destruct (ipc_token (ipc c')) as [t|] eqn:Et.
  - unfold ensure_control_token in Ht. rewrite Et in Ht. injection Ht as Hs <-.
    split; [done|]. exists c0. split; [done|]. rewrite <-Etok', <-Hs. unfold config_token. by rewrite Et.
  - rewrite (token_found c' w1 (config_token c)) in Ht; rewrite ?Hrun', ?G2; try done.
    + injection Ht as Hs <-. split; [done|]. exists c0. split; [done|]. by rewrite <-Etok', <-Hs.
    + unfold env_var. rewrite G3. exact Henv.
Qed.

End tokens.

(** ** Witnesses *)

Module Sample.
Import Plugins.Sample Boot.Sample Supervisor.Sample Deployment.Sample Tasks.Sample Daemon.Sample.

#[export] Instance cli_kinds : DeploymentKinds := {| DWasm := KProcess; DProcess := KProcess; DPython := KProcess |}.

#[export] Instance cli_params : ParamContracts TaskBatch := {|
  de_kind := @de_kind _ _ Params.Sample.sample_params; kind_to_value k := JString (deployment_debug k);
  de_batch := de_seq de_string; batch_to_value := to_array JString;
  de_error_text _ := lit "invalid"; version_of _ := lit "1";
|}.

#[export] Instance cli_params_ok : ParamContractsOk TaskBatch.
Proof. split; [by intros []|]. intros b. by apply de_seq_strings. Qed.

(** An installation with a token that ends in a blank, and the service that it
    starts afterwards. *)
Definition config : ServiceConfig := with_ipc (set_token (lit "t1 ")) Daemon.Sample.config.
Definition installed : ServiceUnit.DaemonResult unit * Daemon.host :=
  Daemon.install Daemon.Linux config Daemon.Sample.launch ServiceUnit.SystemScope Daemon.Sample.user Daemon.Sample.fresh.
Definition serve_cli : Cli := mkCli None None (Some (lit "/opt/mutsuki")) None Run.
Definition served : ConfigResult loaded * world :=
  load false None (overrides serve_cli) (Daemon.disk installed.2).

End Sample.

Section witnesses.
Import Plugins.Sample Boot.Sample Supervisor.Sample Deployment.Sample Tasks.Sample Daemon.Sample.
Import HostCli.Sample.

Lemma command_is_performed_witness :
  ∃ request,
    perform Daemon.Linux (Err no_such_file)
      (mkCli None None None None (Plugin (PluginSet (lit "echo") (lit "ABI")))) Daemon.Sample.config =
      Ask request (client_config Daemon.Sample.config) ∧
    ∀ s : svc, f_token (s_fixed s) = config_token Daemon.Sample.config →
      handle request s = change_deployment (lit "echo") (Some DAbi) s.
Proof.
  destruct (command_is_performed Daemon.Linux (Err no_such_file)
    (mkCli None None None None (Plugin (PluginSet (lit "echo") (lit "ABI")))) Daemon.Sample.config)
    as (request & Hp & Hs).
  exists request. split; [exact Hp|]. intros s Ht. specialize (Hs s). rewrite Ht in Hs.
  exact (proj1 Hs).
Defined.

Lemma with_first {A B} (p : A * B) a : p.1 = a → p = (a, p.2).
Proof. by destruct p; simpl; intros ->. Qed.

Lemma rmap_of {A B E} (f : A → B) (r : result A E) a b : rmap f r = Ok b → r = Ok a → f a = b.
Proof. intros Hf ->. by injection Hf. Qed.

Lemma token_handed_over_witness :
  ∃ s w', served = (Ok s, w') ∧ config_token (cfg s) = lit "t1" ∧
    files w' !! Daemon.token_path config = Some (utf8 (lit "t1 ")).
Proof.
  unfold served. set (served := load false None (overrides serve_cli) (Daemon.disk installed.2)).
  destruct installed.1 as [x|e] eqn:Ei; [|by vm_compute in Ei].
  destruct served.1 as [s|e] eqn:Es; [|by vm_compute in Es].
  exists s, served.2. split; [exact (with_first _ _ Es)|].
  pose (w := Daemon.disk installed.2).
  assert (Hrun : rmap (λ s, run_dir (ConfigTypes.service (cfg s))) served.1 = Ok (lit "/opt/mutsuki/run")) by (by vm_compute).
  destruct (token_handed_over Daemon.Linux config Daemon.Sample.launch ServiceUnit.SystemScope Daemon.Sample.user
    Daemon.Sample.fresh installed.2 x None (overrides serve_cli) s served.2) as (Hf & c0 & Ha & Ht).
  - exact (with_first _ _ Ei).
  - reflexivity.
  - exact (with_first _ _ Es).
  - exact (rmap_of _ _ _ _ Hrun Es).
  - repeat constructor.
  - by vm_compute.
  - by vm_compute.
  - by vm_compute.
  - split; [|exact Hf]. rewrite Ht.
    assert (Hc : rmap (λ c0, default (trim (config_token config))
        (first_some [control_token (overrides serve_cli); env_var w (control_token_env (security c0)); ipc_token (ipc c0)]))
        (assemble (overrides serve_cli) (start_config false None (overrides serve_cli) w) w) = Ok (lit "t1"))
      by (by vm_compute).
    exact (rmap_of _ _ _ _ Hc Ha).
Defined.

End witnesses.
